(* ===== verification/_CoqProject ===== *)
-Q . S2P
Prelude.v
Base64.v
Validation.v
CoolDown.v
ConnectionPolicy.v
RelayLog.v
Delivery.v
NodeRooms.v
WorkerMailbox.v
Storage.v
RetainedState.v
RetainedStores.v
Wake.v
Presence.v
SocketDelivery.v
Pairing.v
Endpoints.v
Activities.v
ActivityEndpoint.v
Apns.v
ApnsTransport.v
PushDevices.v
Admission.v
NodeSocket.v
TaskJobs.v
TaskStore.v
TaskWorker.v
Migration.v
RoomTable.v
Configurations.v
Writers.v
TaskHttp.v
TaskOffers.v
WorkerJobs.v
RoomAlarm.v
RoomSocket.v
NodeUpgrade.v
Routing.v
Quota.v
Leases.v
NodeHttp.v
NodeService.v
RoomHttp.v
Capacity.v
Server.v
