(* ===== verification/Prelude.v ===== *)
(** * A verification library for the GrantTap relay

    The relay carries sealed frames between a user's phone and a machine.  It never
    decrypts them: what it decides is who may send, what is kept, for how long, where
    it goes and what wakes the receiver.  The same protocol runs as a Node service
    over SQLite ([src/src/node/]) and as a Cloudflare Worker over Durable Objects
    ([src/src/worker.js], [src/src/relay/]); most policy is shared.  This library
    models both deployments and proves what they promise, where it can against one
    interface that both implement.

    ** Conventions

    - A JavaScript string is a list of 16-bit code units ([jstr]); a value is [jsv],
      with [undefined] as a value of its own and objects as member lists in order.
      An integer is a [Z]; the relay's integers stay in the safe range, which the
      validations test ([is_safe_int]).  Bytes are [N].
    - A [Map], a [Set], a SQLite table and an object's storage are association lists in
      their order of iteration ([map_get], [map_set], [map_push], [map_delete]), the
      rooms of the Node store a [gmap].
    - Fallible code returns [res] ([Throw] is an exception) or an option; state is
      passed explicitly.  What the platform decides (SHA-256, HMAC, signatures, URL
      and address parsing, [JSON.parse], the provider's answer, whether [send] throws,
      [bufferedAmount], the service that grants leases) is an argument.
    - The clock is an argument and is read once per request, frame or turn.
      Asynchronous code that waits for the network is split into the steps between
      its awaits, and other steps run in between ([Wake.run], [activity_step],
      [relay_reach] with its replays, the wakes of [PushDevices]); the storage operations of a Durable
      Object are not separated from their turn, as its input gates guarantee.
    - A record written as JSON reads back as it was; a database or a storage does not
      fail other than by refusing a value that it cannot bind.

    ** Files

    Values and policy.  [Prelude] holds strings, values, ordered maps and the tactics;
    [Base64] the platform's base64 and the canonical encodings that
    [relayValidation.js] accepts; [Validation] that file's tests of rooms, credentials
    and envelopes and [recipientRouting.js]; [CoolDown] the registry of [coolDown.js];
    [ConnectionPolicy] the closes, frame windows and retention of [connectionPolicy.js],
    [submissionReceipts.js]; [RelayLog] the logger of [relayLog.js].

    Mailboxes.  [Delivery] is the contract of a durable mailbox ([MailboxStore],
    [MailboxLaws]); [NodeRooms] ([node/store.js]: the table of rooms with their
    credentials, push tokens and two queues) and [WorkerMailbox] ([relay/room.js]:
    queue, acknowledge, flushTo) discharge it.

    Stores.  [Storage] is the storage of a Durable Object with the paged listing of
    [worker-records.js]; [RetainedState] the policy of [retainedState/policy.js] and
    [RetainedStores] its two stores; [Pairing], [Endpoints], [Activities] the small
    stores of [pairingMailbox.js], [endpointDirectory.js] with [endpointRetention.js],
    and [taskActivities/registry/], each with the Node table beside it and, where the
    handlers are shared, an interface in between ([PairingStore], [ActivityRegistry]).

    Connections.  [SocketDelivery] is [node/socketDelivery], [responseAcknowledgements],
    [ingressFlow], [node/heartbeat.js] and [socketReplay.js]; [Presence] is
    [roomPresence]; [Admission] is [managed-admission.js], [client-access.js] and
    [upgrade-gate.js].  [NodeSocket] composes them into [handleSocketMessage] of
    [node/socket-messages.js]; [NodeUpgrade] adds the upgrade, close, error and expiry
    events of [node/server.js] and the replays that go on between them; [RoomSocket] is
    the same for the room object ([relay/room.js], [roomSockets.js]); [Routing] is the
    bodies and routes of HTTP; [Quota] the client of the quota service
    ([hostwatch-client.mjs]), whose decisions are arguments of [NodeUpgrade], and [Leases]
    its exchanges, its shutdown and the lease of a connection ([trackClientConnection]).

    Notifications.  [Wake] is [wakeDelivery.js]; [Apns] is [apnsWake.js] and the
    activity payload; [ApnsTransport] the provider's configuration, token and HTTP/2
    request ([pushDelivery/configuration.js], [http2.js]); [PushDevices] the
    registrations and their wakes; [ActivityEndpoint] the delivery of activity updates.

    Scheduled jobs.  [TaskJobs] is the state machine of [taskDispatch/policy.js],
    [TaskStore] its SQLite store with the migration of [Migration] ([node-schema.js]),
    [TaskWorker] its chunked Durable Object store, which [WorkerJobs] bounds;
    [RoomTable] the interface of small tables, [Configurations] and [Writers] its
    clients; [TaskHttp] the HTTP interface; [TaskOffers] the offers to machines;
    [RoomAlarm] the one alarm that a room object shares among all of this.

    Processes.  These files compose the others into what runs.  [NodeHttp] is the state
    of the Node process ([node]) and its HTTP service ([node/server.js]: [routeHttp] and
    the entry of [createServer]), [NodeService] the theorems about it; [Server] the
    events of the process: sockets, heartbeat, pumps, timers, shutdown ([process_step]);
    [Capacity] what it measures ([node/capacity/]).  [RoomHttp] is a room object as a
    whole, with [fetch] of [relay/room.js] beside its frames and alarms.

    ** What is shown

    - Nothing is lost or leaked: a stored submission survives until it is acknowledged
      or expires, on both stores; a frame reaches only open sockets of its room that it
      addresses, after a reliable one was stored; receipts are true; a job is offered
      only to its machine; a delegated writer touches only its own jobs.
    - Everything is bounded: rooms, queues, jobs, configurations, retained state,
      endpoint records, devices, buffered bytes, cool-downs, notification sizes; the
      bounds hold on every reachable state, whatever interleaves.
    - The hard protocols are right: claims of a job are exclusive, pairing mailboxes
      open once, activity updates are spaced, and wakes are until a purge deletes their
      record; one alarm covers every deadline, tickets are authentic.
    - The compositions keep this: no event of the Node process and no turn of a room
      object breaks a component's invariant, a request changes only its own room, a
      stranger changes nothing, silent connections end, shutdown closes all of them, a
      connection that closes gives back its leases unless the release is refused or a
      renewal is still under way, and a request that changes what a room object waits
      for sets its alarm.
    - The deployments agree: both stores refine the shared policies and state
      machines, and routes, registrations, directories and mailboxes answer alike.
    - Errors: which exceptions can leave the frame handler, and what a refused request
      may have changed.

    ** Bounds and fuel

    A listing of a Durable Object is read in pages of 1,000 keys and throws beyond
    10,100 records, so the 12 pages of fuel of [listTaskJobRecords] are enough
    ([listTaskJobRecords_spec]); a ciphertext has at most 350 chunks, a test of the
    code's own; other recursions are structural on counts that the records hold.
    The retention loop takes one step per queued row and one more ([retain_loop],
    [retainSubmission_spec] shows that it always returns); number texts use one step
    per digit.

    ** Not modelled

    Opening the database and creating its tables, the timers' clocks and the signals,
    the bytes of HTTP, HTTP/2 and WebSocket, ECDSA and HMAC, and log output, which are
    input and output of the process.  The body of a request is at hand when it is routed
    and the [content-length] of an answer is left out.  The pushes of an activity update
    run as events of their own, after the request that caused them.  Of SQLite the
    column affinities and indexes, and how it reads rows that predate the queue format
    ([Capacity.item_of]), are left out or an argument.  The pumps go through the sockets
    in the order of their upgrades, where the code goes room by room. *)

From stdpp Require Export base tactics list gmap numbers option strings.
From Stdlib Require Export ZArith Lia ZifyBool ZifyN.
From Stdlib Require Import Permutation Sorted.

#[export] Set Default Goal Selector "!".
#[export] Set Warnings "-register-all,-clear-no-such-hyp,-level-tolerance".

(** ** JavaScript strings: sequences of 16-bit code units *)

Inductive jstr := JS (units : list N).

Declare Scope js_scope.
Delimit Scope js_scope with js.
Bind Scope js_scope with jstr.

Definition jstr_of_bytes (l : list Byte.byte) : jstr := JS (map Byte.to_N l).
Definition jstr_to_bytes (s : jstr) : option (list Byte.byte) :=
  match s with JS l => mapM Byte.of_N l end.
String Notation jstr jstr_of_bytes jstr_to_bytes : js_scope.

#[export] Instance jstr_eq_dec : EqDecision jstr.
Proof. solve_decision. Defined.

Definition units (s : jstr) : list N := match s with JS l => l end.

#[export] Instance jstr_countable : Countable jstr.
Proof. refine (inj_countable' units JS _). by intros []. Defined.

#[export] Instance jstr_inhabited : Inhabited jstr := populate (JS []).

(** [a === b] on strings. *)
Definition jeqb (a b : jstr) : bool := bool_decide (a = b).

(** [s.length] *)
Definition slen (s : jstr) : Z := Z.of_nat (length (units s)).

(** [a + b] *)
Definition sapp (a b : jstr) : jstr := JS (units a ++ units b).

(** [s.startsWith(prefix)] *)
Definition starts_with (prefix s : jstr) : bool :=
  bool_decide (take (length (units prefix)) (units s) = units prefix).

(** [s.slice(from, to)] for [0 <= from] and [0 <= to]. *)
Definition sslice (from to : nat) (s : jstr) : jstr :=
  JS (take (to - from) (drop from (units s))).

Infix "=?s" := jeqb (at level 70, no associativity) : js_scope.
Infix "+++" := sapp (at level 60, right associativity) : js_scope.
#[export] Set Printing Coercions.
Open Scope bool_scope.
Open Scope Z_scope.
Open Scope js_scope.

(** The number of bytes of the UTF-8 encoding of a string
    ([new TextEncoder().encode(s).length], [Buffer.byteLength(s)]): a surrogate
    pair takes four bytes, an unpaired surrogate becomes U+FFFD (three bytes). *)
Fixpoint utf8_units (s : list N) : Z :=
  match s with
  | [] => 0
  | u :: rest =>
      if (u <? 128)%N then 1 + utf8_units rest
      else if (u <? 2048)%N then 2 + utf8_units rest
      else if (55296 <=? u)%N && (u <? 56320)%N then
        match rest with
        | v :: rest' =>
            if (56320 <=? v)%N && (v <? 57344)%N then 4 + utf8_units rest'
            else 3 + utf8_units rest
        | [] => 3
        end
      else 3 + utf8_units rest
  end.

Definition byte_length (s : jstr) : Z := utf8_units (units s).

Lemma utf8_units_nonneg_ind (n : nat) s : (length s <= n)%nat -> 0 <= utf8_units s.
Proof.
  revert s. induction n as [|n IH]; intros [|u s] Hl; simpl in *; try lia.
  assert (0 <= utf8_units s) by (apply IH; lia).
  destruct (_ <? _)%N; [lia|]. destruct (_ <? _)%N; [lia|]. destruct (_ && _); [|lia].
  destruct s as [|v s]; [lia|]. assert (0 <= utf8_units s) by (apply IH; simpl in *; lia).
  destruct (_ && _); lia.
Qed.

Lemma byte_length_nonneg s : 0 <= byte_length s.
Proof. by eapply utf8_units_nonneg_ind. Qed.

(** ** Character classes and anchored regular expressions
    The patterns of the relay have the form [/^[class]{lo,hi}$/]; none has the
    [m] flag, so [$] only matches at the end of the input. *)

Definition in_range (lo hi u : N) : bool := (lo <=? u)%N && (u <=? hi)%N.
Definition cls_hex (u : N) : bool := in_range 48 57 u || in_range 97 102 u.
Definition cls_hex_any (u : N) : bool := cls_hex u || in_range 65 70 u.
Definition cls_lower (u : N) : bool := in_range 97 122 u.
Definition cls_alnum (u : N) : bool :=
  in_range 48 57 u || in_range 65 90 u || in_range 97 122 u.
(** [[A-Za-z0-9_-]] *)
Definition cls_word (u : N) : bool := cls_alnum u || (u =? 95)%N || (u =? 45)%N.
(** [[A-Za-z0-9+/]] *)
Definition cls_base64 (u : N) : bool := cls_alnum u || (u =? 43)%N || (u =? 47)%N.

(** [/^[class]{lo,hi}$/.test(s)] *)
Definition re_class (cls : N -> bool) (lo hi : Z) (s : jstr) : bool :=
  forallb cls (units s) && (lo <=? slen s) && (slen s <=? hi).

(** [/^[a-f0-9]{64}$/] *)
Definition hex64 (s : jstr) : bool := re_class cls_hex 64 64 s.

(** [/^[a-zA-Z0-9][a-zA-Z0-9_-]{7,119}$/] *)
Definition re_job_id (s : jstr) : bool :=
  match units s with
  | c :: rest => cls_alnum c && re_class cls_word 7 119 (JS rest)
  | [] => false
  end.

(** [s.toLowerCase()] as far as the ASCII letters; a string that is then tested to be
    hexadecimal has no other letter (no other character has a hexadecimal lower case). *)
Definition lower (s : jstr) : jstr := JS (map (fun u => if in_range 65 90 u then (u + 32)%N else u) (units s)).

(** ** JavaScript values *)

(** A double. [NInt] is an integer of the safe range; [NDbl] any other finite
    double, given by its floor and by the text of [Number::toString], which
    determines it; [NInf] the infinities ([JSON.parse("1e999")]). *)
Inductive jsnum :=
| NInt (z : Z)
| NDbl (floor : Z) (text : jstr)
| NInf (negative : bool).

(** The largest safe integer, [Number.MAX_SAFE_INTEGER]. *)
Definition max_safe : Z := 9007199254740991.

Definition num_is_safe (n : jsnum) : bool :=
  match n with NInt z => Z.abs z <=? max_safe | _ => false end.

(** [n > k] for an integer [k] of the safe range. *)
Definition num_gt (n : jsnum) (k : Z) : bool :=
  match n with
  | NInt z => k <? z
  | NDbl fl _ => k <=? fl
  | NInf neg => negb neg
  end.

(** A value that [JSON.parse] can return, or [undefined]. *)
Inductive jsv :=
| JUndef
| JNull
| JBool (b : bool)
| JNum (n : jsnum)
| JStr (s : jstr)
| JArr (l : list jsv)
| JObj (fields : list (jstr * jsv)).

#[export] Instance jsnum_eq_dec : EqDecision jsnum.
Proof. solve_decision. Defined.

#[export] Instance jsv_eq_dec : EqDecision jsv.
Proof.
  refine (fix go (a b : jsv) {struct a} : Decision (a = b) :=
    match a, b with
    | JUndef, JUndef => left eq_refl
    | JNull, JNull => left eq_refl
    | JBool x, JBool y => cast_if (decide (x = y))
    | JNum x, JNum y => cast_if (decide (x = y))
    | JStr x, JStr y => cast_if (decide (x = y))
    | JArr l, JArr l' => cast_if (@list_eq_dec _ go l l')
    | JObj l, JObj l' => cast_if (@list_eq_dec _ (@prod_eq_dec _ _ _ go) l l')
    | _, _ => right _
    end); congruence.
Defined.

(** ** Exceptions: a thrown [TypeError] is a value of the result type *)

Inductive res (A : Type) :=
| Ok (a : A)
| Throw.
Arguments Ok {A} a.
Arguments Throw {A}.

Definition res_bind {A B} (x : res A) (f : A -> res B) : res B :=
  match x with Ok a => f a | Throw => Throw end.

Notation "'let*' x ':=' c1 'in' c2" := (res_bind c1 (fun x => c2))
  (at level 10, x pattern, c1 at level 100, c2 at level 200) : js_scope.

(** [if (b) return r; k] when evaluating [b] may throw. *)
Definition guard_res {A} (b : res bool) (r : A) (k : res A) : res A :=
  match b with Ok true => Ok r | Ok false => k | Throw => Throw end.

(** Short-circuit conjunction of tests that may throw. *)
Definition res_and (a b : res bool) : res bool :=
  match a with Ok true => b | Ok false => Ok false | Throw => Throw end.

(** ** Property access and coercions *)

Fixpoint assoc (k : jstr) (l : list (jstr * jsv)) : option jsv :=
  match l with
  | [] => None
  | (k', v) :: rest => if k =?s k' then Some v else assoc k rest
  end.

(** [v.k] on an object, [v?.k] on anything. *)
Definition get (k : jstr) (v : jsv) : jsv :=
  match v with JObj fs => default JUndef (assoc k fs) | _ => JUndef end.

(** [Object.keys(v)] of an object. *)
Definition keys (v : jsv) : list jstr :=
  match v with JObj fs => fs.*1 | _ => [] end.

Definition is_nullish (v : jsv) : bool :=
  match v with JUndef | JNull => true | _ => false end.

(** [v.k] when [v] may be [null] or [undefined]. *)
Definition get_strict (k : jstr) (v : jsv) : res jsv :=
  if is_nullish v then Throw else Ok (get k v).

(** ToBoolean. *)
Definition truthy (v : jsv) : bool :=
  match v with
  | JUndef | JNull => false
  | JBool b => b
  | JNum (NInt z) => negb (z =? 0)
  | JNum _ => true
  | JStr s => negb (s =?s "")
  | JArr _ | JObj _ => true
  end.

(** [typeof v === "string"] *)
Definition is_string (v : jsv) : bool := match v with JStr _ => true | _ => false end.

(** [v === s] for a string [s]. *)
Definition is_str (v : jsv) (s : jstr) : bool :=
  match v with JStr s' => s' =?s s | _ => false end.

(** [v === k] for an integer [k]. *)
Definition is_int (v : jsv) (k : Z) : bool :=
  match v with JNum (NInt z) => z =? k | _ => false end.

(** [list.includes(v)] for a list of strings. *)
Definition str_in (v : jsv) (l : list jstr) : bool := existsb (is_str v) l.

(** [a === b]: two parsed objects are never the same reference. *)
Definition strict_eq (a b : jsv) : bool :=
  match a, b with
  | JUndef, JUndef | JNull, JNull => true
  | JBool x, JBool y => eqb x y
  | JNum (NInt x), JNum (NInt y) => x =? y
  | JNum (NDbl _ x), JNum (NDbl _ y) => x =?s y
  | JNum (NInf x), JNum (NInf y) => eqb x y
  | JStr x, JStr y => x =?s y
  | _, _ => false
  end.

(** [Number.isSafeInteger(v)] *)
Definition is_safe_int (v : jsv) : bool :=
  match v with JNum n => num_is_safe n | _ => false end.

(** The number a safe integer denotes, the string a string denotes. *)
Definition int_of (v : jsv) : Z := match v with JNum (NInt z) => z | _ => 0 end.
Definition int_opt (v : jsv) : option Z :=
  match v with JNum (NInt z) => Some z | _ => None end.
Definition str_of (v : jsv) : jstr := match v with JStr s => s | _ => "" end.
Definition str_opt (v : jsv) : option jstr :=
  match v with JStr s => Some s | _ => None end.

(** Decimal digits of a natural number, most significant first. *)
Fixpoint digits_fuel (fuel : nat) (n : N) (acc : list N) : list N :=
  match fuel with
  | O => acc
  | S fuel' =>
      let acc' := (48 + n mod 10)%N :: acc in
      if (n <? 10)%N then acc' else digits_fuel fuel' (n / 10) acc'
  end.
Definition N_text (n : N) : jstr := JS (digits_fuel (S (N.to_nat (N.log2 n))) n []).
Definition Z_text (z : Z) : jstr :=
  if z <? 0 then "-" +++ N_text (Z.to_N (- z)) else N_text (Z.to_N z).

Definition num_text (n : jsnum) : jstr :=
  match n with
  | NInt z => Z_text z
  | NDbl _ t => t
  | NInf false => "Infinity"
  | NInf true => "-Infinity"
  end.

(** ToString. An object whose own ["toString"] hides the inherited method has
    no callable conversion (JSON holds no functions): a [TypeError]. *)
Fixpoint to_string (v : jsv) : res jstr :=
  match v with
  | JUndef => Ok "undefined"
  | JNull => Ok "null"
  | JBool true => Ok "true"
  | JBool false => Ok "false"
  | JNum n => Ok (num_text n)
  | JStr s => Ok s
  | JArr l =>
      (fix join (l : list jsv) : res jstr :=
         match l with
         | [] => Ok ""
         | x :: rest =>
             let* t := (if is_nullish x then Ok "" else to_string x) in
             match rest with
             | [] => Ok t
             | _ => let* u := join rest in Ok (t +++ "," +++ u)
             end
         end) l
  | JObj fs => match assoc "toString" fs with Some _ => Throw | None => Ok "[object Object]" end
  end.

(** [re.test(v)] and [re.test(v ?? '')]: the argument is converted first. *)
Definition test (re : jstr -> bool) (v : jsv) : res bool :=
  let* s := to_string v in Ok (re s).
Definition test_or_empty (re : jstr -> bool) (v : jsv) : res bool :=
  test re (if is_nullish v then JStr "" else v).

(** ** [JSON.stringify] on values of [JSON.parse] *)

Definition hex_digit (n : N) : N := if (n <? 10)%N then (48 + n)%N else (87 + n)%N.
Definition unicode_escape (u : N) : list N :=
  [92; 117; hex_digit (u / 4096 mod 16); hex_digit (u / 256 mod 16);
   hex_digit (u / 16 mod 16); hex_digit (u mod 16)]%N.
Definition quote_unit (u : N) : list N :=
  (if u =? 34 then [92; 34] else if u =? 92 then [92; 92]
   else if u =? 8 then [92; 98] else if u =? 12 then [92; 102]
   else if u =? 10 then [92; 110] else if u =? 13 then [92; 114]
   else if u =? 9 then [92; 116]
   else if u <? 32 then unicode_escape u else [u])%N.

(** Unpaired surrogates are escaped; a pair is copied. *)
Fixpoint quote_units (s : list N) : list N :=
  match s with
  | [] => []
  | u :: rest =>
      if (55296 <=? u)%N && (u <? 56320)%N then
        match rest with
        | v :: rest' =>
            if (56320 <=? v)%N && (v <? 57344)%N then u :: v :: quote_units rest'
            else unicode_escape u ++ quote_units rest
        | [] => unicode_escape u
        end
      else if (56320 <=? u)%N && (u <? 57344)%N then unicode_escape u ++ quote_units rest
      else quote_unit u ++ quote_units rest
  end.
Definition quote (s : jstr) : jstr := JS ([34%N] ++ quote_units (units s) ++ [34%N]).

Definition join_commas (l : list jstr) : jstr :=
  match l with
  | [] => ""
  | x :: rest => fold_left (fun acc s => acc +++ "," +++ s) rest x
  end.

Fixpoint json_text (v : jsv) : jstr :=
  match v with
  | JUndef | JNull => "null"
  | JBool true => "true"
  | JBool false => "false"
  | JNum (NInf _) => "null"
  | JNum n => num_text n
  | JStr s => quote s
  | JArr l => "[" +++ join_commas (map json_text l) +++ "]"
  | JObj fs =>
      "{" +++ join_commas
        ((fix members (fs : list (jstr * jsv)) : list jstr :=
            match fs with
            | [] => []
            | (_, JUndef) :: rest => members rest
            | (k, x) :: rest => (quote k +++ ":" +++ json_text x) :: members rest
            end) fs) +++ "}"
  end.

(** [new TextEncoder().encode(JSON.stringify(v)).length] *)
Definition json_bytes (v : jsv) : Z := byte_length (json_text v).

Create HintDb relay.

(** ** Shared tactics *)

(** Split a conjunction of boolean tests in a hypothesis. *)
Ltac split_andb :=
  repeat match goal with
  | H : _ && _ = true |- _ => apply andb_true_iff in H; destruct H
  | H : _ || _ = false |- _ => apply orb_false_iff in H; destruct H
  | H : negb _ = true |- _ => apply negb_true_iff in H
  | H : negb _ = false |- _ => apply negb_false_iff in H
  end.

(** Turn boolean comparisons into propositions. *)
Ltac reflect_bools :=
  repeat match goal with
  | H : (_ <=? _)%Z = true |- _ => apply Z.leb_le in H
  | H : (_ <=? _)%Z = false |- _ => apply Z.leb_gt in H
  | H : (_ <? _)%Z = true |- _ => apply Z.ltb_lt in H
  | H : (_ <? _)%Z = false |- _ => apply Z.ltb_ge in H
  | H : (_ =? _)%Z = true |- _ => apply Z.eqb_eq in H
  | H : (_ =? _)%Z = false |- _ => apply Z.eqb_neq in H
  | H : jeqb _ _ = true |- _ => unfold jeqb in H
  | H : jeqb _ _ = false |- _ => unfold jeqb in H
  | H : bool_decide _ = true |- _ => apply bool_decide_eq_true in H
  | H : bool_decide _ = false |- _ => apply bool_decide_eq_false in H
  end.

(** Case analysis on every test of the goal, then arithmetic. *)
Ltac case_tests :=
  repeat (case_match; split_andb; reflect_bools; simplify_eq/=).

(** Destruct existentials and conjunctions. *)
Ltac deex :=
  repeat match goal with
  | H : exists _, _ |- _ => destruct H
  | H : _ /\ _ |- _ => destruct H
  end.

Lemma res_and_true a b : res_and a b = Ok true <-> a = Ok true /\ b = Ok true.
Proof. destruct a as [[]|]; simpl; naive_solver. Qed.

(** ** JavaScript [Map]: an association list in insertion order *)

Section InsertionMap.
Context {K V : Type} `{EqDecision K}.
Implicit Types (m : list (K * V)) (k : K) (v : V).

Fixpoint map_get k m : option V :=
  match m with
  | [] => None
  | (k', v) :: rest => if decide (k = k') then Some v else map_get k rest
  end.

Definition map_delete k m : list (K * V) := filter (fun p => p.1 <> k) m.

(** [map.set]: an existing key keeps its position. *)
Fixpoint map_set k v m : list (K * V) :=
  match m with
  | [] => [(k, v)]
  | (k', v') :: rest => if decide (k = k') then (k, v) :: rest else (k', v') :: map_set k v rest
  end.

(** [map.delete(k); map.set(k, v)]: the key moves to the end. *)
Definition map_push k v m : list (K * V) := map_delete k m ++ [(k, v)].

Lemma map_get_Some k v m : map_get k m = Some v -> (k, v) ∈ m.
Proof. induction m as [|[k' v'] m IH]; simpl; [done|]. case_decide; set_solver. Qed.

Lemma map_get_In k v m : NoDup m.*1 -> (k, v) ∈ m -> map_get k m = Some v.
Proof.
  induction m as [|[k' v'] m IH]; simpl; [set_solver|].
  intros [Hk' Hnd]%NoDup_cons [?|Hin]%elem_of_cons; [simplify_eq; by rewrite decide_True|].
  rewrite decide_False; [auto|]. intros ->. apply Hk'. apply list_elem_of_fmap.
  by exists (k', v).
Qed.

Lemma map_get_None k m : map_get k m = None <-> k ∉ m.*1.
Proof. induction m as [|[k' v'] m IH]; simpl; [set_solver|]. case_decide; set_solver. Qed.

Lemma map_get_app k m1 m2 :
  map_get k (m1 ++ m2) = match map_get k m1 with Some v => Some v | None => map_get k m2 end.
Proof. induction m1 as [|[k' v'] m1 IH]; simpl; [done|]. by case_decide. Qed.

Lemma map_get_delete k k' m :
  map_get k (map_delete k' m) = if decide (k = k') then None else map_get k m.
Proof.
  unfold map_delete. induction m as [|[k0 v0] m IH]; simpl; [by case_decide|].
  rewrite filter_cons. simpl. repeat case_decide; simpl; repeat case_decide; naive_solver.
Qed.

Lemma map_get_push k k' v m :
  map_get k (map_push k' v m) = if decide (k = k') then Some v else map_get k m.
Proof.
  unfold map_push. rewrite map_get_app, map_get_delete. simpl.
  repeat case_decide; try done. by destruct (map_get k m).
Qed.

Lemma map_get_set k k' v m :
  map_get k (map_set k' v m) = if decide (k = k') then Some v else map_get k m.
Proof.
  induction m as [|[k0 v0] m IH]; simpl; [done|].
  repeat case_decide; simpl; repeat case_decide; naive_solver.
Qed.

Lemma map_delete_sublist k m : map_delete k m `sublist_of` m.
Proof. apply sublist_filter. Qed.

Lemma sublist_fmap {A B} (f : A -> B) l1 l2 :
  l1 `sublist_of` l2 -> f <$> l1 `sublist_of` f <$> l2.
Proof. induction 1; simpl; by constructor. Qed.

Lemma sublist_keys m1 m2 : m1 `sublist_of` m2 -> m1.*1 `sublist_of` m2.*1.
Proof. apply sublist_fmap. Qed.

Lemma sublist_Forall {A} (P : A -> Prop) (l1 l2 : list A) :
  l1 `sublist_of` l2 -> Forall P l2 -> Forall P l1.
Proof. induction 1; rewrite ?Forall_cons; naive_solver. Qed.

Lemma sublist_full {A} (l1 l2 : list A) :
  l1 `sublist_of` l2 -> length l1 = length l2 -> l1 = l2.
Proof.
  induction 1 as [|x l1 l2 Hs IH|x l1 l2 Hs IH]; simpl; [done|..]; intros Hl.
  - f_equal. auto.
  - apply sublist_length in Hs. lia.
Qed.

Lemma map_delete_fresh k m : k ∉ (map_delete k m).*1.
Proof. apply map_get_None. rewrite map_get_delete. by rewrite decide_True. Qed.

Lemma map_push_nodup k v m : NoDup m.*1 -> NoDup (map_push k v m).*1.
Proof.
  intros Hnd. unfold map_push. rewrite fmap_app. apply NoDup_app. split; [|split].
  - eapply sublist_NoDup; [done|]. apply sublist_keys, map_delete_sublist.
  - intros x Hx Hk. simpl in Hk. apply list_elem_of_singleton in Hk as ->.
    by apply map_delete_fresh in Hx.
  - simpl. apply NoDup_singleton.
Qed.

Lemma map_push_length k v m : (length (map_push k v m) <= S (length m))%nat.
Proof.
  unfold map_push. rewrite length_app. simpl.
  pose proof (sublist_length _ _ (map_delete_sublist k m)). lia.
Qed.
End InsertionMap.

(** [lia] after dropping the boolean equations of the context, which the
    arithmetic preprocessing would otherwise all translate. *)
Ltac zlia :=
  repeat match goal with H : @eq bool _ _ |- _ => clear H end;
  repeat match goal with H : @eq (res _) _ _ |- _ => clear H end; lia.

(** Equality of two concatenations up to associativity. *)
Ltac list_eq := simpl; repeat (rewrite <- !app_assoc; simpl); done.

(** ** Sums and counts over the rows of a table *)

Section Sums.
Context {E : Type}.
Implicit Types (f g : E -> Z) (l : list E).

Definition sum_by f l : Z := foldr (fun e acc => f e + acc) 0 l.

(** [SELECT COUNT] of the rows that satisfy a test. *)
Definition count_by (p : E -> bool) l : Z := sum_by (fun e => if p e then 1 else 0) l.

Lemma sum_by_app f l1 l2 : sum_by f (l1 ++ l2) = sum_by f l1 + sum_by f l2.
Proof. induction l1; simpl; lia. Qed.

Lemma sum_by_le f g l : Forall (fun e => f e <= g e) l -> sum_by f l <= sum_by g l.
Proof. induction 1; simpl; lia. Qed.

Lemma sum_by_nonneg f l : Forall (fun e => 0 <= f e) l -> 0 <= sum_by f l.
Proof. induction 1; simpl; lia. Qed.

Lemma sum_by_sublist f l1 l2 :
  Forall (fun e => 0 <= f e) l2 -> l1 `sublist_of` l2 -> sum_by f l1 <= sum_by f l2.
Proof.
  intros HF Hs. induction Hs; simpl; [lia|..]; apply Forall_cons in HF as [? HF];
    specialize (IHHs HF); lia.
Qed.

Lemma sum_by_filter f (p : E -> bool) l :
  sum_by f (filter p l) = sum_by (fun e => if p e then f e else 0) l.
Proof.
  induction l as [|e l IH]; simpl; [done|]. rewrite filter_cons. case_decide as Hp; simpl.
  - rewrite Is_true_true in Hp. rewrite Hp. lia.
  - rewrite Is_true_true in Hp. destruct (p e); [done|]. lia.
Qed.

Lemma sum_by_ext f g l : Forall (fun e => f e = g e) l -> sum_by f l = sum_by g l.
Proof. induction 1; simpl; lia. Qed.

Lemma count_by_length (p : E -> bool) l : Z.of_nat (length (filter p l)) = count_by p l.
Proof.
  unfold count_by. induction l as [|e l IH]; simpl; [done|]. rewrite filter_cons.
  case_decide as Hp; rewrite Is_true_true in Hp; simpl; [rewrite Hp|destruct (p e); [done|]]; lia.
Qed.

Lemma count_by_nonneg p l : 0 <= count_by p l.
Proof. apply sum_by_nonneg, Forall_forall. intros e _. by destruct (p e). Qed.

Lemma count_by_sublist p l1 l2 : l1 `sublist_of` l2 -> count_by p l1 <= count_by p l2.
Proof. apply sum_by_sublist, Forall_forall. intros e _. by destruct (p e). Qed.

Lemma count_by_le (p q : E -> bool) l :
  (forall e, e ∈ l -> p e = true -> q e = true) -> count_by p l <= count_by q l.
Proof.
  intros H. apply sum_by_le, Forall_forall. intros e He. destruct (p e) eqn:Ep.
  - by rewrite (H e He Ep).
  - by destruct (q e).
Qed.
End Sums.

Lemma sum_by_map {E F} (h : F -> E) (f : E -> Z) (l : list F) :
  sum_by f (h <$> l) = sum_by (fun x => f (h x)) l.
Proof. induction l as [|x l IH]; simpl; [done|]. f_equal. exact IH. Qed.

Lemma filter_ext_in {A} (P Q : A -> Prop) `{!forall x, Decision (P x), !forall x, Decision (Q x)} (l : list A) :
  (forall x, x ∈ l -> P x <-> Q x) -> filter P l = filter Q l.
Proof.
  intros Hpq. induction l as [|x l IH]; [done|]. rewrite !filter_cons.
  assert (filter P l = filter Q l) as -> by (apply IH; intros y Hy; apply Hpq; by right).
  assert (P x <-> Q x) as Hx by (apply Hpq; by left). repeat case_decide; tauto.
Qed.

Lemma map_filter_iff {A B} (f : A -> B) (p : A -> Prop) (q : B -> Prop) `{!forall x, Decision (p x), !forall y, Decision (q y)} l :
  (forall x, x ∈ l -> p x <-> q (f x)) -> map f (filter p l) = filter q (map f l).
Proof.
  intros Hpq. induction l as [|x l IH]; [done|]. cbn [map]. rewrite !filter_cons.
  pose proof (Hpq x ltac:(by left)) as Hx. rewrite <- IH by (intros y Hy; apply Hpq; by right).
  destruct (decide (p x)), (decide (q (f x))); tauto || done.
Qed.

Lemma filter_always {A} (P : A -> Prop) `{!forall x, Decision (P x)} (l : list A) :
  (forall x, P x) -> filter P l = l.
Proof. intros HP. induction l as [|x l IH]; [done|]. rewrite filter_cons, decide_True by done. by rewrite IH. Qed.

Lemma filter_all_in {A} (P : A -> Prop) `{!forall x, Decision (P x)} (l : list A) :
  (forall x, x ∈ l -> P x) -> filter P l = l.
Proof.
  intros HP. induction l as [|x l IH]; [done|]. rewrite filter_cons, decide_True by (apply HP; by left).
  f_equal. apply IH. intros y Hy. apply HP. by right.
Qed.

Lemma sorted_impl {A} (R S : A -> A -> Prop) l :
  (forall x y, R x y -> S x y) -> Sorted.StronglySorted R l -> Sorted.StronglySorted S l.
Proof. intros HRS. induction 1 as [|x l Hs IH HF]; constructor; [done|]. eapply Forall_impl; [exact HF|auto]. Qed.

Lemma sum_by_perm {E} (f : E -> Z) l l' : Permutation l l' -> sum_by f l = sum_by f l'.
Proof. induction 1; simpl; lia. Qed.

Section TableSums.
Context {K V : Type} `{EqDecision K}.
Implicit Types (m : list (K * V)) (k : K) (v : V).

Lemma sum_by_set_new (f : K * V -> Z) k v m :
  map_get k m = None -> sum_by f (map_set k v m) = sum_by f m + f (k, v).
Proof.
  induction m as [|[k' v'] m IH]; simpl; intros Hk; [lia|].
  case_decide; [done|]. simpl. rewrite IH by done. lia.
Qed.

Lemma sum_by_set_old (f : K * V -> Z) k v v' m :
  map_get k m = Some v' -> sum_by f (map_set k v m) = sum_by f m - f (k, v') + f (k, v).
Proof.
  induction m as [|[k0 v0] m IH]; simpl; intros Hk; [done|].
  case_decide; simplify_eq; simpl; [lia|]. rewrite IH by done. lia.
Qed.

Lemma map_set_keys_old k v v' m : map_get k m = Some v' -> (map_set k v m).*1 = m.*1.
Proof.
  induction m as [|[k0 v0] m IH]; simpl; intros Hk; [done|].
  case_decide; simplify_eq; simpl; [done|]. f_equal. by apply IH.
Qed.

Lemma map_set_length k v m : (length (map_set k v m) <= S (length m))%nat.
Proof. induction m as [|[k' v'] m IH]; cbn [map_set]; [done|]. case_decide; simpl; lia. Qed.

Lemma map_set_same_length k v m : is_Some (map_get k m) -> length (map_set k v m) = length m.
Proof. induction m as [|[k' v'] m IH]; cbn [map_set map_get]; [by intros []|]. case_decide as E; intros Hs; simpl; [done|]. by rewrite IH. Qed.

Lemma map_delete_set k v m : map_delete k (map_set k v m) = map_delete k m.
Proof.
  unfold map_delete. induction m as [|[k' v'] m IH]; cbn [map_set]; [rewrite filter_cons; by rewrite decide_False by (intros H; by apply H)|].
  case_decide as E; rewrite !filter_cons; cbn [fst].
  - subst k'. by rewrite !decide_False by (intros H; by apply H).
  - case_decide; by rewrite IH.
Qed.

Lemma map_set_new k v m : map_get k m = None -> map_set k v m = m ++ [(k, v)].
Proof.
  induction m as [|[k0 v0] m IH]; simpl; intros Hk; [done|].
  case_decide; [done|]. f_equal. by apply IH.
Qed.

Lemma map_set_nodup k v m : NoDup m.*1 -> NoDup (map_set k v m).*1.
Proof.
  intros Hnd. destruct (map_get k m) as [v'|] eqn:E; [by erewrite map_set_keys_old|].
  rewrite map_set_new, fmap_app by done. apply NoDup_app. split_and!; [done| |apply NoDup_singleton].
  intros x Hx Hk. simpl in Hk. apply list_elem_of_singleton in Hk as ->. by apply map_get_None in E.
Qed.

Lemma map_delete_nodup k m : NoDup m.*1 -> NoDup (map_delete k m).*1.
Proof. intros Hnd. eapply sublist_NoDup; [done|]. apply sublist_keys, map_delete_sublist. Qed.

Lemma map_set_elem k v m k' v' :
  NoDup m.*1 -> (k', v') ∈ map_set k v m -> (k' = k /\ v' = v) \/ (k' <> k /\ (k', v') ∈ m).
Proof.
  intros Hnd Hin. apply map_get_In in Hin; [|by apply map_set_nodup]. rewrite map_get_set in Hin.
  case_decide; simplify_eq; [by left|right]. split; [done|]. by apply map_get_Some.
Qed.

Lemma map_delete_elem k m k' v' : (k', v') ∈ map_delete k m <-> k' <> k /\ (k', v') ∈ m.
Proof. unfold map_delete. rewrite list_elem_of_filter. simpl. done. Qed.

(** [UPDATE]: every row is rewritten in place. *)
Definition map_update (g : K -> V -> V) m : list (K * V) := (fun e => (e.1, g e.1 e.2)) <$> m.

Lemma map_update_keys g m : (map_update g m).*1 = m.*1.
Proof. unfold map_update. rewrite <- list_fmap_compose. by apply list_fmap_ext. Qed.

Lemma map_get_update k g m : map_get k (map_update g m) = g k <$> map_get k m.
Proof. induction m as [|[k0 v0] m IH]; simpl; [done|]. by case_decide; simplify_eq. Qed.

Lemma map_get_filter k (p : K * V -> bool) m :
  NoDup m.*1 ->
  map_get k (filter p m)
  = match map_get k m with Some v => if p (k, v) then Some v else None | None => None end.
Proof.
  induction m as [|[k0 v0] m IH]; simpl; intros Hnd; [done|]. apply NoDup_cons in Hnd as [Hn Hnd].
  rewrite filter_cons. case_decide as Hp; rewrite Is_true_true in Hp; simpl; case_decide; subst.
  - by rewrite Hp.
  - auto.
  - destruct (p (k0, v0)); [done|]. rewrite IH by done. apply map_get_None in Hn. by rewrite Hn.
  - auto.
Qed.
Lemma map_set_at k v v0 l1 l2 :
  k ∉ l1.*1 -> map_set k v (l1 ++ (k, v0) :: l2) = l1 ++ (k, v) :: l2.
Proof.
  induction l1 as [|[k' v'] l1 IH]; simpl; intros Hk; [by rewrite decide_True|].
  rewrite decide_False by set_solver. rewrite IH by set_solver. done.
Qed.

(** Rewriting the selected rows one by one is one update of the table. *)
Lemma fold_set_update (p : K * V -> bool) (g : K * V -> V) m :
  NoDup m.*1 ->
  fold_left (fun acc e => map_set e.1 (g e) acc) (filter p m) m
  = map_update (fun k v => if p (k, v) then g (k, v) else v) m.
Proof.
  intros Hnd. cut (forall l1 l2, NoDup (l1 ++ l2).*1 ->
    fold_left (fun acc e => map_set e.1 (g e) acc) (filter p l2) (l1 ++ l2)
    = l1 ++ map_update (fun k v => if p (k, v) then g (k, v) else v) l2).
  { intros H. exact (H [] m Hnd). }
  clear Hnd. intros l1 l2. revert l1. induction l2 as [|[k v] l2 IH]; intros l1 Hnd.
  { simpl. done. }
  assert (k ∉ l1.*1) as Hk.
  { rewrite fmap_app, NoDup_app in Hnd. destruct Hnd as (_ & Hd & _). intros Hin.
    apply (Hd k Hin). simpl. set_solver. }
  rewrite filter_cons. case_decide as Hp; rewrite Is_true_true in Hp; simpl.
  - rewrite map_set_at by done. rewrite Hp.
    specialize (IH (l1 ++ [(k, g (k, v))])). rewrite <- !app_assoc in IH. simpl in IH. apply IH.
    rewrite fmap_app in *. simpl in *. done.
  - destruct (p (k, v)); [done|].
    specialize (IH (l1 ++ [(k, v)])). rewrite <- !app_assoc in IH. simpl in IH. by apply IH.
Qed.

Lemma map_update_ext g h m :
  (forall k v, (k, v) ∈ m -> g k v = h k v) -> map_update g m = map_update h m.
Proof.
  intros H. unfold map_update. apply list_fmap_ext. intros i [k v] Hi. simpl. f_equal. apply H.
  by eapply list_elem_of_lookup_2.
Qed.
(** Removing the key and adding the row at the end is the same room up to order. *)
Lemma map_set_perm k v m :
  NoDup m.*1 -> Permutation (map_set k v m) ((k, v) :: map_delete k m).
Proof.
  unfold map_delete. induction m as [|[k' v'] m IH]; simpl; intros Hnd; [done|].
  apply NoDup_cons in Hnd as [Hn Hnd]. rewrite filter_cons. simpl. case_decide as E.
  - subst. rewrite decide_False by (by intros Hx). constructor.
    rewrite (filter_ext_in _ (fun _ => True)); [by rewrite filter_always|].
    intros e He. split; [done|]. intros _ E. apply Hn. rewrite <- E. apply list_elem_of_fmap. by exists e.
  - rewrite decide_True by congruence. rewrite IH by done. by constructor.
Qed.

End TableSums.
