(* ===== verification/Base64.v ===== *)
(** * Base64 of opaque payloads ([validBase64] of [src/relay/relayValidation.js])

    [atob] (forgiving base64 decoding) and [btoa] of the platform as list
    functions, and the relay's test that a text is the canonical encoding of
    some bytes.  Theorem: the accepted texts are exactly the outputs of [btoa]. *)

From S2P Require Import Prelude.
#[local] Ltac Zify.zify_post_hook ::= Z.to_euclidean_division_equations.
#[local] Open Scope bool_scope.
#[local] Open Scope N_scope.
#[local] Open Scope js_scope.

(** ** The alphabet *)

Definition b64_value (u : N) : option N :=
  if in_range 65 90 u then Some (u - 65)
  else if in_range 97 122 u then Some (u - 71)
  else if in_range 48 57 u then Some (u + 4)
  else if u =? 43 then Some 62
  else if u =? 47 then Some 63
  else None.

Definition b64_char (v : N) : N :=
  if v <? 26 then v + 65
  else if v <? 52 then v + 71
  else if v <? 62 then v - 4
  else if v =? 62 then 43 else 47.

(** ** Decoding *)

Fixpoint decode_sextets (l : list N) : list N :=
  match l with
  | a :: b :: c :: d :: rest =>
      (a * 4 + b / 16) :: (b mod 16 * 16 + c / 4) :: (c mod 4 * 64 + d) :: decode_sextets rest
  | [a; b; c] => [a * 4 + b / 16; b mod 16 * 16 + c / 4]
  | [a; b] => [a * 4 + b / 16]
  | _ => []
  end.

Definition is_space (u : N) : bool :=
  (u =? 9) || (u =? 10) || (u =? 12) || (u =? 13) || (u =? 32).

(** Up to two trailing ["="] are removed. *)
Definition strip_pad (u : list N) : list N :=
  match rev u with
  | 61 :: 61 :: r => rev r
  | 61 :: r => rev r
  | _ => u
  end.

(** [atob(data)]: the decoded bytes, or an [InvalidCharacterError]. *)
Definition atob (s : jstr) : res (list N) :=
  let u := filter (fun c => negb (is_space c)) (units s) in
  let u := if (N.of_nat (length u) mod 4 =? 0) then strip_pad u else u in
  if N.of_nat (length u) mod 4 =? 1 then Throw
  else match mapM b64_value u with
       | Some sextets => Ok (decode_sextets sextets)
       | None => Throw
       end.

(** ** Encoding *)

Fixpoint encode_bytes (l : list N) : list N :=
  match l with
  | x :: y :: z :: rest =>
      b64_char (x / 4) :: b64_char (x mod 4 * 16 + y / 16)
      :: b64_char (y mod 16 * 4 + z / 64) :: b64_char (z mod 64) :: encode_bytes rest
  | [x; y] => [b64_char (x / 4); b64_char (x mod 4 * 16 + y / 16); b64_char (y mod 16 * 4); 61]
  | [x] => [b64_char (x / 4); b64_char (x mod 4 * 16); 61; 61]
  | [] => []
  end.

(** [btoa] of a binary string, given by its bytes. *)
Definition btoa (bytes : list N) : jstr := JS (encode_bytes bytes).

(** ** The test of the relay *)

Fixpoint span_class (cls : N -> bool) (u : list N) : list N * list N :=
  match u with
  | c :: rest =>
      if cls c then let '(a, b) := span_class cls rest in (c :: a, b) else ([], u)
  | [] => ([], [])
  end.

(** [/^[A-Za-z0-9+/]+={0,2}$/.test(s)] *)
Definition re_base64 (s : jstr) : bool :=
  match span_class cls_base64 (units s) with
  | (_ :: _, []) | (_ :: _, [61]) | (_ :: _, [61; 61]) => true
  | _ => false
  end.

Definition validBase64 (value : jsv) (minLength maxLength : Z) : res bool :=
  match value with
  | JStr s =>
      if (slen s <? minLength)%Z || (maxLength <? slen s)%Z
         || negb (slen s mod 4 =? 0)%Z || negb (re_base64 s)
      then Ok false
      else let* bytes := atob s in Ok (btoa bytes =?s s)
  | _ => Ok false
  end.

(** ** Lemmas *)

Lemma b64_value_char v : v < 64 -> b64_value (b64_char v) = Some v.
Proof.
  intros H. unfold b64_value, b64_char, in_range.
  repeat case_match; try f_equal; lia.
Qed.

Lemma b64_char_class v : v < 64 -> cls_base64 (b64_char v) = true.
Proof.
  intros H. unfold cls_base64, cls_alnum, b64_char, in_range. repeat case_match; lia.
Qed.

Lemma b64_value_class u : cls_base64 u = true -> exists v, b64_value u = Some v /\ v < 64.
Proof.
  unfold cls_base64, cls_alnum, b64_value, in_range. intros H.
  repeat case_match; first [lia | eexists; split; [done|lia]].
Qed.

Lemma cls_not_pad u : cls_base64 u = true -> u <> 61.
Proof. intros H ->. discriminate. Qed.

Lemma cls_not_space u : cls_base64 u = true -> is_space u = false.
Proof. unfold cls_base64, cls_alnum, is_space, in_range. lia. Qed.

(** Induction in steps of three bytes. *)
Lemma list_ind3 {A} (P : list A -> Prop) :
  P [] -> (forall x, P [x]) -> (forall x y, P [x; y]) ->
  (forall x y z l, P l -> P (x :: y :: z :: l)) -> forall l, P l.
Proof.
  intros H0 H1 H2 H3 l.
  assert (P l /\ (forall x, P (x :: l)) /\ forall x y, P (x :: y :: l)) as [? _]; [|done].
  induction l as [|a l (IH & IH1 & IH2)]; repeat split; auto.
Qed.

(** Decoded bytes are bytes. *)
Lemma decode_sextets_bytes l :
  Forall (fun v => v < 64) l -> Forall (fun b => b < 256) (decode_sextets l).
Proof.
  assert (forall n l, (length l <= n)%nat -> Forall (fun v => v < 64) l ->
            Forall (fun b => b < 256) (decode_sextets l)) as Hn; [|eauto].
  induction n as [|n IH]; intros [|a [|b [|c [|d rest]]]] Hlen H; simpl in *; try lia;
    repeat constructor; decompose_Forall_hyps; try lia.
  apply IH; [lia|done].
Qed.

Inductive is_pad : list N -> Prop :=
| pad0 : is_pad []
| pad1 : is_pad [61]
| pad2 : is_pad [61; 61].
#[local] Hint Constructors is_pad : core.

(** The shape of an encoding: alphabet characters that decode to the bytes,
    then at most two pad characters, in groups of four. *)
Lemma encode_shape bytes :
  Forall (fun b => b < 256) bytes ->
  exists body pad sx,
    encode_bytes bytes = body ++ pad /\ is_pad pad /\
    Forall (fun c => cls_base64 c = true) body /\
    N.of_nat (length (body ++ pad)) mod 4 = 0 /\
    Forall2 (fun c v => b64_value c = Some v) body sx /\ decode_sextets sx = bytes /\
    (bytes <> [] -> body <> []).
Proof.
  induction bytes as [|x|x y|x y z l IH] using list_ind3; intros HF; decompose_Forall_hyps.
  - exists [], [], []. repeat split; auto.
  - exists [b64_char (x / 4); b64_char (x mod 4 * 16)], [61; 61], [x / 4; x mod 4 * 16].
    repeat split; auto; try (repeat constructor; apply b64_char_class; lia).
    + repeat constructor; apply b64_value_char; lia.
    + simpl. f_equal. lia.
  - exists [b64_char (x / 4); b64_char (x mod 4 * 16 + y / 16); b64_char (y mod 16 * 4)], [61],
      [x / 4; x mod 4 * 16 + y / 16; y mod 16 * 4].
    repeat split; auto; try (repeat constructor; apply b64_char_class; lia).
    + repeat constructor; apply b64_value_char; lia.
    + simpl. repeat f_equal; lia.
  - destruct IH as (body & pad & sx & HE & Hp & Hc & Hl & Hm & Hd & _); [done|].
    exists (b64_char (x / 4) :: b64_char (x mod 4 * 16 + y / 16)
             :: b64_char (y mod 16 * 4 + z / 64) :: b64_char (z mod 64) :: body), pad,
      (x / 4 :: x mod 4 * 16 + y / 16 :: y mod 16 * 4 + z / 64 :: z mod 64 :: sx).
    repeat split; auto.
    + simpl. by rewrite HE.
    + repeat constructor; auto; apply b64_char_class; lia.
    + simpl length. lia.
    + repeat constructor; [apply b64_value_char; lia ..|done].
    + simpl. rewrite Hd. repeat f_equal; lia.
Qed.

Lemma span_class_app cls body pad :
  Forall (fun c => cls c = true) body ->
  match pad with c :: _ => cls c = false | [] => True end ->
  span_class cls (body ++ pad) = (body, pad).
Proof.
  induction 1 as [|c body Hc _ IH]; simpl; intros Hp.
  - destruct pad; simpl; [done|]. by rewrite Hp.
  - rewrite Hc, (IH Hp). done.
Qed.

Lemma span_class_inv cls u a b :
  span_class cls u = (a, b) -> u = a ++ b /\ Forall (fun c => cls c = true) a.
Proof.
  revert a b. induction u as [|c u IH]; simpl; intros a b H; [by simplify_eq|].
  destruct (cls c) eqn:Hc; [|by simplify_eq].
  destruct (span_class cls u) as [a' b'] eqn:E. simplify_eq.
  destruct (IH _ _ eq_refl) as [-> ?]. auto.
Qed.

Lemma re_base64_shape s :
  re_base64 s = true <->
  exists body pad, units s = body ++ pad /\ body <> [] /\ is_pad pad /\
    Forall (fun c => cls_base64 c = true) body.
Proof.
  unfold re_base64. split.
  - destruct (span_class _ _) as [a b] eqn:E. apply span_class_inv in E as [-> Ha].
    intros H. exists a, b. repeat case_match; simplify_eq; eauto 6.
  - intros (body & pad & -> & Hne & Hp & HF).
    rewrite span_class_app; [|done|by destruct Hp].
    destruct body; [done|]. by destruct Hp.
Qed.

Lemma strip_pad_app body pad :
  is_pad pad -> Forall (fun c => cls_base64 c = true) body -> strip_pad (body ++ pad) = body.
Proof.
  intros Hp HF. unfold strip_pad. rewrite rev_app_distr.
  assert (match rev body with 61 :: _ => False | _ => True end) as Hr.
  { destruct (rev body) as [|c r] eqn:E; [done|].
    assert (In c body) as Hin by (apply in_rev; rewrite E; by left).
    rewrite List.Forall_forall in HF. apply HF in Hin.
    destruct (decide (c = 61)) as [->|Hc]; [done|by repeat case_match]. }
  assert (rev (rev body) = body) as Hrr by apply rev_involutive.
  destruct Hp; simpl; rewrite ?app_nil_r; [| |done];
    destruct (rev body) as [|c r]; try done; repeat case_match; simplify_eq; done.
Qed.

Lemma no_space_filter body pad :
  is_pad pad -> Forall (fun c => cls_base64 c = true) body ->
  filter (fun c => negb (is_space c)) (body ++ pad) = body ++ pad.
Proof.
  intros Hp HF. induction HF as [|c body Hc _ IH]; simpl; [by destruct Hp|].
  rewrite filter_cons, decide_True; [by rewrite IH|]. by rewrite cls_not_space.
Qed.

Lemma mapM_values body :
  Forall (fun c => cls_base64 c = true) body ->
  exists sx, Forall2 (fun c v => b64_value c = Some v) body sx /\ Forall (fun v => v < 64) sx.
Proof.
  induction 1 as [|c body Hc _ (sx & H1 & H2)]; [by exists []|].
  destruct (b64_value_class c Hc) as (v & Hv & Hlt). exists (v :: sx). auto.
Qed.

(** On a text of the accepted shape [atob] succeeds. *)
Lemma atob_shape body pad sx :
  is_pad pad -> Forall (fun c => cls_base64 c = true) body ->
  N.of_nat (length (body ++ pad)) mod 4 = 0 ->
  Forall2 (fun c v => b64_value c = Some v) body sx ->
  atob (JS (body ++ pad)) = Ok (decode_sextets sx).
Proof.
  intros Hp HF Hl Hsx. unfold atob. simpl. rewrite no_space_filter by done.
  rewrite Hl, N.eqb_refl, strip_pad_app by done.
  rewrite (mapM_Some_2 _ _ _ Hsx).
  destruct (N.eqb_spec (N.of_nat (length body) mod 4) 1) as [E|E]; [|done].
  rewrite length_app in Hl. destruct Hp; simpl in Hl; lia.
Qed.

(** The padding may be left out. *)
Lemma atob_body body pad sx :
  is_pad pad -> Forall (fun c => cls_base64 c = true) body ->
  N.of_nat (length (body ++ pad)) mod 4 = 0 ->
  Forall2 (fun c v => b64_value c = Some v) body sx ->
  atob (JS body) = Ok (decode_sextets sx).
Proof.
  intros Hp HF Hl Hsx. assert (strip_pad body = body) as Hs by (rewrite <- (app_nil_r body) at 1; by apply strip_pad_app).
  unfold atob. cbn [units]. rewrite <- (app_nil_r body), no_space_filter, app_nil_r, Hs by done.
  rewrite length_app in Hl. destruct (N.eqb_spec (N.of_nat (length body) mod 4) 1) as [E|E];
    [destruct Hp; simpl in Hl; lia|]. apply N.eqb_neq in E.
  destruct (_ =? 0); rewrite E, (mapM_Some_2 _ _ _ Hsx); done.
Qed.

Lemma slen_mod4 (s : jstr) :
  (slen s mod 4 = 0)%Z <-> N.of_nat (length (units s)) mod 4 = 0.
Proof. unfold slen. lia. Qed.

(** The test never raises the [InvalidCharacterError] of [atob]. *)
Lemma validBase64_total value lo hi : exists b, validBase64 value lo hi = Ok b.
Proof.
  destruct value as [| | | |s| |]; simpl; eauto.
  case_match eqn:E; [eauto|]. split_andb. reflect_bools.
  match goal with H : re_base64 s = true |- _ => apply re_base64_shape in H as (body & pad & Hu & Hne & Hp & HF) end.
  destruct (mapM_values body HF) as (sx & Hsx & _).
  destruct s as [u]. simpl in Hu. subst u.
  rewrite (atob_shape body pad sx); simpl; eauto. by apply (slen_mod4 (JS (body ++ pad))).
Qed.

(** Accepted texts are exactly the encodings of non-empty byte strings. *)
Lemma validBase64_iff value lo hi :
  validBase64 value lo hi = Ok true <->
  exists bytes, bytes <> [] /\ Forall (fun b => b < 256) bytes /\
    value = JStr (btoa bytes) /\ (lo <= slen (btoa bytes) <= hi)%Z.
Proof.
  split.
  - destruct value as [| | | |s| |]; simpl; try done.
    case_match eqn:E; [done|]. split_andb. reflect_bools.
    match goal with H : re_base64 s = true |- _ => apply re_base64_shape in H as (body & pad & Hu & Hne & Hp & HF) end.
    destruct (mapM_values body HF) as (sx & Hsx & Hlt).
    destruct s as [u]. simpl in Hu. subst u.
    rewrite (atob_shape body pad sx) by (first [done | by apply (slen_mod4 (JS (body ++ pad)))]). simpl.
    intros [= Heq]. apply bool_decide_eq_true in Heq.
    exists (decode_sextets sx). rewrite Heq. repeat split; try done.
    + intros Hnil. unfold btoa in Heq. rewrite Hnil in Heq. simpl in Heq.
      injection Heq as Heq. symmetry in Heq. by apply app_eq_nil in Heq as [-> _].
    + by apply decode_sextets_bytes.
  - intros (bytes & Hne & HF & -> & Hb). simpl.
    destruct (encode_shape bytes HF) as (body & pad & sx & HE & Hp & HFb & Hl & Hsx & Hd & Hne').
    assert (units (btoa bytes) = body ++ pad) as Hu by (by unfold btoa).
    assert (re_base64 (btoa bytes) = true) as ->.
    { apply re_base64_shape. eauto 8. }
    assert (slen (btoa bytes) mod 4 = 0)%Z as -> by (apply slen_mod4; by rewrite Hu).
    rewrite (proj2 (Z.ltb_ge _ _)) by lia. rewrite (proj2 (Z.ltb_ge _ _)) by lia. simpl.
    replace (btoa bytes) with (JS (body ++ pad)) by (unfold btoa; by rewrite HE).
    rewrite (atob_shape body pad sx) by done. simpl. rewrite Hd. unfold btoa. rewrite HE.
    unfold jeqb. by rewrite bool_decide_eq_true_2.
Qed.

(** Decoding recovers the bytes of an encoding. *)
Lemma atob_btoa bytes : Forall (fun b => b < 256) bytes -> atob (btoa bytes) = Ok bytes.
Proof.
  intros HF. destruct (encode_shape bytes HF) as (body & pad & sx & HE & Hp & HFb & Hl & Hsx & Hd & _).
  unfold btoa. rewrite HE, (atob_shape body pad sx), Hd by done. done.
Qed.
