(* ===== verification/Validation.v ===== *)
(** * Validation of frames and credentials
    [src/relay/relayValidation.js], [src/relay/recipientRouting.js], the
    comparison helpers of [src/relay/relaySupport.js] and the retained-state
    header test of [src/retainedState/policy.js].

    An envelope is a value of [JSON.parse]: the tests that call
    [RegExp.prototype.test] on a field of unknown type convert it first, which
    may throw, so the result is in [res]. *)

From S2P Require Import Prelude Base64.
#[local] Open Scope bool_scope.
#[local] Open Scope Z_scope.
#[local] Open Scope js_scope.

(** ** [relaySupport.js] *)

(** [value.trim()] is applied to the credential after ["Bearer "]. *)
Definition trim_space (u : N) : bool :=
  in_range 9 13 u || (u =? 32)%N || (u =? 160)%N || (u =? 5760)%N || in_range 8192 8202 u
  || (u =? 8232)%N || (u =? 8233)%N || (u =? 8239)%N || (u =? 8287)%N || (u =? 12288)%N
  || (u =? 65279)%N.
Fixpoint trim_start (l : list N) : list N :=
  match l with u :: rest => if trim_space u then trim_start rest else l | [] => [] end.
Definition trim (s : jstr) : jstr := JS (rev (trim_start (rev (trim_start (units s))))).

(** [bearer(request)], the argument being [request.headers.get("Authorization")]. *)
Definition bearer (authorization : option jstr) : jstr :=
  let value := default "" authorization in
  if starts_with "Bearer " value then trim (JS (drop 7 (units value))) else "".

(** [difference |= left.charCodeAt(i) ^ right.charCodeAt(i)] over the left string. *)
Fixpoint char_difference (difference : N) (left right : list N) : N :=
  match left, right with
  | a :: left', b :: right' => char_difference (N.lor difference (N.lxor a b)) left' right'
  | _, _ => difference
  end.

Definition constantTimeEqual (left right : jsv) : bool :=
  match left, right with
  | JStr l, JStr r =>
      if negb (slen l =? slen r) then false
      else (char_difference 0 (units l) (units r) =? 0)%N
  | _, _ => false
  end.

(** ** [relayValidation.js] *)

Definition MAX_ENVELOPE_TTL_MS : Z := 25 * 60 * 60 * 1000.
Definition MAX_SUBMISSION_TTL_MS : Z := 31 * 24 * 60 * 60 * 1000.
Definition STATE_TTL_MS : Z := 7 * 86400000.

Definition validRoom (room : jsv) : bool :=
  match room with JStr s => re_class cls_hex 16 64 s | _ => false end.

Definition acceptsWebSocketPath (pathname : jstr) : bool :=
  (pathname =?s "/") || (pathname =?s "/ws").

Definition validRoomCredential (value : jsv) : bool :=
  match value with JStr s => hex64 s | _ => false end.

Definition validIdentifier (value : jsv) (max : Z) : bool :=
  match value with JStr s => (1 <=? slen s) && (slen s <=? max) | _ => false end.

Definition ENVELOPE_FIELDS : list jstr :=
  ["v"; "room"; "from"; "to"; "senderId"; "deliveryId"; "wake"; "expiresAt"; "nonce"; "box";
   "recipientKeyId"; "stateKey"; "stateRevision"; "statePriority"; "stateGroup"].

Definition validRetainedState (envelope : jsv) (now : Z) : res bool :=
  if is_nullish (get "stateKey" envelope) && is_nullish (get "stateRevision" envelope)
     && is_nullish (get "statePriority" envelope) && is_nullish (get "stateGroup" envelope)
  then Ok true
  else
    if negb (is_str (get "from" envelope) "machine" && is_str (get "to" envelope) "phone")
    then Ok false
    else
      res_and (test_or_empty hex64 (get "recipientKeyId" envelope))
      (res_and (test_or_empty hex64 (get "stateKey" envelope))
      (res_and (if is_nullish (get "stateGroup" envelope) then Ok true
                else test hex64 (get "stateGroup" envelope))
      (Ok (is_safe_int (get "stateRevision" envelope)
           && (0 <=? int_of (get "stateRevision" envelope))
           && (int_of (get "stateRevision" envelope) <=? now + 300000)
           && existsb (is_int (get "statePriority" envelope)) [0; 1; 2; 3]
           && is_safe_int (get "expiresAt" envelope)
           && (int_of (get "expiresAt" envelope) <=? now + STATE_TTL_MS))))).

Inductive problem := Invalid | Expired.
#[export] Instance problem_eq_dec : EqDecision problem.
Proof. solve_decision. Defined.

(** A phone submission to the machine that names itself so lives 31 days. *)
Definition extendedLifetime (envelope : jsv) : bool :=
  is_str (get "from" envelope) "phone" && is_str (get "to" envelope) "machine"
  && match get "deliveryId" envelope with
     | JStr d =>
         existsb (fun prefix => starts_with prefix d && (slen prefix <? slen d))
           ["user-message-"; "attachment-"]
     | _ => false
     end.

Definition ttlLimit (envelope : jsv) (maximumTtlMs : option Z) : Z :=
  match maximumTtlMs with
  | Some ttl => ttl
  | None => if truthy (get "stateKey" envelope) then STATE_TTL_MS
            else if extendedLifetime envelope then MAX_SUBMISSION_TTL_MS
            else MAX_ENVELOPE_TTL_MS
  end.

Definition envelopeProblem (envelope : jsv) (room : jstr) (now : Z) (maximumTtlMs : option Z)
  : res (option problem) :=
  let field k := get k envelope in
  if negb (match envelope with JObj _ | JArr _ => true | _ => false end)
     || negb (is_int (field "v") 1) || negb (is_str (field "room") room)
  then Ok (Some Invalid) else
  if existsb (fun key => negb (bool_decide (key ∈ ENVELOPE_FIELDS))) (keys envelope)
  then Ok (Some Invalid) else
  if negb (str_in (field "from") ["machine"; "phone"]) then Ok (Some Invalid) else
  if negb (str_in (field "to") ["machine"; "phone"; "all"]) then Ok (Some Invalid) else
  if negb (validIdentifier (field "senderId") 180) then Ok (Some Invalid) else
  if negb (is_nullish (field "deliveryId")) && negb (validIdentifier (field "deliveryId") 180)
  then Ok (Some Invalid) else
  guard_res (if is_nullish (field "recipientKeyId") then Ok false
             else let* matched := test hex64 (field "recipientKeyId") in Ok (negb matched))
    (Some Invalid) (
  if negb (is_nullish (field "wake"))
     && negb (match field "wake" with JBool _ => true | _ => false end)
  then Ok (Some Invalid) else
  let* retained := validRetainedState envelope now in
  if negb retained then Ok (Some Invalid) else
  if negb (is_nullish (field "expiresAt"))
     && (negb (is_safe_int (field "expiresAt"))
         || (now + ttlLimit envelope maximumTtlMs <? int_of (field "expiresAt")))
  then Ok (Some Invalid) else
  if negb (match field "nonce" with JStr s => re_class cls_base64 32 32 s | _ => false end)
  then Ok (Some Invalid) else
  if negb (match field "box" with JStr s => (24 <=? slen s) && re_base64 s | _ => false end)
  then Ok (Some Invalid) else
  Ok (if negb (is_nullish (field "expiresAt")) && (int_of (field "expiresAt") <=? now)
      then Some Expired else None)).

Definition validEnvelope (envelope : jsv) (room : jstr) (now : Z) (maximumTtlMs : option Z)
  : res bool :=
  let* p := envelopeProblem envelope room now maximumTtlMs in Ok (bool_decide (p = None)).

(** [validDeviceToken(String(body?.token ?? "").toLowerCase())] receives a string. *)
Definition validDeviceToken (token : jstr) : bool :=
  re_class cls_hex 32 256 token && (slen token mod 2 =? 0).

(** ** [recipientRouting.js] *)

Definition validRecipientKeyId (value : jsv) : bool :=
  match value with JStr s => hex64 s | _ => false end.

(** [recipientKeyId] is the digest the receiving socket announced, if any. *)
Definition matchesRecipient (envelope : jsv) (recipientKeyId : option jstr) : bool :=
  match recipientKeyId with
  | None => true
  | Some r =>
      (r =?s "") || negb (truthy (get "recipientKeyId" envelope))
      || is_str (get "recipientKeyId" envelope) r
  end.

(** [JSON_parse raw] is the parsed text of a queued frame, or [None] on a [SyntaxError]. *)
Definition matchesQueuedRecipient (parsed : option jsv) (recipientKeyId : option jstr) : bool :=
  match recipientKeyId with
  | None => true
  | Some r => if r =?s "" then true
              else match parsed with Some e => matchesRecipient e recipientKeyId | None => false end
  end.

(** ** Constant-time comparison *)

Lemma char_difference_0 d l r :
  length l = length r -> (char_difference d l r = 0)%N <-> d = 0%N /\ l = r.
Proof.
  revert d r. induction l as [|a l IH]; intros d [|b r]; simpl; intros Hl; try lia.
  - naive_solver.
  - rewrite IH by lia. rewrite N.lor_eq_0_iff, N.lxor_eq_0_iff. naive_solver.
Qed.

Lemma constantTimeEqual_iff l r : constantTimeEqual (JStr l) (JStr r) = true <-> l = r.
Proof.
  destruct l as [l], r as [r]. simpl. unfold slen. simpl.
  destruct (Z.eqb_spec (Z.of_nat (length l)) (Z.of_nat (length r))) as [E|E]; simpl.
  - rewrite N.eqb_eq, char_difference_0 by lia. naive_solver.
  - split; [done|]. intros [= ->]. lia.
Qed.

(** ** The shape of accepted envelopes *)

(** What a handler may rely on once [envelopeProblem] did not answer ["invalid"]. *)
Record envelope_shape (env : jsv) (room : jstr) (now limit : Z) : Prop := {
  sh_fields : forall k, k ∈ keys env -> k ∈ ENVELOPE_FIELDS;
  sh_version : get "v" env = JNum (NInt 1);
  sh_room : get "room" env = JStr room;
  sh_from : get "from" env = JStr "machine" \/ get "from" env = JStr "phone";
  sh_to : get "to" env = JStr "machine" \/ get "to" env = JStr "phone" \/ get "to" env = JStr "all";
  sh_sender : exists s, get "senderId" env = JStr s /\ 1 <= slen s <= 180;
  sh_delivery : is_nullish (get "deliveryId" env) = true \/
    exists d, get "deliveryId" env = JStr d /\ 1 <= slen d <= 180;
  sh_recipient : is_nullish (get "recipientKeyId" env) = true \/
    exists r, to_string (get "recipientKeyId" env) = Ok r /\ hex64 r = true;
  sh_wake : is_nullish (get "wake" env) = true \/ exists b, get "wake" env = JBool b;
  sh_state : validRetainedState env now = Ok true;
  sh_expiry : is_nullish (get "expiresAt" env) = true \/
    exists t, get "expiresAt" env = JNum (NInt t) /\ Z.abs t <= max_safe /\ t <= now + limit;
  sh_nonce : exists s, get "nonce" env = JStr s /\ re_class cls_base64 32 32 s = true;
  sh_box : exists s, get "box" env = JStr s /\ 24 <= slen s /\ re_base64 s = true;
}.

Definition expired_at (env : jsv) (now : Z) : Prop :=
  exists t, get "expiresAt" env = JNum (NInt t) /\ t <= now.

Lemma is_int_eq v k : is_int v k = true <-> v = JNum (NInt k).
Proof.
  unfold is_int. repeat case_match; try (split; [done|by intros [= ->]] || naive_solver).
  rewrite Z.eqb_eq. naive_solver.
Qed.

Lemma is_str_eq v s : is_str v s = true <-> v = JStr s.
Proof. unfold is_str, jeqb. case_match; rewrite ?bool_decide_eq_true; naive_solver. Qed.

Lemma str_in_iff v l : str_in v l = true <-> exists s, v = JStr s /\ In s l.
Proof.
  unfold str_in. rewrite existsb_exists. setoid_rewrite is_str_eq. naive_solver.
Qed.

Lemma validIdentifier_iff v m :
  validIdentifier v m = true <-> exists s, v = JStr s /\ 1 <= slen s <= m.
Proof.
  unfold validIdentifier. case_match; try (split; [done|naive_solver]).
  rewrite andb_true_iff, !Z.leb_le. naive_solver.
Qed.

Lemma is_safe_int_iff v :
  is_safe_int v = true <-> exists t, v = JNum (NInt t) /\ Z.abs t <= max_safe.
Proof.
  unfold is_safe_int, num_is_safe. repeat case_match; simplify_eq;
    rewrite ?Z.leb_le; naive_solver.
Qed.

Lemma test_iff re v : test re v = Ok true <-> exists s, to_string v = Ok s /\ re s = true.
Proof.
  unfold test. destruct (to_string v) as [s|]; simpl.
  - split; [intros [= H]; eauto|by intros (? & [= ->] & ->)].
  - split; [done|by intros (? & ? & _)].
Qed.

Section EarlyReturns.
Context (k : res (option problem)) (p : option problem).
Hypothesis (Hp : p <> Some Invalid).

Lemma pass_if (b : bool) :
  (if b then Ok (Some Invalid) else k) = Ok p -> b = false /\ k = Ok p.
Proof. destruct b; naive_solver. Qed.

Lemma pass_guard (b : res bool) :
  guard_res b (Some Invalid) k = Ok p -> b = Ok false /\ k = Ok p.
Proof. destruct b as [[]|]; naive_solver. Qed.
End EarlyReturns.

Lemma envelopeProblem_shape env room now ttl p :
  envelopeProblem env room now ttl = Ok p -> p <> Some Invalid ->
  envelope_shape env room now (ttlLimit env ttl) /\
  (p = Some Expired <-> expired_at env now).
Proof.
  unfold envelopeProblem. intros H Hp.
  apply pass_if in H as [E1 H]; [|done].
  apply pass_if in H as [E2 H]; [|done].
  apply pass_if in H as [E3 H]; [|done].
  apply pass_if in H as [E4 H]; [|done].
  apply pass_if in H as [E5 H]; [|done].
  apply pass_if in H as [E6 H]; [|done].
  apply pass_guard in H as [E7 H]; [|done].
  apply pass_if in H as [E8 H]; [|done].
  destruct (validRetainedState env now) as [[]|] eqn:E9; simpl in H; [|by simplify_eq ..].
  apply pass_if in H as [E10 H]; [|done].
  apply pass_if in H as [E11 H]; [|done].
  apply pass_if in H as [E12 H]; [|done].
  split_andb. rewrite is_int_eq in *. rewrite is_str_eq in *.
  assert (get "expiresAt" env = JUndef \/ get "expiresAt" env = JNull \/
          exists t, get "expiresAt" env = JNum (NInt t) /\ Z.abs t <= max_safe /\
                    t <= now + ttlLimit env ttl) as Hexp.
  { destruct (get "expiresAt" env) as [| | |[]| | |] eqn:E; simpl in E10; try by eauto.
    rewrite orb_false_iff, negb_false_iff in E10. destruct E10. reflect_bools. eauto 8. }
  split.
  - constructor; auto.
    + intros key Hk. destruct (decide (key ∈ ENVELOPE_FIELDS)) as [|n]; [done|].
      apply not_true_iff_false in E2. exfalso. apply E2, existsb_exists. exists key.
      rewrite bool_decide_eq_false_2 by done. split; [by apply list_elem_of_In|done].
    + apply str_in_iff in E3 as (s & -> & [<-|[<-|[]]]); auto.
    + apply str_in_iff in E4 as (s & -> & [<-|[<-|[<-|[]]]]); auto.
    + by apply validIdentifier_iff.
    + destruct (is_nullish (get "deliveryId" env)); [by left|right]. simpl in E6.
      apply negb_false_iff in E6. by apply validIdentifier_iff.
    + destruct (is_nullish (get "recipientKeyId" env)); [by left|right]. apply test_iff.
      destruct (test hex64 (get "recipientKeyId" env)) as [[]|]; by simplify_eq/=.
    + destruct (get "wake" env); simpl in E8; try by left. right; eauto.
    + destruct Hexp as [-> | [-> | ?]]; [by left|by left|by right].
    + destruct (get "nonce" env); try done. eauto.
    + destruct (get "box" env); try done. split_andb. reflect_bools. eauto.
  - unfold expired_at. injection H as <-.
    destruct Hexp as [-> | [-> | (t & -> & _)]]; simpl;
      [by (split; [|intros (? & ? & _)]) ..|].
    destruct (Z.leb_spec t now).
    + split; [intros _; by exists t|done].
    + split; [done|]. intros (t' & [= <-] & ?). zlia.
Qed.

(** A frame that is deliverable stays well formed as the clock advances: it can
    only become expired. *)
Lemma validRetainedState_mono env now now' :
  now <= now' -> validRetainedState env now = Ok true -> validRetainedState env now' = Ok true.
Proof.
  intros Hn. unfold validRetainedState. case_match; [done|]. case_match; [done|].
  rewrite !res_and_true. intros (-> & -> & -> & [= Hb]). repeat split; try done. f_equal.
  split_andb. rewrite !andb_true_iff. reflect_bools. split_and!; try assumption; apply Z.leb_le; zlia.
Qed.

Lemma envelopeProblem_mono env room now now' ttl p :
  now <= now' -> envelopeProblem env room now ttl = Ok p -> p <> Some Invalid ->
  exists p', envelopeProblem env room now' ttl = Ok p' /\ p' <> Some Invalid /\
             (p = Some Expired -> p' = Some Expired).
Proof.
  intros Hn H Hp.
  assert (validRetainedState env now = Ok true) as Hst by (by eapply envelopeProblem_shape in H as [[] _]).
  unfold envelopeProblem in *.
  apply pass_if in H as [-> H]; [|done]. apply pass_if in H as [-> H]; [|done].
  apply pass_if in H as [-> H]; [|done]. apply pass_if in H as [-> H]; [|done].
  apply pass_if in H as [-> H]; [|done]. apply pass_if in H as [-> H]; [|done].
  apply pass_guard in H as [-> H]; [|done]. simpl. apply pass_if in H as [-> H]; [|done].
  rewrite (validRetainedState_mono env now now') by done. rewrite Hst in H. simpl in *.
  apply pass_if in H as [E H]; [|done]. apply pass_if in H as [-> H]; [|done].
  apply pass_if in H as [-> H]; [|done]. injection H as <-.
  destruct (is_nullish (get "expiresAt" env)); simpl in *; [by eexists|].
  apply orb_false_iff in E as [E1 E2]. reflect_bools.
  rewrite E1, (proj2 (Z.ltb_ge _ _)) by lia. simpl.
  destruct (int_of (get "expiresAt" env) <=? now) eqn:E3; reflect_bools.
  - rewrite (proj2 (Z.leb_le _ _)) by lia. eexists. split; [done|]. split; [done|done].
  - destruct (_ <=? now'); eexists; split; [done|done|done|done].
Qed.
