(* ===== verification/CoolDown.v ===== *)
(** * Reconnect cool-down after policy closes ([src/relay/coolDown.js])

    [CoolDownRegistry] is an in-memory [Map] from a non-secret socket identity
    to the number of strikes and the end of the waiting window.  The clock is
    an argument of every operation. *)

From S2P Require Import Prelude Validation.
#[local] Open Scope bool_scope.
#[local] Open Scope Z_scope.
#[local] Open Scope js_scope.

Definition COOL_DOWN_BASE_MS : Z := 5000.
Definition COOL_DOWN_MAX_MS : Z := 5 * 60000.
Definition COOL_DOWN_RESET_MS : Z := 15 * 60000.
Definition COOL_DOWN_MAX_ENTRIES : Z := 10000.
Definition SWEEP_PER_STRIKE : Z := 8.

Record entry := { strikes : Z; until : Z; admissionOnly : bool }.

Record CoolDownRegistry := {
  baseMs : Z;
  maxMs : Z;
  resetMs : Z;
  maxEntries : Z;
  entries : list (jstr * entry);
}.

Definition newRegistry (maxEntries : Z) : CoolDownRegistry :=
  {| baseMs := COOL_DOWN_BASE_MS; maxMs := COOL_DOWN_MAX_MS; resetMs := COOL_DOWN_RESET_MS;
     maxEntries := maxEntries; entries := [] |}.

Definition with_entries (r : CoolDownRegistry) (m : list (jstr * entry)) : CoolDownRegistry :=
  {| baseMs := baseMs r; maxMs := maxMs r; resetMs := resetMs r;
     maxEntries := maxEntries r; entries := m |}.

Definition size (r : CoolDownRegistry) : Z := Z.of_nat (length (entries r)).

(** The [for] loop of [sweep] over the live map: [count] is the current
    [this.entries.size]. *)
Fixpoint sweep_loop (r : CoolDownRegistry) (now checked count : Z) (m : list (jstr * entry))
  : list (jstr * entry) :=
  match m with
  | [] => []
  | (key, e) :: rest =>
      if (count <=? maxEntries r) && (SWEEP_PER_STRIKE <=? checked) then m
      else if (maxEntries r <? count) || (resetMs r <? now - until e)
           then sweep_loop r now (checked + 1) (count - 1) rest
           else (key, e) :: sweep_loop r now (checked + 1) count rest
  end.

Definition sweep (r : CoolDownRegistry) (now : Z) : CoolDownRegistry :=
  with_entries r (sweep_loop r now 0 (size r) (entries r)).

Definition backoff (r : CoolDownRegistry) (n : Z) : Z :=
  Z.min (maxMs r) (baseMs r * 2 ^ Z.min (n - 1) 30).

Definition strike (r : CoolDownRegistry) (now : Z) (key : jstr) (admission : bool)
  : Z * CoolDownRegistry :=
  let previous := map_get key (entries r) in
  let fresh := match previous with
               | None => true
               | Some p => resetMs r <? now - until p
               end in
  let n := match previous with
           | Some p => if fresh then 1 else strikes p + 1
           | None => 1
           end in
  let backoffMs := backoff r n in
  let e := {| strikes := n; until := now + backoffMs;
              admissionOnly := admission
                && (fresh || match previous with Some p => admissionOnly p | None => false end) |} in
  (backoffMs, sweep (with_entries r (map_push key e (entries r))) now).

(** [remaining] is given the key or [null]. *)
Definition remaining (r : CoolDownRegistry) (now : Z) (key : option jstr) (admitted : bool)
  : Z * CoolDownRegistry :=
  match key with
  | None => (0, r)
  | Some key =>
      if key =?s "" then (0, r) else
      match map_get key (entries r) with
      | None => (0, r)
      | Some e =>
          if admitted && admissionOnly e then (0, with_entries r (map_delete key (entries r)))
          else if resetMs r <? now - until e then (0, with_entries r (map_delete key (entries r)))
          else (Z.max 0 (until e - now), r)
      end
  end.

(** ** Identities *)

Definition upgradeIdentity (room recipientKeyId : option jstr) : option jstr :=
  match room, recipientKeyId with
  | Some room, Some r =>
      if r =?s "" then None
      else Some (sslice 0 16 room +++ "|k|" +++ sslice 0 32 r)
  | _, _ => None
  end.

(** [Math.imul(a, b) >>> 0] *)
Definition imul (a b : N) : N := ((a * b) mod 4294967296)%N.

(** [x.toString(16).padStart(8, "0")] of a 32-bit integer. *)
Definition hex8 (x : N) : list N :=
  map (fun i => hex_digit (N.shiftr x (4 * i) mod 16)) [7; 6; 5; 4; 3; 2; 1; 0]%N.

Fixpoint digest_loop (first second : N) (value : list N) : N * N :=
  match value with
  | [] => (first, second)
  | code :: rest =>
      digest_loop (imul (N.lxor first code) 16777619) (imul (N.lxor second code) 2166136261) rest
  end.

Definition digest (value : jstr) : jstr :=
  let '(first, second) := digest_loop 2166136261 16777619 (units value) in
  JS (hex8 first ++ hex8 second).

Definition socketIdentity (room recipientKeyId role : option jstr) (senderId : jsv)
  : option jstr :=
  match upgradeIdentity room recipientKeyId with
  | Some keyed => Some keyed
  | None =>
      match room, role, str_opt senderId with
      | Some room, Some role, Some senderId =>
          if role =?s "" then None
          else Some (sslice 0 16 room +++ "|s|" +++ role +++ "|" +++ digest senderId)
      | _, _, _ => None
      end
  end.

(** ** Invariant: one entry per identity, at most [maxEntries] of them *)

Definition registry_wf (r : CoolDownRegistry) : Prop :=
  0 < baseMs r <= maxMs r /\ 0 <= resetMs r /\ 1 <= maxEntries r /\
  NoDup (entries r).*1 /\ size r <= maxEntries r /\
  Forall (fun p => 1 <= strikes p.2) (entries r).

Lemma sweep_loop_sublist r now c n m : sweep_loop r now c n m `sublist_of` m.
Proof.
  revert c n. induction m as [|[k e] m IH]; intros c n; simpl; [done|].
  repeat case_match; [done|by constructor|by constructor].
Qed.

Lemma sweep_loop_length r now c n m :
  n = Z.of_nat (length m) ->
  Z.of_nat (length (sweep_loop r now c n m)) <= Z.max 0 (maxEntries r).
Proof.
  assert (forall m c n, Z.of_nat (length m) <= n ->
    Z.of_nat (length (sweep_loop r now c n m)) <= Z.max 0 (Z.of_nat (length m) - (n - maxEntries r))) as H.
  { clear. induction m as [|[k e] m IH]; intros c n Hn; simpl; [lia|].
    simpl in Hn. repeat case_match; split_andb; reflect_bools; simpl.
    - lia.
    - specialize (IH (c + 1) (n - 1)). lia.
    - specialize (IH (c + 1) n). destruct (decide (n <= maxEntries r)); [|lia].
      pose proof (sublist_length _ _ (sweep_loop_sublist r now (c + 1) n m)). lia. }
  intros ->. specialize (H m c _ ltac:(reflexivity)). lia.
Qed.

(** An entry that is neither stale nor over the limit survives a sweep; the
    most recently pushed one always does. *)
Lemma sweep_loop_last r now c n m k e :
  1 <= maxEntries r -> n = Z.of_nat (length m) + 1 -> now - until e <= resetMs r ->
  exists m', sweep_loop r now c n (m ++ [(k, e)]) = m' ++ [(k, e)] /\ m' `sublist_of` m.
Proof.
  intros Hmax Hn He.
  assert (forall m c n, n <= Z.of_nat (length m) + 1 \/ n <= maxEntries r ->
    exists m', sweep_loop r now c n (m ++ [(k, e)]) = m' ++ [(k, e)] /\ m' `sublist_of` m) as H.
  { clear -Hmax He. induction m as [|[k' e'] m IH]; intros c n Hn; simpl.
    - exists []. split; [|done]. simpl in Hn. repeat case_match; try done; [].
      apply orb_true_iff in H0 as [H0|H0]; reflect_bools; lia.
    - simpl in Hn. repeat case_match.
      + exists ((k', e') :: m). done.
      + destruct (IH (c + 1) (n - 1)) as (m' & -> & Hs); [lia|]. exists m'. split; [done|by constructor].
      + split_andb. reflect_bools.
        destruct (IH (c + 1) n) as (m' & -> & Hs); [lia|].
        exists ((k', e') :: m'). split; [done|by constructor]. }
  apply H. lia.
Qed.

Lemma backoff_bounds r n : 0 < baseMs r <= maxMs r -> 1 <= n -> baseMs r <= backoff r n <= maxMs r.
Proof.
  intros Hb Hn. unfold backoff.
  assert (1 <= 2 ^ Z.min (n - 1) 30) by (change 1 with (2 ^ 0); apply Z.pow_le_mono_r; lia).
  nia.
Qed.

Lemma backoff_mono r n n' : 0 < baseMs r -> n <= n' -> backoff r n <= backoff r n'.
Proof.
  intros Hb Hn. unfold backoff.
  assert (2 ^ Z.min (n - 1) 30 <= 2 ^ Z.min (n' - 1) 30) by (apply Z.pow_le_mono_r; lia).
  nia.
Qed.

Lemma strike_wf r now key admission :
  registry_wf r -> registry_wf (strike r now key admission).2.
Proof.
  intros (Hb & Hr & Hm & Hnd & Hsz & Hst). unfold strike. simpl.
  set (e := Build_entry _ _ _). set (m := map_push key e (entries r)).
  assert (1 <= strikes e) as He.
  { simpl. destruct (map_get key (entries r)) as [p|] eqn:Hp; [|lia].
    apply map_get_Some in Hp. rewrite Forall_forall in Hst. specialize (Hst _ Hp). simpl in Hst.
    case_match; lia. }
  pose proof (sweep_loop_sublist (with_entries r m) now 0 (size (with_entries r m)) m) as Hsub.
  repeat split; simpl; try lia.
  - eapply sublist_NoDup; [|by apply sublist_keys]. by apply map_push_nodup.
  - unfold size at 1. simpl.
    pose proof (sweep_loop_length (with_entries r m) now 0 (size (with_entries r m)) m eq_refl) as H.
    simpl in H. lia.
  - eapply sublist_Forall; [done|]. unfold m, map_push. apply Forall_app. split; [|by constructor].
    eapply sublist_Forall; [apply map_delete_sublist|done].
Qed.

Lemma remaining_wf r now key admitted :
  registry_wf r -> registry_wf (remaining r now key admitted).2.
Proof.
  intros Hwf. unfold remaining. repeat case_match; try done;
    destruct Hwf as (Hb & Hr & Hm & Hnd & Hsz & Hst); repeat split; simpl; try lia;
    try (eapply sublist_NoDup; [done|apply sublist_keys, map_delete_sublist]);
    try (eapply sublist_Forall; [apply map_delete_sublist|done]).
  all: unfold size in *; simpl;
    match goal with |- context [map_delete ?k ?m] =>
      pose proof (sublist_length _ _ (map_delete_sublist k m)) end; lia.
Qed.

(** ** What a strike records *)

Definition strike_count (r : CoolDownRegistry) (now : Z) (key : jstr) : Z :=
  match map_get key (entries r) with
  | Some p => if resetMs r <? now - until p then 1 else strikes p + 1
  | None => 1
  end.

Lemma strike_backoff r now key admission :
  (strike r now key admission).1 = backoff r (strike_count r now key).
Proof. unfold strike, strike_count. simpl. by destruct (map_get key (entries r)). Qed.

Lemma strike_count_pos r now key : registry_wf r -> 1 <= strike_count r now key.
Proof.
  intros (_ & _ & _ & _ & _ & Hst). unfold strike_count.
  destruct (map_get key (entries r)) as [p|] eqn:Hp; [|lia].
  apply map_get_Some in Hp. rewrite Forall_forall in Hst. specialize (Hst _ Hp). simpl in Hst.
  case_match; lia.
Qed.

Lemma strike_entries r now key admission :
  registry_wf r ->
  exists m e, entries (strike r now key admission).2 = m ++ [(key, e)] /\
    m `sublist_of` map_delete key (entries r) /\
    strikes e = strike_count r now key /\
    until e = now + backoff r (strike_count r now key) /\
    (admissionOnly e = true -> admission = true).
Proof.
  intros Hwf. pose proof (strike_count_pos r now key Hwf) as Hpos.
  destruct Hwf as (Hb & Hr & Hm & Hnd & Hsz & Hst). unfold strike. simpl.
  match goal with |- context [map_push key ?x _] => set (e := x) end.
  assert (strikes e = strike_count r now key) as He
    by (unfold strike_count; simpl; by destruct (map_get key (entries r))).
  assert (until e = now + backoff r (strike_count r now key)) as Hu
    by (unfold strike_count; simpl; by destruct (map_get key (entries r))).
  pose proof (backoff_bounds r _ Hb Hpos) as Hbb.
  unfold map_push.
  match goal with |- context [sweep_loop ?R now 0 ?n (?mm ++ _)] =>
    destruct (sweep_loop_last R now 0 n mm key e) as (m' & -> & Hs) end.
  - done.
  - unfold size. simpl. rewrite length_app. simpl. lia.
  - rewrite Hu. simpl. lia.
  - exists m', e. split_and!; try done. simpl. by intros [? _]%andb_true_iff.
Qed.

(** Every operation of the registry. *)
Inductive registry_step : CoolDownRegistry -> CoolDownRegistry -> Prop :=
| step_strike r now key admission : registry_step r (strike r now key admission).2
| step_remaining r now key admitted : registry_step r (remaining r now key admitted).2.

Inductive registry_reachable (r0 : CoolDownRegistry) : CoolDownRegistry -> Prop :=
| reach_new : registry_reachable r0 r0
| reach_step r r' : registry_reachable r0 r -> registry_step r r' -> registry_reachable r0 r'.

Lemma reachable_wf r0 r : registry_wf r0 -> registry_reachable r0 r -> registry_wf r.
Proof.
  intros H0. induction 1 as [|r r' _ IH Hs]; [done|].
  destruct Hs; auto using strike_wf, remaining_wf.
Qed.

Lemma newRegistry_wf n : 1 <= n -> registry_wf (newRegistry n).
Proof. intros Hn. repeat split; simpl; try done; try constructor. unfold size. simpl. lia. Qed.

(** ** Properties *)

(** the cool-down registry of a runtime, from its creation, through any
    sequence of strikes and look-ups at any clock values, never holds more than
    [maxEntries] identities, holds each identity once, and keeps its strike
    counts positive. *)
Theorem registry_bounded n r :
  1 <= n -> registry_reachable (newRegistry n) r ->
  size r <= n /\ NoDup (entries r).*1 /\ maxEntries r = n.
Proof.
  intros Hn Hr. pose proof (reachable_wf _ _ (newRegistry_wf n Hn) Hr) as (_ & _ & _ & Hnd & Hsz & _).
  assert (maxEntries r = n) as Hm.
  { clear Hnd Hsz. induction Hr as [|r r' _ IH Hs]; [done|]. destruct Hs; [done|].
    unfold remaining. by repeat case_match. }
  rewrite Hm in Hsz. done.
Qed.

Lemma registry_bounded_witness :
  1 <= 2 /\ size (strike (strike (strike (newRegistry 2) 0 "a" true).2 1 "b" false).2 2 "c" false).2 <= 2.
Proof.
  split; [lia|].
  apply (registry_bounded 2); [lia|].
  repeat (eapply reach_step; [|apply step_strike]). apply reach_new.
Defined.

(** after a strike the identity waits at least [baseMs] and at most
    [maxMs]; consecutive strikes within [resetMs] double the wait, and a
    presented identity that is not an admitted computer is refused for exactly
    the remaining part of that wait. *)
Theorem strike_enforces_backoff r now key admission t :
  registry_wf r -> key <> "" -> now <= t <= now + (strike r now key admission).1 + resetMs r ->
  let w := (strike r now key admission).1 in
  let r' := (strike r now key admission).2 in
  baseMs r <= w <= maxMs r /\
  w = Z.min (maxMs r) (baseMs r * 2 ^ Z.min (strike_count r now key - 1) 30) /\
  (strike_count r' t key = strike_count r now key + 1) /\
  remaining r' t (Some key) false = (Z.max 0 (now + w - t), r').
Proof.
  intros Hwf Hk Ht. cbv zeta. rewrite !strike_backoff in *.
  pose proof (strike_count_pos r now key Hwf) as Hpos.
  destruct (strike_entries r now key admission Hwf) as (m & e & Hent & Hsub & Hn & Hu & _).
  assert (map_get key (entries (strike r now key admission).2) = Some e) as Hget.
  { rewrite Hent, map_get_app. simpl. rewrite decide_True by done.
    destruct (map_get key m) as [e'|] eqn:Hg; [|done].
    apply map_get_Some in Hg. eapply elem_of_sublist in Hsub; [|done].
    exfalso. apply (map_delete_fresh key (entries r)), list_elem_of_fmap. by exists (key, e'). }
  destruct Hwf as (Hb & Hr & _). pose proof (backoff_bounds r _ Hb Hpos) as [??].
  split_and!; try done.
  - unfold strike_count at 1. rewrite Hget, Hu, Hn.
    change (resetMs (strike r now key admission).2) with (resetMs r).
    rewrite (proj2 (Z.ltb_ge _ _)) by lia. done.
  - unfold remaining. unfold jeqb. rewrite bool_decide_eq_false_2 by done. rewrite Hget. simpl.
    change (resetMs (strike r now key admission).2) with (resetMs r).
    rewrite Hu, (proj2 (Z.ltb_ge _ _)) by lia. done.
Qed.

Lemma strike_enforces_backoff_witness :
  remaining (strike (newRegistry 4) 1000 "k" false).2 2000 (Some ("k" : jstr)) false
  = (Z.max 0 (1000 + 5000 - 2000), (strike (newRegistry 4) 1000 "k" false).2).
Proof.
  pose proof (strike_enforces_backoff (newRegistry 4) 1000 "k" false 2000
    (newRegistry_wf 4 ltac:(lia)) ltac:(done) ltac:(vm_compute; split; discriminate)) as (_ & _ & _ & H).
  exact H.
Defined.

(** Presenting an identity never lengthens any wait: a look-up keeps or
    drops entries and changes none, and an identity waiting for a reason other
    than admission is not released by a valid lease. *)
Theorem refused_attempt_never_extends r now key admitted :
  entries (remaining r now key admitted).2 `sublist_of` entries r /\
  (forall k e, key = Some k -> k <> "" -> map_get k (entries r) = Some e -> admissionOnly e = false ->
     now <= until e -> 0 <= resetMs r ->
     remaining r now key admitted = (until e - now, r)).
Proof.
  split.
  - unfold remaining. repeat case_match; simpl; auto using map_delete_sublist.
  - intros k e -> Hk He Ha Hu Hr. unfold remaining, jeqb.
    rewrite bool_decide_eq_false_2, He, Ha, andb_false_r by done.
    rewrite (proj2 (Z.ltb_ge _ _)) by lia. by rewrite Z.max_r by lia.
Qed.

Lemma refused_attempt_never_extends_witness :
  remaining (strike (newRegistry 4) 1000 "k" false).2 2000 (Some ("k" : jstr)) true
  = (4000, (strike (newRegistry 4) 1000 "k" false).2).
Proof.
  destruct (refused_attempt_never_extends (strike (newRegistry 4) 1000 "k" false).2 2000
    (Some ("k" : jstr)) true) as [_ H].
  apply (H "k" {| strikes := 1; until := 6000; admissionOnly := false |});
    [done|done|reflexivity|done|vm_compute; discriminate|vm_compute; discriminate].
Defined.
