(* ===== verification/ConnectionPolicy.v ===== *)
(** * Connection policy shared by both runtimes
    [src/relay/connectionPolicy.js] and [src/relay/submissionReceipts.js].

    Effects on a socket (a close, a frame sent, a log line) are values of the
    result; the handlers of [NodeSocket] apply them. *)

From S2P Require Import Prelude Validation CoolDown.
#[local] Open Scope bool_scope.
#[local] Open Scope Z_scope.
#[local] Open Scope js_scope.

(** ** Close policies *)

Record close_policy := { code : Z; coolDown : bool; admission : bool }.

Inductive close_token :=
| AdmissionExpired | AdmissionRequired | HubAdmissionRequired | AdmissionRenewalRejected
| CoolDownToken | RateLimit | Oversize.
#[export] Instance close_token_eq_dec : EqDecision close_token.
Proof. solve_decision. Defined.

Definition token_text (t : close_token) : jstr :=
  match t with
  | AdmissionExpired => "admission-expired"
  | AdmissionRequired => "admission-required"
  | HubAdmissionRequired => "hub-admission-required"
  | AdmissionRenewalRejected => "admission-renewal-rejected"
  | CoolDownToken => "cool-down"
  | RateLimit => "rate-limit"
  | Oversize => "oversize"
  end.

Definition CLOSE_POLICIES (t : close_token) : close_policy :=
  match t with
  | AdmissionExpired => {| code := 4401; coolDown := true; admission := true |}
  | AdmissionRequired => {| code := 4403; coolDown := true; admission := true |}
  | HubAdmissionRequired => {| code := 4406; coolDown := true; admission := true |}
  | AdmissionRenewalRejected => {| code := 4409; coolDown := true; admission := true |}
  | CoolDownToken => {| code := 4425; coolDown := false; admission := false |}
  | RateLimit => {| code := 4429; coolDown := true; admission := false |}
  | Oversize => {| code := 1009; coolDown := true; admission := false |}
  end.

Inductive QUEUE_RESULT := STORED | DUPLICATE | OVERSIZE | EXPIRED | NO_ROOM | FULL.
#[export] Instance QUEUE_RESULT_eq_dec : EqDecision QUEUE_RESULT.
Proof. solve_decision. Defined.

Definition MAX_SOCKET_MESSAGES_PER_SECOND : Z := 300.

Definition closeReason (token : close_token) (retryAfterSeconds : option Z) : jstr :=
  match retryAfterSeconds with
  | Some s => if 0 <? s then token_text token +++ "; retry-after=" +++ Z_text s else token_text token
  | None => token_text token
  end.

Definition admissionCloseToken (envelope : jsv) : close_token :=
  match get "senderId" envelope with
  | JStr s => if starts_with "hub-" s then HubAdmissionRequired else AdmissionRequired
  | _ => AdmissionRequired
  end.

(** ** [submissionReceipts.js] *)

Definition SUBMISSION_PREFIXES : list jstr := ["user-message-"; "approval-decision-"; "attachment-"].

(** [isDurableSubmission(deliveryId)] with [typeof deliveryId !== 'string'] as [None]. *)
Definition isDurableSubmission (deliveryId : option jstr) : bool :=
  match deliveryId with
  | Some d => existsb (fun prefix => starts_with prefix d && (slen prefix <? slen d)) SUBMISSION_PREFIXES
  | None => false
  end.

Inductive queue_outcome := Forward | Close (t : close_token) | Drop (reason : jstr).

Definition queueOutcome (result : QUEUE_RESULT) (deliveryId : option jstr) : queue_outcome :=
  match result with
  | STORED | DUPLICATE => Forward
  | OVERSIZE => if isDurableSubmission deliveryId then Drop "oversize" else Close Oversize
  | FULL => Drop "full"
  | NO_ROOM => Drop "no-room"
  | EXPIRED => Drop "expired"
  end.

(** ** Frames the relay writes on its own account *)

Definition droppedNotice (deliveryId : jsv) (reason : jstr) : jsv :=
  JObj [("type", JStr "relay.dropped"); ("deliveryId", deliveryId); ("reason", JStr reason)].

Definition storedSubmissionNotice (deliveryId : jsv) : jsv :=
  JObj [("type", JStr "relay.stored"); ("deliveryId", deliveryId)].

(** ** The per-socket frame window *)

(** [None] is the initial [windowStartedAt: -Infinity] of the Worker. *)
Record frame_window := { windowStartedAt : option Z; windowMessages : Z }.

Definition acceptSocketFrame (w : frame_window) (now limit : Z) : bool * frame_window :=
  let w := match windowStartedAt w with
           | Some t => if now - t <? 1000 then w
                       else {| windowStartedAt := Some now; windowMessages := 0 |}
           | None => {| windowStartedAt := Some now; windowMessages := 0 |}
           end in
  let n := windowMessages w + 1 in
  (n <=? limit, {| windowStartedAt := windowStartedAt w; windowMessages := n |}).

(** ** Policy closes *)

Definition ceil_seconds (ms : Z) : Z := (ms + 999) / 1000.

Record policy_close := {
  pc_retryAfter : option Z;
  pc_code : Z;
  pc_reason : jstr;
}.

(** [applyPolicyClose]: the strike, then [close(code, reason)]. *)
Definition applyPolicyClose (token : close_token) (identity : option jstr)
    (coolDowns : CoolDownRegistry) (now : Z) : policy_close * CoolDownRegistry :=
  let policy := CLOSE_POLICIES token in
  let '(backoffMs, coolDowns') :=
    match identity with
    | Some id =>
        if coolDown policy && negb (id =?s "") then strike coolDowns now id (admission policy)
        else (0, coolDowns)
    | None => (0, coolDowns)
    end in
  let retryAfter := if 0 <? backoffMs then Some (ceil_seconds backoffMs) else None in
  ({| pc_retryAfter := retryAfter; pc_code := code policy; pc_reason := closeReason token retryAfter |},
   coolDowns').

Definition refuseCoolingFrame (remainingMs : Z) : policy_close :=
  let retryAfter := Z.max 1 (ceil_seconds remainingMs) in
  {| pc_retryAfter := Some retryAfter; pc_code := code (CLOSE_POLICIES CoolDownToken);
     pc_reason := closeReason CoolDownToken (Some retryAfter) |}.

(** A policy close keeps the registry of cool-downs well formed. *)
Lemma applyPolicyClose_wf token identity c now : registry_wf c -> registry_wf (applyPolicyClose token identity c now).2.
Proof.
  intros H. unfold applyPolicyClose. destruct identity as [i|]; [|done]. destruct (_ && _); [|done].
  pose proof (strike_wf c now i (admission (CLOSE_POLICIES token)) H) as Hs. by destruct (strike _ _ _ _).
Qed.

(** ** Retention of explicit submissions *)

(** A stored row: rows written before receipts existed are bare strings. *)
Record queued := {
  q_raw : jstr;
  q_rawBytes : option Z;
  q_deliveryId : option jstr;
  q_queuedAt : option Z;
  q_expiresAt : option Z;
}.
Inductive queue_row := LegacyRow (raw : jstr) | Row (q : queued).

Definition row_deliveryId (r : queue_row) : option jstr :=
  match r with Row q => q_deliveryId q | LegacyRow _ => None end.
Definition row_raw (r : queue_row) : jstr := match r with Row q => q_raw q | LegacyRow s => s end.

Definition rowBytes (r : queue_row) : Z :=
  match r with
  | Row q => match q_rawBytes q with Some n => n | None => byte_length (q_raw q) end
  | LegacyRow s => byte_length s
  end.
Definition rows_bytes (rows : list queue_row) : Z := foldr (fun r n => rowBytes r + n) 0 rows.

Record retention_limits := { frameBytes : Z; queueBytes : Z }.

Definition submissionRetentionLimits (role : jstr) (deliveryId : option jstr) : retention_limits :=
  if (role =?s "machine") && isDurableSubmission deliveryId
  then {| frameBytes := 22010000; queueBytes := 32000000 |}
  else {| frameBytes := 1800000; queueBytes := 1800000 |}.

Definition is_durable (r : queue_row) : bool := isDurableSubmission (row_deliveryId r).

(** The first row that may be evicted, [rows.findIndex(...)], and the rows around it. *)
Fixpoint split_removable (rows : list queue_row) : option (list queue_row * queue_row * list queue_row) :=
  match rows with
  | [] => None
  | r :: rest =>
      if is_durable r
      then match split_removable rest with
           | Some (a, x, b) => Some (r :: a, x, b)
           | None => None
           end
      else Some ([], r, rest)
  end.

(** The [while] loop.  [queue] is the current prefix [rows.slice(0, -1)]; the
    incoming row stays last, so [rows[removable] === incoming] holds when no
    row of the prefix is removable.  [None] stands for an exhausted fuel. *)
Fixpoint retain_loop (fuel : nat) (queue : list queue_row) (incoming : queue_row)
    (maxCount maxBytes : Z) : option (option (list queue_row)) :=
  let rows := queue ++ [incoming] in
  if (maxCount <? Z.of_nat (length rows)) || (maxBytes <? rows_bytes rows) then
    match fuel with
    | O => None
    | S fuel =>
        match split_removable queue with
        | None => Some None
        | Some (a, _, b) => retain_loop fuel (a ++ b) incoming maxCount maxBytes
        end
    end
  else Some (Some rows).

(** [{ result, rows }]; a full mailbox returns the queue it was given. *)
Definition retainSubmission (queue : list queue_row) (incoming : queue_row) (maxCount maxBytes : Z)
  : option (QUEUE_RESULT * list queue_row) :=
  match retain_loop (S (length queue)) queue incoming maxCount maxBytes with
  | Some (Some rows) => Some (STORED, rows)
  | Some None => Some (FULL, queue)
  | None => None
  end.

(** ** Lemmas on retention *)

Lemma rows_bytes_app a b : rows_bytes (a ++ b) = rows_bytes a + rows_bytes b.
Proof. unfold rows_bytes. induction a as [|r a IH]; simpl; lia. Qed.

Lemma split_removable_Some q a x b :
  split_removable q = Some (a, x, b) ->
  q = a ++ x :: b /\ Forall (fun r => is_durable r = true) a /\ is_durable x = false.
Proof.
  revert a x b. induction q as [|r q IH]; simpl; intros a x b H; [done|].
  destruct (is_durable r) eqn:Hr; [|by simplify_eq].
  destruct (split_removable q) as [[[a' x'] b']|]; [|done]. simplify_eq.
  destruct (IH _ _ _ eq_refl) as (-> & Ha & Hx). split_and!; [done|by constructor|done].
Qed.

Lemma split_removable_None q :
  split_removable q = None <-> Forall (fun r => is_durable r = true) q.
Proof.
  induction q as [|r q IH]; simpl; [by split|].
  destruct (is_durable r) eqn:Hr.
  - rewrite Forall_cons, Hr, <- IH. destruct (split_removable q) as [[[??]?]|]; naive_solver.
  - split; [done|]. intros H. apply Forall_cons in H as [H _]. congruence.
Qed.

Definition durable_rows (q : list queue_row) : list queue_row := filter (fun r => is_durable r = true) q.

Definition over_limit (rows : list queue_row) (maxCount maxBytes : Z) : Prop :=
  maxCount < Z.of_nat (length rows) \/ maxBytes < rows_bytes rows.

Lemma durable_rows_app a b : durable_rows (a ++ b) = durable_rows a ++ durable_rows b.
Proof. apply filter_app. Qed.

Lemma durable_rows_all a : Forall (fun r => is_durable r = true) a -> durable_rows a = a.
Proof.
  unfold durable_rows. induction 1 as [|r a Hr _ IH]; [done|].
  rewrite filter_cons, decide_True by done. by rewrite IH.
Qed.

Lemma durable_rows_drop a x b :
  is_durable x = false -> durable_rows (a ++ x :: b) = durable_rows (a ++ b).
Proof.
  intros Hx. rewrite !durable_rows_app. f_equal. unfold durable_rows.
  rewrite filter_cons, decide_False by congruence. done.
Qed.

(** What the loop does, in terms of the rows it started from. *)
Inductive retained (queue : list queue_row) (incoming : queue_row) (maxCount maxBytes : Z)
  : option (list queue_row) -> Prop :=
| retained_stored a b :
    queue = a ++ b ->
    ~ over_limit ((durable_rows a ++ b) ++ [incoming]) maxCount maxBytes ->
    (a <> [] -> exists a0 x a1, a = a0 ++ x :: a1 /\ is_durable x = false /\
       Forall (fun r => is_durable r = true) a1 /\
       over_limit ((durable_rows a0 ++ x :: a1 ++ b) ++ [incoming]) maxCount maxBytes) ->
    retained queue incoming maxCount maxBytes (Some ((durable_rows a ++ b) ++ [incoming]))
| retained_full :
    over_limit (durable_rows queue ++ [incoming]) maxCount maxBytes ->
    retained queue incoming maxCount maxBytes None.

Lemma retain_loop_spec fuel queue incoming maxCount maxBytes :
  (length queue < fuel)%nat ->
  exists r, retain_loop fuel queue incoming maxCount maxBytes = Some r /\
            retained queue incoming maxCount maxBytes r.
Proof.
  (* [done_rows]: the durable rows already passed, [todo]: the rest *)
  revert queue. induction fuel as [|fuel IH]; intros queue Hf; [lia|].
  cbn [retain_loop]. case_match eqn:E.
  - assert (over_limit (queue ++ [incoming]) maxCount maxBytes) as Hover.
    { apply orb_true_iff in E as [E|E]; reflect_bools; [by left|by right]. }
    destruct (split_removable queue) as [[[a x] b]|] eqn:Es.
    + apply split_removable_Some in Es as (-> & Ha & Hx).
      rewrite length_app in Hf. simpl in Hf.
      destruct (IH (a ++ b)) as (r & Hr & Hret); [rewrite length_app; lia|].
      exists r. split; [done|].
      destruct Hret as [c d Hcd Hin Hmin|Hfull].
      * (* the first removable row of [a ++ x :: b] is [x] *)
        destruct (decide (c = [])) as [->|Hc].
        -- simpl in Hcd, Hin |- *. subst d.
           replace (a ++ b) with (durable_rows (a ++ [x]) ++ b).
           2:{ rewrite durable_rows_drop, app_nil_r, durable_rows_all by done. done. }
           constructor.
           ++ by rewrite <- app_assoc.
           ++ rewrite durable_rows_drop, app_nil_r, durable_rows_all by done. done.
           ++ intros _. exists a, x, []. split_and!; try done.
              rewrite (durable_rows_all a) by done. done.
        -- destruct (Hmin Hc) as (c0 & y & c1 & -> & Hy & Hc1 & Hov).
           assert (exists c0', c0 = a ++ c0') as (c0' & ->).
           { rewrite <- app_assoc in Hcd. simpl in Hcd. clear -Hcd Ha Hy.
             revert c0 Hcd. induction Ha as [|r a Hr Ha IHa]; intros c0 Hcd; [by exists c0|].
             destruct c0 as [|r' c0]; simpl in Hcd; injection Hcd as Hr' Hcd; [congruence|].
             subst r'. destruct (IHa _ Hcd) as (c0' & ->). by exists c0'. }
           rewrite <- !app_assoc in Hcd. apply app_inv_head in Hcd. subst b.
           replace (durable_rows ((a ++ c0') ++ y :: c1)) with
             (durable_rows ((a ++ x :: c0') ++ y :: c1)).
           2:{ rewrite <- !app_assoc. simpl. by rewrite durable_rows_drop. }
           constructor.
           ++ by rewrite <- !app_assoc.
           ++ rewrite <- !app_assoc in Hin |- *. simpl. by rewrite durable_rows_drop.
           ++ intros _. exists (a ++ x :: c0'), y, c1. split_and!; try done.
              by rewrite durable_rows_drop.
      * constructor. by rewrite durable_rows_drop.
    + apply split_removable_None in Es. exists None. split; [done|].
      constructor. by rewrite durable_rows_all.
  - exists (Some (queue ++ [incoming])). split; [done|].
    apply (retained_stored queue incoming maxCount maxBytes [] queue); [done| |done].
    apply orb_false_iff in E as [E1 E2]. reflect_bools. intros [?|?]; simpl in *; lia.
Qed.

Lemma over_limit_sublist a b maxCount maxBytes :
  a `sublist_of` b -> Forall (fun r => 0 <= rowBytes r) b ->
  over_limit a maxCount maxBytes -> over_limit b maxCount maxBytes.
Proof.
  intros Hs Hb [H|H]; [left|right].
  - apply sublist_length in Hs. lia.
  - enough (rows_bytes a <= rows_bytes b) by lia. clear H.
    unfold rows_bytes. induction Hs as [|r a b Hs IH|r a b Hs IH]; simpl; [done|..];
      apply Forall_cons in Hb as [Hr Hb]; specialize (IH Hb); lia.
Qed.

Lemma durable_rows_sublist q : durable_rows q `sublist_of` q.
Proof. apply sublist_filter. Qed.

(** The two outcomes of [retainSubmission], as the stores use them. *)
Lemma retainSubmission_cases queue incoming maxCount maxBytes :
  (exists a b, queue = a ++ b /\
    retainSubmission queue incoming maxCount maxBytes
      = Some (STORED, durable_rows a ++ b ++ [incoming]) /\
    ~ over_limit (durable_rows a ++ b ++ [incoming]) maxCount maxBytes) \/
  (retainSubmission queue incoming maxCount maxBytes = Some (FULL, queue) /\
   over_limit (durable_rows queue ++ [incoming]) maxCount maxBytes).
Proof.
  unfold retainSubmission.
  destruct (retain_loop_spec (S (length queue)) queue incoming maxCount maxBytes) as (r & -> & Hr); [lia|].
  destruct Hr as [a b -> Hin _|Hfull]; [left|by right].
  exists a, b. rewrite app_assoc. done.
Qed.

(** ** Properties of retention *)

(** C27: keeping a frame always returns: either the frame is stored last behind
    the queue from which only the oldest transient rows were evicted -- every
    explicit submission stays, in order, and the count and byte limits hold --
    or the mailbox is full, the queue is returned unchanged, and even without
    any transient row the frame would not have fitted. *)
Theorem retainSubmission_spec queue incoming maxCount maxBytes :
  exists result rows,
    retainSubmission queue incoming maxCount maxBytes = Some (result, rows) /\
    ((result = STORED /\
      exists evicted_from kept,
        queue = evicted_from ++ kept /\
        rows = durable_rows evicted_from ++ kept ++ [incoming] /\
        durable_rows (durable_rows evicted_from ++ kept) = durable_rows queue /\
        ~ over_limit rows maxCount maxBytes) \/
     (result = FULL /\ rows = queue /\
      over_limit (durable_rows queue ++ [incoming]) maxCount maxBytes)).
Proof.
  unfold retainSubmission.
  destruct (retain_loop_spec (S (length queue)) queue incoming maxCount maxBytes) as (r & -> & Hr); [lia|].
  destruct Hr as [a b -> Hin _|Hfull].
  - eexists _, _. split; [done|]. left. split; [done|]. exists a, b. split; [done|].
    rewrite <- app_assoc. split; [done|]. rewrite app_assoc. split; [|done].
    rewrite !durable_rows_app. f_equal. apply durable_rows_all. unfold durable_rows.
    apply list.Forall_forall. intros x Hx. by apply list_elem_of_filter in Hx as [? _].
  - eexists _, _. split; [done|]. right. done.
Qed.

(** Nothing is evicted without need: when transient rows were dropped, the
    frame did not fit behind the queue with the last of them still in place. *)
Theorem retainSubmission_minimal queue incoming maxCount maxBytes rows :
  retainSubmission queue incoming maxCount maxBytes = Some (STORED, rows) ->
  rows = queue ++ [incoming] \/
  exists a x b, queue = a ++ x :: b /\ is_durable x = false /\
    over_limit (durable_rows a ++ x :: b ++ [incoming]) maxCount maxBytes /\
    rows = durable_rows a ++ b ++ [incoming].
Proof.
  unfold retainSubmission.
  destruct (retain_loop_spec (S (length queue)) queue incoming maxCount maxBytes) as (r & -> & Hr); [lia|].
  destruct Hr as [a b -> Hin Hmin|Hfull]; intros [= <-].
  destruct (decide (a = [])) as [->|Ha]; [by left|right].
  destruct (Hmin Ha) as (a0 & x & a1 & -> & Hx & Ha1 & Hov).
  exists a0, x, (a1 ++ b). split_and!; [by rewrite <- app_assoc|done| |].
  - eassert (_ = durable_rows a0 ++ x :: (a1 ++ b) ++ [incoming]) as <-; [|exact Hov]. list_eq.
  - rewrite durable_rows_drop, durable_rows_app, (durable_rows_all a1) by done.
    by rewrite <- !app_assoc.
Qed.

Definition sample_row (id raw : jstr) : queue_row :=
  Row {| q_raw := raw; q_rawBytes := Some 4; q_deliveryId := Some id; q_queuedAt := None;
         q_expiresAt := Some 9 |}.

Lemma retainSubmission_minimal_witness :
  retainSubmission [sample_row "a" "AAAA"; sample_row "user-message-1" "BBBB"; sample_row "c" "CCCC"]
    (sample_row "d" "DDDD") 3 1000
  = Some (STORED, [sample_row "user-message-1" "BBBB"; sample_row "c" "CCCC"; sample_row "d" "DDDD"]) /\
  (exists a x b, [sample_row "a" "AAAA"; sample_row "user-message-1" "BBBB"; sample_row "c" "CCCC"] = a ++ x :: b
     /\ is_durable x = false).
Proof.
  assert (retainSubmission [sample_row "a" "AAAA"; sample_row "user-message-1" "BBBB"; sample_row "c" "CCCC"]
    (sample_row "d" "DDDD") 3 1000
    = Some (STORED, [sample_row "user-message-1" "BBBB"; sample_row "c" "CCCC"; sample_row "d" "DDDD"])) as H
    by (vm_compute; reflexivity).
  split; [exact H|].
  destruct (retainSubmission_minimal _ _ _ _ _ H) as [Heq | (a & x & b & Hq & Hx & _)].
  - discriminate Heq.
  - exists a, x, b. split; [exact Hq|exact Hx].
Defined.

(** ** Properties of the frame window *)

Fixpoint accept_frames (w : frame_window) (times : list Z) (limit : Z) : list bool * frame_window :=
  match times with
  | [] => ([], w)
  | t :: rest =>
      let '(ok, w') := acceptSocketFrame w t limit in
      let '(oks, w'') := accept_frames w' rest limit in
      (ok :: oks, w'')
  end.

Lemma accept_frames_within w t0 times limit :
  windowStartedAt w = Some t0 -> Forall (fun t => t < t0 + 1000) times ->
  accept_frames w times limit =
    (map (fun i => windowMessages w + Z.of_nat i <=? limit) (seq 1 (length times)),
     {| windowStartedAt := Some t0; windowMessages := windowMessages w + Z.of_nat (length times) |}).
Proof.
  intros Hw HF. revert w Hw. induction HF as [|t times Ht _ IH]; intros w Hw; simpl.
  - destruct w as [s n]. simpl in *. subst. do 2 f_equal. lia.
  - unfold acceptSocketFrame. rewrite Hw, (proj2 (Z.ltb_lt _ _)) by lia.
    rewrite IH by done. simpl.
    apply f_equal2; [|f_equal; lia]. apply f_equal2; [done|].
    rewrite <- (seq_shift _ 1), map_map. apply map_ext. intros i. lia.
Qed.

(** In each one-second window the first [limit] frames are accepted and
    every later one is refused, whatever came before the window; a frame one
    second after the start of the window opens the next one. *)
Theorem frame_window_exact w t0 times limit :
  match windowStartedAt w with Some s => 1000 <= t0 - s | None => True end ->
  Forall (fun t => t < t0 + 1000) times -> 0 <= limit ->
  (accept_frames w (t0 :: times) limit).1
    = map (fun i => Z.of_nat i <=? limit) (seq 1 (S (length times))) /\
  length (filter (fun ok => ok = true) (accept_frames w (t0 :: times) limit).1)
    = Nat.min (S (length times)) (Z.to_nat limit).
Proof.
  intros Hw HF Hlim.
  assert ((accept_frames w (t0 :: times) limit).1
    = map (fun i => Z.of_nat i <=? limit) (seq 1 (S (length times)))) as H.
  { cbn [accept_frames]. unfold acceptSocketFrame.
    assert (match windowStartedAt w with
           | Some t => if t0 - t <? 1000 then w
                       else {| windowStartedAt := Some t0; windowMessages := 0 |}
           | None => {| windowStartedAt := Some t0; windowMessages := 0 |}
           end = {| windowStartedAt := Some t0; windowMessages := 0 |}) as ->.
    { destruct (windowStartedAt w); [|done]. by rewrite (proj2 (Z.ltb_ge _ _)) by lia. }
    rewrite (accept_frames_within _ t0) by done. simpl. f_equal.
    rewrite <- (seq_shift _ 1), map_map. apply map_ext. intros i. f_equal. lia. }
  split; [exact H|]. rewrite H. clear -Hlim.
  assert (forall n a, length (filter (fun ok => ok = true) (map (fun i => Z.of_nat i <=? limit) (seq (S a) n)))
                      = Nat.min n (Z.to_nat limit - a)) as Hn.
  { induction n as [|n IH]; intros a; [done|]. cbn [seq map]. rewrite filter_cons.
    destruct (Z.leb_spec (Z.of_nat (S a)) limit).
    - rewrite decide_True by done. cbn [length]. rewrite (IH (S a)). lia.
    - rewrite decide_False by done. rewrite (IH (S a)). lia. }
  rewrite (Hn _ 0%nat). lia.
Qed.

Lemma frame_window_exact_witness :
  length (filter (fun ok => ok = true)
    (accept_frames {| windowStartedAt := None; windowMessages := 0 |} [5; 6; 7; 1004] 2).1) = 2%nat.
Proof.
  apply (frame_window_exact {| windowStartedAt := None; windowMessages := 0 |} 5 [6; 7; 1004] 2);
    [done|repeat constructor; lia|lia].
Defined.

(** A policy close answers with the policy's code, carries a wait exactly
    when it recorded a strike against a known identity, and then the wait it
    announces covers the recorded backoff, rounded up to a second. *)
Theorem policy_close_announces_backoff token identity coolDowns now :
  registry_wf coolDowns ->
  let close := (applyPolicyClose token identity coolDowns now).1 in
  let coolDowns' := (applyPolicyClose token identity coolDowns now).2 in
  pc_code close = code (CLOSE_POLICIES token) /\
  match identity with
  | Some id =>
      if coolDown (CLOSE_POLICIES token) && negb (id =?s "") then
        exists s, pc_retryAfter close = Some s /\
          coolDowns' = (strike coolDowns now id (admission (CLOSE_POLICIES token))).2 /\
          s * 1000 - 999 <= (strike coolDowns now id (admission (CLOSE_POLICIES token))).1 <= s * 1000 /\
          pc_reason close = token_text token +++ "; retry-after=" +++ Z_text s
      else pc_retryAfter close = None /\ coolDowns' = coolDowns /\ pc_reason close = token_text token
  | None => pc_retryAfter close = None /\ coolDowns' = coolDowns /\ pc_reason close = token_text token
  end.
Proof.
  intros Hwf. unfold applyPolicyClose.
  destruct identity as [id|]; [|done].
  destruct (coolDown (CLOSE_POLICIES token) && negb (id =?s "")) eqn:E; [|done].
  pose proof (strike_backoff coolDowns now id (admission (CLOSE_POLICIES token))) as Hb.
  pose proof (strike_count_pos coolDowns now id Hwf) as Hpos.
  destruct Hwf as (Hbase & _). pose proof (backoff_bounds coolDowns _ Hbase Hpos) as [Hlo _].
  destruct (strike coolDowns now id (admission (CLOSE_POLICIES token))) as [ms r'] eqn:Es.
  simpl in *. rewrite Hb in *. rewrite (proj2 (Z.ltb_lt _ _)) by lia. split; [done|].
  unfold ceil_seconds. set (b := backoff _ _) in *.
  exists ((b + 999) / 1000). pose proof (Z.div_mod (b + 999) 1000 ltac:(lia)).
  pose proof (Z.mod_pos_bound (b + 999) 1000 ltac:(lia)).
  split_and!; [done|done|lia|lia|].
  unfold closeReason. rewrite (proj2 (Z.ltb_lt _ _)) by lia. done.
Qed.

Lemma policy_close_announces_backoff_witness :
  pc_code (applyPolicyClose RateLimit (Some ("x" : jstr)) (newRegistry 4) 0).1 = 4429 /\
  exists s, pc_retryAfter (applyPolicyClose RateLimit (Some ("x" : jstr)) (newRegistry 4) 0).1 = Some s.
Proof.
  destruct (policy_close_announces_backoff RateLimit (Some ("x" : jstr)) (newRegistry 4) 0
    (newRegistry_wf 4 ltac:(lia))) as (Hc & s & Hs & _).
  split; [exact Hc|]. exists s. exact Hs.
Defined.
