(* ===== verification/RelayLog.v ===== *)
(** * Sanitized, rate-limited diagnostics ([src/relay/relayLog.js])

    The logger keeps the last emission of each line key in an insertion-ordered
    map and a count of the lines of the current second.  A written line is the
    record [log_line]; its JSON text and timestamp format are not modelled. *)

From S2P Require Import Prelude Validation.
#[local] Open Scope bool_scope.
#[local] Open Scope Z_scope.
#[local] Open Scope js_scope.

Definition cls_token (u : N) : bool := in_range 97 122 u || in_range 48 57 u || (u =? 45)%N.

(** [/^[a-z][a-z0-9-]{0,47}$/] *)
Definition TOKEN (s : jstr) : bool :=
  match units s with
  | c :: rest => cls_lower c && re_class cls_token 0 47 (JS rest)
  | [] => false
  end.

Record log_fields := {
  f_room : jsv; f_role : jsv; f_code : jsv; f_status : jsv; f_retryAfter : jsv; f_reason : jsv;
}.

Definition roomTag (room : jsv) : jstr := if validRoom room then sslice 0 8 (str_of room) else "-".

Record clean_fields := {
  c_room : jstr; c_role : jstr; c_code : option Z; c_status : option Z;
  c_retryAfter : option Z; c_reason : option jstr;
}.

Definition clean_number (v : jsv) : option Z :=
  if is_safe_int v && (0 <=? int_of v) then Some (int_of v) else None.

(** [fields.reason] is a string or absent in every call of the relay. *)
Definition sanitizeLogFields (f : log_fields) : clean_fields :=
  {| c_room := roomTag (f_room f);
     c_role := if str_in (f_role f) ["machine"; "phone"] then str_of (f_role f) else "-";
     c_code := clean_number (f_code f);
     c_status := clean_number (f_status f);
     c_retryAfter := clean_number (f_retryAfter f);
     c_reason := if TOKEN (str_of (f_reason f)) then Some (str_of (f_reason f)) else None |}.

Record log_entry := { at_ : Z; suppressed : Z }.

Record log_state := {
  seen : list (jstr * log_entry);
  secondStartedAt : option Z;
  secondLines : Z;
}.
Definition createRelayLog : log_state := {| seen := []; secondStartedAt := None; secondLines := 0 |}.

Record log_line := { l_time : Z; l_event : jstr; l_fields : clean_fields; l_suppressed : option Z }.

Section Logger.
Context (intervalMs maxPerSecond maxKeys : Z).

Definition replace_dots (event : jstr) : jstr :=
  JS (map (fun u => if (u =? 46)%N || (u =? 95)%N then 45%N else u) (units event)).

Definition log_key (event : jstr) (e : clean_fields) : jstr :=
  event +++ "|" +++ c_room e +++ "|" +++ c_role e +++ "|" +++ default "" (c_reason e) +++ "|"
  +++ match c_code e, c_status e with
      | Some n, _ => Z_text n
      | None, Some n => Z_text n
      | None, None => ""
      end.

(** [previous.suppressed += 1] on the entry in place. *)
Definition bump (key : jstr) (st : log_state) : log_state :=
  match map_get key (seen st) with
  | Some p => {| seen := map_set key {| at_ := at_ p; suppressed := suppressed p + 1 |} (seen st);
                 secondStartedAt := secondStartedAt st; secondLines := secondLines st |}
  | None => st
  end.

Definition log (st : log_state) (time : Z) (event : jstr) (fields : log_fields)
  : option log_line * log_state :=
  if negb (TOKEN (replace_dots event)) then (None, st) else
  let entry := sanitizeLogFields fields in
  let key := log_key event entry in
  let previous := map_get key (seen st) in
  if match previous with Some p => time - at_ p <? intervalMs | None => false end
  then (None, bump key st)
  else
    let fresh := match secondStartedAt st with Some s => 1000 <=? time - s | None => true end in
    let st := if fresh
              then {| seen := seen st; secondStartedAt := Some time; secondLines := 0 |} else st in
    if maxPerSecond <=? secondLines st then (None, bump key st)
    else
      let seen1 := map_push key {| at_ := time; suppressed := 0 |} (seen st) in
      let seen2 := if maxKeys <? Z.of_nat (length seen1) then tail seen1 else seen1 in
      (Some {| l_time := time; l_event := event; l_fields := entry;
               l_suppressed := match previous with
                               | Some p => if suppressed p =? 0 then None else Some (suppressed p)
                               | None => None
                               end |},
       {| seen := seen2; secondStartedAt := secondStartedAt st; secondLines := secondLines st + 1 |}).

Definition log_wf (st : log_state) : Prop :=
  NoDup (seen st).*1 /\ Z.of_nat (length (seen st)) <= Z.max 0 maxKeys /\
  0 <= secondLines st <= Z.max 0 maxPerSecond.

Lemma map_set_keys (key : jstr) (v : log_entry) m p :
  map_get key m = Some p -> (map_set key v m).*1 = m.*1 /\ length (map_set key v m) = length m.
Proof.
  induction m as [|[k' v'] m IH]; simpl; [done|]. case_decide; simpl; [by subst|].
  intros Hg. destruct (IH Hg) as [E1 E2]. split; f_equal; done.
Qed.

Lemma bump_wf key st : log_wf st -> log_wf (bump key st).
Proof.
  unfold log_wf, bump. destruct (map_get key (seen st)) as [p|] eqn:E; [simpl|done].
  destruct (map_set_keys key {| at_ := at_ p; suppressed := suppressed p + 1 |} _ _ E) as [-> ->]. done.
Qed.

Lemma log_preserves_wf st time event fields :
  log_wf st -> log_wf (log st time event fields).2.
Proof.
  intros Hwf. unfold log. destruct (negb _); [done|].
  destruct (match map_get _ _ with Some p => time - at_ p <? intervalMs | None => false end);
    [by apply bump_wf|].
  set (st' := if match secondStartedAt st with Some s => 1000 <=? time - s | None => true end
              then _ else st).
  assert (log_wf st' /\ seen st' = seen st) as [Hwf' Hseen].
  { unfold st'. destruct Hwf as (?&?&?). repeat case_match; repeat split; simpl; try done; lia. }
  destruct (maxPerSecond <=? secondLines st') eqn:Hlim; [by apply bump_wf|]. simpl.
  destruct Hwf' as (Hnd & Hlen & Hlines). reflect_bools. rewrite Hseen in *.
  pose proof (map_push_nodup (log_key event (sanitizeLogFields fields))
                {| at_ := time; suppressed := 0 |} _ Hnd) as Hnd'.
  pose proof (map_push_length (log_key event (sanitizeLogFields fields))
                {| at_ := time; suppressed := 0 |} (seen st)) as Hlen'.
  unfold log_wf. simpl. rewrite ?Hseen. split_and!; [| |zlia|zlia].
  - case_match; [|done]. destruct (map_push _ _ _) as [|x m]; [done|].
    simpl in *. by apply NoDup_cons in Hnd' as [_ ?].
  - case_match; reflect_bools; [|zlia]. destruct (map_push _ _ _) as [|x m]; simpl in *; zlia.
Qed.

Fixpoint log_all (st : log_state) (calls : list (Z * jstr * log_fields))
  : list (option log_line) * log_state :=
  match calls with
  | [] => ([], st)
  | (time, event, fields) :: rest =>
      let '(line, st) := log st time event fields in
      let '(lines, st) := log_all st rest in (line :: lines, st)
  end.

Lemma log_all_wf st calls : log_wf st -> log_wf (log_all st calls).2.
Proof.
  revert st. induction calls as [|[[time event] fields] calls IH]; intros st Hwf; [done|].
  cbn [log_all]. pose proof (log_preserves_wf st time event fields Hwf) as H.
  destruct (log st time event fields) as [line st']. specialize (IH st' H).
  by destruct (log_all st' calls).
Qed.

(** A diagnostic line carries only allow-listed fields: a room tag that is
    eight hex digits or ["-"], a known role or ["-"], non-negative integers, a
    lower-case token as reason; a repeat within the interval writes nothing;
    and through any calls the logger remembers at most [maxKeys] keys and writes
    at most [maxPerSecond] lines in a second. *)
Theorem log_line_sanitized st time event fields line :
  log_wf st -> (log st time event fields).1 = Some line ->
  let e := l_fields line in
  (c_room e = "-" \/ re_class cls_hex 8 8 (c_room e) = true) /\
  (c_role e = "machine" \/ c_role e = "phone" \/ c_role e = "-") /\
  (forall s, c_reason e = Some s -> TOKEN s = true) /\
  (forall n, c_code e = Some n \/ c_status e = Some n \/ c_retryAfter e = Some n -> 0 <= n <= max_safe) /\
  (forall p, map_get (log_key event e) (seen st) = Some p -> intervalMs <= time - at_ p) /\
  (forall calls, log_wf (log_all (log st time event fields).2 calls).2).
Proof.
  intros Hwf H. pose proof (log_preserves_wf st time event fields Hwf) as Hwf'.
  assert (l_fields line = sanitizeLogFields fields /\
    (forall p, map_get (log_key event (sanitizeLogFields fields)) (seen st) = Some p ->
       intervalMs <= time - at_ p)) as [He Hprev].
  { unfold log in H. destruct (negb _); [done|].
    destruct (match map_get _ _ with Some p => time - at_ p <? intervalMs | None => false end) eqn:E; [done|].
    destruct (maxPerSecond <=? _); [done|].
    simplify_eq/=. split; [done|]. intros p Hp. rewrite Hp in E. by apply Z.ltb_ge. }
  cbv zeta. rewrite He. split_and!; [| | | |done|intros; by apply log_all_wf].
  - simpl. unfold roomTag. destruct (f_room fields) as [| | | |[u]| |]; try by left.
    simpl. case_match eqn:E; [right|by left]. unfold re_class in *. split_andb. reflect_bools.
    unfold slen, sslice in *. simpl in *.
    assert (length (take 8 (drop 0 u)) = 8%nat) as Hl by (rewrite length_take, drop_0; lia).
    rewrite Hl, andb_true_r, andb_true_r. rewrite drop_0. apply forallb_forall.
    intros x Hx. match goal with H : forallb _ _ = true |- _ => rewrite forallb_forall in H; apply H end.
    rewrite <- (take_drop 8 u). apply in_app_iff. by left.
  - cbn [c_role sanitizeLogFields]. destruct (str_in _ _) eqn:E; [|tauto].
    apply str_in_iff in E as (s & -> & [<-|[<-|[]]]); tauto.
  - simpl. intros s. by case_match; intros; simplify_eq.
  - simpl. unfold clean_number. intros n Hn.
    assert (forall v, (if is_safe_int v && (0 <=? int_of v) then Some (int_of v) else None) = Some n ->
      0 <= n <= max_safe) as Hv.
    { intros v. destruct (is_safe_int v && _) eqn:E; [|done]. intros [= <-]. apply andb_true_iff in E as [E1 E2].
      apply is_safe_int_iff in E1 as (t & -> & Ht). simpl in *. lia. }
    destruct Hn as [?|[?|?]]; eauto.
Qed.
End Logger.

Lemma log_line_sanitized_witness :
  let fields := {| f_room := JStr "0123456789abcdef"; f_role := JStr "phone"; f_code := JNum (NInt 4429);
                   f_status := JUndef; f_retryAfter := JNum (NInt 5); f_reason := JStr "rate-limit" |} in
  exists line, (log 10000 50 1000 createRelayLog 7 "relay.policy_close" fields).1 = Some line /\
    (c_room (l_fields line) = "-" \/ re_class cls_hex 8 8 (c_room (l_fields line)) = true).
Proof.
  intros fields.
  eexists. split; [vm_compute; reflexivity|].
  apply (log_line_sanitized 10000 50 1000 createRelayLog 7 "relay.policy_close" fields).
  - split_and!; [constructor|vm_compute; discriminate ..].
  - vm_compute. reflexivity.
Defined.
