(* ===== verification/Delivery.v ===== *)
(** * The delivery mailbox: what a store promises to the socket handlers

    Both runtimes keep, per room and receiving role, the reliable frames that
    wait for their decrypt acknowledgement.  This file states that contract as
    an interface ([MailboxStore], [MailboxLaws]) and derives from it what holds
    along every sequence of operations; [NodeRooms] and [WorkerMailbox] discharge
    the laws for the SQLite row and for Durable Object storage. *)

From S2P Require Import Prelude Validation CoolDown ConnectionPolicy.
#[local] Open Scope bool_scope.
#[local] Open Scope Z_scope.
#[local] Open Scope js_scope.

Inductive role := Machine | Phone.
#[export] Instance role_eq_dec : EqDecision role.
Proof. solve_decision. Defined.
#[export] Instance role_countable : Countable role.
Proof.
  refine (inj_countable (fun r => match r with Machine => true | Phone => false end)
    (fun b : bool => Some (if b then Machine else Phone)) _). by intros [].
Defined.

Definition role_text (r : role) : jstr := match r with Machine => "machine" | Phone => "phone" end.
Definition role_of (s : jstr) : option role :=
  if s =?s "machine" then Some Machine else if s =?s "phone" then Some Phone else None.

(** The sender of a valid envelope has a role. *)
Lemma role_of_from env room now ttl from :
  envelopeProblem env room now ttl = Ok None -> role_of (str_of (get "from" env)) = from ->
  exists r, from = Some r /\ get "from" env = JStr (role_text r).
Proof.
  intros H <-. apply envelopeProblem_shape in H as [Hs _]; [|done]. destruct (sh_from _ _ _ _ Hs) as [E|E]; rewrite E; [by exists Machine|by exists Phone].
Qed.

Definition DEFAULT_QUEUE_TTL_MS : Z := 15 * 60 * 1000.
Definition HOLD_LIMIT : Z := 100.

(** Operations of a mailbox, each at a clock value. *)
Inductive mailbox_op :=
| OpEnqueue (r : role) (raw deliveryId : jstr) (expiresAt : option Z)
| OpAcknowledge (r : role) (deliveryId : jstr)
| OpRead (r : role).

Class MailboxStore (S : Type) := {
  mb_rows : S -> role -> list queue_row;
  mb_exec : S -> Z -> mailbox_op -> S;
  mb_wf : S -> Prop;
}.

(** A row whose expiry is after [now]. *)
Definition row_live (now : Z) (r : queue_row) : bool :=
  match r with
  | Row q => match q_expiresAt q with Some t => now <? t | None => false end
  | LegacyRow _ => false
  end.

Definition acknowledges (op : mailbox_op) (r : role) (row : queue_row) : Prop :=
  match op with
  | OpAcknowledge r' id => r' = r /\ row_deliveryId row = Some id
  | _ => False
  end.

(** The row an operation may add. *)
Definition offers (op : mailbox_op) (r : role) (row : queue_row) : Prop :=
  match op with
  | OpEnqueue r' raw id _ => r' = r /\ row_raw row = raw /\ row_deliveryId row = Some id
  | _ => False
  end.

Class MailboxLaws (S : Type) `{MailboxStore S} := {
  law_wf : forall s now op, mb_wf s -> mb_wf (mb_exec s now op);
  (** explicit submissions survive everything but their own acknowledgement *)
  law_keep : forall s now op r row, mb_wf s ->
    row ∈ mb_rows s r -> is_durable row = true -> row_live now row = true ->
    ~ acknowledges op r row -> row ∈ mb_rows (mb_exec s now op) r;
  (** nothing appears that was not offered for that role *)
  law_origin : forall s now op r row, mb_wf s ->
    row ∈ mb_rows (mb_exec s now op) r -> row ∈ mb_rows s r \/ offers op r row;
  (** an acknowledged identity is gone *)
  law_acked : forall s now r id row, mb_wf s ->
    row ∈ mb_rows (mb_exec s now (OpAcknowledge r id)) r -> row_deliveryId row <> Some id;
  law_nodup : forall s r, mb_wf s -> NoDup (omap row_deliveryId (mb_rows s r));
  law_count : forall s r, mb_wf s -> Z.of_nat (length (mb_rows s r)) <= HOLD_LIMIT;
}.

Section Traces.
Context {S : Type} `{MailboxLaws S}.

Fixpoint mb_run (s : S) (trace : list (Z * mailbox_op)) : S :=
  match trace with
  | [] => s
  | (now, op) :: rest => mb_run (mb_exec s now op) rest
  end.

Lemma mb_run_wf s trace : mb_wf s -> mb_wf (mb_run s trace).
Proof. revert s. induction trace as [|[now op] t IH]; simpl; intros s Hs; auto using law_wf. Qed.

(** A submission stays readable until its recipient acknowledged it or it expired. *)
Lemma submission_survives s r row trace :
  mb_wf s -> row ∈ mb_rows s r -> is_durable row = true ->
  Forall (fun p => row_live p.1 row = true /\ ~ acknowledges p.2 r row) trace ->
  row ∈ mb_rows (mb_run s trace) r.
Proof.
  intros Hwf Hin Hd HF. revert s Hwf Hin.
  induction HF as [|[now op] t [Hl Ha] _ IH]; simpl; intros s Hwf Hin; [done|].
  apply IH; [by apply law_wf|]. by apply law_keep.
Qed.

(** Whatever is delivered was offered: no operation mixes roles or makes up a frame. *)
Lemma rows_were_offered s r row trace :
  mb_wf s -> row ∈ mb_rows (mb_run s trace) r ->
  row ∈ mb_rows s r \/ exists p, p ∈ trace /\ offers p.2 r row.
Proof.
  revert s. induction trace as [|[now op] t IH]; simpl; intros s Hwf Hin; [by left|].
  destruct (IH _ (law_wf s now op Hwf) Hin) as [Hin'|(p & Hp & Ho)].
  - destruct (law_origin s now op r row Hwf Hin') as [|Ho]; [by left|right].
    exists (now, op). split; [by left|done].
  - right. exists p. split; [by right|done].
Qed.

(** After the acknowledgement the identity returns only by a new offer. *)
Lemma acknowledged_is_gone s now r id trace row :
  mb_wf s -> Forall (fun p => forall row', offers p.2 r row' -> row_deliveryId row' <> Some id) trace ->
  row ∈ mb_rows (mb_run (mb_exec s now (OpAcknowledge r id)) trace) r ->
  row_deliveryId row <> Some id.
Proof.
  intros Hwf HF Hin.
  apply rows_were_offered in Hin as [Hin|(p & Hp & Ho)]; [| |by apply law_wf].
  - by eapply law_acked.
  - rewrite Forall_forall in HF. by eapply HF.
Qed.
End Traces.
