(* ===== verification/NodeRooms.v ===== *)
(** * The Node relay's room rows ([src/node/store.js], [src/node/server.js])

    The [rooms] table: the pinned credential digest, the push tokens and the
    two delivery queues of a room, each queue the parsed JSON of its column.
    [Date.now()] is read once per operation. *)

From S2P Require Import Prelude Validation CoolDown ConnectionPolicy Delivery.
#[local] Open Scope bool_scope.
#[local] Open Scope Z_scope.
#[local] Open Scope js_scope.

Definition PUSH_TOKEN_LIMIT : nat := 8.

Record device := { d_token : jstr; d_environment : jstr; d_bundleId : jstr; d_updatedAt : Z }.

Record room_row := {
  auth_sha256 : option jstr;
  push_tokens : list device;
  machine_queue : list queue_row;
  phone_queue : list queue_row;
  updated_at : Z;
}.

Abbreviation rooms := (gmap jstr room_row).

Definition empty_row (now : Z) : room_row :=
  {| auth_sha256 := None; push_tokens := []; machine_queue := []; phone_queue := []; updated_at := now |}.

Definition set_queue (r : role) (q : list queue_row) (now : Z) (row : room_row) : room_row :=
  {| auth_sha256 := auth_sha256 row; push_tokens := push_tokens row;
     machine_queue := match r with Machine => q | Phone => machine_queue row end;
     phone_queue := match r with Machine => phone_queue row | Phone => q end;
     updated_at := now |}.

Definition column (r : role) (row : room_row) : list queue_row :=
  match r with Machine => machine_queue row | Phone => phone_queue row end.

(** ** Credentials *)

(** [INSERT INTO rooms ... ON CONFLICT(room) DO UPDATE SET updated_at] *)
Definition ensureRoom (db : rooms) (room : jstr) (now : Z) : rooms :=
  match db !! room with
  | Some row => <[room := {| auth_sha256 := auth_sha256 row; push_tokens := push_tokens row;
                             machine_queue := machine_queue row; phone_queue := phone_queue row;
                             updated_at := now |}]> db
  | None => <[room := empty_row now]> db
  end.

Definition authDigest (db : rooms) (room : jstr) : option jstr := db !! room ≫= auth_sha256.

(** [COALESCE(auth_sha256, ?)]: the first digest wins. *)
Definition pinAuth (db : rooms) (room digest : jstr) (now : Z) : option jstr * rooms :=
  let db := ensureRoom db room now in
  let db := alter (fun row =>
    {| auth_sha256 := Some (default digest (auth_sha256 row)); push_tokens := push_tokens row;
       machine_queue := machine_queue row; phone_queue := phone_queue row; updated_at := now |}) room db in
  (authDigest db room, db).

(** [Buffer.from(text, 'hex')] stops at the first pair that is not hexadecimal. *)
Definition hex_value (u : N) : option N :=
  if in_range 48 57 u then Some (u - 48)%N
  else if in_range 97 102 u then Some (u - 87)%N
  else if in_range 65 70 u then Some (u - 55)%N
  else None.
Fixpoint hex_bytes (u : list N) : list N :=
  match u with
  | a :: b :: rest =>
      match hex_value a, hex_value b with
      | Some x, Some y => (x * 16 + y)%N :: hex_bytes rest
      | _, _ => []
      end
  | _ => []
  end.
Definition equalDigest (supplied expected : jstr) : bool :=
  bool_decide (hex_bytes (units supplied) = hex_bytes (units expected)).

Section Credentials.
(** The platform's SHA-256, in lower-case hexadecimal. *)
Variable sha256 : jstr -> jstr.

Definition authorize (db : rooms) (room : jstr) (credential : jstr) (pin : bool) (now : Z)
  : bool * rooms :=
  if negb (validRoomCredential (JStr credential)) then (false, db) else
  let digest := sha256 credential in
  match authDigest db room with
  | None =>
      if negb pin then (false, db)
      else
        let '(expected, db') := pinAuth db room digest now in
        (equalDigest digest (default "" expected), db')
  | Some current => (equalDigest digest current, db)
  end.

(** Read-only check used before an upgrade is accepted. *)
Definition authorizeUpgrade (db : rooms) (room credential : jstr) : bool :=
  if negb (validRoomCredential (JStr credential)) then false
  else match authDigest db room with
       | None => true
       | Some current => equalDigest (sha256 credential) current
       end.
End Credentials.

(** ** Queues *)

Definition writeQueue (db : rooms) (room : jstr) (r : role) (q : list queue_row) (now : Z) : rooms :=
  alter (set_queue r q now) room db.

(** The live rows; expired ones are deleted on the way. *)
Definition queue (db : rooms) (room : jstr) (r : role) (now : Z) : list queue_row * rooms :=
  match db !! room with
  | None => ([], db)
  | Some row =>
      let stored := column r row in
      let live := filter (fun item => row_live now item = true) stored in
      (live, if bool_decide (length live = length stored) then db else writeQueue db room r live now)
  end.

Definition new_row (raw deliveryId : jstr) (expiresAt : option Z) (now : Z) : queue_row :=
  Row {| q_raw := raw; q_rawBytes := Some (byte_length raw); q_deliveryId := Some deliveryId;
         q_queuedAt := Some now; q_expiresAt := Some (default (now + DEFAULT_QUEUE_TTL_MS) expiresAt) |}.

Definition has_delivery (deliveryId : jstr) (q : list queue_row) : bool :=
  existsb (fun item => bool_decide (row_deliveryId item = Some deliveryId)) q.

Definition enqueue (db : rooms) (room : jstr) (r : role) (raw deliveryId : jstr)
    (expiresAt : option Z) (now : Z) : QUEUE_RESULT * rooms :=
  let limits := submissionRetentionLimits (role_text r) (Some deliveryId) in
  if frameBytes limits <? byte_length raw then (OVERSIZE, db) else
  if match expiresAt with Some t => t <=? now | None => false end then (EXPIRED, db) else
  match db !! room with
  | None => (NO_ROOM, db)
  | Some _ =>
      let '(live, db) := queue db room r now in
      if has_delivery deliveryId live then (DUPLICATE, db) else
      match retainSubmission live (new_row raw deliveryId expiresAt now) HOLD_LIMIT (queueBytes limits) with
      | Some (STORED, rows) => (STORED, writeQueue db room r rows now)
      | Some (result, _) => (result, db)
      | None => (FULL, db)
      end
  end.

Definition acknowledge (db : rooms) (room : jstr) (r : role) (deliveryId : jstr) (now : Z) : rooms :=
  let '(live, db) := queue db room r now in
  let remaining := filter (fun item => row_deliveryId item <> Some deliveryId) live in
  if bool_decide (length remaining = length live) then db else writeQueue db room r remaining now.

(** ** Push tokens *)

Definition pushTokens (db : rooms) (room : jstr) : list device :=
  match db !! room with Some row => push_tokens row | None => [] end.

Definition set_tokens (tokens : list device) (now : Z) (row : room_row) : room_row :=
  {| auth_sha256 := auth_sha256 row; push_tokens := tokens; machine_queue := machine_queue row;
     phone_queue := phone_queue row; updated_at := now |}.

(** [tokens.slice(-limit)] *)
Definition last_n {A} (n : nat) (l : list A) : list A := drop (length l - n) l.

Definition updatePushToken (db : rooms) (room : jstr) (d : device) (remove : bool) (now : Z)
  : list device * rooms :=
  let tokens := filter (fun item => d_token item <> d_token d) (pushTokens db room) in
  let tokens := if remove then tokens
                else tokens ++ [{| d_token := d_token d; d_environment := d_environment d;
                                   d_bundleId := d_bundleId d; d_updatedAt := now |}] in
  let tokens := if bool_decide (PUSH_TOKEN_LIMIT < length tokens)%nat
                then last_n PUSH_TOKEN_LIMIT tokens else tokens in
  (tokens, alter (set_tokens tokens now) room db).

Definition removePushTokens (db : rooms) (room : jstr) (stale : list jstr) (now : Z) : rooms :=
  let remaining := filter (fun item => d_token item ∉ stale) (pushTokens db room) in
  alter (set_tokens remaining now) room db.

(** ** Invariant of a queue *)

(** The bytes a role's queue may hold: explicit submissions to the machine may
    use the larger allowance. *)
Definition capacity (r : role) : Z := match r with Machine => 32000000 | Phone => 1800000 end.

Definition proper_row (x : queue_row) : Prop :=
  exists q, x = Row q /\ q_rawBytes q = Some (byte_length (q_raw q)) /\ is_Some (q_deliveryId q).

Definition queue_wf (r : role) (q : list queue_row) : Prop :=
  Forall proper_row q /\ NoDup (omap row_deliveryId q) /\
  Z.of_nat (length q) <= HOLD_LIMIT /\ rows_bytes q <= capacity r.

Definition rooms_wf (db : rooms) : Prop :=
  forall room row, db !! room = Some row ->
    (forall r, queue_wf r (column r row)) /\ (length (push_tokens row) <= PUSH_TOKEN_LIMIT)%nat /\
    NoDup (d_token <$> push_tokens row).

Lemma proper_row_bytes x : proper_row x -> 0 <= rowBytes x.
Proof. intros (q & -> & Hb & _). simpl. rewrite Hb. apply byte_length_nonneg. Qed.

Lemma sublist_omap {A B} (f : A -> option B) l1 l2 :
  l1 `sublist_of` l2 -> omap f l1 `sublist_of` omap f l2.
Proof.
  induction 1 as [|x l1 l2 _ IH|x l1 l2 _ IH]; simpl; [done|..];
    destruct (f x); simpl; by try constructor.
Qed.

Lemma rows_bytes_sublist l1 l2 :
  l1 `sublist_of` l2 -> Forall proper_row l2 -> rows_bytes l1 <= rows_bytes l2.
Proof.
  unfold rows_bytes. induction 1 as [|x l1 l2 Hs IH|x l1 l2 Hs IH]; simpl; [done|..];
    intros [Hx HF]%Forall_cons; apply proper_row_bytes in Hx; specialize (IH HF); lia.
Qed.

Lemma queue_wf_sublist r q1 q2 : q1 `sublist_of` q2 -> queue_wf r q2 -> queue_wf r q1.
Proof.
  intros Hs (HF & Hnd & Hc & Hb). split_and!.
  - by eapply sublist_Forall.
  - eapply sublist_NoDup; [done|]. by apply sublist_omap.
  - apply sublist_length in Hs. lia.
  - pose proof (rows_bytes_sublist _ _ Hs HF). lia.
Qed.

Lemma queue_wf_nil r : queue_wf r [].
Proof. split_and!; [constructor|constructor|done|by destruct r]. Qed.

Lemma limits_capacity r id : queueBytes (submissionRetentionLimits (role_text r) (Some id)) <= capacity r.
Proof.
  unfold submissionRetentionLimits. destruct r; [|by vm_compute].
  case_match; vm_compute; discriminate.
Qed.

Lemma new_row_proper raw id expiresAt now : proper_row (new_row raw id expiresAt now).
Proof. eexists. split; [done|]. simpl. split; [done|by eexists]. Qed.

Lemma has_delivery_false id q : has_delivery id q = false -> id ∉ omap row_deliveryId q.
Proof.
  intros H Hin. apply not_true_iff_false in H. apply H, existsb_exists.
  apply list_elem_of_omap in Hin as (x & Hx & Hid). exists x.
  split; [by apply list_elem_of_In|by apply bool_decide_eq_true_2].
Qed.

(** Appending a fresh row to what retention kept respects the invariant. *)
Lemma stored_wf r live kept id raw expiresAt now :
  queue_wf r live ->  kept `sublist_of` live -> id ∉ omap row_deliveryId live ->
  ~ over_limit (kept ++ [new_row raw id expiresAt now]) HOLD_LIMIT
      (queueBytes (submissionRetentionLimits (role_text r) (Some id))) ->
  queue_wf r (kept ++ [new_row raw id expiresAt now]).
Proof.
  intros (HF & Hnd & Hc & Hb) Hs Hid Hlim. pose proof (limits_capacity r id).
  unfold over_limit in Hlim. split_and!; [| |lia|lia].
  - apply Forall_app. split; [by eapply sublist_Forall|]. constructor; [|constructor].
    apply new_row_proper.
  - rewrite omap_app. simpl. apply NoDup_app. split_and!.
    + eapply sublist_NoDup; [done|]. by apply sublist_omap.
    + intros x Hx Hx'. apply list_elem_of_singleton in Hx' as ->. apply Hid.
      eapply elem_of_sublist; [done|]. by apply sublist_omap.
    + apply NoDup_singleton.
Qed.

(** ** The rows of one room *)

Section Room.
Variable room : jstr.

Definition rows_of (db : rooms) (r : role) : list queue_row :=
  match db !! room with Some row => column r row | None => [] end.

Lemma rows_of_wf db r : rooms_wf db -> queue_wf r (rows_of db r).
Proof.
  intros Hwf. unfold rows_of. destruct (db !! room) as [row|] eqn:E; [|apply queue_wf_nil].
  by apply Hwf in E as [? _].
Qed.

Lemma writeQueue_rows db r q now r' :
  is_Some (db !! room) ->
  rows_of (writeQueue db room r q now) r' = if decide (r = r') then q else rows_of db r'.
Proof.
  intros [row E]. unfold rows_of, writeQueue. rewrite lookup_alter, decide_True, E by done.
  simpl. by destruct r, r'.
Qed.

Lemma writeQueue_some db r q now : is_Some (db !! room) -> is_Some (writeQueue db room r q now !! room).
Proof. intros [row E]. unfold writeQueue. rewrite lookup_alter, decide_True, E by done. by eexists. Qed.

Lemma writeQueue_wf db r q now :
  rooms_wf db -> queue_wf r q -> rooms_wf (writeQueue db room r q now).
Proof.
  intros Hwf Hq room' row. unfold writeQueue. rewrite lookup_alter. case_decide.
  - subst room'. destruct (db !! room) as [row'|] eqn:E; simpl; [|done]. intros [= <-].
    destruct (Hwf _ _ E) as (Hc & Ht & Hn). split; [|done].
    intros r'. pose proof (Hc Phone). pose proof (Hc Machine). by destruct r, r'.
  - apply Hwf.
Qed.

Definition live_rows (now : Z) (q : list queue_row) : list queue_row :=
  filter (fun item => row_live now item = true) q.

Lemma queue_spec db r now :
  (queue db room r now).1 = live_rows now (rows_of db r) /\
  (forall r', rows_of (queue db room r now).2 r' =
    if decide (r = r') then live_rows now (rows_of db r) else rows_of db r') /\
  (is_Some (db !! room) -> is_Some ((queue db room r now).2 !! room)) /\
  (rooms_wf db -> rooms_wf (queue db room r now).2).
Proof.
  unfold queue. destruct (db !! room) as [row|] eqn:E; simpl.
  2:{ unfold rows_of. rewrite E. split_and!; try done. intros r'. by case_decide. }
  assert (rows_of db r = column r row) as Hr by (unfold rows_of; by rewrite E).
  rewrite Hr. fold (live_rows now (column r row)).
  destruct (bool_decide _) eqn:Hlen.
  - apply bool_decide_eq_true in Hlen. split_and!; try done.
    + intros r'. case_decide; [subst|done]. rewrite Hr. symmetry.
      unfold live_rows in *. by apply sublist_full; [apply sublist_filter|].
  - split_and!; [done| | |].
    + intros r'. by rewrite writeQueue_rows by (by rewrite E).
    + intros H. apply writeQueue_some. by rewrite E.
    + intros Hwf. apply writeQueue_wf; [done|].
      eapply queue_wf_sublist; [apply sublist_filter|].
      rewrite <- Hr. by apply rows_of_wf.
Qed.

Lemma live_rows_sublist now q : live_rows now q `sublist_of` q.
Proof. apply sublist_filter. Qed.

(** Every outcome of [enqueue] and the queue it leaves. *)
Inductive enqueue_outcome (db : rooms) (r : role) (raw id : jstr) (expiresAt : option Z) (now : Z)
  : QUEUE_RESULT -> list queue_row -> Prop :=
| eo_oversize :
    frameBytes (submissionRetentionLimits (role_text r) (Some id)) < byte_length raw ->
    enqueue_outcome db r raw id expiresAt now OVERSIZE (rows_of db r)
| eo_expired t : expiresAt = Some t -> t <= now ->
    enqueue_outcome db r raw id expiresAt now EXPIRED (rows_of db r)
| eo_no_room : db !! room = None ->
    enqueue_outcome db r raw id expiresAt now NO_ROOM (rows_of db r)
| eo_duplicate row :
    row ∈ live_rows now (rows_of db r) -> row_deliveryId row = Some id ->
    enqueue_outcome db r raw id expiresAt now DUPLICATE (live_rows now (rows_of db r))
| eo_full :
    over_limit (durable_rows (live_rows now (rows_of db r)) ++ [new_row raw id expiresAt now])
      HOLD_LIMIT (queueBytes (submissionRetentionLimits (role_text r) (Some id))) ->
    enqueue_outcome db r raw id expiresAt now FULL (live_rows now (rows_of db r))
| eo_stored a b :
    live_rows now (rows_of db r) = a ++ b ->
    id ∉ omap row_deliveryId (live_rows now (rows_of db r)) ->
    ~ over_limit (durable_rows a ++ b ++ [new_row raw id expiresAt now])
      HOLD_LIMIT (queueBytes (submissionRetentionLimits (role_text r) (Some id))) ->
    enqueue_outcome db r raw id expiresAt now STORED
      (durable_rows a ++ b ++ [new_row raw id expiresAt now]).

Lemma enqueue_spec db r raw id expiresAt now :
  let res := enqueue db room r raw id expiresAt now in
  enqueue_outcome db r raw id expiresAt now res.1 (rows_of res.2 r) /\
  (forall r', r' <> r -> rows_of res.2 r' = rows_of db r') /\
  (rooms_wf db -> rooms_wf res.2).
Proof.
  cbv zeta. unfold enqueue.
  set (limits := submissionRetentionLimits (role_text r) (Some id)).
  destruct (frameBytes limits <? byte_length raw) eqn:E1.
  { reflect_bools. simpl. split_and!; try done. by constructor. }
  destruct (match expiresAt with Some t => t <=? now | None => false end) eqn:E2.
  { simpl. split_and!; try done. destruct expiresAt; [|done]. reflect_bools. by econstructor. }
  destruct (db !! room) as [row|] eqn:E.
  2:{ simpl. split_and!; try done. by constructor. }
  pose proof (queue_spec db r now) as (Hlive & Hrows & Hsome & Hwf).
  destruct (queue db room r now) as [live db1]. simpl in Hlive, Hrows, Hsome, Hwf. subst live.
  assert (is_Some (db1 !! room)) as Hs1 by (apply Hsome; rewrite E; by eexists).
  assert (forall r', r' <> r -> rows_of db1 r' = rows_of db r') as Hother.
  { intros r' Hne. rewrite Hrows, decide_False by congruence. done. }
  destruct (has_delivery id (live_rows now (rows_of db r))) eqn:E3.
  { simpl. split_and!; [|done|done]. rewrite Hrows, decide_True by done.
    apply existsb_exists in E3 as (x & Hx & Hid). apply bool_decide_eq_true in Hid.
    econstructor; [by apply list_elem_of_In|done]. }
  apply has_delivery_false in E3.
  destruct (retainSubmission_cases (live_rows now (rows_of db r)) (new_row raw id expiresAt now)
              HOLD_LIMIT (queueBytes limits)) as [(a & b & Hab & Hret & Hlim)|(Hret & Hfull)];
    rewrite Hret; simpl.
  - rewrite writeQueue_rows, decide_True by done. split_and!.
    + by constructor.
    + intros r' Hne. rewrite writeQueue_rows, decide_False by (done || congruence). auto.
    + intros Hw. apply writeQueue_wf; [auto|].
      assert (queue_wf r (live_rows now (rows_of db r))) as Hq.
      { eapply queue_wf_sublist; [apply live_rows_sublist|]. by apply rows_of_wf. }
      rewrite app_assoc. eapply stored_wf; [done| |done|by rewrite <- app_assoc].
      rewrite Hab. by apply sublist_app; [apply durable_rows_sublist|].
  - split_and!; [|done|done]. rewrite Hrows, decide_True by done. by constructor.
Qed.
End Room.

#[export] Hint Resolve writeQueue_wf queue_wf_nil live_rows_sublist durable_rows_sublist : relay.

Section AckLaws.
Variable room : jstr.

Lemma acknowledge_spec db r id now :
  (forall r', rows_of room (acknowledge db room r id now) r' =
     if decide (r = r')
     then filter (fun item => row_deliveryId item <> Some id) (live_rows now (rows_of room db r))
     else rows_of room db r') /\
  (rooms_wf db -> rooms_wf (acknowledge db room r id now)).
Proof.
  unfold acknowledge. pose proof (queue_spec room db r now) as (Hlive & Hrows & Hsome & Hwf).
  destruct (queue db room r now) as [live db1] eqn:Eq. simpl in Hlive, Hrows, Hsome, Hwf. subst live.
  set (l := live_rows now (rows_of room db r)) in *.
  pose proof (sublist_filter (fun item => row_deliveryId item <> Some id) l) as Hsub.
  destruct (db !! room) as [row|] eqn:E.
  2:{ unfold queue in Eq. rewrite E in Eq. injection Eq as Hl <-.
      rewrite <- Hl. simpl. split; [|done].
      intros r'. unfold rows_of. rewrite E. by case_decide. }
  specialize (Hsome ltac:(by eexists)).
  destruct (bool_decide _) eqn:Hlen.
  - apply bool_decide_eq_true in Hlen. split; [|done]. intros r'. rewrite Hrows.
    case_decide; [|done]. symmetry. by apply sublist_full.
  - split.
    + intros r'. rewrite writeQueue_rows by done. rewrite Hrows. by repeat case_decide.
    + intros Hw. apply writeQueue_wf; [auto|]. eapply queue_wf_sublist; [exact Hsub|].
      eapply queue_wf_sublist; [apply live_rows_sublist|]. by apply rows_of_wf.
Qed.

(** The Node store as a mailbox of the room. *)
#[export] Instance node_mailbox : MailboxStore rooms := {|
  mb_rows := rows_of room;
  mb_exec db now op :=
    match op with
    | OpEnqueue r raw id expiresAt => (enqueue db room r raw id expiresAt now).2
    | OpAcknowledge r id => acknowledge db room r id now
    | OpRead r => (queue db room r now).2
    end;
  mb_wf := rooms_wf;
|}.

Lemma live_in now row q : row ∈ q -> row_live now row = true -> row ∈ live_rows now q.
Proof. intros Hin Hl. by apply list_elem_of_filter. Qed.

Lemma durable_in row q : row ∈ q -> is_durable row = true -> row ∈ durable_rows q.
Proof. intros Hin Hl. by apply list_elem_of_filter. Qed.

Lemma enqueue_keeps db r raw id expiresAt now row :
  row ∈ rows_of room db r -> is_durable row = true -> row_live now row = true ->
  row ∈ rows_of room (enqueue db room r raw id expiresAt now).2 r.
Proof.
  intros Hin Hd Hl. pose proof (live_in now row _ Hin Hl) as Hlive.
  pose proof (enqueue_spec room db r raw id expiresAt now) as (Ho & _ & _).
  destruct Ho as [ | | | | |a b Hab Hid Hlim]; try done.
  rewrite Hab in Hlive. apply elem_of_app in Hlive as [Ha|Hb].
  - apply elem_of_app. left. by apply durable_in.
  - apply elem_of_app. right. apply elem_of_app. by left.
Qed.

Lemma enqueue_origin db r raw id expiresAt now row :
  row ∈ rows_of room (enqueue db room r raw id expiresAt now).2 r ->
  row ∈ rows_of room db r \/ row = new_row raw id expiresAt now.
Proof.
  pose proof (enqueue_spec room db r raw id expiresAt now) as (Ho & _ & _).
  intros Hin. destruct Ho as [ | | | | |a b Hab Hid Hlim]; try by left.
  - left. eapply elem_of_sublist; [done|]. apply live_rows_sublist.
  - left. eapply elem_of_sublist; [done|]. apply live_rows_sublist.
  - apply elem_of_app in Hin as [Hin|[Hin|Hin]%elem_of_app].
    + left. eapply elem_of_sublist; [|apply live_rows_sublist]. rewrite Hab.
      apply elem_of_app. left. eapply elem_of_sublist; [done|]. apply durable_rows_sublist.
    + left. eapply elem_of_sublist; [|apply live_rows_sublist]. rewrite Hab.
      apply elem_of_app. by right.
    + right. by apply list_elem_of_singleton in Hin.
Qed.

#[export] Instance node_mailbox_laws : MailboxLaws rooms.
Proof.
  split.
  - intros db now [r raw id e|r id|r] Hwf; simpl.
    + by apply enqueue_spec.
    + by apply acknowledge_spec.
    + by apply queue_spec.
  - intros db now op r row Hwf Hin Hd Hl Ha. destruct op as [r' raw id e|r' id|r']; simpl in *.
    + destruct (decide (r' = r)) as [->|Hne]; [by apply enqueue_keeps|].
      pose proof (enqueue_spec room db r' raw id e now) as (_ & Ho & _).
      by rewrite Ho by congruence.
    + destruct (acknowledge_spec db r' id now) as [Hr _]. rewrite Hr. case_decide; [subst|done].
      apply list_elem_of_filter. split; [naive_solver|]. by apply live_in.
    + destruct (queue_spec room db r' now) as (_ & Hr & _). rewrite Hr.
      case_decide; [subst|done]. by apply live_in.
  - intros db now op r row Hwf. destruct op as [r' raw id e|r' id|r']; simpl.
    + destruct (decide (r' = r)) as [->|Hne].
      * intros [?| ->]%enqueue_origin; [by left|right]. done.
      * pose proof (enqueue_spec room db r' raw id e now) as (_ & Ho & _).
        rewrite Ho by congruence. by left.
    + destruct (acknowledge_spec db r' id now) as [Hr _]. rewrite Hr. case_decide; [subst|by left].
      intros Hin. left. eapply elem_of_sublist; [|apply live_rows_sublist].
      by apply list_elem_of_filter in Hin as [_ ?].
    + destruct (queue_spec room db r' now) as (_ & Hr & _). rewrite Hr.
      case_decide; [subst|by left]. intros Hin. left.
      eapply elem_of_sublist; [done|apply live_rows_sublist].
  - intros db now r id row Hwf. simpl. destruct (acknowledge_spec db r id now) as [Hr _].
    rewrite Hr, decide_True by done. by intros [? _]%list_elem_of_filter.
  - intros db r Hwf. simpl. by apply (rows_of_wf room db r).
  - intros db r Hwf. simpl. by apply (rows_of_wf room db r).
Qed.
End AckLaws.

(** ** The other operations keep the invariant *)

Lemma alter_row_wf (f : room_row -> room_row) room db :
  (forall row r, column r (f row) = column r row) ->
  (forall row, NoDup (d_token <$> push_tokens row) -> (length (push_tokens row) <= PUSH_TOKEN_LIMIT)%nat ->
     db !! room = Some row ->
     NoDup (d_token <$> push_tokens (f row)) /\ (length (push_tokens (f row)) <= PUSH_TOKEN_LIMIT)%nat) ->
  rooms_wf db -> rooms_wf (alter f room db).
Proof.
  intros Hc Ht Hwf room' row. rewrite lookup_alter. case_decide as Hd; [subst room'|apply Hwf].
  destruct (db !! room) as [row'|] eqn:E; simpl; [|done]. intros [= <-].
  destruct (Hwf _ _ E) as (Hq & Hl & Hn). destruct (Ht row' Hn Hl eq_refl) as [Hn' Hl'].
  split; [|done]. intros r. by rewrite Hc.
Qed.

Lemma ensureRoom_wf db room now : rooms_wf db -> rooms_wf (ensureRoom db room now).
Proof.
  intros Hwf room' row. unfold ensureRoom. destruct (db !! room) as [row0|] eqn:E;
    rewrite lookup_insert; case_decide; try apply Hwf; intros [= <-]; subst.
  - by destruct (Hwf _ _ E) as (Hq & Ht).
  - split_and!; simpl; [|lia|constructor]. intros []; apply queue_wf_nil.
Qed.

Lemma pinAuth_wf db room digest now : rooms_wf db -> rooms_wf (pinAuth db room digest now).2.
Proof.
  intros Hwf. unfold pinAuth. simpl. apply alter_row_wf; [by intros ? []|done|].
  by apply ensureRoom_wf.
Qed.

Lemma updatePushToken_wf db room d remove now :
  rooms_wf db -> rooms_wf (updatePushToken db room d remove now).2.
Proof.
  intros Hwf. unfold updatePushToken. simpl. apply alter_row_wf; [by intros ? []| |done].
  intros row Hn Hl E. unfold pushTokens. rewrite E. simpl.
  set (kept := filter _ _).
  assert (kept `sublist_of` push_tokens row) as Hs by apply sublist_filter.
  assert (NoDup (d_token <$> kept)) as Hnk
    by (eapply sublist_NoDup; [done|]; by apply sublist_fmap).
  assert (NoDup (d_token <$> (if remove then kept else kept ++
    [{| d_token := d_token d; d_environment := d_environment d; d_bundleId := d_bundleId d;
        d_updatedAt := now |}]))) as Hna.
  { destruct remove; [done|]. rewrite fmap_app. simpl. apply NoDup_app. split_and!; [done| |apply NoDup_singleton].
    intros x Hx Hx'. apply list_elem_of_singleton in Hx' as ->.
    apply list_elem_of_fmap in Hx as (y & Hy & Hin). apply list_elem_of_filter in Hin as [? _]. congruence. }
  destruct (bool_decide _) eqn:Hb; reflect_bools; [|split; [done|lia]].
  unfold last_n. split; [|rewrite length_drop; unfold PUSH_TOKEN_LIMIT; lia].
  rewrite fmap_drop. eapply sublist_NoDup; [done|apply sublist_drop].
Qed.

Lemma removePushTokens_wf db room stale now : rooms_wf db -> rooms_wf (removePushTokens db room stale now).
Proof.
  intros Hwf. unfold removePushTokens. apply alter_row_wf; [by intros ? []| |done].
  intros row Hn Hl E. unfold pushTokens. rewrite E. simpl.
  assert (filter (λ item, d_token item ∉ stale) (push_tokens row) `sublist_of` push_tokens row) as Hs
    by apply sublist_filter.
  split; [|apply sublist_length in Hs; lia].
  eapply sublist_NoDup; [done|]. by apply sublist_fmap.
Qed.

(** Every statement the relay runs against the [rooms] table. *)
Inductive rooms_step : rooms -> rooms -> Prop :=
| rs_pin db room digest now : rooms_step db (pinAuth db room digest now).2
| rs_mailbox db room now op : rooms_step db (@mb_exec _ (node_mailbox room) db now op)
| rs_token db room d remove now : rooms_step db (updatePushToken db room d remove now).2
| rs_stale db room stale now : rooms_step db (removePushTokens db room stale now).

Inductive rooms_reachable : rooms -> Prop :=
| rr_empty : rooms_reachable ∅
| rr_step db db' : rooms_reachable db -> rooms_step db db' -> rooms_reachable db'.

Lemma rooms_reachable_wf db : rooms_reachable db -> rooms_wf db.
Proof.
  induction 1 as [|db db' _ IH Hs]; [intros ??; by rewrite lookup_empty|].
  destruct Hs; auto using pinAuth_wf, updatePushToken_wf, removePushTokens_wf.
  by apply (@law_wf _ _ (node_mailbox_laws room)).
Qed.

(** ** Properties *)

(** Whatever the clients send, a room of the Node store never holds more than
    100 rows or the byte allowance per receiving role, never two rows with one
    delivery id, and never more than eight push tokens, all distinct. *)
Theorem node_rooms_bounded db room row r :
  rooms_reachable db -> db !! room = Some row ->
  Z.of_nat (length (column r row)) <= 100 /\
  rows_bytes (column r row) <= capacity r /\
  NoDup (omap row_deliveryId (column r row)) /\
  (length (push_tokens row) <= 8)%nat /\ NoDup (d_token <$> push_tokens row).
Proof.
  intros Hr E. destruct (rooms_reachable_wf _ Hr _ _ E) as (Hq & Ht & Hn).
  destruct (Hq r) as (_ & Hnd & Hc & Hb). done.
Qed.

Definition sample_rooms : rooms :=
  (enqueue (pinAuth ∅ "0123456789abcdef" "d" 1).2 "0123456789abcdef" Machine "raw" "user-message-1" None 2).2.

Lemma sample_rooms_reachable : rooms_reachable sample_rooms.
Proof.
  unfold sample_rooms. eapply rr_step; [eapply rr_step; [apply rr_empty|apply rs_pin]|].
  apply (rs_mailbox _ "0123456789abcdef" 2 (OpEnqueue Machine "raw" "user-message-1" None)).
Qed.

Lemma node_rooms_bounded_witness :
  exists row, sample_rooms !! ("0123456789abcdef" : jstr) = Some row /\
    Z.of_nat (length (column Machine row)) = 1 /\ Z.of_nat (length (column Machine row)) <= 100.
Proof.
  eexists. split; [vm_compute; reflexivity|]. split; [reflexivity|].
  eapply (node_rooms_bounded sample_rooms "0123456789abcdef" _ Machine sample_rooms_reachable).
  vm_compute. reflexivity.
Defined.

(** [enqueue] answers exactly: too large for its class, already expired,
    unknown room, already queued, no space left beside the explicit
    submissions, or stored last; only the addressed queue changes, and only
    to the live rows it held minus evicted transient rows. *)
Theorem node_enqueue_correct db room r raw id expiresAt now :
  rooms_wf db ->
  enqueue_outcome room db r raw id expiresAt now
    (enqueue db room r raw id expiresAt now).1 (rows_of room (enqueue db room r raw id expiresAt now).2 r) /\
  (forall r', r' <> r -> rows_of room (enqueue db room r raw id expiresAt now).2 r' = rows_of room db r') /\
  rooms_wf (enqueue db room r raw id expiresAt now).2.
Proof.
  intros Hwf. destruct (enqueue_spec room db r raw id expiresAt now) as (H1 & H2 & H3). auto.
Qed.

Lemma node_enqueue_correct_witness :
  rooms_wf sample_rooms /\
  enqueue_outcome "0123456789abcdef" sample_rooms Machine "raw" "user-message-1" None 3
    DUPLICATE (rows_of "0123456789abcdef" sample_rooms Machine).
Proof.
  split; [apply rooms_reachable_wf, sample_rooms_reachable|].
  exact (proj1 (node_enqueue_correct sample_rooms "0123456789abcdef" Machine "raw" "user-message-1" None 3
           (rooms_reachable_wf _ sample_rooms_reachable))).
Defined.

(** C1: once [enqueue] answered [stored] or [duplicate] for an explicit
    submission, its ciphertext is in what every later read of the mailbox
    returns, whatever else is queued, read or acknowledged in between, until the
    recipient acknowledges that id or the submission expires. *)
Theorem node_submission_survives db room r raw id expiresAt now trace later :
  rooms_wf db -> isDurableSubmission (Some id) = true ->
  (enqueue db room r raw id expiresAt now).1 = STORED ->
  let deadline := default (now + DEFAULT_QUEUE_TTL_MS) expiresAt in
  Forall (fun p => p.1 < deadline /\ p.2 <> OpAcknowledge r id) trace -> later < deadline ->
  exists row,
    row ∈ (queue (@mb_run _ (node_mailbox room) (enqueue db room r raw id expiresAt now).2 trace)
             room r later).1 /\ row_raw row = raw /\ row_deliveryId row = Some id.
Proof.
  intros Hwf Hid Hst deadline HF Hl.
  pose proof (enqueue_spec room db r raw id expiresAt now) as (Ho & _ & Hwf').
  exists (new_row raw id expiresAt now). split; [|done].
  set (db' := (enqueue db room r raw id expiresAt now).2) in *.
  assert (new_row raw id expiresAt now ∈ rows_of room db' r) as Hin.
  { rewrite Hst in Ho. inversion Ho as [ | | | | |a b Hab _ _ Heq]. set_solver. }
  assert (new_row raw id expiresAt now ∈ rows_of room (@mb_run _ (node_mailbox room) db' trace) r) as Hin'.
  { apply (submission_survives (S := rooms) (H := node_mailbox room)); [by apply Hwf'|done|done|].
    eapply Forall_impl; [exact HF|]. intros [t op] [Ht Hop]. simpl in *. split; [by apply Z.ltb_lt|].
    destruct op as [|r' id'|]; simpl; try tauto. intros [-> [= ->]]. done. }
  rewrite (proj1 (queue_spec room _ r later)). apply live_in; [done|].
  simpl. by apply Z.ltb_lt.
Qed.

Lemma node_submission_survives_witness :
  exists row, row ∈ (queue (@mb_run _ (node_mailbox "0123456789abcdef") sample_rooms
      [(5, OpAcknowledge Machine "x"); (6, OpEnqueue Machine "other" "transient" None); (7, OpRead Machine)])
      "0123456789abcdef" Machine 8).1 /\ row_raw row = "raw" /\ row_deliveryId row = Some ("user-message-1" : jstr).
Proof.
  apply (node_submission_survives (pinAuth ∅ "0123456789abcdef" "d" 1).2 "0123456789abcdef" Machine
           "raw" "user-message-1" None 2).
  - apply pinAuth_wf. intros ??. by rewrite lookup_empty.
  - vm_compute. reflexivity.
  - vm_compute. reflexivity.
  - repeat constructor; simpl; unfold DEFAULT_QUEUE_TTL_MS; try lia; try discriminate.
  - simpl. unfold DEFAULT_QUEUE_TTL_MS. lia.
Defined.

(** An acknowledged delivery id is never returned again by any read until a
    sender offers it anew. *)
Theorem node_acknowledged_is_gone db room r id now trace later row :
  rooms_wf db ->
  Forall (fun p => forall raw e, p.2 <> OpEnqueue r raw id e) trace ->
  row ∈ (queue (@mb_run _ (node_mailbox room) (acknowledge db room r id now) trace) room r later).1 ->
  row_deliveryId row <> Some id.
Proof.
  intros Hwf HF. rewrite (proj1 (queue_spec room _ r later)). intros Hin.
  apply list_elem_of_filter in Hin as [_ Hin].
  eapply (acknowledged_is_gone (S := rooms) (H := node_mailbox room) db now r id trace row Hwf); [|exact Hin].
  eapply Forall_impl; [exact HF|]. intros [t op] Hop row'. simpl in *.
  destruct op as [r' raw id' e|r' id'|r']; simpl; [|done|done].
  intros (-> & _ & Hr') Heq. rewrite Hr' in Heq. injection Heq as ->. by eapply Hop.
Qed.

Lemma node_acknowledged_is_gone_witness :
  (queue (acknowledge sample_rooms "0123456789abcdef" Machine "user-message-1" 3) "0123456789abcdef" Machine 4).1 = [] /\
  (forall row, row ∈ (queue (acknowledge sample_rooms "0123456789abcdef" Machine "user-message-1" 3)
     "0123456789abcdef" Machine 4).1 -> row_deliveryId row <> Some ("user-message-1" : jstr)).
Proof.
  split; [vm_compute; reflexivity|]. intros row.
  apply (node_acknowledged_is_gone sample_rooms "0123456789abcdef" Machine "user-message-1" 3 [] 4 row
           (rooms_reachable_wf _ sample_rooms_reachable) (List.Forall_nil _)).
Defined.
