(* ===== verification/WorkerMailbox.v ===== *)
(** * The delivery mailbox of a Durable Object room
    [queue], [acknowledge] and [flushTo] of [src/relay/room.js].

    Each role's rows are one value under the key [q:machine] or [q:phone]; [None] is
    an absent key.  A turn of the object is atomic: its input gate delivers no other
    event while a storage operation runs.  [worker_mailbox] discharges the mailbox laws
    of [Delivery], as [NodeRooms] does for the SQLite row. *)

From S2P Require Import Prelude Validation CoolDown ConnectionPolicy Delivery NodeRooms.
#[local] Open Scope bool_scope.
#[local] Open Scope Z_scope.
#[local] Open Scope js_scope.

Definition MAX_QUEUE_BYTES : Z := 1800000.

Record mailbox := { mb_machine : option (list queue_row); mb_phone : option (list queue_row) }.

Definition stored_queue (m : mailbox) (r : role) : option (list queue_row) :=
  match r with Machine => mb_machine m | Phone => mb_phone m end.
Definition put_queue (m : mailbox) (r : role) (q : option (list queue_row)) : mailbox :=
  match r with
  | Machine => {| mb_machine := q; mb_phone := mb_phone m |}
  | Phone => {| mb_machine := mb_machine m; mb_phone := q |}
  end.
Definition queued_rows (m : mailbox) (r : role) : list queue_row := default [] (stored_queue m r).
(** [if (rows.length) put else delete] *)
Definition store_rows (m : mailbox) (r : role) (rows : list queue_row) : mailbox :=
  put_queue m r (if bool_decide (rows = []) then None else Some rows).

(** [(item.expiresAt ?? now + DEFAULT_QUEUE_TTL_MS) > now]; a bare string has no [expiresAt]. *)
Definition unexpired (now : Z) (x : queue_row) : bool :=
  match x with
  | Row q => now <? default (now + DEFAULT_QUEUE_TTL_MS) (q_expiresAt q)
  | LegacyRow _ => true
  end.

Definition room_row_of (raw deliveryId : jstr) (expiresAt : option Z) (now : Z) : queue_row :=
  Row {| q_raw := raw; q_rawBytes := Some (byte_length raw); q_deliveryId := Some deliveryId;
         q_queuedAt := None; q_expiresAt := Some (default (now + DEFAULT_QUEUE_TTL_MS) expiresAt) |}.

Definition room_queue (m : mailbox) (r : role) (raw deliveryId : jstr) (expiresAt : option Z) (now : Z) : QUEUE_RESULT * mailbox :=
  if MAX_QUEUE_BYTES <? byte_length raw then (OVERSIZE, m) else
  if match expiresAt with Some t => t <=? now | None => false end then (EXPIRED, m) else
  let queue := filter (fun x => unexpired now x = true) (queued_rows m r) in
  if negb (deliveryId =?s "") && has_delivery deliveryId queue then (DUPLICATE, m) else
  match retainSubmission queue (room_row_of raw deliveryId expiresAt now) HOLD_LIMIT MAX_QUEUE_BYTES with
  | Some (STORED, rows) => (STORED, put_queue m r (Some rows))
  | Some (_, _) => (FULL, m)
  | None => (FULL, m)
  end.

Definition room_acknowledge (m : mailbox) (r : role) (deliveryId : jstr) : mailbox :=
  store_rows m r (filter (fun x => row_deliveryId x <> Some deliveryId) (queued_rows m r)).

(** ** [flushTo] *)

(** The socket of a flush: which rows are addressed to it, and whether the [k]-th [send] throws. *)
Record visitor := { vs_matches : jstr -> bool; vs_throws : nat -> bool }.

(** [typeof item === "string" ? now + DEFAULT_QUEUE_TTL_MS : item.expiresAt]: an absent expiry compares false. *)
Definition pending_row (now : Z) (x : queue_row) : bool :=
  match x with Row q => match q_expiresAt q with Some t => now <? t | None => false end | LegacyRow _ => true end.
Definition reliable_row (x : queue_row) : bool := match row_deliveryId x with Some d => negb (d =?s "") | None => false end.

(** The rows that only their acknowledgement removes: no row is written back. *)
Fixpoint flush_reliable (v : visitor) (k : nat) (pending : list queue_row) : list jstr :=
  match pending with
  | [] => []
  | x :: rest =>
      if negb (vs_matches v (row_raw x)) then flush_reliable v k rest
      else if vs_throws v k then []
      else row_raw x :: flush_reliable v (S k) rest
  end.

(** The frames sent and [remaining]. *)
Fixpoint flush_mixed (v : visitor) (k : nat) (pending : list queue_row) : list jstr * list queue_row :=
  match pending with
  | [] => ([], [])
  | x :: rest =>
      if row_raw x =?s "" then flush_mixed v k rest
      else if negb (vs_matches v (row_raw x)) then
        let '(sent, remaining) := flush_mixed v k rest in (sent, x :: remaining)
      else if vs_throws v k then ([], x :: rest)
      else
        let '(sent, remaining) := flush_mixed v (S k) rest in
        (row_raw x :: sent, if reliable_row x then x :: remaining else remaining)
  end.

Definition flushTo (m : mailbox) (r : role) (v : visitor) (now : Z) : list jstr * mailbox :=
  match stored_queue m r with
  | None | Some [] => ([], m)
  | Some queue =>
      let pending := filter (fun x => pending_row now x = true) queue in
      if bool_decide (pending = []) then ([], put_queue m r None) else
      if forallb reliable_row pending then (flush_reliable v 0 pending, m) else
      let '(sent, remaining) := flush_mixed v 0 pending in (sent, store_rows m r remaining)
  end.

(** ** The invariant *)

(** Rows written by [queue], or bare strings of an older version. *)
Definition room_proper (x : queue_row) : Prop :=
  match x with
  | LegacyRow _ => True
  | Row q => q_rawBytes q = Some (byte_length (q_raw q)) /\ q_raw q <> "" /\
             (exists d, q_deliveryId q = Some d /\ d <> "") /\ is_Some (q_expiresAt q)
  end.

Record room_queue_wf (q : list queue_row) : Prop := {
  rq_proper : Forall room_proper q;
  rq_nodup : NoDup (omap row_deliveryId q);
  rq_count : Z.of_nat (length q) <= HOLD_LIMIT;
  rq_bytes : rows_bytes q <= MAX_QUEUE_BYTES;
}.
Definition mailbox_wf (m : mailbox) : Prop := forall r, room_queue_wf (queued_rows m r).

Lemma room_proper_bytes x : room_proper x -> 0 <= rowBytes x.
Proof. destruct x as [s|q]; simpl; [intros _; apply byte_length_nonneg|]. intros (-> & _). apply byte_length_nonneg. Qed.

Lemma room_bytes_sublist l1 l2 : l1 `sublist_of` l2 -> Forall room_proper l2 -> rows_bytes l1 <= rows_bytes l2.
Proof.
  unfold rows_bytes. induction 1 as [|x l1 l2 Hs IH|x l1 l2 Hs IH]; simpl; [done|..];
    intros [Hx HF]%Forall_cons; apply room_proper_bytes in Hx; specialize (IH HF); lia.
Qed.

Lemma room_queue_sublist q1 q2 : q1 `sublist_of` q2 -> room_queue_wf q2 -> room_queue_wf q1.
Proof.
  intros Hs [HF Hn Hc Hb]. split.
  - by eapply sublist_Forall.
  - eapply sublist_NoDup; [done|]. by apply sublist_omap.
  - apply sublist_length in Hs. lia.
  - pose proof (room_bytes_sublist _ _ Hs HF). lia.
Qed.

Lemma room_queue_nil : room_queue_wf [].
Proof. split; [constructor|constructor|done|done]. Qed.

Lemma queued_put m r r' q : queued_rows (put_queue m r q) r' = if decide (r = r') then default [] q else queued_rows m r'.
Proof. by destruct r, r'. Qed.

Lemma queued_store m r r' rows : queued_rows (store_rows m r rows) r' = if decide (r = r') then rows else queued_rows m r'.
Proof. unfold store_rows. rewrite queued_put. case_decide; [|done]. case_bool_decide; by subst. Qed.

Lemma put_queue_wf m r q : mailbox_wf m -> room_queue_wf (default [] q) -> mailbox_wf (put_queue m r q).
Proof. intros Hm Hq r'. rewrite queued_put. case_decide; [done|apply Hm]. Qed.

Lemma store_rows_wf m r rows : mailbox_wf m -> room_queue_wf rows -> mailbox_wf (store_rows m r rows).
Proof. intros Hm Hq r'. rewrite queued_store. case_decide; [done|apply Hm]. Qed.

(** ** What each operation leaves *)

Definition unexpired_rows (now : Z) (q : list queue_row) : list queue_row := filter (fun x => unexpired now x = true) q.

(** Every outcome of [queue] and the rows it leaves. *)
Inductive room_outcome (m : mailbox) (r : role) (raw id : jstr) (expiresAt : option Z) (now : Z) : QUEUE_RESULT -> list queue_row -> Prop :=
| ro_oversize : MAX_QUEUE_BYTES < byte_length raw -> room_outcome m r raw id expiresAt now OVERSIZE (queued_rows m r)
| ro_expired t : expiresAt = Some t -> t <= now -> room_outcome m r raw id expiresAt now EXPIRED (queued_rows m r)
| ro_duplicate row : row ∈ unexpired_rows now (queued_rows m r) -> row_deliveryId row = Some id ->
    room_outcome m r raw id expiresAt now DUPLICATE (queued_rows m r)
| ro_full : over_limit (durable_rows (unexpired_rows now (queued_rows m r)) ++ [room_row_of raw id expiresAt now]) HOLD_LIMIT MAX_QUEUE_BYTES ->
    room_outcome m r raw id expiresAt now FULL (queued_rows m r)
| ro_stored a b : unexpired_rows now (queued_rows m r) = a ++ b -> (id = "" \/ id ∉ omap row_deliveryId (unexpired_rows now (queued_rows m r))) ->
    ~ over_limit (durable_rows a ++ b ++ [room_row_of raw id expiresAt now]) HOLD_LIMIT MAX_QUEUE_BYTES ->
    room_outcome m r raw id expiresAt now STORED (durable_rows a ++ b ++ [room_row_of raw id expiresAt now]).

Lemma room_queue_spec m r raw id expiresAt now :
  let res := room_queue m r raw id expiresAt now in
  room_outcome m r raw id expiresAt now res.1 (queued_rows res.2 r) /\ (forall r', r' <> r -> queued_rows res.2 r' = queued_rows m r').
Proof.
  cbv zeta. unfold room_queue. destruct (Z.ltb_spec MAX_QUEUE_BYTES (byte_length raw)); [split; [by constructor|done]|].
  destruct (match expiresAt with Some t => t <=? now | None => false end) eqn:E2.
  { destruct expiresAt; [|done]. reflect_bools. split; [by econstructor|done]. }
  fold (unexpired_rows now (queued_rows m r)). destruct (negb (id =?s "") && _) eqn:E3.
  { apply andb_true_iff in E3 as [_ E3]. apply existsb_exists in E3 as (x & Hx & Hid). apply bool_decide_eq_true in Hid.
    split; [|done]. econstructor; [by apply list_elem_of_In|done]. }
  destruct (retainSubmission_cases (unexpired_rows now (queued_rows m r)) (room_row_of raw id expiresAt now) HOLD_LIMIT MAX_QUEUE_BYTES)
    as [(a & b & Hab & -> & Hlim)|(-> & Hfull)]; cbn [fst snd]; [|split; [by constructor|done]].
  split; [|intros r' Hne; by rewrite queued_put, decide_False by congruence]. rewrite queued_put, decide_True by done. constructor; [done| |done].
  apply andb_false_iff in E3 as [E3|E3]; [left; by apply negb_false_iff, bool_decide_eq_true in E3|right; by apply has_delivery_false].
Qed.

Lemma stored_room_wf q kept id raw expiresAt now :
  room_queue_wf q -> kept `sublist_of` q -> id <> "" -> raw <> "" -> id ∉ omap row_deliveryId q ->
  ~ over_limit (kept ++ [room_row_of raw id expiresAt now]) HOLD_LIMIT MAX_QUEUE_BYTES ->
  room_queue_wf (kept ++ [room_row_of raw id expiresAt now]).
Proof.
  intros [HF Hnd Hc Hb] Hs Hne Hraw Hid Hlim. unfold over_limit in Hlim. split; [| |lia|lia].
  - apply Forall_app. split; [by eapply sublist_Forall|]. repeat constructor; simpl; eauto.
  - rewrite omap_app. apply NoDup_app. split_and!.
    + eapply sublist_NoDup; [exact Hnd|]. by apply sublist_omap.
    + intros x Hx Hx'. apply list_elem_of_singleton in Hx' as ->. apply Hid. eapply elem_of_sublist; [done|]. by apply sublist_omap.
    + apply NoDup_singleton.
Qed.

Lemma room_queue_mailbox_wf m r raw id expiresAt now :
  id <> "" -> raw <> "" -> mailbox_wf m -> mailbox_wf (room_queue m r raw id expiresAt now).2.
Proof.
  intros Hne Hraw Hm r'. pose proof (room_queue_spec m r raw id expiresAt now) as [Ho Hother]. cbv zeta in *.
  destruct (decide (r' = r)) as [->|Hr]; [|rewrite Hother by done; apply Hm].
  destruct Ho as [ | | | |a b Hab [Hid|Hid] Hlim]; try apply Hm; [done|]. rewrite app_assoc.
  apply stored_room_wf with (unexpired_rows now (queued_rows m r)); try done; [|by rewrite Hab; apply sublist_app; [apply durable_rows_sublist|]|by rewrite <- app_assoc].
  eapply room_queue_sublist; [apply sublist_filter|apply Hm].
Qed.

Lemma flush_mixed_sublist v k q : (flush_mixed v k q).2 `sublist_of` q.
Proof.
  revert k. induction q as [|x q IH]; intros k; simpl; [constructor|]. destruct (row_raw x =?s ""); [apply sublist_cons, IH|].
  destruct (negb (vs_matches v (row_raw x))).
  { specialize (IH k). destruct (flush_mixed v k q). by apply sublist_skip. }
  destruct (vs_throws v k); [done|]. specialize (IH (S k)). destruct (flush_mixed v (S k) q). simpl in *.
  destruct (reliable_row x); [by apply sublist_skip|by apply sublist_cons].
Qed.

(** A reliable row with a frame stays, sent or not. *)
Lemma flush_mixed_keeps v k q x : x ∈ q -> reliable_row x = true -> row_raw x <> "" -> x ∈ (flush_mixed v k q).2.
Proof.
  intros Hin Hr Hraw. revert k. induction q as [|y q IH]; intros k; [by apply elem_of_nil in Hin|]. simpl.
  apply elem_of_cons in Hin as [<-|Hin].
  - unfold jeqb. rewrite bool_decide_eq_false_2 by done. destruct (negb _).
    { destruct (flush_mixed v k q). by left. }
    destruct (vs_throws v k); [by left|]. destruct (flush_mixed v (S k) q). cbn [snd]. rewrite Hr. by left.
  - destruct (row_raw y =?s ""); [auto|]. destruct (negb _).
    { specialize (IH Hin k). destruct (flush_mixed v k q). by right. }
    destruct (vs_throws v k); [by right|]. specialize (IH Hin (S k)). destruct (flush_mixed v (S k) q). cbn [snd] in *.
    destruct (reliable_row y); [by right|done].
Qed.

Lemma flush_other m r v now r' : r' <> r -> queued_rows (flushTo m r v now).2 r' = queued_rows m r'.
Proof.
  intros Hne. unfold flushTo. destruct (stored_queue m r) as [[|x q]|]; [done| |done]. destruct (bool_decide _).
  { cbn [snd]. by rewrite queued_put, decide_False by congruence. }
  destruct (forallb _ _); [done|]. destruct (flush_mixed _ _ _). cbn [snd]. by rewrite queued_store, decide_False by congruence.
Qed.

Lemma flush_sublist m r v now : queued_rows (flushTo m r v now).2 r `sublist_of` queued_rows m r.
Proof.
  assert (queued_rows m r = default [] (stored_queue m r)) as Hq by done. unfold flushTo.
  destruct (stored_queue m r) as [[|x q]|]; rewrite Hq; cbn [default]; [cbn [snd]; by rewrite Hq| |cbn [snd]; by rewrite Hq].
  destruct (bool_decide _); [cbn [snd]; rewrite queued_put, decide_True by done; apply sublist_nil_l|].
  destruct (forallb _ _); [cbn [snd]; by rewrite Hq|].
  pose proof (flush_mixed_sublist v 0 (filter (fun x => pending_row now x = true) (x :: q))) as H. destruct (flush_mixed _ _ _). cbn [snd] in *.
  rewrite queued_store, decide_True by done. etransitivity; [exact H|apply sublist_filter].
Qed.

Lemma flush_keeps m r v now x :
  x ∈ queued_rows m r -> pending_row now x = true -> reliable_row x = true -> row_raw x <> "" -> x ∈ queued_rows (flushTo m r v now).2 r.
Proof.
  unfold flushTo. intros Hin Hp Hr Hraw. destruct (stored_queue m r) as [[|y q]|] eqn:E; [done| |done].
  assert (x ∈ filter (fun x => pending_row now x = true) (y :: q)) as Hx.
  { apply list_elem_of_filter. split; [done|]. unfold queued_rows in Hin. by rewrite E in Hin. }
  case_bool_decide as En; [rewrite En in Hx; by apply elem_of_nil in Hx|]. destruct (forallb _ _); [done|].
  pose proof (flush_mixed_keeps v 0 _ x Hx Hr Hraw) as H. destruct (flush_mixed _ _ _). cbn [snd] in *. by rewrite queued_store, decide_True.
Qed.

Lemma flush_wf m r v now : mailbox_wf m -> mailbox_wf (flushTo m r v now).2.
Proof.
  intros Hm r'. destruct (decide (r' = r)) as [->|Hne]; [|rewrite flush_other by done; apply Hm].
  eapply room_queue_sublist; [apply flush_sublist|apply Hm].
Qed.

(** ** The room as a mailbox
    [visit]: the socket that registers at a time for a role, with its recipient key and
    its failing sends. *)
Section Mailbox.
Context (visit : Z -> role -> visitor).

(** The handler queues a frame only when it parsed (so it is not empty) and has a truthy
    delivery id. *)
#[export] Instance worker_mailbox : MailboxStore mailbox := {|
  mb_rows := queued_rows;
  mb_exec m now op :=
    match op with
    | OpEnqueue r raw id expiresAt => if (id =?s "") || (raw =?s "") then m else (room_queue m r raw id expiresAt now).2
    | OpAcknowledge r id => room_acknowledge m r id
    | OpRead r => (flushTo m r (visit now r) now).2
    end;
  mb_wf := mailbox_wf;
|}.

Lemma live_row_facts now x : row_live now x = true -> unexpired now x = true /\ pending_row now x = true.
Proof. destruct x as [s|q]; simpl; [done|]. destruct (q_expiresAt q) as [t|]; [|done]. simpl. auto. Qed.

Lemma durable_reliable x : is_durable x = true -> reliable_row x = true.
Proof.
  unfold is_durable, reliable_row. destruct (row_deliveryId x) as [d|]; [|done]. intros H. apply negb_true_iff. unfold jeqb.
  apply bool_decide_eq_false_2. intros ->. vm_compute in H. done.
Qed.

Lemma room_queue_keeps m r raw id expiresAt now row :
  row ∈ queued_rows m r -> is_durable row = true -> row_live now row = true -> row ∈ queued_rows (room_queue m r raw id expiresAt now).2 r.
Proof.
  intros Hin Hd Hl. destruct (live_row_facts now row Hl) as [Hu _]. pose proof (room_queue_spec m r raw id expiresAt now) as [Ho _].
  destruct Ho as [ | | | |a b Hab _ _]; try done. assert (row ∈ a ++ b) as Hab' by (rewrite <- Hab; by apply list_elem_of_filter).
  apply elem_of_app in Hab' as [Ha|Hb]; [apply elem_of_app; left; by apply durable_in|apply elem_of_app; right; apply elem_of_app; by left].
Qed.

Lemma room_queue_origin m r raw id expiresAt now row :
  row ∈ queued_rows (room_queue m r raw id expiresAt now).2 r -> row ∈ queued_rows m r \/ row = room_row_of raw id expiresAt now.
Proof.
  pose proof (room_queue_spec m r raw id expiresAt now) as [Ho _]. intros Hin.
  destruct Ho as [ | | | |a b Hab _ _]; try by left. assert (a ++ b `sublist_of` queued_rows m r) as Hs by (rewrite <- Hab; apply sublist_filter).
  rewrite !elem_of_app in Hin. destruct Hin as [Hin|[Hin|Hin]].
  - left. eapply elem_of_sublist; [|exact Hs]. apply elem_of_app. left. eapply elem_of_sublist; [exact Hin|apply durable_rows_sublist].
  - left. eapply elem_of_sublist; [|exact Hs]. apply elem_of_app. by right.
  - right. by apply list_elem_of_singleton in Hin.
Qed.

#[export] Instance worker_mailbox_laws : MailboxLaws mailbox.
Proof.
  split.
  - intros m now [r raw id e|r id|r] Hm; cbn [mb_exec worker_mailbox mb_wf] in *.
    + destruct (_ || _) eqn:E; [done|]. apply orb_false_iff in E as [E1 E2]. unfold jeqb in E1, E2. apply bool_decide_eq_false in E1, E2.
      by apply room_queue_mailbox_wf.
    + apply store_rows_wf; [done|]. eapply room_queue_sublist; [apply sublist_filter|apply Hm].
    + by apply flush_wf.
  - intros m now op r row Hm Hin Hd Hl Ha. destruct op as [r' raw id e|r' id|r']; cbn [mb_exec mb_rows worker_mailbox] in *.
    + destruct (_ || _); [done|]. destruct (decide (r' = r)) as [->|Hne]; [by apply room_queue_keeps|].
      pose proof (room_queue_spec m r' raw id e now) as [_ Ho]. by rewrite Ho by congruence.
    + unfold room_acknowledge. rewrite queued_store. case_decide; [subst|done]. apply list_elem_of_filter. split; [|done].
      intros E. apply Ha. by split.
    + destruct (decide (r' = r)) as [->|Hne]; [|by rewrite flush_other by congruence].
      apply flush_keeps; [done|by apply live_row_facts|by apply durable_reliable|].
      pose proof (rq_proper _ (Hm r)) as Hp. rewrite Forall_forall in Hp. specialize (Hp _ Hin). destruct row as [s|q]; [done|]. by destruct Hp as (_ & ? & _).
  - intros m now op r row Hm. destruct op as [r' raw id e|r' id|r']; cbn [mb_exec mb_rows worker_mailbox].
    + destruct (_ || _); [by left|]. destruct (decide (r' = r)) as [->|Hne].
      * intros [?| ->]%room_queue_origin; [by left|by right].
      * pose proof (room_queue_spec m r' raw id e now) as [_ Ho]. rewrite Ho by congruence. by left.
    + unfold room_acknowledge. rewrite queued_store. case_decide; [subst|by left]. intros [_ ?]%list_elem_of_filter. by left.
    + destruct (decide (r' = r)) as [->|Hne]; [|rewrite flush_other by congruence; by left]. intros H. left.
      eapply elem_of_sublist; [exact H|apply flush_sublist].
  - intros m now r id row Hm. cbn [mb_exec mb_rows worker_mailbox]. unfold room_acknowledge. rewrite queued_store, decide_True by done.
    by intros [? _]%list_elem_of_filter.
  - intros m r Hm. apply (rq_nodup _ (Hm r)).
  - intros m r Hm. apply (rq_count _ (Hm r)).
Qed.

(** C11: A submission the room object stored stays stored whatever is queued, flushed to
    other sockets or acknowledged, until its own acknowledgement or its expiry, and the
    next flush to a matching socket that accepts sends delivers its ciphertext. *)
Theorem room_submission_survives m r raw id expiresAt now trace later v :
  mailbox_wf m -> isDurableSubmission (Some id) = true -> raw <> "" -> (room_queue m r raw id expiresAt now).1 = STORED ->
  let deadline := default (now + DEFAULT_QUEUE_TTL_MS) expiresAt in
  Forall (fun p => p.1 < deadline /\ p.2 <> OpAcknowledge r id) trace -> later < deadline ->
  vs_matches v raw = true -> (forall k, vs_throws v k = false) ->
  raw ∈ (flushTo (mb_run (room_queue m r raw id expiresAt now).2 trace) r v later).1.
Proof.
  intros Hm Hid Hraw Hst deadline HF Hl Hv Ht. set (row := room_row_of raw id expiresAt now).
  assert (id <> "") as Hne by (intros ->; vm_compute in Hid; done).
  pose proof (room_queue_mailbox_wf m r raw id expiresAt now Hne Hraw Hm) as Hm1.
  assert (row ∈ queued_rows (room_queue m r raw id expiresAt now).2 r) as Hin.
  { pose proof (room_queue_spec m r raw id expiresAt now) as [Ho _]. cbv zeta in Ho. rewrite Hst in Ho. inversion Ho as [ | | | |a b _ _ _ Heq].
    rewrite !elem_of_app. right; right. by apply list_elem_of_singleton. }
  set (m1 := (room_queue m r raw id expiresAt now).2) in *. assert (row ∈ queued_rows (mb_run m1 trace) r) as Hrow.
  { change (row ∈ mb_rows (mb_run m1 trace) r). apply submission_survives; [done|done|done|]. eapply Forall_impl; [exact HF|]. intros [t op] [Ht' Hop]. split; [by apply Z.ltb_lt|].
    destruct op as [|r' id'|]; cbn [acknowledges]; try tauto. intros [-> [= ->]]. by apply Hop. }
  clearbody m1. set (m2 := mb_run m1 trace) in *. clearbody m2. unfold flushTo. unfold queued_rows in Hrow.
  destruct (stored_queue m2 r) as [[|y q]|]; [by apply elem_of_nil in Hrow| |by apply elem_of_nil in Hrow]. cbn [default] in Hrow.
  assert (row ∈ filter (fun x => pending_row later x = true) (y :: q)) as Hp by (apply list_elem_of_filter; split; [by apply Z.ltb_lt|done]).
  case_bool_decide as En; [rewrite En in Hp; by apply elem_of_nil in Hp|]. revert Hp. generalize (filter (fun x => pending_row later x = true) (y :: q)).
  intros pending Hp. assert (forall k, raw ∈ flush_reliable v k pending /\ raw ∈ (flush_mixed v k pending).1) as H.
  { clear En. induction pending as [|x pending IH]; intros k; [by apply elem_of_nil in Hp|]. cbn [flush_reliable flush_mixed]. rewrite Ht.
    apply elem_of_cons in Hp as [<-|Hp].
    - change (row_raw row) with raw. rewrite Hv. unfold jeqb. rewrite bool_decide_eq_false_2 by done. cbn [negb].
      split; [by left|]. destruct (flush_mixed _ _ _). by left.
    - destruct (IH Hp k) as [H1 H2], (IH Hp (S k)) as [H3 H4]. destruct (flush_mixed v k pending), (flush_mixed v (S k) pending). cbn [fst] in *.
      destruct (row_raw x =?s ""), (vs_matches v (row_raw x)); cbn [negb fst]; split; try done; try (by right); by left. }
  destruct (H 0%nat) as [H1 H2]. destruct (forallb _ _); [done|]. by destruct (flush_mixed v 0 pending).
Qed.
End Mailbox.

Module Examples.
Definition open_visitor : visitor := {| vs_matches := fun _ => true; vs_throws := fun _ => false |}.
Definition closed_visitor : visitor := {| vs_matches := fun _ => true; vs_throws := fun _ => true |}.
(** A mailbox with a bare string of an older version. *)
Definition old_mailbox : mailbox := {| mb_machine := Some [LegacyRow "old"]; mb_phone := None |}.
Definition visits (now : Z) (r : role) : visitor := if now =? 5 then closed_visitor else open_visitor.

Lemma room_submission_survives_witness :
  ("raw" : jstr) ∈ (flushTo (@mb_run _ (worker_mailbox visits) (room_queue old_mailbox Machine "raw" "user-message-1" None 2).2
     [(3, OpAcknowledge Machine "x"); (4, OpEnqueue Machine "other" "transient" None); (5, OpRead Machine); (7, OpRead Machine)]) Machine open_visitor 8).1.
Proof.
  apply (room_submission_survives visits old_mailbox Machine "raw" "user-message-1" None 2
    [(3, OpAcknowledge Machine "x"); (4, OpEnqueue Machine "other" "transient" None); (5, OpRead Machine); (7, OpRead Machine)] 8 open_visitor).
  - intros []; [|apply room_queue_nil]. split; [repeat constructor|constructor|vm_compute; discriminate|vm_compute; discriminate].
  - vm_compute. reflexivity.
  - discriminate.
  - vm_compute. reflexivity.
  - repeat constructor; simpl; unfold DEFAULT_QUEUE_TTL_MS; try lia; discriminate.
  - simpl. unfold DEFAULT_QUEUE_TTL_MS. lia.
  - reflexivity.
  - reflexivity.
Defined.

(** A frame of an older version is sent once; a reliable row stays until its acknowledgement. *)
Example flush_of_mixed_rows :
  let m := (room_queue old_mailbox Machine "raw" "user-message-1" None 2).2 in
  (flushTo m Machine open_visitor 3).1 = ["old"; "raw"] /\ map row_raw (queued_rows (flushTo m Machine open_visitor 3).2 Machine) = ["raw"].
Proof. vm_compute. split; reflexivity. Qed.
End Examples.
