(* ===== verification/Storage.v ===== *)
(** * Durable Object storage

    The transactional key-value storage the Worker components write through:
    [storage.get], [put], [delete] and [list({ prefix, startAfter, limit })].
    The platform returns keys in ascending order, so the storage is kept as an
    association list sorted by key; [listTaskJobRecords]
    ([src/taskDispatch/worker-records.js]) reads it in pages. *)

From S2P Require Import Prelude.
From Stdlib Require Import Permutation Sorted.
#[local] Open Scope bool_scope.
#[local] Open Scope Z_scope.
#[local] Open Scope js_scope.

(** ** Order of keys: ascending code units *)

Fixpoint units_le (a b : list N) : bool :=
  match a, b with
  | [], _ => true
  | _ :: _, [] => false
  | x :: a', y :: b' => if (x <? y)%N then true else if (y <? x)%N then false else units_le a' b'
  end.

Lemma units_le_total a b : units_le a b = true \/ units_le b a = true.
Proof.
  revert b. induction a as [|x a IH]; intros [|y b]; simpl; auto.
  destruct (N.ltb_spec x y); [by left|]. destruct (N.ltb_spec y x); [by right|]. auto.
Qed.

Lemma units_le_trans a b c : units_le a b = true -> units_le b c = true -> units_le a c = true.
Proof.
  revert b c. induction a as [|x a IH]; intros [|y b] [|z c]; simpl; try done.
  repeat (case_match; reflect_bools); try done; try (rewrite ?N.ltb_lt, ?N.ltb_ge in *; lia). eauto.
Qed.

Lemma units_le_antisym a b : units_le a b = true -> units_le b a = true -> a = b.
Proof.
  revert b. induction a as [|x a IH]; intros [|y b]; simpl; try done.
  repeat case_match; try done; rewrite ?N.ltb_lt, ?N.ltb_ge in *; intros; try lia.
  f_equal; [lia|auto].
Qed.

Definition key_le (a b : jstr) : bool := units_le (units a) (units b).
(** [a < b] on strings. *)
Definition key_lt (a b : jstr) : bool := negb (key_le b a).

Lemma key_le_antisym a b : key_le a b = true -> key_le b a = true -> a = b.
Proof. destruct a, b. unfold key_le. simpl. intros. f_equal. by apply units_le_antisym. Qed.

Lemma key_lt_le a b : key_lt a b = true -> key_le a b = true.
Proof. unfold key_lt, key_le. destruct (units_le_total (units a) (units b)) as [->|E]; [done|]. by rewrite E. Qed.

Lemma key_lt_irrefl a : key_lt a a = false.
Proof. unfold key_lt, key_le. destruct (units_le_total (units a) (units a)) as [->| ->]; done. Qed.

Lemma key_lt_ne a b : key_lt a b = true -> a <> b.
Proof. intros H ->. by rewrite key_lt_irrefl in H. Qed.

Lemma key_lt_iff a b : key_lt a b = true <-> key_le a b = true /\ a <> b.
Proof.
  split; [auto using key_lt_le, key_lt_ne|]. intros [Hle Hne]. unfold key_lt.
  destruct (key_le b a) eqn:E; [|done]. exfalso. by apply Hne, key_le_antisym.
Qed.

Lemma key_lt_trans a b c : key_lt a b = true -> key_lt b c = true -> key_lt a c = true.
Proof.
  rewrite !key_lt_iff. intros [H1 N1] [H2 N2]. split.
  - unfold key_le in *. by eapply units_le_trans.
  - intros ->. apply N1. by apply key_le_antisym.
Qed.

Lemma key_lt_total a b : key_lt a b = true \/ a = b \/ key_lt b a = true.
Proof.
  rewrite !key_lt_iff. destruct (decide (a = b)); [auto|].
  destruct (units_le_total (units a) (units b)); [left|right; right]; split; done || congruence.
Qed.

(** ** Operations *)

Section Storage.
Context {V : Type}.
Implicit Types (st : list (jstr * V)) (k : jstr) (v : V).

Definition storage_get k st : option V := map_get k st.
Definition storage_delete k st := map_delete k st.

Fixpoint storage_put k v st : list (jstr * V) :=
  match st with
  | [] => [(k, v)]
  | (k', v') :: rest =>
      if decide (k = k') then (k, v) :: rest
      else if key_le k k' then (k, v) :: st else (k', v') :: storage_put k v rest
  end.

(** [storage.list({ prefix, startAfter, limit })] *)
Definition storage_list (prefix : jstr) (startAfter : option jstr) (limit : option nat) st :=
  let found := filter (fun e => starts_with prefix e.1
                 && match startAfter with Some s => key_lt s e.1 | None => true end) st in
  match limit with Some n => take n found | None => found end.

Definition sorted st : Prop := StronglySorted (fun a b => key_lt a.1 b.1 = true) st.

Lemma storage_get_put k k' v st :
  storage_get k (storage_put k' v st) = if decide (k = k') then Some v else storage_get k st.
Proof.
  unfold storage_get. induction st as [|[k0 v0] st IH]; simpl; [done|].
  destruct (decide (k' = k0)) as [->|Hn]; simpl; [by repeat case_decide|].
  destruct (key_le k' k0); simpl; [done|]. rewrite IH. repeat case_decide; congruence.
Qed.

Lemma storage_get_delete k k' st :
  storage_get k (storage_delete k' st) = if decide (k = k') then None else storage_get k st.
Proof. apply map_get_delete. Qed.

Lemma storage_put_Forall (P : jstr * V -> Prop) k v st :
  P (k, v) -> Forall P st -> Forall P (storage_put k v st).
Proof.
  intros Hp HF. induction HF as [|[k0 v0] st H0 HF IH]; simpl; [by constructor|].
  case_decide; [by constructor|]. case_match; by repeat constructor.
Qed.

Lemma storage_put_sorted k v st : sorted st -> sorted (storage_put k v st).
Proof.
  induction 1 as [|[k0 v0] st Hs IH HF]; simpl; [repeat constructor|].
  destruct (decide (k = k0)) as [->|Hn]; [by constructor|].
  destruct (key_le k k0) eqn:E.
  - assert (key_lt k k0 = true) as Hlt by (by apply key_lt_iff). constructor; [by constructor|].
    constructor; [done|]. eapply Forall_impl; [done|]. intros e He. by eapply key_lt_trans.
  - constructor; [done|]. apply storage_put_Forall; [|done]. unfold key_lt. simpl. by rewrite E.
Qed.

Lemma sorted_filter (p : jstr * V -> bool) st : sorted st -> sorted (filter p st).
Proof.
  induction 1 as [|e st Hs IH HF]; [constructor|]. rewrite filter_cons. case_decide; [|done].
  constructor; [done|]. eapply sublist_Forall; [apply sublist_filter|done].
Qed.

Lemma storage_delete_sorted k st : sorted st -> sorted (storage_delete k st).
Proof.
  intros Hs. unfold storage_delete, map_delete. induction Hs as [|e st Hs IH HF]; [constructor|].
  rewrite filter_cons. case_decide; [|done].
  constructor; [done|]. eapply sublist_Forall; [apply sublist_filter|done].
Qed.

Lemma sorted_nodup st : sorted st -> NoDup st.*1.
Proof.
  induction 1 as [|[k v] st Hs IH HF]; simpl; constructor; [|done]. intros Hin.
  apply list_elem_of_fmap in Hin as ([k' v'] & E & Hin). simpl in *. subst.
  rewrite Forall_forall in HF. apply HF in Hin. simpl in Hin. by rewrite key_lt_irrefl in Hin.
Qed.

(** A sorted list behind its [n]-th element is what lies after that key. *)
Lemma sorted_after st n e :
  sorted st -> last (take (S n) st) = Some e -> length (take (S n) st) = S n ->
  filter (fun x => key_lt e.1 x.1) st = drop (S n) st.
Proof.
  intros Hs. revert st Hs. induction n as [|n IH]; intros st Hs Hl Hlen.
  - destruct st as [|x st]; [done|]. simpl in *. injection Hl as ->.
    apply StronglySorted_inv in Hs as [Hs HF]. rewrite filter_cons, key_lt_irrefl. simpl.
    clear Hs Hlen. induction HF as [|y st Hy HF IHF]; [done|]. rewrite filter_cons, Hy. simpl. by rewrite IHF.
  - destruct st as [|x st]; [done|]. simpl in Hlen. injection Hlen as Hlen.
    apply StronglySorted_inv in Hs as [Hs HF]. destruct st as [|y st]; [done|].
    rewrite filter_cons. change (drop (S (S n)) (x :: y :: st)) with (drop (S n) (y :: st)).
    assert (last (take (S n) (y :: st)) = Some e) as Hl' by done.
    destruct (key_lt e.1 x.1) eqn:E.
    + exfalso. rewrite Forall_forall in HF.
      assert (e ∈ y :: st) as Hin.
      { apply last_Some in Hl' as [l' Hl']. eapply elem_of_sublist; [|apply sublist_take with (i := S n)].
        rewrite Hl'. apply elem_of_app. right. by left. }
      apply HF in Hin. pose proof (key_lt_trans _ _ _ E Hin) as Hx. by rewrite key_lt_irrefl in Hx.
    + simpl. by apply IH.
Qed.
End Storage.

(** ** Composite keys: parts joined by a colon that none of them contains *)

Definition no_colon (s : jstr) : Prop := 58%N ∉ units s.

Lemma units_inj a b : units a = units b -> a = b.
Proof. destruct a, b. simpl. by intros ->. Qed.

Lemma colon_split (a a' b b' : list N) :
  58%N ∉ a -> 58%N ∉ a' -> a ++ 58%N :: b = a' ++ 58%N :: b' -> a = a' /\ b = b'.
Proof.
  revert a'. induction a as [|x a IH]; intros [|y a'] Ha Ha' E; simpl in *.
  - by injection E as ->.
  - injection E as <- _. exfalso. apply Ha'. by left.
  - injection E as -> _. exfalso. apply Ha. by left.
  - injection E as -> E. rewrite not_elem_of_cons in Ha, Ha'. destruct Ha as [_ Ha], Ha' as [_ Ha'].
    by destruct (IH a' Ha Ha' E) as [-> ->].
Qed.


Lemma starts_with_iff prefix s :
  starts_with prefix s = true <-> exists rest, units s = units prefix ++ rest.
Proof.
  unfold starts_with. rewrite bool_decide_eq_true. split.
  - intros E. exists (drop (length (units prefix)) (units s)). rewrite <- E at 1. by rewrite take_drop.
  - intros [rest ->]. apply take_app_length.
Qed.

Lemma class_no_colon (cls : N -> bool) lo hi s :
  cls 58%N = false -> re_class cls lo hi s = true -> no_colon s.
Proof.
  intros Hc H. unfold re_class in H. split_andb. intros Hin.
  rewrite forallb_forall in H. apply list_elem_of_In, H in Hin. congruence.
Qed.

Lemma hex64_no_colon s : hex64 s = true -> no_colon s.
Proof. by apply class_no_colon. Qed.

Lemma job_id_no_colon id : re_job_id id = true -> no_colon id.
Proof.
  unfold re_job_id, no_colon. destruct (units id) as [|c rest] eqn:E; [done|]. intros H Hin. split_andb.
  apply elem_of_cons in Hin as [<-|Hin]; [done|]. by apply (class_no_colon cls_word 7 119 (JS rest)).
Qed.

(** [space:room:] is a prefix of [space:room':id] only for the same room. *)
Lemma key_prefix (space room room' id : jstr) :
  no_colon room -> no_colon room' ->
  starts_with (space +++ room +++ ":") (space +++ room' +++ ":" +++ id) = true <-> room = room'.
Proof.
  intros Hr Hr'. rewrite starts_with_iff. simpl. split.
  - intros [rest E]. rewrite <- !app_assoc in E. apply app_inv_head in E. simpl in E.
    apply colon_split in E as [E _]; [by apply units_inj|done|done].
  - intros ->. exists (units id). rewrite <- !app_assoc. done.
Qed.

Lemma key_inj (space room room' id id' : jstr) :
  no_colon room -> no_colon room' ->
  space +++ room +++ ":" +++ id = space +++ room' +++ ":" +++ id' <-> room = room' /\ id = id'.
Proof.
  intros Hr Hr'. split; [|by intros [-> ->]]. intros E. injection E as E. apply app_inv_head in E.
  apply colon_split in E as [E1 E2]; [|done|done]. split; by apply units_inj.
Qed.

Section StorageLaws.
Context {V : Type}.
Implicit Types (st : list (jstr * V)).

Lemma storage_delete_absent k st : k ∉ st.*1 -> storage_delete k st = st.
Proof.
  intros Hn. unfold storage_delete, map_delete.
  rewrite (filter_ext_in _ (fun _ => True)); [by rewrite filter_always|]. intros e He. split; [done|].
  intros _ E. apply Hn. rewrite <- E. apply list_elem_of_fmap. by exists e.
Qed.

Lemma storage_put_perm k v st : sorted st -> Permutation (storage_put k v st) ((k, v) :: storage_delete k st).
Proof.
  intros Hs. induction Hs as [|[k' v'] st Hs IH HF]; simpl; [done|].
  assert (NoDup ((k', v') :: st).*1) as Hnd by (apply sorted_nodup; by constructor).
  apply NoDup_cons in Hnd as [Hn Hnd]. unfold storage_delete, map_delete in *. rewrite filter_cons. simpl.
  case_decide as E.
  - subst. rewrite decide_False by (by intros Hx). pose proof (storage_delete_absent k' st Hn) as Hd.
    unfold storage_delete, map_delete in Hd. by rewrite Hd.
  - rewrite decide_True by congruence. destruct (key_le k k') eqn:Ele.
    + constructor. constructor. pose proof (storage_delete_absent k st) as Hd.
      unfold storage_delete, map_delete in Hd. rewrite Hd; [done|]. intros Hin.
      apply list_elem_of_fmap in Hin as ([k0 v0] & -> & Hin). simpl in *.
      rewrite Forall_forall in HF. apply HF in Hin. simpl in Hin. unfold key_lt in Hin. by rewrite Ele in Hin.
    + rewrite IH. by constructor.
Qed.
End StorageLaws.

(** The slices of a text, one after the other, are the text. *)
Lemma chunks_concat (C n : nat) (l : list N) :
  concat (map (fun i => take ((i + 1) * C - i * C) (drop (i * C) l)) (seq 0 n)) = take (n * C) l.
Proof.
  induction n as [|n IH]; [done|].
  rewrite seq_S, map_app, concat_app, IH. simpl. rewrite app_nil_r.
  replace ((n + 1) * C - n * C)%nat with C by lia. rewrite take_take_drop. f_equal. lia.
Qed.

Lemma sapp_colon a a' b b' :
  no_colon a -> no_colon a' -> a +++ ":" +++ b = a' +++ ":" +++ b' -> a = a' /\ b = b'.
Proof.
  intros Ha Ha' H. assert (units a ++ 58%N :: units b = units a' ++ 58%N :: units b') as E by (by injection H).
  apply colon_split in E as [E1 E2]; [|done|done]. split; by apply units_inj.
Qed.

Lemma sapp_inj s a b : s +++ a = s +++ b -> a = b.
Proof. intros H. injection H as H. apply app_inv_head in H. by apply units_inj. Qed.

Lemma sapp_assoc a b c : (a +++ b) +++ c = a +++ b +++ c.
Proof. unfold sapp. simpl. by rewrite <- app_assoc. Qed.

Lemma sapp_prefix_inj s a b : s +++ a = s +++ b <-> a = b.
Proof. split; [apply sapp_inj|by intros ->]. Qed.
