(* ===== verification/RetainedState.v ===== *)
(** * Retained state
    [src/retainedState/policy.js], [node.js] and [worker.js].

    A machine may leave, per phone, the latest ciphertext of each state slot; a
    phone that connects receives them.  The policy keeps the newest revision of
    each slot within 512 slots and 16 MiB per room and gives up whole groups,
    the essential ones last. *)

From S2P Require Import Prelude Base64 Validation Storage.
From Stdlib Require Import Permutation Sorted.
#[local] Open Scope bool_scope.
#[local] Open Scope Z_scope.
#[local] Open Scope js_scope.

Definition STATE_ROOM_BYTES : Z := 16 * 1024 * 1024.
Definition STATE_ROOM_SLOTS : Z := 512.
Definition STATE_FRAME_BYTES : Z := 1800000.

(** The identifying members are kept as the values that passed the validation. *)
Record state_row := {
  sr_recipient : jsv; sr_key : jsv; sr_revision : Z; sr_priority : Z; sr_group : jsv;
  sr_expiresAt : Z; sr_savedAt : Z; sr_bytes : Z; sr_raw : jstr;
}.
#[export] Instance state_row_eq_dec : EqDecision state_row.
Proof. solve_decision. Defined.

(** A device of the room ([roomPresence]). *)
Record device := { dv_id : jsv; dv_role : jstr; dv_lastSeenAt : Z }.
#[export] Instance device_eq_dec : EqDecision device.
Proof. solve_decision. Defined.

Definition live_at (now : Z) (row : state_row) : bool := now <? sr_expiresAt row.

(** The text of a value in a template; the members passed a test that converts them. *)
Definition text_of (v : jsv) : jstr := match to_string v with Ok s => s | Throw => "" end.

Definition same_slot (recipient key : jsv) (row : state_row) : bool :=
  strict_eq (sr_recipient row) recipient && strict_eq (sr_key row) key.

(** ** Eviction groups *)

Definition group_id (row : state_row) : jstr :=
  text_of (sr_recipient row) +++ ":" +++ text_of (if is_nullish (sr_group row) then sr_key row else sr_group row).

Record group := { gp_id : jstr; gp_rows : list state_row; gp_priority : Z; gp_savedAt : Z; gp_seen : Z }.

(** [seen]: the last time each phone was seen; the last row of an id wins. *)
Definition seen_at (activity : list device) (now : Z) (recipient : jsv) : Z :=
  match List.find (fun d => strict_eq (dv_id d) recipient)
          (rev (filter (fun d => (dv_role d =?s "phone") && (now - STATE_TTL_MS <? dv_lastSeenAt d)) activity)) with
  | Some d => dv_lastSeenAt d | None => 0 end.

Definition maximum (l : list Z) : Z := match l with [] => 0 | x :: rest => fold_left Z.max rest x end.

Definition bodies (rows : list state_row) : list state_row := filter (fun r => sr_priority r <> 0) rows.

(** The group's members after [row] was pushed. *)
Definition group_update (g : group) (row : state_row) : group :=
  let rows := gp_rows g ++ [row] in
  let bs := bodies rows in
  {| gp_id := gp_id g; gp_rows := rows;
     gp_priority := match bs with [] => if truthy (sr_group row) then 2 else 4 | _ => maximum (map sr_priority bs) end;
     gp_savedAt := maximum (map sr_savedAt (match bs with [] => rows | _ => bs end));
     gp_seen := gp_seen g |}.

Definition add_to_groups (activity : list device) (now : Z) (groups : list (jstr * group)) (row : state_row)
  : list (jstr * group) :=
  let id := group_id row in
  let g := match map_get id groups with
           | Some g => g
           | None => {| gp_id := id; gp_rows := []; gp_priority := 2; gp_savedAt := sr_savedAt row;
                        gp_seen := seen_at activity now (sr_recipient row) |} end in
  map_set id (group_update g row) groups.

(** The comparator of the sort: negative or zero keeps the first before the second. *)
Definition group_cmp (a b : group) : Z :=
  let essential := (if gp_priority a =? 1 then 1 else 0) - (if gp_priority b =? 1 then 1 else 0) in
  if negb (essential =? 0) then essential
  else if negb (gp_seen a - gp_seen b =? 0) then gp_seen a - gp_seen b
  else if negb (gp_priority b - gp_priority a =? 0) then gp_priority b - gp_priority a
  else gp_savedAt a - gp_savedAt b.

(** A stable sort. *)
Fixpoint insert_group (g : group) (l : list group) : list group :=
  match l with
  | [] => [g]
  | h :: rest => if group_cmp g h <=? 0 then g :: h :: rest else h :: insert_group g rest
  end.

Definition evictionGroups (rows : list state_row) (activity : list device) (now : Z) : list group :=
  foldr insert_group [] (map snd (fold_left (add_to_groups activity now) rows [])).

Definition fits (rows : list state_row) (total : Z) : bool :=
  (Z.of_nat (length rows) <=? STATE_ROOM_SLOTS) && (total <=? STATE_ROOM_BYTES).

(** [for (const group of ...) { if (fits) break; ... }]; a group holds all rows of its id. *)
Fixpoint evict (groups : list group) (rows : list state_row) (total : Z) : list state_row :=
  match groups with
  | [] => rows
  | g :: rest =>
      if fits rows total then rows
      else evict rest (filter (fun r => r ∉ gp_rows g) rows) (total - sum_by sr_bytes (gp_rows g))
  end.

(** [live.filter(row => row !== existing)] *)
Fixpoint remove_slot (recipient key : jsv) (rows : list state_row) : list state_row :=
  match rows with
  | [] => []
  | r :: rest => if same_slot recipient key r then rest else r :: remove_slot recipient key rest
  end.

Definition new_state_row (envelope : jsv) (raw : jstr) (now bytes : Z) : state_row :=
  {| sr_recipient := get "recipientKeyId" envelope; sr_key := get "stateKey" envelope;
     sr_revision := int_of (get "stateRevision" envelope); sr_priority := int_of (get "statePriority" envelope);
     sr_group := get "stateGroup" envelope; sr_expiresAt := int_of (get "expiresAt" envelope);
     sr_savedAt := now; sr_bytes := bytes; sr_raw := raw |}.

(** [envelope.expiresAt <= now] of a validated state frame, whose expiry is an integer. *)
Definition retainState (rows : list state_row) (envelope : jsv) (raw : jstr) (now : Z) (activity : list device)
  : res (list state_row) :=
  let live := filter (live_at now) rows in
  if negb (truthy (get "stateKey" envelope)) then Ok live else
  let* valid := validRetainedState envelope now in
  if negb valid || (int_of (get "expiresAt" envelope) <=? now) then Ok live else
  if negb (is_int (get "statePriority" envelope) 1) && negb (truthy (get "stateGroup" envelope)) then Ok live else
  let bytes := byte_length raw in
  if STATE_FRAME_BYTES <? bytes then Ok live else
  let recipient := get "recipientKeyId" envelope in
  let key := get "stateKey" envelope in
  if match List.find (same_slot recipient key) live with
     | Some existing => int_of (get "stateRevision" envelope) <=? sr_revision existing | None => false end
  then Ok live else
  let result := remove_slot recipient key live ++ [new_state_row envelope raw now bytes] in
  Ok (evict (evictionGroups result activity now) result (sum_by sr_bytes result)).

(** ** Replay *)

Definition replay_before (a b : state_row) : bool :=
  (sr_priority a <? sr_priority b) || (sr_priority a =? sr_priority b) && (sr_revision a <=? sr_revision b).

Fixpoint insert_replay (r : state_row) (l : list state_row) : list state_row :=
  match l with
  | [] => [r]
  | h :: rest => if replay_before r h then r :: h :: rest else h :: insert_replay r rest
  end.

(** [recipient] is the digest the phone's socket announced, if any. *)
Definition replayState (rows : list state_row) (recipient : option jstr) (now : Z) : list state_row :=
  match recipient with
  | Some r => if hex64 r
              then foldr insert_replay [] (filter (fun row => is_str (sr_recipient row) r && live_at now row) rows)
              else []
  | None => []
  end.

(** ** The groups partition the rows *)

Definition rows_of (id : jstr) (rows : list state_row) : list state_row := filter (fun r => group_id r = id) rows.

Record groups_of (rows : list state_row) (groups : list (jstr * group)) : Prop := {
  go_keys : NoDup groups.*1;
  go_group : forall id g, map_get id groups = Some g ->
    gp_id g = id /\ gp_rows g = rows_of id rows /\ rows_of id rows <> [];
  go_all : forall r, r ∈ rows -> is_Some (map_get (group_id r) groups);
}.

Lemma rows_of_app id l1 l2 : rows_of id (l1 ++ l2) = rows_of id l1 ++ rows_of id l2.
Proof. apply filter_app. Qed.

Lemma groups_fold activity now rows : groups_of rows (fold_left (add_to_groups activity now) rows []).
Proof.
  induction rows as [|row rows IH] using rev_ind; [constructor; simpl; [constructor|done|intros r H; by apply elem_of_nil in H]|].
  rewrite fold_left_app. simpl. set (groups := fold_left _ rows []) in *. destruct IH as [Hk Hg Ha].
  unfold add_to_groups. constructor.
  - by apply map_set_nodup.
  - intros id g. rewrite map_get_set, rows_of_app. unfold rows_of at 2 4. rewrite filter_cons, filter_nil.
    case_decide as E.
    + intros [= <-]. subst id. rewrite decide_True by done. simpl.
      destruct (map_get (group_id row) groups) as [g|] eqn:Eg.
      * destruct (Hg _ _ Eg) as (H1 & H2 & _). rewrite H2. split_and!; [done|done|].
        by destruct (rows_of (group_id row) rows).
      * simpl. assert (rows_of (group_id row) rows = []) as ->; [|by split_and!].
        destruct (rows_of (group_id row) rows) as [|r l] eqn:Er; [done|].
        assert (r ∈ rows_of (group_id row) rows) as Hr by (rewrite Er; by left).
        apply list_elem_of_filter in Hr as [Hid Hr]. destruct (Ha r Hr) as [x Hx]. congruence.
    + rewrite decide_False by congruence. rewrite app_nil_r. apply Hg.
  - intros r Hr. rewrite map_get_set. case_decide; [by eexists|].
    apply elem_of_app in Hr as [Hr|Hr]; [by apply Ha|]. apply list_elem_of_singleton in Hr. congruence.
Qed.

Lemma insert_group_perm g l : Permutation (insert_group g l) (g :: l).
Proof.
  induction l as [|h l IH]; simpl; [done|]. case_match; [done|]. rewrite IH. by constructor.
Qed.

Lemma sort_groups_perm l : Permutation (foldr insert_group [] l) l.
Proof. induction l as [|g l IH]; simpl; [done|]. rewrite insert_group_perm. by constructor. Qed.

(** What the eviction order guarantees. *)
Record partition (rows : list state_row) (groups : list group) : Prop := {
  pt_ids : NoDup (map gp_id groups);
  pt_rows : forall g, g ∈ groups -> gp_rows g = rows_of (gp_id g) rows;
  pt_all : forall r, r ∈ rows -> group_id r ∈ map gp_id groups;
}.

Lemma evictionGroups_partition rows activity now : partition rows (evictionGroups rows activity now).
Proof.
  unfold evictionGroups. pose proof (groups_fold activity now rows) as [Hk Hg Ha].
  set (groups := fold_left _ rows []) in *.
  assert (map gp_id (map snd groups) = groups.*1) as Hids.
  { rewrite map_map. apply list_fmap_ext. intros i [id g] Hi. simpl.
    apply list_elem_of_lookup_2 in Hi. apply map_get_In in Hi; [|done]. by destruct (Hg _ _ Hi). }
  pose proof (sort_groups_perm (map snd groups)) as Hp. constructor.
  - apply (Permutation_map gp_id) in Hp. rewrite Hp, Hids. done.
  - intros g Hin. rewrite Hp in Hin. apply list_elem_of_fmap in Hin as ([id g'] & -> & Hin). simpl.
    apply map_get_In in Hin; [|done]. destruct (Hg _ _ Hin) as (-> & -> & _). done.
  - intros r Hr. apply (Permutation_map gp_id) in Hp. rewrite Hp, Hids.
    destruct (Ha r Hr) as [g Hget]. apply list_elem_of_fmap. exists (group_id r, g). split; [done|].
    by apply map_get_Some.
Qed.

(** Essential groups come last. *)
Definition essential (g : group) : Prop := gp_priority g = 1.

Lemma group_cmp_essential g h :
  (group_cmp g h <= 0 -> essential g -> essential h) /\ (0 < group_cmp g h -> essential h -> essential g).
Proof.
  unfold group_cmp, essential. destruct (Z.eqb_spec (gp_priority g) 1), (Z.eqb_spec (gp_priority h) 1);
    cbn -[Z.sub]; split; intros; try done; lia.
Qed.

Lemma insert_group_Forall (P : group -> Prop) g l : P g -> Forall P l -> Forall P (insert_group g l).
Proof. intros Hg HF. rewrite insert_group_perm. by constructor. Qed.

Lemma sorted_essential l :
  StronglySorted (fun g h => essential g -> essential h) (foldr insert_group [] l).
Proof.
  assert (forall g l, StronglySorted (fun g h => essential g -> essential h) l ->
    StronglySorted (fun g h => essential g -> essential h) (insert_group g l)) as Hins.
  { intros g l0 Hs. induction Hs as [|h l0 Hs IH HF]; simpl; [repeat constructor|].
    destruct (group_cmp_essential g h) as [H1 H2]. destruct (Z.leb_spec (group_cmp g h) 0) as [Hc|Hc].
    - constructor; [by constructor|]. constructor; [auto|]. eapply Forall_impl; [exact HF|]. naive_solver.
    - constructor; [done|]. apply insert_group_Forall; [auto|done]. }
  induction l as [|g l IH]; simpl; [constructor|]. auto.
Qed.

(** ** Eviction *)

(** The rows whose groups were not given up. *)
Definition outside (gone : list group) (rows : list state_row) : list state_row :=
  filter (fun r => group_id r ∉ map gp_id gone) rows.

Lemma outside_nil rows : outside [] rows = rows.
Proof. apply filter_always. intros r. apply not_elem_of_nil. Qed.

Lemma sum_by_split (p : state_row -> Prop) `{!forall r, Decision (p r)} rows :
  sum_by sr_bytes rows = sum_by sr_bytes (filter p rows) + sum_by sr_bytes (filter (fun r => ~ p r) rows).
Proof.
  induction rows as [|r rows IH]; [done|]. rewrite !filter_cons. simpl.
  destruct (decide (p r)), (decide (~ p r)); simpl; tauto || lia.
Qed.

Section Evict.
Context (rows0 : list state_row) (groups0 : list group).
Hypothesis (Hpart : partition rows0 groups0).

Lemma outside_step gone g rest :
  groups0 = gone ++ g :: rest ->
  filter (fun r => r ∉ gp_rows g) (outside gone rows0) = outside (gone ++ [g]) rows0 /\
  sum_by sr_bytes (outside gone rows0) - sum_by sr_bytes (gp_rows g) = sum_by sr_bytes (outside (gone ++ [g]) rows0).
Proof.
  intros E. destruct Hpart as [Hn Hr _]. rewrite (Hr g) by (rewrite E; set_solver).
  assert (gp_id g ∉ map gp_id gone) as Hfresh.
  { rewrite E, map_app in Hn. apply NoDup_app in Hn as (_ & Hd & _). intros Hin. apply (Hd _ Hin). simpl. by left. }
  assert (outside (gone ++ [g]) rows0 = filter (fun r => ~ group_id r = gp_id g) (outside gone rows0)) as ->.
  { unfold outside. rewrite list_filter_filter. apply list_filter_iff. intros r.
    rewrite map_app, not_elem_of_app. simpl. rewrite not_elem_of_cons. pose proof (not_elem_of_nil (group_id r)). tauto. }
  split.
  - apply filter_ext_in. intros r Hin. unfold rows_of. rewrite list_elem_of_filter.
    apply list_elem_of_filter in Hin as [_ Hin]. tauto.
  - rewrite (sum_by_split (fun r => group_id r = gp_id g) (outside gone rows0)).
    assert (filter (fun r => group_id r = gp_id g) (outside gone rows0) = rows_of (gp_id g) rows0) as ->; [|lia].
    unfold outside, rows_of. rewrite list_filter_filter. apply list_filter_iff. intros r.
    split; [tauto|]. intros Hid. rewrite Hid. tauto.
Qed.

(** The loop gives up a prefix of the order, the shortest one after which the rest fits. *)
Lemma evict_spec gone rest :
  groups0 = gone ++ rest ->
  exists more kept, rest = more ++ kept /\
    evict rest (outside gone rows0) (sum_by sr_bytes (outside gone rows0)) = outside (gone ++ more) rows0 /\
    (kept = [] \/ fits (outside (gone ++ more) rows0) (sum_by sr_bytes (outside (gone ++ more) rows0)) = true) /\
    (forall m g, more = m ++ [g] ->
       fits (outside (gone ++ m) rows0) (sum_by sr_bytes (outside (gone ++ m) rows0)) = false).
Proof.
  revert gone. induction rest as [|g rest IH]; intros gone E; simpl.
  - exists [], []. rewrite !app_nil_r. split_and!; [done|done|by left|]. intros m g Em. by destruct m.
  - destruct (fits _ _) eqn:Ef.
    + exists [], (g :: rest). rewrite !app_nil_r. split_and!; [done|done|by right|]. intros m h Em. by destruct m.
    + destruct (outside_step gone g rest E) as [Hf Hs].
      assert (filter (fun r => r ∉ gp_rows g) (outside gone rows0) = outside (gone ++ [g]) rows0) as Hf' by exact Hf.
      rewrite Hs, Hf'. destruct (IH (gone ++ [g])) as (more & kept & Hrest & Hev & Hfit & Hmin).
      { rewrite <- app_assoc. done. }
      exists (g :: more), kept. rewrite <- app_assoc in Hev, Hfit. simpl in *.
      split_and!; [by f_equal|exact Hev|exact Hfit|].
      intros m h Em. destruct m as [|g' m]; simpl in Em.
      * injection Em as <- ->. by rewrite app_nil_r.
      * injection Em as <- ->. specialize (Hmin m h eq_refl). by rewrite <- app_assoc in Hmin.
Qed.

Lemma all_gone : outside groups0 rows0 = [].
Proof.
  destruct Hpart as [_ _ Ha]. apply elem_of_nil_inv. intros r Hin.
  apply list_elem_of_filter in Hin as [Hn Hin]. by apply Hn, Ha.
Qed.
End Evict.

(** ** The policy *)

Definition within_room (rows : list state_row) : Prop :=
  Z.of_nat (length rows) <= STATE_ROOM_SLOTS /\ sum_by sr_bytes rows <= STATE_ROOM_BYTES /\
  Forall (fun r => 0 <= sr_bytes r) rows.

Lemma within_sublist l1 l2 : l1 `sublist_of` l2 -> within_room l2 -> within_room l1.
Proof.
  intros Hs (Hl & Hb & HF). split_and!.
  - apply sublist_length in Hs. lia.
  - etrans; [by apply sum_by_sublist|done].
  - by eapply sublist_Forall.
Qed.

(** Every admitted frame has a recipient and a key that convert to text. *)
Lemma retainState_cases rows env raw now activity rows' :
  retainState rows env raw now activity = Ok rows' ->
  let live := filter (live_at now) rows in
  let recipient := get "recipientKeyId" env in
  let key := get "stateKey" env in
  rows' = live \/
  (validRetainedState env now = Ok true /\ now < int_of (get "expiresAt" env) /\
   byte_length raw <= STATE_FRAME_BYTES /\
   (forall r, List.find (same_slot recipient key) live = Some r -> sr_revision r < int_of (get "stateRevision" env)) /\
   exists gone kept,
     let result := remove_slot recipient key live ++ [new_state_row env raw now (byte_length raw)] in
     evictionGroups result activity now = gone ++ kept /\ rows' = outside gone result /\
     (kept = [] \/ fits rows' (sum_by sr_bytes rows') = true) /\
     (forall m g, gone = m ++ [g] -> fits (outside m result) (sum_by sr_bytes (outside m result)) = false)).
Proof.
  unfold retainState. intros H. cbv zeta in *.
  destruct (negb (truthy (get "stateKey" env))); [left; by injection H|].
  destruct (validRetainedState env now) as [v|] eqn:Ev; [|discriminate H]. cbn [res_bind] in H.
  destruct (negb v || _) eqn:E1; [left; by injection H|]. split_andb. subst v.
  destruct (negb (is_int _ _) && _); [left; by injection H|].
  destruct (STATE_FRAME_BYTES <? byte_length raw) eqn:E2; [left; by injection H|].
  destruct (match List.find _ (filter (live_at now) rows) with Some _ => _ | None => _ end) eqn:E3;
    [left; by injection H|].
  reflect_bools. right. split_and!; [done|done|done| |].
  { intros r Hr. rewrite Hr in E3. by apply Z.leb_gt in E3. }
  injection H as <-. set (result := remove_slot _ _ _ ++ _).
  pose proof (evictionGroups_partition result activity now) as Hpart.
  destruct (evict_spec result _ Hpart [] (evictionGroups result activity now) eq_refl) as (more & kept & E & Hev & Hfit & Hmin).
  simpl in *. rewrite !outside_nil in Hev. exists more, kept. rewrite Hev. split_and!; [done|done|exact Hfit|exact Hmin].
Qed.

Lemma remove_slot_sublist recipient key rows : remove_slot recipient key rows `sublist_of` rows.
Proof. induction rows as [|r rows IH]; simpl; [done|]. case_match; by constructor. Qed.

Lemma fits_within rows : Forall (fun r => 0 <= sr_bytes r) rows -> fits rows (sum_by sr_bytes rows) = true -> within_room rows.
Proof. intros HF H. unfold fits in H. split_andb. reflect_bools. by split_and!. Qed.

Lemma within_nil : within_room [].
Proof. split_and!; simpl; [done|done|constructor]. Qed.

Lemma retainState_within rows env raw now activity rows' :
  within_room rows -> retainState rows env raw now activity = Ok rows' -> within_room rows'.
Proof.
  intros Hw H. pose proof (within_sublist _ _ (sublist_filter (live_at now) rows) Hw) as Hlive.
  apply retainState_cases in H as [->|(_ & _ & _ & _ & gone & kept & Hg & Hr & Hfit & _)]; [done|].
  set (result := _ ++ _) in *.
  assert (Forall (fun r => 0 <= sr_bytes r) rows') as HF.
  { rewrite Hr. unfold outside. eapply sublist_Forall; [apply sublist_filter|]. unfold result. apply Forall_app. split.
    - eapply sublist_Forall; [apply remove_slot_sublist|apply Hlive].
    - apply Forall_singleton. simpl. apply byte_length_nonneg. }
  destruct Hfit as [->|Hfit]; [|by apply fits_within].
  rewrite app_nil_r in Hg. rewrite Hr, <- Hg, (all_gone _ _ (evictionGroups_partition result activity now)).
  apply within_nil.
Qed.

(** C22: A room's retained state is bounded: whatever frames a machine sends and
    whatever phones were seen, the policy keeps at most 512 slots and 16 MiB;
    it gives up groups in a fixed order and stops as soon as the rest fits. *)
Theorem retained_state_bounded (rows : list state_row) (env : jsv) (raw : jstr) (now : Z)
    (activity : list device) (rows' : list state_row) :
  within_room rows -> retainState rows env raw now activity = Ok rows' ->
  within_room rows' /\
  (rows' = filter (live_at now) rows \/
   exists gone kept,
     let result := remove_slot (get "recipientKeyId" env) (get "stateKey" env) (filter (live_at now) rows)
                   ++ [new_state_row env raw now (byte_length raw)] in
     evictionGroups result activity now = gone ++ kept /\ rows' = outside gone result /\
     forall m g, gone = m ++ [g] -> ~ within_room (outside m result)).
Proof.
  intros Hw H. split; [by eapply retainState_within|].
  apply retainState_cases in H as [->|(_ & _ & _ & _ & gone & kept & Hg & Hr & _ & Hmin)]; [by left|right].
  exists gone, kept. split_and!; [done|done|]. intros m g Em (Hl & Hb & _). specialize (Hmin m g Em).
  unfold fits in Hmin. rewrite (proj2 (Z.leb_le _ _) Hl), (proj2 (Z.leb_le _ _) Hb) in Hmin. done.
Qed.

(** Essential state is given up last: if a retained frame caused a row of an
    essential group (whose bodies all have priority 1) to be evicted, then no
    row of any other group was kept. *)
Theorem essential_state_evicted_last (rows : list state_row) (env : jsv) (raw : jstr) (now : Z)
    (activity : list device) (rows' : list state_row) (g h : group) (r r' : state_row) :
  retainState rows env raw now activity = Ok rows' ->
  let result := remove_slot (get "recipientKeyId" env) (get "stateKey" env) (filter (live_at now) rows)
                ++ [new_state_row env raw now (byte_length raw)] in
  g ∈ evictionGroups result activity now -> h ∈ evictionGroups result activity now ->
  essential g -> ~ essential h -> rows' <> filter (live_at now) rows ->
  r ∈ gp_rows g -> r ∉ rows' -> r' ∈ gp_rows h -> r' ∉ rows'.
Proof.
  intros H result Hg Hh Eg Eh Hne Hr Hr' Hin.
  apply retainState_cases in H as [?|(_ & _ & _ & _ & gone & kept & Hsplit & -> & _ & _)]; [done|].
  fold result in Hsplit, Hr', Hne |- *.
  pose proof (evictionGroups_partition result activity now) as [Hids Hrows _].
  rewrite (Hrows g Hg) in Hr. rewrite (Hrows h Hh) in Hin. apply list_elem_of_filter in Hr as [Hgid Hr], Hin as [Hhid Hin].
  assert (g ∈ gone) as Hgone.
  { assert (group_id r ∈ map gp_id gone) as Hx.
    { destruct (decide (group_id r ∈ map gp_id gone)) as [|Hn]; [done|]. exfalso. apply Hr'.
      unfold outside. by apply list_elem_of_filter. }
    rewrite Hsplit in Hg. apply elem_of_app in Hg as [|Hk]; [done|]. exfalso.
    rewrite Hsplit, map_app in Hids. apply NoDup_app in Hids as (_ & Hd & _). apply (Hd (group_id r) Hx).
    rewrite Hgid. by apply list_elem_of_fmap_2. }
  intros Hkept. unfold outside in Hkept. apply list_elem_of_filter in Hkept as [Hnot _]. apply Hnot.
  rewrite Hhid. rewrite Hsplit in Hh. apply elem_of_app in Hh as [Hh|Hh]; [by apply list_elem_of_fmap_2|].
  exfalso. apply Eh. pose proof (sorted_essential (map snd (fold_left (add_to_groups activity now) result []))) as Hs.
  fold (evictionGroups result activity now) in Hs. rewrite Hsplit in Hs.
  apply list_elem_of_split in Hgone as (g1 & g2 & ->). rewrite <- app_assoc in Hs.
  assert (StronglySorted (fun g h => essential g -> essential h) ((g :: g2) ++ kept)) as Hs'.
  { clear -Hs. induction g1 as [|x g1 IH]; [done|]. apply StronglySorted_inv in Hs as [Hs _]. by apply IH. }
  apply StronglySorted_inv in Hs' as [_ HF]. rewrite Forall_forall in HF. apply HF; [|done].
  apply elem_of_app. by right.
Qed.

(** ** Slots *)

Definition slot_of (r : state_row) : jsv * jsv := (sr_recipient r, sr_key r).

Definition string_slot (r : state_row) : Prop := exists a b, slot_of r = (JStr a, JStr b).

(** Every slot is a pair of strings and has one row. *)
Definition unique_slots (rows : list state_row) : Prop :=
  Forall string_slot rows /\ NoDup (map slot_of rows).

Lemma unique_sublist l1 l2 : l1 `sublist_of` l2 -> unique_slots l2 -> unique_slots l1.
Proof.
  intros Hs [HF Hn]. split; [by eapply sublist_Forall|]. eapply sublist_NoDup; [done|]. by apply (sublist_fmap slot_of).
Qed.

Lemma unique_filter (p : state_row -> Prop) `{!forall r, Decision (p r)} l : unique_slots l -> unique_slots (filter p l).
Proof. apply unique_sublist, sublist_filter. Qed.

Lemma strict_eq_str v s : strict_eq v (JStr s) = is_str v s.
Proof. by destruct v as [| | |[]| | |]. Qed.

Lemma same_slot_iff a b r : same_slot (JStr a) (JStr b) r = true <-> slot_of r = (JStr a, JStr b).
Proof.
  unfold same_slot, slot_of. rewrite !strict_eq_str, andb_true_iff, !is_str_eq. split; [by intros [-> ->]|].
  by intros [= -> ->].
Qed.

Lemma remove_slot_filter a b rows :
  NoDup (map slot_of rows) -> remove_slot (JStr a) (JStr b) rows = filter (fun r => slot_of r <> (JStr a, JStr b)) rows.
Proof.
  induction rows as [|r rows IH]; simpl; intros Hn; [done|]. apply NoDup_cons in Hn as [Hr Hn].
  rewrite filter_cons. destruct (same_slot _ _ r) eqn:E.
  - apply same_slot_iff in E. rewrite decide_False by (by intros H; apply H).
    rewrite (filter_ext_in _ (fun _ => True)); [by rewrite filter_always|]. intros x Hx. split; [done|].
    intros _ Ex. apply Hr. rewrite E, <- Ex. by apply list_elem_of_fmap_2.
  - rewrite decide_True; [by f_equal; apply IH|]. intros H. apply same_slot_iff in H. congruence.
Qed.

Lemma find_slot a b rows r :
  unique_slots rows -> r ∈ rows -> slot_of r = (JStr a, JStr b) ->
  List.find (same_slot (JStr a) (JStr b)) rows = Some r.
Proof.
  intros [_ Hn] Hin Hs. apply same_slot_iff in Hs. induction rows as [|x rows IH]; [set_solver|]. simpl in Hn.
  apply NoDup_cons in Hn as [Hx Hn]. simpl. apply elem_of_cons in Hin as [->|Hin]; [by rewrite Hs|].
  destruct (same_slot _ _ x) eqn:E; [|auto]. exfalso. apply same_slot_iff in E, Hs. apply Hx. rewrite E, <- Hs.
  by apply list_elem_of_fmap_2.
Qed.

Lemma result_unique a b env raw now bytes live :
  get "recipientKeyId" env = JStr a -> get "stateKey" env = JStr b -> unique_slots live ->
  unique_slots (remove_slot (JStr a) (JStr b) live ++ [new_state_row env raw now bytes]).
Proof.
  intros Ha Hb Hu. rewrite remove_slot_filter by apply Hu.
  assert (slot_of (new_state_row env raw now bytes) = (JStr a, JStr b)) as Hs
    by (unfold slot_of; simpl; by rewrite Ha, Hb).
  destruct (unique_filter (fun r => slot_of r <> (JStr a, JStr b)) live Hu) as [HF Hn]. split.
  - apply Forall_app. split; [done|]. apply Forall_singleton. by exists a, b.
  - rewrite map_app. apply NoDup_app. split_and!; [done| |apply NoDup_singleton].
    intros s Hin Hs'. simpl in Hs'. rewrite Hs in Hs'. apply list_elem_of_singleton in Hs' as ->.
    apply list_elem_of_fmap in Hin as (r & E & Hin). apply list_elem_of_filter in Hin as [Hin _]. congruence.
Qed.

Lemma outside_sublist gone rows : outside gone rows `sublist_of` rows.
Proof. apply sublist_filter. Qed.

(** A kept row is an old one that is still live, or the new one. *)
Lemma retainState_rows rows env raw now activity rows' a b :
  get "recipientKeyId" env = JStr a -> get "stateKey" env = JStr b -> unique_slots rows ->
  retainState rows env raw now activity = Ok rows' ->
  unique_slots rows' /\
  forall r, r ∈ rows' ->
    r ∈ rows /\ live_at now r = true /\ (slot_of r <> (JStr a, JStr b) \/ rows' = filter (live_at now) rows) \/
    r = new_state_row env raw now (byte_length raw) /\
    (forall old, old ∈ rows -> live_at now old = true -> slot_of old = slot_of r -> sr_revision old < sr_revision r).
Proof.
  intros Ha Hb Hu H. pose proof (unique_filter (live_at now) rows Hu) as Hlive.
  apply retainState_cases in H as [->|(_ & _ & _ & Hrev & gone & kept & _ & -> & _)].
  { split; [done|]. intros r Hr. left. apply list_elem_of_filter in Hr as [Hl Hr].
    apply Is_true_true in Hl. split_and!; [done|done|by right]. }
  rewrite Ha, Hb in *. split.
  - eapply unique_sublist; [apply outside_sublist|]. by apply result_unique.
  - intros r Hr. eapply elem_of_sublist in Hr; [|apply outside_sublist].
    apply elem_of_app in Hr as [Hr|Hr].
    + rewrite remove_slot_filter in Hr by apply Hlive. apply list_elem_of_filter in Hr as [Hs Hr].
      apply list_elem_of_filter in Hr as [Hl Hr]. apply Is_true_true in Hl. left. split_and!; [done|done|by left].
    + apply list_elem_of_singleton in Hr as ->. right. split; [done|]. intros old Hin Hl Hs.
      assert (slot_of old = (JStr a, JStr b)) as Hs' by (rewrite Hs; unfold slot_of; simpl; by rewrite Ha, Hb).
      apply Hrev. apply find_slot; [done| |done]. apply list_elem_of_filter. split; [by apply Is_true_true|done].
Qed.

(** The newest revision of a slot wins: a room keeps at most one row per slot;
    after a frame every kept row is an unexpired old one or the frame itself, and
    the frame is kept only if every unexpired row of its slot had a smaller
    revision. A frame whose revision is not newer changes nothing. *)
Theorem newest_revision_wins (rows : list state_row) (env : jsv) (raw : jstr) (now : Z)
    (activity : list device) (rows' : list state_row) (a b : jstr) :
  get "recipientKeyId" env = JStr a -> get "stateKey" env = JStr b -> unique_slots rows ->
  retainState rows env raw now activity = Ok rows' ->
  unique_slots rows' /\
  (forall r, r ∈ rows' ->
    r ∈ rows /\ live_at now r = true \/
    r = new_state_row env raw now (byte_length raw) /\
    (forall old, old ∈ rows -> live_at now old = true -> slot_of old = slot_of r -> sr_revision old < sr_revision r)) /\
  (forall old, old ∈ rows -> live_at now old = true -> slot_of old = (JStr a, JStr b) ->
    int_of (get "stateRevision" env) <= sr_revision old -> rows' = filter (live_at now) rows).
Proof.
  intros Ha Hb Hu H. split_and!.
  - by eapply retainState_rows.
  - intros r Hr. destruct (retainState_rows _ _ _ _ _ _ _ _ Ha Hb Hu H) as [_ Hrows].
    destruct (Hrows r Hr) as [(? & ? & _)|]; [by left|by right].
  - intros old Hin Hl Hs Hle. apply retainState_cases in H as [->|(_ & _ & _ & Hrev & _)]; [done|].
    rewrite Ha, Hb in Hrev. assert (sr_revision old < int_of (get "stateRevision" env)); [|lia].
    apply Hrev, find_slot; [by apply unique_filter| |done].
    apply list_elem_of_filter. split; [by apply Is_true_true|done].
Qed.

Lemma insert_replay_perm r l : Permutation (insert_replay r l) (r :: l).
Proof. induction l as [|h l IH]; simpl; [done|]. case_match; [done|]. rewrite IH. by constructor. Qed.

Lemma sort_replay_perm l : Permutation (foldr insert_replay [] l) l.
Proof. induction l as [|g l IH]; simpl; [done|]. rewrite insert_replay_perm. by constructor. Qed.

Lemma replay_before_total r h : replay_before r h = false -> replay_before h r = true.
Proof. unfold replay_before. lia. Qed.

Lemma replay_before_trans a b c : replay_before a b = true -> replay_before b c = true -> replay_before a c = true.
Proof. unfold replay_before. lia. Qed.

Lemma sort_replay_sorted l : StronglySorted (fun r h => replay_before r h = true) (foldr insert_replay [] l).
Proof.
  assert (forall r l, StronglySorted (fun r h => replay_before r h = true) l ->
    StronglySorted (fun r h => replay_before r h = true) (insert_replay r l)) as Hins.
  { intros r l0 Hs. induction Hs as [|h l0 Hs IH HF]; simpl; [repeat constructor|].
    destruct (replay_before r h) eqn:E.
    - constructor; [by constructor|]. constructor; [done|]. eapply Forall_impl; [exact HF|].
      intros x Hx. by eapply replay_before_trans.
    - constructor; [done|]. rewrite insert_replay_perm. constructor; [by apply replay_before_total|done]. }
  induction l as [|g l IH]; simpl; [constructor|]. auto.
Qed.

(** A phone that connects is replayed exactly the unexpired rows addressed to
    its digest, each as often as stored, ordered by priority and then revision;
    an announced digest that is not one gets nothing. *)
Theorem replay_is_exact (rows : list state_row) (r : jstr) (now : Z) :
  Permutation (replayState rows (Some r) now)
    (filter (fun row => hex64 r = true /\ sr_recipient row = JStr r /\ now < sr_expiresAt row) rows) /\
  StronglySorted (fun r h => sr_priority r < sr_priority h \/ sr_priority r = sr_priority h /\ sr_revision r <= sr_revision h)
    (replayState rows (Some r) now).
Proof.
  unfold replayState. destruct (hex64 r); split.
  - rewrite sort_replay_perm. apply Permutation_refl', list_filter_iff. intros row. unfold live_at.
    rewrite andb_True, !Is_true_true, is_str_eq, Z.ltb_lt. tauto.
  - eapply sorted_impl; [|apply sort_replay_sorted]. intros x y. unfold replay_before. simpl. lia.
  - rewrite (filter_ext_in _ (fun _ => False)).
    2: { intros x _. split; [intros [E _]; discriminate E|intros []]. }
    clear. induction rows as [|x rows IH]; [constructor|]. rewrite filter_cons, decide_False; [exact IH|tauto].
  - constructor.
Qed.

(** ** Witnesses *)

Module Examples.
Definition phone : jstr := JS (repeat 97%N 64).
Definition slot (c : N) : jstr := JS (repeat c 64).
Definition row (c : N) (priority bytes : Z) : state_row :=
  {| sr_recipient := JStr phone; sr_key := JStr (slot c); sr_revision := 5; sr_priority := priority;
     sr_group := JStr (slot c); sr_expiresAt := 2000; sr_savedAt := 10; sr_bytes := bytes; sr_raw := "x" |}.
Definition frame (c : N) (revision : Z) : jsv :=
  JObj [("v", JNum (NInt 1)); ("from", JStr "machine"); ("to", JStr "phone"); ("recipientKeyId", JStr phone);
        ("stateKey", JStr (slot c)); ("stateGroup", JStr (slot c)); ("stateRevision", JNum (NInt revision));
        ("statePriority", JNum (NInt 2)); ("expiresAt", JNum (NInt 2000))].
Definition rows : list state_row := [row 98 1 (16 * 1024 * 1024 + 1); row 99 2 7].
Definition result : list state_row := rows ++ [new_state_row (frame 100 6) "body" 1000 4].
Definition group_at (i : nat) : group :=
  default {| gp_id := ""; gp_rows := []; gp_priority := 0; gp_savedAt := 0; gp_seen := 0 |}
    (evictionGroups result [] 1000 !! i).
End Examples.

Lemma retained_state_bounded_witness :
  let r := retainState [Examples.row 99 2 7] (Examples.frame 99 6) "body" 1000 [] in
  r = Ok [new_state_row (Examples.frame 99 6) "body" 1000 4] /\
  within_room [new_state_row (Examples.frame 99 6) "body" 1000 4].
Proof.
  split; [vm_compute; reflexivity|].
  refine (proj1 (retained_state_bounded [Examples.row 99 2 7] (Examples.frame 99 6) "body" 1000 [] _ _ _)).
  - split; [by apply (bool_decide_unpack _)|split; [by apply (bool_decide_unpack _)|]].
    apply (bool_decide_unpack _). vm_compute. exact I.
  - vm_compute. reflexivity.
Defined.

Lemma essential_state_evicted_last_witness : Examples.row 99 2 7 ∉ @nil state_row.
Proof.
  apply (essential_state_evicted_last Examples.rows (Examples.frame 100 6) "body" 1000 [] [] (Examples.group_at 2)
    (Examples.group_at 0) (Examples.row 98 1 (16 * 1024 * 1024 + 1)) (Examples.row 99 2 7)).
  - vm_compute. reflexivity.
  - apply (list_elem_of_lookup_2 _ 2). vm_compute. reflexivity.
  - apply (list_elem_of_lookup_2 _ 0). vm_compute. reflexivity.
  - vm_compute. reflexivity.
  - intros H. vm_compute in H. discriminate H.
  - intros H. vm_compute in H. discriminate H.
  - apply (list_elem_of_lookup_2 _ 0). vm_compute. reflexivity.
  - apply not_elem_of_nil.
  - apply (list_elem_of_lookup_2 _ 0). vm_compute. reflexivity.
Defined.

Lemma newest_revision_wins_witness :
  retainState [Examples.row 99 2 7] (Examples.frame 99 5) "body" 1000 [] = Ok [Examples.row 99 2 7] /\
  unique_slots [Examples.row 99 2 7].
Proof.
  split; [vm_compute; reflexivity|].
  refine (proj1 (newest_revision_wins [Examples.row 99 2 7] (Examples.frame 99 5) "body" 1000 [] _
    Examples.phone (Examples.slot 99) eq_refl eq_refl _ _)).
  - split; [|apply NoDup_singleton]. apply Forall_singleton. by exists Examples.phone, (Examples.slot 99).
  - vm_compute. reflexivity.
Defined.
