(* ===== verification/RetainedStores.v ===== *)
(** * The two stores of the retained state
    [src/retainedState/node.js] (a table of the relay's database) and
    [src/retainedState/worker.js] (chunks in the storage of a Durable Object),
    both proved to implement the policy of [RetainedState]. *)

From Stdlib Require Import Permutation Sorted.
From S2P Require Import Prelude Base64 Validation Storage RetainedState.
#[local] Open Scope bool_scope.
#[local] Open Scope Z_scope.
#[local] Open Scope js_scope.

(** ** [node.js] *)

(** The table [retained_state] under its primary key (room, recipient, slot), in row order. *)
Abbreviation state_table := (list ((jstr * jstr * jstr) * state_row)).

Definition in_room (room : jstr) (e : (jstr * jstr * jstr) * state_row) : bool := e.1.1.1 =?s room.

(** The policy does not read the column [raw], which the query leaves out. *)
Definition metadata (room : jstr) (t : state_table) : list state_row := map snd (filter (in_room room) t).

(** What [node:sqlite] binds to a text parameter; [undefined] was replaced by [null]. *)
Definition bind_text (v : jsv) : res jstr := match v with JStr s => Ok s | _ => Throw end.

Definition row_key (room : jstr) (row : state_row) : jstr * jstr * jstr :=
  (room, str_of (sr_recipient row), str_of (sr_key row)).

(** [INSERT OR REPLACE] of one row. *)
Definition insert_state (room : jstr) (row : state_row) (t : state_table) : res state_table :=
  let* recipient := bind_text (sr_recipient row) in
  let* slot := bind_text (sr_key row) in
  let* _ := (if is_nullish (sr_group row) then Ok "" else bind_text (sr_group row)) in
  Ok (map_push (room, recipient, slot) row t).

(** [if (!before.includes(row)) put.run(...)] *)
Definition add_row (before : list state_row) (room : jstr) (t : res state_table) (row : state_row) : res state_table :=
  let* t := t in if bool_decide (row ∈ before) then Ok t else insert_state room row t.

(** [Throw] leaves the table as it was: the transaction is rolled back. *)
Definition put_state (t : state_table) (room : jstr) (envelope : jsv) (raw : jstr) (now : Z)
    (activity : list device) : res state_table :=
  let before := metadata room t in
  let* rows := retainState before envelope raw now activity in
  let t1 := fold_left (fun t old => if bool_decide (old ∈ rows) then t else map_delete (row_key room old) t) before t in
  fold_left (add_row before room) rows (Ok t1).

Definition list_state (t : state_table) (room : jstr) (recipient : option jstr) (now : Z) : list jstr :=
  match recipient with
  | Some r => if hex64 r
              then map sr_raw (foldr insert_replay []
                     (map snd (filter (fun e => in_room room e && (e.1.1.2 =?s r) && (now <? sr_expiresAt e.2)) t)))
              else []
  | None => []
  end.

Definition purge_state (t : state_table) (now : Z) : state_table :=
  filter (fun e => negb (sr_expiresAt e.2 <=? now)) t.

(** Every row lies under its own key. *)
Record table_wf (t : state_table) : Prop := {
  tw_keys : NoDup t.*1;
  tw_row : forall e, e ∈ t -> slot_of e.2 = (JStr e.1.1.2, JStr e.1.2);
}.

Lemma slot_row_key room r a b :
  slot_of r = (JStr a, JStr b) -> slot_of r = (JStr (row_key room r).1.2, JStr (row_key room r).2).
Proof. unfold slot_of, row_key. by intros [= -> ->]. Qed.

Lemma in_metadata room t r : table_wf t -> r ∈ metadata room t <-> (row_key room r, r) ∈ t /\ string_slot r.
Proof.
  intros [_ Hr]. unfold metadata, in_room. rewrite list_elem_of_fmap. setoid_rewrite list_elem_of_filter.
  unfold jeqb. setoid_rewrite bool_decide_spec. split.
  - intros ([[[room' a] b] r'] & E & E1 & Hin). simpl in *. subst. pose proof (Hr _ Hin) as Hs. simpl in Hs.
    split; [|by exists a, b]. unfold row_key. unfold slot_of in Hs. injection Hs as -> ->. exact Hin.
  - intros [Hin _]. by exists (row_key room r, r).
Qed.

Lemma metadata_unique room t : table_wf t -> unique_slots (metadata room t).
Proof.
  intros Hwf. split.
  - apply Forall_forall. intros r Hr. by apply (in_metadata room t r Hwf) in Hr as [_ ?].
  - destruct Hwf as [Hn Hr]. unfold metadata.
    assert (forall e, e ∈ filter (in_room room) t -> slot_of e.2 = (JStr e.1.1.2, JStr e.1.2) /\ e.1.1.1 = room) as Hin.
    { intros e He. apply list_elem_of_filter in He as [Hroom He]. split; [by apply Hr|].
      unfold in_room, jeqb in Hroom. by apply bool_decide_unpack in Hroom. }
    assert (NoDup (filter (in_room room) t).*1) as Hn'
      by (eapply sublist_NoDup; [exact Hn|apply sublist_keys, sublist_filter]).
    clear Hr Hn. induction (filter (in_room room) t) as [|e l IH]; simpl in *; [constructor|].
    apply NoDup_cons in Hn' as [Hx Hn']. constructor; [|apply IH; [|done]; intros; apply Hin; by right].
    intros Hs. apply list_elem_of_fmap in Hs as (r & Es & Hs). apply list_elem_of_fmap in Hs as (e' & -> & He').
    destruct (Hin e ltac:(by left)) as [Hs1 Hr1], (Hin e' ltac:(by right)) as [Hs2 Hr2].
    apply Hx. apply list_elem_of_fmap. exists e'. split; [|done]. destruct e as [[[??]?]?], e' as [[[??]?]?].
    simpl in *. congruence.
Qed.

Lemma fold_delete {K V} `{EqDecision K} (f : state_row -> K) (skip : state_row -> bool) (l : list state_row) (t : list (K * V)) :
  fold_left (fun t old => if skip old then t else map_delete (f old) t) l t
  = filter (fun e => e.1 ∉ map f (filter (fun r => skip r = false) l)) t.
Proof.
  revert t. induction l as [|old l IH]; intros t; cbn [fold_left].
  { symmetry. apply filter_always. intros e. apply not_elem_of_nil. }
  rewrite IH, filter_cons. destruct (skip old).
  - by rewrite decide_False.
  - rewrite decide_True by done. unfold map_delete. rewrite list_filter_filter. apply list_filter_iff.
    intros e. simpl. rewrite not_elem_of_cons. tauto.
Qed.

(** The rows the policy gave up are removed, and no other. *)
Lemma delete_given_up room (rows : list state_row) (t : state_table) :
  table_wf t ->
  fold_left (fun t old => if bool_decide (old ∈ rows) then t else map_delete (row_key room old) t) (metadata room t) t
  = filter (fun e => ~ (in_room room e = true /\ e.2 ∉ rows)) t.
Proof.
  intros Hwf. rewrite fold_delete. apply filter_ext_in. intros e He. f_equiv. rewrite list_elem_of_fmap.
  setoid_rewrite list_elem_of_filter. setoid_rewrite bool_decide_eq_false. split.
  - intros (r & Ek & Hr & Hin). apply (in_metadata room t r Hwf) in Hin as [Hin _].
    assert (e = (row_key room r, r)) as ->; [|split; [|done]].
    + pose proof (tw_keys _ Hwf) as Hn. destruct e as [k v]. simpl in *. subst k.
      apply (map_get_In (row_key room r)) in He, Hin; [|done|done]. congruence.
    + unfold in_room. simpl. unfold jeqb. by apply bool_decide_eq_true.
  - intros [Hroom Hn]. exists e.2. destruct e as [[[room' a] b] r]. pose proof (tw_row _ Hwf _ He) as Hs. simpl in *.
    split_and!; [|done|].
    + unfold in_room, jeqb in Hroom. apply bool_decide_eq_true in Hroom. simpl in Hroom. subst.
      unfold slot_of in Hs. injection Hs as E1 E2. unfold row_key. by rewrite E1, E2.
    + unfold metadata. apply list_elem_of_fmap. exists (room', a, b, r). split; [done|]. apply list_elem_of_filter.
      split; [by rewrite Hroom|done].
Qed.

Lemma wf_filter (p : (jstr * jstr * jstr) * state_row -> Prop) `{!forall e, Decision (p e)} (t : state_table) :
  table_wf t -> table_wf (filter p t).
Proof.
  intros [Hn Hr]. split; [eapply sublist_NoDup; [exact Hn|apply sublist_keys, sublist_filter]|].
  intros e He. apply list_elem_of_filter in He as [_ He]. auto.
Qed.

Lemma metadata_filter room (p : (jstr * jstr * jstr) * state_row -> Prop) `{!forall e, Decision (p e)}
    (q : state_row -> Prop) `{!forall r, Decision (q r)} (t : state_table) :
  (forall e, e ∈ t -> in_room room e = true -> p e <-> q e.2) ->
  metadata room (filter p t) = filter q (metadata room t).
Proof.
  intros Hpq. unfold metadata. induction t as [|e t IH]; [done|]. rewrite !filter_cons.
  specialize (IH ltac:(intros; apply Hpq; [by right|done])). pose proof (Hpq e ltac:(by left)) as He.
  destruct (in_room room e) eqn:E.
  - specialize (He eq_refl). rewrite !(decide_True (P := Is_true true)) by done. cbn [map]. rewrite (filter_cons q).
    destruct (decide (p e)) as [Hp|Hp].
    + rewrite filter_cons, E, !(decide_True (P := Is_true true)) by done. cbn [map].
      rewrite decide_True by tauto. by f_equal.
    + rewrite decide_False by tauto. exact IH.
  - rewrite (decide_False (P := Is_true false)) by (by intros []).
    destruct (decide (p e)); [|exact IH]. rewrite filter_cons, E.
    rewrite (decide_False (P := Is_true false)) by (by intros []). exact IH.
Qed.

Lemma unique_nodup l : unique_slots l -> NoDup l.
Proof. intros [_ H]. by apply NoDup_fmap_1 in H. Qed.

Lemma unique_slot_eq l r r' : unique_slots l -> r ∈ l -> r' ∈ l -> slot_of r = slot_of r' -> r = r'.
Proof.
  intros [_ Hn] Hr Hr' E. apply list_elem_of_lookup in Hr as [i Hi], Hr' as [j Hj].
  assert (i = j) as <-; [|congruence].
  apply (NoDup_lookup (map slot_of l) i j (slot_of r)); [done| |]; change (map slot_of l) with (slot_of <$> l);
    rewrite list_lookup_fmap, ?Hi, ?Hj; simpl; congruence.
Qed.

Lemma row_key_slot room r r' : string_slot r -> string_slot r' -> row_key room r = row_key room r' -> slot_of r = slot_of r'.
Proof.
  intros (a & b & E) (a' & b' & E') H. unfold row_key, slot_of in *. injection E as E1 E2. injection E' as E1' E2'.
  rewrite E1, E2, E1', E2' in *. simpl in H. congruence.
Qed.

Lemma add_rows_old before room l t : (forall r, r ∈ l -> r ∈ before) -> fold_left (add_row before room) l t = t.
Proof.
  revert t. induction l as [|r l IH]; intros t H; [done|]. cbn [fold_left]. rewrite IH by (intros; apply H; by right).
  destruct t as [t|]; [|done]. unfold add_row. cbn [res_bind]. rewrite bool_decide_eq_true_2; [done|]. apply H. by left.
Qed.

(** At most one row of the policy's answer is not in the table. *)
Lemma one_new (before rows : list state_row) new :
  NoDup rows -> (forall r, r ∈ rows -> r ∈ before \/ r = new) ->
  (forall r, r ∈ rows -> r ∈ before) \/
  exists l1 l2, rows = l1 ++ new :: l2 /\ new ∉ before /\ (forall r, r ∈ l1 -> r ∈ before) /\ (forall r, r ∈ l2 -> r ∈ before).
Proof.
  intros Hn Hin. destruct (decide (Forall (fun r => r ∈ before) rows)) as [HF|HF]; [left; by rewrite Forall_forall in HF|].
  right. assert (exists r, r ∈ rows /\ r ∉ before) as (r & Hr & Hb).
  { apply not_Forall_Exists, Exists_exists in HF; [|apply _]. destruct HF as (x & ? & ?). by exists x. }
  destruct (Hin r Hr) as [| ->]; [done|]. apply list_elem_of_split in Hr as (l1 & l2 & ->).
  apply NoDup_app in Hn as (_ & Hd & Hn). apply NoDup_cons in Hn as [Hn _].
  exists l1, l2. split_and!; [done|done| |]; intros x Hx; destruct (Hin x ltac:(set_solver)) as [|E]; try done; subst x.
  - exfalso. apply (Hd _ Hx). by left.
  - done.
Qed.

Lemma add_rows_new before room rows new t t' :
  NoDup rows -> (forall r, r ∈ rows -> r ∈ before \/ r = new) ->
  fold_left (add_row before room) rows (Ok t) = Ok t' ->
  (forall r, r ∈ rows -> r ∈ before) /\ t' = t \/
  new ∈ rows /\ new ∉ before /\ string_slot new /\ t' = map_push (row_key room new) new t.
Proof.
  intros Hn Hin H. destruct (one_new before rows new Hn Hin) as [Hold|(l1 & l2 & -> & Hb & H1 & H2)].
  { rewrite add_rows_old in H by done. injection H as <-. by left. }
  right. rewrite fold_left_app in H. rewrite (add_rows_old before room l1) in H by done.
  cbn [fold_left] in H. rewrite (add_rows_old before room l2) in H by done.
  unfold add_row in H. cbn [res_bind] in H. rewrite bool_decide_eq_false_2 in H by done.
  unfold insert_state in H. destruct (sr_recipient new) eqn:E1, (sr_key new) eqn:E2; try discriminate H.
  cbn [bind_text res_bind] in H. assert (forall (x : res jstr) (y : state_table), (let* _ := x in Ok y) = Ok t' -> y = t') as Hx.
  { intros [] y Hy; [by injection Hy|discriminate Hy]. }
  apply Hx in H. split_and!; [set_solver|done| |].
  - exists s, s0. unfold slot_of. by rewrite E1, E2.
  - unfold row_key. by rewrite E1, E2.
Qed.

Lemma push_elem {K V} `{EqDecision K} (k k' : K) (v v' : V) m :
  (k', v') ∈ map_push k v m <-> k' = k /\ v' = v \/ k' <> k /\ (k', v') ∈ m.
Proof.
  unfold map_push. rewrite elem_of_app, map_delete_elem, list_elem_of_singleton. split; [|naive_solver].
  intros [?|[= -> ->]]; [by right|by left].
Qed.

Lemma string_slot_or (v : jsv) : {s | v = JStr s} + {forall s, v <> JStr s}.
Proof. destruct v; (left; by eexists) || (right; by intros ? [=]). Qed.

Lemma policy_rows rows env raw now activity rows' :
  unique_slots rows ->
  (truthy (get "stateKey" env) = true -> string_slot (new_state_row env raw now (byte_length raw))) ->
  retainState rows env raw now activity = Ok rows' ->
  unique_slots rows' /\ forall r, r ∈ rows' -> r ∈ rows \/ r = new_state_row env raw now (byte_length raw).
Proof.
  intros Hu Hslot H. destruct (truthy (get "stateKey" env)) eqn:E.
  - destruct (Hslot eq_refl) as (a & b & Hab). unfold slot_of in Hab. simpl in Hab. injection Hab as Ha Hb.
    destruct (retainState_rows _ _ _ _ _ _ _ _ Ha Hb Hu H) as [Hu' Hin]. split; [done|].
    intros r Hr. destruct (Hin r Hr) as [(? & _)|(? & _)]; [by left|by right].
  - unfold retainState in H. rewrite E in H. simpl in H. injection H as <-. split; [by apply unique_filter|].
    intros r Hr. apply list_elem_of_filter in Hr as [_ Hr]. by left.
Qed.

(** The SQLite store implements the policy: after a frame with a text slot the
    rows of its room are those the policy keeps, in some order; the rows of the
    other rooms are as before, and every row still lies under its own key. *)
Theorem node_retained_refines_policy (t : state_table) (room : jstr) (env : jsv) (raw : jstr) (now : Z)
    (activity : list device) (t' : state_table) :
  table_wf t ->
  (truthy (get "stateKey" env) = true -> string_slot (new_state_row env raw now (byte_length raw))) ->
  put_state t room env raw now activity = Ok t' ->
  table_wf t' /\ (forall room', room' <> room -> metadata room' t' = metadata room' t) /\
  exists rows, retainState (metadata room t) env raw now activity = Ok rows /\ Permutation (metadata room t') rows.
Proof.
  intros Hwf Hslot H. unfold put_state in H.
  destruct (retainState (metadata room t) env raw now activity) as [rows|] eqn:Er; [|discriminate H].
  cbn [res_bind] in H. rewrite delete_given_up in H by done.
  set (t1 := filter _ t) in H. pose proof (wf_filter _ t Hwf : table_wf t1) as Hwf1.
  destruct (policy_rows _ _ _ _ _ _ (metadata_unique room t Hwf) Hslot Er) as [Hu Hin].
  assert (forall room', room' <> room -> metadata room' t1 = metadata room' t) as Hother.
  { intros room' Hne. unfold t1. rewrite (metadata_filter room' _ (fun _ => True)); [by apply filter_always|].
    intros e _ He. split; [done|]. intros _ [He' _]. unfold in_room, jeqb in He, He'. reflect_bools. congruence. }
  assert (metadata room t1 = filter (fun r => r ∈ rows) (metadata room t)) as Hsame.
  { apply metadata_filter. intros e _ He. destruct (decide (e.2 ∈ rows)); naive_solver. }
  destruct (add_rows_new _ _ _ _ _ _ (unique_nodup _ Hu) Hin H) as [[Hold ->]|(Hnew & Hb & Hs & ->)].
  - split_and!; [done|done|]. exists rows. split; [done|]. apply NoDup_Permutation.
    + by apply unique_nodup, metadata_unique.
    + by apply unique_nodup.
    + intros r. rewrite Hsame, list_elem_of_filter. split; [tauto|]. auto.
  - set (new := new_state_row _ _ _ _) in *.
    assert (forall r, r ∈ metadata room t1 -> row_key room r <> row_key room new) as Hfresh.
    { intros r Hr Ek. pose proof (proj1 (in_metadata room t1 r Hwf1) Hr) as [_ Hsr].
      apply row_key_slot in Ek; [|done|done]. rewrite Hsame in Hr. apply list_elem_of_filter in Hr as [Hr0 Hr].
      rewrite (unique_slot_eq rows r new Hu Hr0 Hnew Ek) in Hr. by apply Hb. }
    assert (table_wf (map_push (row_key room new) new t1)) as Hwf'.
    { split; [by apply map_push_nodup, Hwf1|]. intros [k r]. rewrite push_elem. intros [[-> ->]|[_ He]].
      - destruct Hs as (a & b & E). by eapply slot_row_key.
      - by apply (tw_row _ Hwf1 (k, r)). }
    split_and!; [done| |].
    + intros room' Hne. rewrite <- Hother by done. unfold map_push, map_delete, metadata.
      rewrite filter_app, map_app, filter_cons.
      assert (in_room room' (row_key room new, new) = false) as -> by (by apply bool_decide_eq_false_2).
      rewrite (decide_False (P := Is_true false)) by (by intros []). rewrite app_nil_r. f_equal. rewrite list_filter_filter.
      apply filter_ext_in. intros e _. split; [by intros [? _]|]. intros He. split; [done|]. intros Ek.
      unfold in_room, jeqb in He. apply bool_decide_spec in He. rewrite Ek in He. simpl in He. done.
    + exists rows. split; [done|]. apply NoDup_Permutation; [by apply unique_nodup, metadata_unique|by apply unique_nodup|].
      intros r. rewrite (in_metadata _ _ _ Hwf'), push_elem. split.
      * intros [[[_ ->]|[_ Ht]] Hsr]; [done|]. assert (r ∈ metadata room t1) as Hr by by apply in_metadata.
        rewrite Hsame in Hr. by apply list_elem_of_filter in Hr as [? _].
      * intros Hr. destruct (decide (r = new)) as [->|Hne]; [by split; [left|]|].
        destruct (Hin r Hr) as [Hr0|]; [|done].
        assert (r ∈ metadata room t1) as Hr1 by (rewrite Hsame; by apply list_elem_of_filter).
        split; [right; split; [by apply Hfresh|]|]; by apply (in_metadata room t1 r Hwf1) in Hr1 as [? ?].
Qed.

(** ** [worker.js] *)

(** The keys ["state:index"], ["state:<recipient>:<key>"] and
    ["state:<recipient>:<key>:<chunk>"]; the metadata carry the number of chunks. *)
Record state_storage := {
  ss_index : option (list (jsv * jsv)); ss_meta : list (jstr * (state_row * Z)); ss_chunks : list (jstr * jstr);
}.

Definition STATE_CHUNK : Z := 60000.

(** [Math.ceil(length / 60000)] *)
Definition chunks_of (length : Z) : Z := (length + STATE_CHUNK - 1) / STATE_CHUNK.

Definition meta_key (recipient key : jsv) : jstr := "state:" +++ text_of recipient +++ ":" +++ text_of key.
Definition chunk_key (recipient key : jsv) (i : nat) : jstr := meta_key recipient key +++ ":" +++ Z_text (Z.of_nat i).

Definition put_chunk (k v : jstr) (st : state_storage) : state_storage :=
  {| ss_index := ss_index st; ss_meta := ss_meta st; ss_chunks := storage_put k v (ss_chunks st) |}.
Definition delete_chunk (k : jstr) (st : state_storage) : state_storage :=
  {| ss_index := ss_index st; ss_meta := ss_meta st; ss_chunks := storage_delete k (ss_chunks st) |}.

Definition state_slice (raw : jstr) (i : nat) : jstr :=
  sslice (i * Z.to_nat STATE_CHUNK) ((i + 1) * Z.to_nat STATE_CHUNK) raw.

Definition without_raw (row : state_row) : state_row :=
  {| sr_recipient := sr_recipient row; sr_key := sr_key row; sr_revision := sr_revision row;
     sr_priority := sr_priority row; sr_group := sr_group row; sr_expiresAt := sr_expiresAt row;
     sr_savedAt := sr_savedAt row; sr_bytes := sr_bytes row; sr_raw := "" |}.

Definition with_raw (row : state_row) (raw : jstr) : state_row :=
  {| sr_recipient := sr_recipient row; sr_key := sr_key row; sr_revision := sr_revision row;
     sr_priority := sr_priority row; sr_group := sr_group row; sr_expiresAt := sr_expiresAt row;
     sr_savedAt := sr_savedAt row; sr_bytes := sr_bytes row; sr_raw := raw |}.

(** [remove(row)]: the number of chunks is bounded by the bytes of the row. *)
Definition remove_state (st : state_storage) (row : state_row) : state_storage :=
  let st1 := fold_left (fun st i => delete_chunk (chunk_key (sr_recipient row) (sr_key row) i) st)
               (seq 0 (Z.to_nat (chunks_of (sr_bytes row)))) st in
  {| ss_index := ss_index st1; ss_meta := storage_delete (meta_key (sr_recipient row) (sr_key row)) (ss_meta st1);
     ss_chunks := ss_chunks st1 |}.

Definition write_state (st : state_storage) (row : state_row) : state_storage :=
  let chunks := chunks_of (slen (sr_raw row)) in
  let st1 := fold_left (fun st i => put_chunk (chunk_key (sr_recipient row) (sr_key row) i) (state_slice (sr_raw row) i) st)
               (seq 0 (Z.to_nat chunks)) st in
  {| ss_index := ss_index st1;
     ss_meta := storage_put (meta_key (sr_recipient row) (sr_key row)) (without_raw row, chunks) (ss_meta st1);
     ss_chunks := ss_chunks st1 |}.

(** The chunks of a row, or [None] when one is missing. *)
Definition read_state_chunks (st : state_storage) (recipient key : jsv) (chunks : Z) : option (list N) :=
  foldr (fun i acc => match storage_get (chunk_key recipient key i) (ss_chunks st), acc with
                      | Some c, Some rest => Some (units c ++ rest) | _, _ => None end)
    (Some []) (seq 0 (Z.to_nat chunks)).

Definition read_state_row (st : state_storage) (entry : jsv * jsv) : option state_row :=
  match storage_get (meta_key entry.1 entry.2) (ss_meta st) with
  | None => None
  | Some (metadata, chunks) =>
      match read_state_chunks st entry.1 entry.2 chunks with
      | Some raw => Some (with_raw metadata (JS raw)) | None => None end
  end.

Definition worker_rows (st : state_storage) : list state_row :=
  omap (read_state_row st) (default [] (ss_index st)).

(** [put]: the calls are chained on [pending], so each one runs alone. *)
Definition put_worker_state (st : state_storage) (envelope : jsv) (raw : jstr) (now : Z)
    (activity : list device) : res state_storage :=
  let before := worker_rows st in
  let* rows := retainState before envelope raw now activity in
  let st1 := fold_left (fun st row => if bool_decide (row ∈ rows) then st else remove_state st row) before st in
  let st2 := fold_left (fun st row => if bool_decide (row ∈ before) then st else write_state st row) rows st1 in
  Ok {| ss_index := Some (map slot_of rows); ss_meta := ss_meta st2; ss_chunks := ss_chunks st2 |}.

Definition list_worker_state (st : state_storage) (recipient : option jstr) (now : Z) : list state_row :=
  replayState (worker_rows st) recipient now.

(** *** Keys and chunks *)

(** The rows a storage can hold: text slots without a colon, a frame of bounded size. *)
Record storable (r : state_row) : Prop := {
  so_slot : exists a b, slot_of r = (JStr a, JStr b) /\ no_colon a /\ no_colon b;
  so_bytes : sr_bytes r = byte_length (sr_raw r) /\ sr_bytes r <= STATE_FRAME_BYTES;
}.

Definition state_chunks (r : state_row) : nat := Z.to_nat (chunks_of (slen (sr_raw r))).

Lemma units_le_bytes_ind (n : nat) l : (length l <= n)%nat -> Z.of_nat (length l) <= utf8_units l.
Proof.
  revert l. induction n as [|n IH]; intros [|u l] Hl; simpl in *; try lia.
  assert (Z.of_nat (length l) <= utf8_units l) by (apply IH; lia).
  destruct (_ <? _)%N; [lia|]. destruct (_ <? _)%N; [lia|]. destruct (_ && _); [|lia].
  destruct l as [|v l]; [simpl; lia|]. assert (Z.of_nat (length l) <= utf8_units l) by (apply IH; simpl in *; lia).
  destruct (_ && _); simpl in *; lia.
Qed.

Lemma slen_le_bytes s : slen s <= byte_length s.
Proof. unfold slen, byte_length. by eapply units_le_bytes_ind. Qed.

Lemma chunks_of_mono a b : a <= b -> chunks_of a <= chunks_of b.
Proof. intros H. unfold chunks_of, STATE_CHUNK. apply Z.div_le_mono; lia. Qed.

Lemma chunks_of_frame a : 0 <= a <= STATE_FRAME_BYTES -> 0 <= chunks_of a <= 30 /\ a <= chunks_of a * STATE_CHUNK.
Proof.
  unfold chunks_of, STATE_CHUNK, STATE_FRAME_BYTES. intros H.
  pose proof (Z.div_mod (a + 60000 - 1) 60000 ltac:(lia)). pose proof (Z.mod_pos_bound (a + 60000 - 1) 60000 ltac:(lia)). lia.
Qed.

Lemma storable_chunks r : storable r -> (state_chunks r <= Z.to_nat (chunks_of (sr_bytes r)) <= 30)%nat.
Proof.
  intros [_ [Hb Hl]]. pose proof (slen_le_bytes (sr_raw r)). unfold state_chunks.
  pose proof (chunks_of_mono (slen (sr_raw r)) (sr_bytes r) ltac:(lia)).
  pose proof (chunks_of_frame (sr_bytes r)). pose proof (byte_length_nonneg (sr_raw r)). lia.
Qed.

Lemma index_text_inj i j : (i < 30)%nat -> (j < 30)%nat -> Z_text (Z.of_nat i) = Z_text (Z.of_nat j) -> i = j.
Proof.
  assert (NoDup ((fun i => Z_text (Z.of_nat i)) <$> seq 0 30)) as Hnd by (apply (bool_decide_unpack _); vm_compute; exact I).
  intros Hi Hj E. eapply NoDup_lookup; [exact Hnd| |]; rewrite list_lookup_fmap, lookup_seq_lt by lia; simpl; [done|]. by rewrite E.
Qed.

Lemma meta_key_inj r r' :
  storable r -> storable r' -> meta_key (sr_recipient r) (sr_key r) = meta_key (sr_recipient r') (sr_key r') ->
  slot_of r = slot_of r'.
Proof.
  intros [(a & b & E & Ha & Hb) _] [(a' & b' & E' & Ha' & Hb') _] H. unfold slot_of in *.
  injection E as E1 E2. injection E' as E1' E2'. rewrite E1, E2, E1', E2' in *. unfold meta_key, text_of in H. cbn [to_string] in H.
  apply sapp_inj, sapp_colon in H as [-> ->]; done.
Qed.

Lemma chunk_key_inj r r' i j :
  storable r -> storable r' -> (i < 30)%nat -> (j < 30)%nat ->
  chunk_key (sr_recipient r) (sr_key r) i = chunk_key (sr_recipient r') (sr_key r') j -> slot_of r = slot_of r' /\ i = j.
Proof.
  intros [(a & b & E & Ha & Hb) _] [(a' & b' & E' & Ha' & Hb') _] Hi Hj H. unfold slot_of in *.
  injection E as E1 E2. injection E' as E1' E2'. rewrite E1, E2, E1', E2' in *. unfold chunk_key, meta_key, text_of in H. cbn [to_string] in H.
  rewrite !sapp_assoc in H. apply sapp_inj, sapp_colon in H as [-> H]; [|done|done].
  apply sapp_colon in H as [-> H]; [|done|done]. split; [done|]. by apply index_text_inj.
Qed.

(** *** What the storage holds *)

(** Exactly the metadata and the chunks of the rows, and nothing else. *)
Record stored (st : state_storage) (rows : list state_row) : Prop := {
  sd_meta : forall k m, storage_get k (ss_meta st) = Some m <->
    exists r, r ∈ rows /\ k = meta_key (sr_recipient r) (sr_key r) /\ m = (without_raw r, chunks_of (slen (sr_raw r)));
  sd_chunk : forall k c, storage_get k (ss_chunks st) = Some c <->
    exists r i, r ∈ rows /\ (i < state_chunks r)%nat /\ k = chunk_key (sr_recipient r) (sr_key r) i /\ c = state_slice (sr_raw r) i;
}.

Lemma stored_equiv st rows rows' : (forall r, r ∈ rows <-> r ∈ rows') -> stored st rows -> stored st rows'.
Proof.
  intros Hiff [Hm Hc]. split; [intros k m; rewrite Hm|intros k c; rewrite Hc].
  - f_equiv. intros r. by rewrite Hiff.
  - do 2 (f_equiv; intros ?). by rewrite Hiff.
Qed.

(** The storage of a room: the rows in the order of the index. *)
Record holds (st : state_storage) (rows : list state_row) : Prop := {
  hd_index : default [] (ss_index st) = map slot_of rows;
  hd_stored : stored st rows;
  hd_unique : unique_slots rows;
  hd_storable : Forall storable rows;
}.

Lemma delete_chunks_get (f : nat -> jstr) (l : list nat) st k :
  storage_get k (ss_chunks (fold_left (fun st i => delete_chunk (f i) st) l st))
  = if decide (k ∈ map f l) then None else storage_get k (ss_chunks st).
Proof.
  revert st. induction l as [|i l IH]; intros st; cbn [fold_left]; [by rewrite decide_False by apply not_elem_of_nil|].
  rewrite IH. simpl. rewrite storage_get_delete. destruct (decide (k ∈ map f l)), (decide (k = f i)), (decide (k ∈ f i :: map f l));
    try done; set_solver.
Qed.

Lemma put_chunks_get (f g : nat -> jstr) (l : list nat) st k :
  (forall i j, i ∈ l -> j ∈ l -> f i = f j -> i = j) -> NoDup l ->
  forall c, storage_get k (ss_chunks (fold_left (fun st i => put_chunk (f i) (g i) st) l st)) = Some c <->
    (exists i, i ∈ l /\ k = f i /\ c = g i) \/ k ∉ map f l /\ storage_get k (ss_chunks st) = Some c.
Proof.
  intros Hinj Hn c. induction l as [|i l IH] using rev_ind.
  { simpl. split; [intros H; right; split; [apply not_elem_of_nil|done]|]. intros [(i & Hi & _)|[_ H]]; [by apply elem_of_nil in Hi|done]. }
  rewrite fold_left_app. simpl. rewrite storage_get_put. apply NoDup_app in Hn as (Hn & Hd & _).
  rewrite map_app, not_elem_of_app. simpl. rewrite not_elem_of_cons.
  specialize (IH ltac:(intros; apply Hinj; set_solver) Hn). destruct (decide (k = f i)) as [->|Hk].
  - split.
    + intros [= <-]. left. exists i. set_solver.
    + intros [(j & Hj & E & ->)|[[_ [? _]] _]]; [|done]. f_equal. f_equal. apply Hinj; set_solver.
  - rewrite IH. split.
    + intros [(j & Hj & -> & ->)|[Hnot H]]; [left; exists j; set_solver|right; set_solver].
    + intros [(j & Hj & -> & ->)|[[Hnot _] H]]; [|by right]. left. exists j. split_and!; [|done|done].
      apply elem_of_app in Hj as [?|Hj]; [done|]. apply list_elem_of_singleton in Hj as ->. done.
Qed.

Lemma remove_stored st rows r :
  unique_slots rows -> Forall storable rows -> r ∈ rows -> stored st rows ->
  stored (remove_state st r) (filter (fun x => x <> r) rows).
Proof.
  intros Hu HF Hr [Hm Hc]. rewrite Forall_forall in HF. split; unfold remove_state; cbn [ss_meta ss_chunks].
  - intros k m. assert (forall l st, ss_meta (fold_left (fun st i => delete_chunk (chunk_key (sr_recipient r) (sr_key r) i) st) l st) = ss_meta st) as ->.
    { intros l. induction l as [|i l IH]; intros s; [done|]. cbn [fold_left]. by rewrite IH. }
    rewrite storage_get_delete. setoid_rewrite list_elem_of_filter. case_decide as Ek.
    + split; [done|]. intros (r' & [Hne Hr'] & Ek' & _). exfalso. apply Hne. apply (unique_slot_eq rows); [done|done|done|].
      apply meta_key_inj; [auto|auto|congruence].
    + rewrite Hm. split; [intros (r' & Hr' & -> & ->)|intros (r' & [_ Hr'] & -> & ->)]; exists r'; [|done].
      split_and!; [intros ->; done|done|done|done].
  - intros k c. rewrite delete_chunks_get. setoid_rewrite list_elem_of_filter.
    destruct (decide _) as [Hk|Hk].
    + split; [done|]. intros (r' & i & [Hne Hr'] & Hi & Ek' & _). exfalso. apply Hne. apply (unique_slot_eq rows); [done|done|done|].
      apply list_elem_of_fmap in Hk as (j & Ek & Hj). apply elem_of_seq in Hj. subst k.
      pose proof (storable_chunks r (HF r Hr)). pose proof (storable_chunks r' (HF r' Hr')).
      apply chunk_key_inj in Ek' as [Es _]; [done|auto|auto|lia|lia].
    + rewrite Hc. split; [intros (r' & i & Hr' & Hi & -> & ->)|intros (r' & i & [_ Hr'] & Hi & -> & ->)]; exists r', i; [|done].
      split_and!; [|done|done|done|done]. intros ->. apply Hk. apply list_elem_of_fmap. exists i. split; [done|].
      apply elem_of_seq. pose proof (storable_chunks r (HF r Hr)). lia.
Qed.

Lemma write_stored st rows new :
  Forall storable rows -> storable new -> slot_of new ∉ map slot_of rows -> stored st rows ->
  stored (write_state st new) (rows ++ [new]).
Proof.
  intros HF Hnew Hfresh [Hm Hc]. rewrite Forall_forall in HF.
  assert (forall r, r ∈ rows -> slot_of r <> slot_of new) as Hne.
  { intros r Hr E. apply Hfresh. rewrite <- E. by apply list_elem_of_fmap_2. }
  split; unfold write_state; cbn [ss_meta ss_chunks].
  - intros k m. assert (forall l st, ss_meta (fold_left (fun st i => put_chunk (chunk_key (sr_recipient new) (sr_key new) i) (state_slice (sr_raw new) i) st) l st) = ss_meta st) as ->.
    { intros l. induction l as [|i l IH]; intros s; [done|]. cbn [fold_left]. by rewrite IH. }
    rewrite storage_get_put. setoid_rewrite elem_of_app. setoid_rewrite list_elem_of_singleton. case_decide as Ek.
    + split.
      * intros [= <-]. exists new. split_and!; [by right|done|done].
      * intros (r & [Hr| ->] & Ek' & ->); [|done]. exfalso. apply (Hne r Hr), meta_key_inj; [auto|auto|congruence].
    + rewrite Hm. split; [intros (r & Hr & -> & ->); exists r; split_and!; [by left|done|done]|].
      intros (r & [Hr| ->] & -> & ->); [by exists r|done].
  - intros k c. pose proof (storable_chunks new Hnew) as Hn30. rewrite put_chunks_get.
    + setoid_rewrite elem_of_app. setoid_rewrite list_elem_of_singleton. split.
      * intros [(i & Hi & -> & ->)|[_ Hget]].
        -- apply elem_of_seq in Hi. exists new, i. split_and!; [by right|unfold state_chunks; lia|done|done].
        -- apply Hc in Hget as (r & i & Hr & Hi & -> & ->). exists r, i. split_and!; [by left|done|done|done].
      * intros (r & i & [Hr| ->] & Hi & -> & ->).
        -- right. split; [|apply Hc; by exists r, i]. intros Hin. apply list_elem_of_fmap in Hin as (j & Ek & Hj).
           apply elem_of_seq in Hj. pose proof (storable_chunks r (HF r Hr)). unfold state_chunks in *.
           apply chunk_key_inj in Ek as [Es _]; [|auto|auto|lia|lia]. by apply (Hne r Hr).
        -- left. exists i. split_and!; [apply elem_of_seq; unfold state_chunks in Hi; lia|done|done].
    + intros i j Hi Hj Ek. apply elem_of_seq in Hi, Hj. unfold state_chunks in *.
      apply (chunk_key_inj new new) in Ek as [_ E]; [done|done|done|lia|lia].
    + apply NoDup_seq.
Qed.

Lemma read_state_chunks_ok st recipient key n (f : nat -> jstr) :
  (forall i, (i < n)%nat -> storage_get (chunk_key recipient key i) (ss_chunks st) = Some (f i)) ->
  read_state_chunks st recipient key (Z.of_nat n) = Some (concat (map (fun i => units (f i)) (seq 0 n))).
Proof.
  intros H. unfold read_state_chunks. rewrite Nat2Z.id.
  assert (forall i, i ∈ seq 0 n -> storage_get (chunk_key recipient key i) (ss_chunks st) = Some (f i)) as Hl
    by (intros i Hi; apply elem_of_seq in Hi; apply H; lia).
  clear H. induction (seq 0 n) as [|i l IH]; [done|]. simpl. rewrite Hl by by left. rewrite IH; [done|].
  intros j Hj. apply Hl. by right.
Qed.

Lemma read_stored st rows r : stored st rows -> Forall storable rows -> r ∈ rows -> read_state_row st (slot_of r) = Some r.
Proof.
  intros [Hm Hc] HF Hr. rewrite Forall_forall in HF. pose proof (HF r Hr) as [_ [Hb Hl]]. unfold read_state_row.
  rewrite (proj2 (Hm _ (without_raw r, chunks_of (slen (sr_raw r))))) by by exists r.
  pose proof (slen_le_bytes (sr_raw r)). assert (0 <= slen (sr_raw r)) by (unfold slen; lia).
  destruct (chunks_of_frame (slen (sr_raw r))) as [Hpos Hcover]; [lia|].
  rewrite <- (Z2Nat.id (chunks_of _)) by lia. fold (state_chunks r).
  rewrite (read_state_chunks_ok _ _ _ _ (state_slice (sr_raw r))).
  - unfold state_slice, sslice. cbn [units]. rewrite chunks_concat, take_ge.
    + destruct r as [? ? ? ? ? ? ? ? [l]]. done.
    + unfold state_chunks, slen in *. lia.
  - intros i Hi. apply Hc. by exists r, i.
Qed.

Lemma worker_rows_held st rows : holds st rows -> worker_rows st = rows.
Proof.
  intros [Hi Hs _ HF]. unfold worker_rows. rewrite Hi.
  assert (forall r, r ∈ rows -> read_state_row st (slot_of r) = Some r) as Hread by (intros; by eapply read_stored).
  clear -Hread. induction rows as [|r rows IH]; [done|]. simpl. rewrite Hread by by left. f_equal. apply IH.
  intros x Hx. apply Hread. by right.
Qed.

(** The rows the policy gave up leave no key behind. *)
Lemma remove_all_stored (rows rows' l : list state_row) st :
  unique_slots rows -> Forall storable rows -> NoDup l -> (forall r, r ∈ l -> r ∈ rows) -> stored st rows ->
  stored (fold_left (fun st row => if bool_decide (row ∈ rows') then st else remove_state st row) l st)
    (filter (fun r => ~ (r ∈ l /\ r ∉ rows')) rows).
Proof.
  intros Hu HF Hn Hin Hst. induction l as [|r l IH] using rev_ind.
  - simpl. rewrite filter_always; [done|]. intros r [Hr _]. by apply elem_of_nil in Hr.
  - rewrite fold_left_app. cbn [fold_left]. apply NoDup_app in Hn as (Hn & Hd & _).
    specialize (IH Hn ltac:(intros; apply Hin; set_solver)). assert (r ∉ l) as Hrl by (intros Hx; apply (Hd _ Hx); by left).
    destruct (bool_decide (r ∈ rows')) eqn:E; reflect_bools.
    + eapply stored_equiv; [|exact IH]. intros x. rewrite !list_elem_of_filter, elem_of_app, list_elem_of_singleton.
      assert (x = r -> x ∈ rows') by (by intros ->). tauto.
    + eapply stored_equiv; [|refine (remove_stored _ _ r _ _ _ IH); [by apply unique_filter| |]].
      * intros x. rewrite !list_elem_of_filter, elem_of_app, list_elem_of_singleton.
        assert (x = r -> x ∉ rows') by (by intros ->). tauto.
      * eapply sublist_Forall; [apply sublist_filter|done].
      * apply list_elem_of_filter. split; [tauto|]. apply Hin. set_solver.
Qed.

Lemma write_rows_old (before rows : list state_row) st :
  (forall r, r ∈ rows -> r ∈ before) ->
  fold_left (fun st row => if bool_decide (row ∈ before) then st else write_state st row) rows st = st.
Proof.
  intros H. induction rows as [|r rows IH]; [done|]. cbn [fold_left].
  rewrite bool_decide_eq_true_2 by (apply H; by left). apply IH. intros x Hx. apply H. by right.
Qed.

Lemma kept_storable rows env raw now activity rows' a b :
  get "recipientKeyId" env = JStr a -> get "stateKey" env = JStr b ->
  retainState rows env raw now activity = Ok rows' -> new_state_row env raw now (byte_length raw) ∈ rows' ->
  new_state_row env raw now (byte_length raw) ∉ rows -> storable (new_state_row env raw now (byte_length raw)).
Proof.
  intros Ha Hb H Hin Hnot. apply retainState_cases in H as [->|(Hv & _ & Hl & _)].
  { apply list_elem_of_filter in Hin as [_ Hin]. done. }
  split; [|done]. exists a, b. split; [unfold slot_of; simpl; by rewrite Ha, Hb|].
  unfold validRetainedState in Hv. rewrite Ha, Hb in Hv. cbn [is_nullish andb] in Hv.
  destruct (negb _); [discriminate Hv|]. apply res_and_true in Hv as [Hha Hv]. apply res_and_true in Hv as [Hhb _].
  unfold test_or_empty, test in Hha, Hhb. cbn in Hha, Hhb. injection Hha as Hha. injection Hhb as Hhb.
  split; by apply hex64_no_colon.
Qed.

(** C30: The Durable Object's storage implements the policy: from a storage that
    holds exactly the rows of a list, a frame with a text slot leaves a storage
    that holds exactly the rows the policy keeps, which the next listing reads
    back whole; no chunk of a replaced or evicted row stays behind. *)
Theorem worker_retained_refines_policy (st : state_storage) (rows : list state_row) (env : jsv) (raw : jstr)
    (now : Z) (activity : list device) (st' : state_storage) :
  holds st rows ->
  (truthy (get "stateKey" env) = true -> string_slot (new_state_row env raw now (byte_length raw))) ->
  put_worker_state st env raw now activity = Ok st' ->
  exists rows', retainState rows env raw now activity = Ok rows' /\ holds st' rows' /\ worker_rows st' = rows'.
Proof.
  intros Hst Hslot H. unfold put_worker_state in H. rewrite (worker_rows_held _ _ Hst) in H.
  destruct Hst as [Hi Hs Hu HF].
  destruct (retainState rows env raw now activity) as [rows'|] eqn:Er; [|discriminate H]. injection H as <-.
  exists rows'. split; [done|].
  destruct (policy_rows _ _ _ _ _ _ Hu Hslot Er) as [Hu' Hin]. set (new := new_state_row _ _ _ _) in *.
  pose proof (remove_all_stored rows rows' rows st Hu HF (unique_nodup _ Hu) (fun r Hr => Hr) Hs) as Hs1.
  set (st1 := fold_left _ rows st) in *.
  match goal with |- holds ?s _ /\ _ => cut (holds s rows'); [intros Hh; split; [done|by apply worker_rows_held]|] end.
  destruct (one_new rows rows' new (unique_nodup _ Hu') Hin) as [Hold|(l1 & l2 & Hr' & Hb & H1 & H2)].
  - rewrite write_rows_old by done. split; [done| |done|].
    + eapply stored_equiv; [|destruct Hs1; by split]. intros r. rewrite list_elem_of_filter.
      destruct (decide (r ∈ rows')); [|tauto]. pose proof (Hold r ltac:(done)). tauto.
    + apply Forall_forall. intros r Hr. rewrite Forall_forall in HF. auto.
  - assert (new ∈ rows') as Hnew by (rewrite Hr'; set_solver).
    assert (storable new) as Hsn.
    { destruct (truthy (get "stateKey" env)) eqn:Et.
      - destruct (Hslot eq_refl) as (a & b & Hab). unfold slot_of in Hab. simpl in Hab. injection Hab as Ha Hb'.
        by eapply kept_storable.
      - unfold retainState in Er. rewrite Et in Er. simpl in Er. injection Er as <-.
        apply list_elem_of_filter in Hnew as [_ Hnew]. done. }
    rewrite Hr', fold_left_app. cbn [fold_left]. rewrite (write_rows_old rows l1), (write_rows_old rows l2) by done.
    rewrite bool_decide_eq_false_2 by done. rewrite <- Hr'. split; [done| |done|].
    + eapply stored_equiv; [|destruct (write_stored st1 (filter (fun r => ~ (r ∈ rows /\ r ∉ rows')) rows) new); [| | |exact Hs1|by split]].
      * intros r. rewrite elem_of_app, list_elem_of_filter, list_elem_of_singleton. split.
        -- intros [[Hx Hr]| ->]; [|done]. destruct (decide (r ∈ rows')); tauto.
        -- intros Hr. destruct (Hin r Hr) as [Hr0|]; [left; tauto|by right].
      * eapply sublist_Forall; [apply sublist_filter|done].
      * done.
      * intros Hx. apply list_elem_of_fmap in Hx as (r & Es & Hr). apply list_elem_of_filter in Hr as [Hx Hr].
        assert (r ∈ rows') as Hrr by (destruct (decide (r ∈ rows')); tauto).
        rewrite <- (unique_slot_eq rows' new r Hu' Hnew Hrr Es) in Hr. done.
    + apply Forall_forall. intros r Hr. rewrite Forall_forall in HF. destruct (Hin r Hr) as [| ->]; auto.
Qed.

(** ** Witnesses *)

Lemma node_retained_refines_policy_witness :
  put_state [] "room" (Examples.frame 99 6) "body" 1000 []
    = Ok [(("room", Examples.phone, Examples.slot 99), new_state_row (Examples.frame 99 6) "body" 1000 4)] /\
  exists rows, retainState [] (Examples.frame 99 6) "body" 1000 [] = Ok rows /\
    Permutation [new_state_row (Examples.frame 99 6) "body" 1000 4] rows.
Proof.
  split; [vm_compute; reflexivity|].
  refine (proj2 (proj2 (node_retained_refines_policy [] "room" (Examples.frame 99 6) "body" 1000 []
    [(("room", Examples.phone, Examples.slot 99), new_state_row (Examples.frame 99 6) "body" 1000 4)] _ _ _))).
  - split; [apply NoDup_nil_2|]. intros e He. exfalso. exact (not_elem_of_nil _ He).
  - intros _. by exists Examples.phone, (Examples.slot 99).
  - vm_compute. reflexivity.
Defined.

Definition empty_state : state_storage := {| ss_index := None; ss_meta := []; ss_chunks := [] |}.

Lemma worker_retained_refines_policy_witness :
  exists rows', retainState [] (Examples.frame 99 6) "body" 1000 [] = Ok rows' /\ 
    forall st', put_worker_state empty_state (Examples.frame 99 6) "body" 1000 [] = Ok st' -> worker_rows st' = rows'.
Proof.
  assert (holds empty_state []) as H0.
  { split; [reflexivity| |split; constructor|constructor].
    split; intros k x; split; (intros H; discriminate H) || idtac.
    - intros (r & Hr & _). exfalso. exact (not_elem_of_nil _ Hr).
    - intros (r & i & Hr & _). exfalso. exact (not_elem_of_nil _ Hr). }
  destruct (worker_retained_refines_policy empty_state [] (Examples.frame 99 6) "body" 1000 []
    (match put_worker_state empty_state (Examples.frame 99 6) "body" 1000 [] with Ok s => s | Throw => empty_state end)
    H0) as (rows' & Hr & _ & Hw).
  - intros _. by exists Examples.phone, (Examples.slot 99).
  - vm_compute. reflexivity.
  - exists rows'. split; [exact Hr|]. intros st' E. rewrite <- Hw. rewrite E. reflexivity.
Defined.
