(* ===== verification/Wake.v ===== *)
(** * Wake pushes
    [src/relay/wakeDelivery.js], with the record's storage of
    [src/node/store.js] (wakeState, saveWakeState, dueWakeRooms and the wake part
    of purgeExpiredPairings).

    A wake is an opaque hint that a room's phone should reconnect.  The actions of
    a room are chained, so they run one after the other; a crash can separate the
    claim of an attempt from its outcome, and a purge of the store can delete the record
    between any two of them.  [run] is the resulting step relation. *)

From stdpp Require Import relations.
From S2P Require Import Prelude Base64 Validation.
#[local] Open Scope bool_scope.
#[local] Open Scope Z_scope.
#[local] Open Scope js_scope.

Definition WAKE_INTERVAL_MS : Z := 60000.
Definition WAKE_HISTORY_LIMIT : nat := 256.
Definition WAKE_TTL_MS : Z := 15 * 60000.
Definition MAX_ATTEMPTS : Z := 3.

(** The stored record; [wk_pending] is an expiry and a number of attempts. *)
Record wake := {
  wk_recent : list (jstr * Z); wk_pending : option (Z * Z); wk_nextAt : option Z; wk_lastSentAt : option Z;
}.
#[export] Instance wake_eq_dec : EqDecision wake.
Proof. solve_decision. Defined.
Definition no_wake : wake := {| wk_recent := []; wk_pending := None; wk_nextAt := None; wk_lastSentAt := None |}.

Inductive notice := Expired | Duplicate | Coalesced | Requested | Complete | Failed.


Definition wake_expiry (env : jsv) (now : Z) : Z :=
  if is_nullish (get "expiresAt" env) then now + WAKE_TTL_MS else int_of (get "expiresAt" env).

Definition wake_identity (env : jsv) : jsv :=
  JArr ([get "senderId" env; if is_nullish (get "recipientKeyId" env) then JStr "" else get "recipientKeyId" env]
        ++ (if truthy (get "deliveryId" env) then [get "deliveryId" env] else [get "nonce" env; get "box" env])).

Section Requests.
Context (sha256 : jstr -> jstr).

Definition wake_key (env : jsv) : jstr := sha256 (json_text (wake_identity env)).

(** The receipt and the pending wake of a request whose envelope has not expired:
    [None] when the request was seen before. *)
Definition accept_wake (previous : wake) (env : jsv) (now : Z) : option wake :=
  let expiresAt := wake_expiry env now in
  let recent := filter (fun item => now <? item.2) (wk_recent previous) in
  if existsb (fun item => item.1 =?s wake_key env) recent then None
  else
    let recent' := recent ++ [(wake_key env, expiresAt)] in
    Some {| wk_recent := drop (length recent' - WAKE_HISTORY_LIMIT) recent';
            wk_pending := Some (Z.max expiresAt (match wk_pending previous with Some p => p.1 | None => 0 end), 0);
            wk_nextAt := Some (Z.max now (match wk_lastSentAt previous with Some t => t + WAKE_INTERVAL_MS | None => now end));
            wk_lastSentAt := wk_lastSentAt previous |}.
End Requests.

(** [{ ...state, pending: null, nextAt: null }] *)
Definition clear_pending (st : wake) : wake :=
  {| wk_recent := wk_recent st; wk_pending := None; wk_nextAt := None; wk_lastSentAt := wk_lastSentAt st |}.

Definition after (nextAt : option Z) (now : Z) : bool := match nextAt with Some t => now <? t | None => false end.

Inductive due := Idle | Lapsed (st : wake) | Claimed (st : wake).

(** [sendDue] up to the push. *)
Definition claim_due (state : option wake) (now : Z) : due :=
  match state with
  | None => Idle
  | Some st =>
      match wk_pending st with
      | None => Idle
      | Some (expiresAt, attempts) =>
          if (expiresAt <=? now) || (MAX_ATTEMPTS <=? attempts) then Lapsed (clear_pending st)
          else if after (wk_nextAt st) now then Idle
          else Claimed {| wk_recent := wk_recent st; wk_pending := Some (expiresAt, attempts + 1);
                          wk_nextAt := Some (now + WAKE_INTERVAL_MS); wk_lastSentAt := Some now |}
      end
  end.

(** [sendDue] after the push; [ok] is its outcome, a failure when it threw. *)
Definition settle (claimed : wake) (ok : bool) : wake :=
  if ok || match wk_pending claimed with Some (_, attempts) => MAX_ATTEMPTS <=? attempts | None => true end
  then clear_pending claimed else claimed.

Definition sendDue (state : option wake) (now : Z) (ok : bool) : option wake * list notice :=
  match claim_due state now with
  | Idle => (state, [])
  | Lapsed st => (Some st, [Expired])
  | Claimed st => (Some (settle st ok), [if ok then Complete else Failed])
  end.

(** [request]: [now'] is the clock when [sendDue] reads it. *)
Definition request_wake (sha256 : jstr -> jstr) (state : option wake) (env : jsv) (now now' : Z) (ok : bool)
  : option wake * list notice :=
  if wake_expiry env now <=? now then (state, [Expired])
  else
    let '(state1, notices) :=
      match accept_wake sha256 (default no_wake state) env now with
      | None => (state, [Duplicate])
      | Some st => (Some st, [if after (wk_nextAt st) now then Coalesced else Requested])
      end in
    let '(state2, more) := sendDue state1 now' ok in (state2, notices ++ more).

Definition nextAt (state : option wake) : option Z :=
  match state with
  | Some st => match wk_pending st with
               | Some (expiresAt, _) => match wk_nextAt st with Some t => Some (Z.min t expiresAt) | None => Some (Z.min 0 expiresAt) end
               | None => None end
  | None => None
  end.

(** ** The table [relay_wakes] *)

Abbreviation wake_table := (list (jstr * wake)).

Definition wakeState (room : jstr) (t : wake_table) : option wake := map_get room t.
Definition saveWakeState (room : jstr) (st : wake) (t : wake_table) : wake_table := map_set room st t.

(** [min] of the query is [NULL], not due, when [nextAt] is. *)
Definition is_due (now : Z) (st : wake) : bool :=
  match wk_pending st, wk_nextAt st with Some (expiresAt, _), Some t => Z.min t expiresAt <=? now | _, _ => false end.

Definition dueWakeRooms (now : Z) (t : wake_table) : list jstr := take 128 (map fst (filter (fun e => is_due now e.2) t)).

(** The [WHERE] clause of the purge: nothing is pending and every receipt has expired. *)
Definition forgettable (now : Z) (st : wake) : bool :=
  bool_decide (wk_pending st = None) && negb (existsb (fun item => now <? item.2) (wk_recent st)).

Definition purge_wakes (now : Z) (t : wake_table) : wake_table := filter (fun e => negb (forgettable now e.2)) t.

(** ** Runs of one room *)

(** What the ghost log of a run records: when a push was sent, and when a purge of the
    store deleted the record. *)
Inductive mark := Pushed (at_ : Z) | Forgotten (at_ : Z).

(** [rn_inflight]: the push of the stored claim is under way.  The ghost fields are the
    log, latest first, and how many pushes followed the last accepted request. *)
Record run := {
  rn_now : Z; rn_state : option wake; rn_inflight : bool; rn_log : list mark; rn_since : Z;
}.

Definition run0 (now : Z) : run := {| rn_now := now; rn_state := None; rn_inflight := false; rn_log := []; rn_since := 0 |}.

(** The clock does not go back.  A purge may run at any time, also while a push is under
    way; the Worker's rooms have no purge. *)
Inductive wake_step (sha256 : jstr -> jstr) (r : run) : run -> Prop :=
| step_accept env now st :
    rn_inflight r = false -> rn_now r <= now -> now < wake_expiry env now ->
    accept_wake sha256 (default no_wake (rn_state r)) env now = Some st ->
    wake_step sha256 r {| rn_now := now; rn_state := Some st; rn_inflight := false; rn_log := rn_log r; rn_since := 0 |}
| step_lapse now st :
    rn_inflight r = false -> rn_now r <= now -> claim_due (rn_state r) now = Lapsed st ->
    wake_step sha256 r {| rn_now := now; rn_state := Some st; rn_inflight := false; rn_log := rn_log r; rn_since := rn_since r |}
| step_claim now st :
    rn_inflight r = false -> rn_now r <= now -> claim_due (rn_state r) now = Claimed st ->
    wake_step sha256 r {| rn_now := now; rn_state := Some st; rn_inflight := true; rn_log := Pushed now :: rn_log r; rn_since := rn_since r + 1 |}
| step_settle now st ok :
    rn_inflight r = true -> rn_now r <= now -> rn_state r = Some st ->
    wake_step sha256 r {| rn_now := now; rn_state := Some (settle st ok); rn_inflight := false; rn_log := rn_log r; rn_since := rn_since r |}
| step_crash now :
    rn_now r <= now ->
    wake_step sha256 r {| rn_now := now; rn_state := rn_state r; rn_inflight := false; rn_log := rn_log r; rn_since := rn_since r |}
| step_purge now st :
    rn_now r <= now -> rn_state r = Some st -> forgettable now st = true ->
    wake_step sha256 r {| rn_now := now; rn_state := None; rn_inflight := rn_inflight r; rn_log := Forgotten now :: rn_log r; rn_since := rn_since r |}.

(** ** Invariant *)

(** Two pushes between which no purge deleted the record are an interval apart. *)
Definition spaced (log : list mark) : Prop :=
  forall after later between earlier before, log = after ++ Pushed later :: between ++ Pushed earlier :: before ->
  (forall at_, Forgotten at_ ∉ between) -> earlier + WAKE_INTERVAL_MS <= later.

(** The pushes since the record was last deleted, latest first. *)
Fixpoint pushes (log : list mark) : list Z :=
  match log with Pushed at_ :: rest => at_ :: pushes rest | Forgotten _ :: _ | [] => [] end.

(** The form of [spaced] that a step extends. *)
Fixpoint spaced_log (log : list mark) : Prop :=
  match log with
  | [] => True
  | Pushed at_ :: rest => Forall (fun earlier => earlier + WAKE_INTERVAL_MS <= at_) (pushes rest) /\ spaced_log rest
  | Forgotten _ :: rest => spaced_log rest
  end.

Record state_inv (log : list mark) (since : Z) (st : wake) : Prop := {
  si_recent : (length (wk_recent st) <= WAKE_HISTORY_LIMIT)%nat;
  si_last : head (pushes log) = wk_lastSentAt st;
  si_pending : forall e a, wk_pending st = Some (e, a) -> a = since /\
    exists n, wk_nextAt st = Some n /\ forall t, wk_lastSentAt st = Some t -> t + WAKE_INTERVAL_MS <= n;
}.

Record run_inv (r : run) : Prop := {
  ri_spaced : spaced_log (rn_log r);
  ri_since : 0 <= rn_since r <= MAX_ATTEMPTS;
  ri_state : match rn_state r with Some st => state_inv (rn_log r) (rn_since r) st | None => pushes (rn_log r) = [] end;
  ri_inflight : rn_inflight r = true -> exists st, rn_state r = Some st /\ wk_pending st <> None;
}.

Lemma run0_inv now : run_inv (run0 now).
Proof. by split. Qed.

Lemma pushes_elem log between earlier before :
  log = between ++ Pushed earlier :: before -> (forall at_, Forgotten at_ ∉ between) -> earlier ∈ pushes log.
Proof.
  intros ->. induction between as [|[t|t] between IH]; intros Hn; cbn [app pushes]; [by left|..].
  - right. apply IH. intros at_ Hin. apply (Hn at_). by right.
  - exfalso. apply (Hn t). by left.
Qed.

Lemma spaced_log_spaced log : spaced_log log -> spaced log.
Proof.
  induction log as [|m log IH]; intros Hs after later between earlier before E Hn; [by destruct after|].
  destruct after as [|m' after]; injection E as -> E.
  - destruct Hs as [HF _]. rewrite Forall_forall in HF. apply HF. by eapply pushes_elem.
  - apply (IH ltac:(destruct m'; apply Hs) after later between earlier before E Hn).
Qed.

Lemma clear_inv log since st : state_inv log since st -> state_inv log since (clear_pending st).
Proof. intros [H1 H2 H3]. by split. Qed.

Lemma settle_inv log since st ok : state_inv log since st -> state_inv log since (settle st ok).
Proof. intros H. unfold settle. destruct (ok || _); [by apply clear_inv|done]. Qed.

Lemma accept_inv sha256 log since now state env st :
  match state with Some st => state_inv log since st | None => pushes log = [] end ->
  accept_wake sha256 (default no_wake state) env now = Some st -> state_inv log 0 st.
Proof.
  intros Hinv H. assert (head (pushes log) = wk_lastSentAt (default no_wake state)) as Hlast.
  { destruct state; [apply Hinv|by rewrite Hinv]. }
  unfold accept_wake in H. destruct (existsb _ _); [discriminate H|]. injection H as <-. split; simpl.
  - rewrite length_drop. lia.
  - exact Hlast.
  - intros e a [= _ <-]. split; [done|]. eexists. split; [done|]. intros t Ht. rewrite Ht. lia.
Qed.

Lemma spaced_push log t :
  spaced_log log -> (forall u, head (pushes log) = Some u -> u + WAKE_INTERVAL_MS <= t) -> spaced_log (Pushed t :: log).
Proof.
  intros Hs Hh. split; [|done]. destruct log as [|[u|u] log]; cbn [pushes] in *; [constructor| |constructor].
  specialize (Hh u eq_refl). destruct Hs as [HF _]. constructor; [done|]. eapply Forall_impl; [exact HF|].
  intros v Hv. cbn beta in *. unfold WAKE_INTERVAL_MS in *. lia.
Qed.

Lemma claim_lapsed state now st : claim_due state now = Lapsed st -> exists st0, state = Some st0 /\ st = clear_pending st0.
Proof.
  unfold claim_due. intros H. destruct state as [st0|]; [|discriminate H]. destruct (wk_pending st0) as [[e a]|]; [|discriminate H].
  destruct (_ || _); [|destruct (after _ _); discriminate H]. exists st0. by injection H as <-.
Qed.

Lemma claim_claimed state now st :
  claim_due state now = Claimed st ->
  exists st0 e a, state = Some st0 /\ wk_pending st0 = Some (e, a) /\ now < e /\ a < MAX_ATTEMPTS /\
    after (wk_nextAt st0) now = false /\
    st = {| wk_recent := wk_recent st0; wk_pending := Some (e, a + 1); wk_nextAt := Some (now + WAKE_INTERVAL_MS); wk_lastSentAt := Some now |}.
Proof.
  unfold claim_due. intros H. destruct state as [st0|]; [|discriminate H]. destruct (wk_pending st0) as [[e a]|] eqn:Ep; [|discriminate H].
  destruct (_ || _) eqn:E1; [discriminate H|]. destruct (after _ _) eqn:E2; [discriminate H|]. split_andb. reflect_bools.
  exists st0, e, a. by injection H as <-.
Qed.

Lemma step_inv sha256 r r' : wake_step sha256 r r' -> run_inv r -> run_inv r'.
Proof.
  intros Hstep [Hs Hn Hst Hfl].
  destruct Hstep as [env now st Hf Hle He Ha|now st Hf Hle Hd|now st Hf Hle Hd|now st ok Hf Hle E|now Hle|now st Hle E Hp].
  - split; simpl; [done|done|by eapply accept_inv|done].
  - apply claim_lapsed in Hd as (st0 & E & ->). rewrite E in Hst. split; simpl; [done|done|by apply clear_inv|done].
  - apply claim_claimed in Hd as (st0 & e & a & E & Ep & He & Hmax & Hafter & ->). rewrite E in Hst.
    destruct Hst as [Hrec Hlast Hpend]. destruct (Hpend e a Ep) as [-> (n & En & Hn')].
    rewrite En in Hafter. unfold after in Hafter. reflect_bools. split; cbn [rn_log rn_since rn_state rn_inflight].
    + apply spaced_push; [done|]. intros u Hu. rewrite Hlast in Hu. specialize (Hn' u Hu). lia.
    + lia.
    + split; simpl; [done|done|]. intros e' a' [= _ <-]. split; [done|]. eexists. split; [done|]. intros t [= <-]. lia.
    + by intros _; eexists.
  - rewrite E in Hst. split; simpl; [done|done|by apply settle_inv|done].
  - by split.
  - split; simpl; [done|done|done|]. intros Hin. destruct (Hfl Hin) as (st' & E' & Hne). rewrite E in E'. injection E' as <-.
    unfold forgettable in Hp. apply andb_true_iff in Hp as [Hp _]. by apply bool_decide_eq_true in Hp.
Qed.

Lemma reach_inv sha256 now r : rtc (wake_step sha256) (run0 now) r -> run_inv r.
Proof.
  intros H. remember (run0 now) as r0 eqn:E. assert (run_inv r0) as H0 by (subst; apply run0_inv). clear E.
  induction H as [|r0 r1 r Hstep _ IH]; [done|]. by eapply IH, step_inv.
Qed.

(** Only a purge deletes the record. *)
Lemma step_forgets sha256 r r' : wake_step sha256 r r' -> rn_state r <> None -> rn_state r' = None ->
  exists st, rn_state r = Some st /\ forgettable (rn_now r') st = true /\ rn_inflight r' = rn_inflight r /\
    rn_log r' = Forgotten (rn_now r') :: rn_log r.
Proof. intros H Hne Hn. destruct H as [| | | | |now st _ E Hp]; try done. by exists st. Qed.

Lemma forgettable_spec now st :
  forgettable now st = true <-> wk_pending st = None /\ Forall (fun item => item.2 <= now) (wk_recent st).
Proof.
  unfold forgettable. rewrite andb_true_iff, bool_decide_eq_true, negb_true_iff, <- not_true_iff_false, existsb_exists, Forall_forall.
  split; intros [H1 H2]; (split; [done|]).
  - intros x Hx. destruct (Z.ltb_spec now x.2) as [Hlt|]; [|done]. destruct H2. exists x.
    split; [by apply list_elem_of_In|by apply Z.ltb_lt].
  - intros (x & Hx%list_elem_of_In & Hlt%Z.ltb_lt). specialize (H2 x Hx). cbn beta in H2. lia.
Qed.

(** C14: However requests, drains, push failures, crashes and purges of the store
    interleave while the clock does not go back: two pushes of a room between which no
    purge deleted its record are at least 60 seconds apart, at most three pushes follow an
    accepted request, and at most 256 receipts are stored.  A purge deletes the record
    only when no push is under way, nothing is pending and every receipt has expired.
    (The spacing across such a deletion is lost: [purge_forgets_interval].) *)
Theorem wakes_are_spaced (sha256 : jstr -> jstr) (now : Z) (r : run) :
  rtc (wake_step sha256) (run0 now) r ->
  spaced (rn_log r) /\ rn_since r <= MAX_ATTEMPTS /\
  match rn_state r with Some st => (length (wk_recent st) <= WAKE_HISTORY_LIMIT)%nat | None => True end /\
  forall r', wake_step sha256 r r' -> rn_state r <> None -> rn_state r' = None ->
    rn_inflight r = false /\ rn_log r' = Forgotten (rn_now r') :: rn_log r /\
    exists st, rn_state r = Some st /\ wk_pending st = None /\ Forall (fun item => item.2 <= rn_now r') (wk_recent st).
Proof.
  intros H%reach_inv. pose proof H as [Hs Hn Hst Hfl]. split_and!; [by apply spaced_log_spaced|lia|destruct (rn_state r); [apply Hst|done]|].
  intros r' Hstep Hne Hnone. destruct (step_forgets sha256 r r' Hstep Hne Hnone) as (st & E & [Hp HF]%forgettable_spec & _ & Hl).
  split_and!; [|done|by exists st]. destruct (rn_inflight r); [|done]. destruct (Hfl eq_refl) as (st' & E' & Hp'). congruence.
Qed.

(** The purge of the table is, for each room, no step or [step_purge]. *)
Lemma purge_is_a_step (t : wake_table) (now : Z) (room : jstr) :
  NoDup t.*1 ->
  wakeState room (purge_wakes now t) =
    match wakeState room t with Some st => if forgettable now st then None else Some st | None => None end.
Proof.
  intros Hn. unfold wakeState, purge_wakes. destruct (map_get room (filter _ t)) as [st|] eqn:E.
  - apply map_get_Some, list_elem_of_filter in E as [Hf Hin]. rewrite (map_get_In _ _ _ Hn Hin). cbn [snd] in Hf.
    by destruct (forgettable now st).
  - destruct (map_get room t) as [st|] eqn:Et; [|done]. destruct (forgettable now st) eqn:Ef; [done|exfalso].
    apply map_get_None in E. apply E. apply map_get_Some in Et. apply (list_elem_of_fmap_2 fst _ (room, st)).
    apply list_elem_of_filter. split; [cbn [snd]; by rewrite Ef|done].
Qed.

(** The whole handlers are runs: a request, or a drain, from an idle room is a
    sequence of steps that ends in the state it stores. *)
Theorem handlers_are_runs (sha256 : jstr -> jstr) (r : run) (env : jsv) (now now' : Z) (ok : bool) :
  rn_inflight r = false -> rn_now r <= now -> now <= now' ->
  exists r', rtc (wake_step sha256) r r' /\ rn_inflight r' = false /\
    rn_state r' = fst (request_wake sha256 (rn_state r) env now now' ok) /\ rn_now r' <= now'.
Proof.
  intros Hf Hle Hle'.
  assert (forall r, rn_inflight r = false -> rn_now r <= now' -> exists r', rtc (wake_step sha256) r r' /\
    rn_inflight r' = false /\ rn_state r' = fst (sendDue (rn_state r) now' ok) /\ rn_now r' <= now') as Hdue.
  { clear. intros r Hf Hle. unfold sendDue. destruct (claim_due (rn_state r) now') as [|st|st] eqn:E.
    - by exists r.
    - eexists. split; [apply rtc_once, (step_lapse _ _ now' st); done|]. split_and!; [done|done|simpl; lia].
    - eexists. split; [eapply rtc_l; [apply (step_claim _ _ now' st); done|apply rtc_once, (step_settle _ _ now' st ok); simpl; lia || done]|].
      split_and!; [done|done|simpl; lia]. }
  unfold request_wake. destruct (Z.leb_spec (wake_expiry env now) now) as [He|He]; [exists r; split_and!; done || lia|].
  destruct (accept_wake sha256 (default no_wake (rn_state r)) env now) as [st|] eqn:Ea.
  - destruct (Hdue {| rn_now := now; rn_state := Some st; rn_inflight := false; rn_log := rn_log r; rn_since := 0 |})
      as (r' & Hr & Hf' & Hst & Hnow); [done|simpl; lia|]. simpl in Hst.
    exists r'. split_and!; [eapply rtc_l; [by apply (step_accept _ _ env now st)|done]|done| |done].
    rewrite Hst. by destruct (sendDue (Some st) now' ok).
  - destruct (Hdue r Hf ltac:(lia)) as (r' & Hr & Hf' & Hst & Hnow). exists r'. split_and!; [done|done| |done].
    rewrite Hst. by destruct (sendDue (rn_state r) now' ok).
Qed.

Lemma drain_future (state : option wake) (now : Z) (ok : bool) :
  (forall st, state = Some st -> wk_pending st <> None -> wk_nextAt st <> None) ->
  match nextAt (fst (sendDue state now ok)) with Some t => now < t | None => True end.
Proof.
  intros Hwf. unfold sendDue. destruct (claim_due state now) as [|st|st] eqn:E.
  - unfold claim_due in E. simpl. unfold nextAt. destruct state as [st|]; [|done].
    destruct (wk_pending st) as [[e a]|] eqn:Ep; [|done]. destruct (_ || _) eqn:E1; [discriminate E|].
    destruct (after _ _) eqn:E2; [|discriminate E]. split_andb. unfold after in E2. destruct (wk_nextAt st); [|discriminate E2].
    reflect_bools. lia.
  - apply claim_lapsed in E as (st0 & -> & ->). done.
  - apply claim_claimed in E as (st0 & e & a & -> & Ep & He & _ & _ & ->). simpl.
    unfold settle. destruct (ok || _); simpl; [done|]. unfold WAKE_INTERVAL_MS. lia.
Qed.

(** A drain makes progress: whatever the push did, the next alarm of the room is
    then in the future or there is none, so the pump never spins. *)
Theorem drain_makes_progress (state : option wake) (now : Z) (ok : bool) :
  (forall st, state = Some st -> wk_pending st <> None -> wk_nextAt st <> None) ->
  match nextAt (fst (sendDue state now ok)) with Some t => now < t | None => True end.
Proof. apply drain_future. Qed.

(** The pump finds exactly the rooms whose alarm has passed, up to its batch of
    128, among records whose pending wake has a time. *)
Theorem due_rooms_exact (t : wake_table) (now : Z) (room : jstr) :
  NoDup t.*1 -> (length t <= 128)%nat ->
  (forall room st, (room, st) ∈ t -> wk_pending st <> None -> wk_nextAt st <> None) ->
  room ∈ dueWakeRooms now t <-> exists at_, nextAt (wakeState room t) = Some at_ /\ at_ <= now.
Proof.
  intros Hn Hlen Hwf. unfold dueWakeRooms. rewrite take_ge.
  2: { rewrite length_map. pose proof (sublist_length _ _ (sublist_filter (fun e => is_due now e.2) t)). lia. }
  rewrite list_elem_of_fmap. setoid_rewrite list_elem_of_filter. unfold wakeState, nextAt, is_due. split.
  - intros ([room' st] & -> & Hd & Hin). simpl in *. rewrite (map_get_In _ _ _ Hn Hin).
    destruct (wk_pending st) as [[e a]|]; [|done]. destruct (wk_nextAt st); [|done].
    apply Is_true_true in Hd. reflect_bools. by eexists.
  - intros (t0 & H & Hle). destruct (map_get room t) as [st|] eqn:Eg; [|discriminate H]. apply map_get_Some in Eg.
    exists (room, st). split; [done|]. split; [|done]. simpl. specialize (Hwf _ _ Eg).
    destruct (wk_pending st) as [[e a]|]; [|discriminate H]. destruct (wk_nextAt st); [|by destruct Hwf].
    injection H as <-. apply Is_true_true. by apply Z.leb_le.
Qed.

(** The purge of the SQLite store forgets when the last push was sent: a record
    without a pending wake whose receipts have expired is deleted, and the next
    request of the room is pushed at once, two seconds after the last push. *)
Lemma purge_forgets_interval :
  let env expires nonce := JObj [("senderId", JStr "m"); ("nonce", JStr nonce); ("expiresAt", JNum (NInt expires))] in
  let t1 := match request_wake (fun s => s) None (env 101000 "a") 100000 100000 true with
            | (Some st, _) => saveWakeState "room" st [] | _ => [] end in
  let t2 := purge_wakes 101500 t1 in
  let '(_, notices) := request_wake (fun s => s) (wakeState "room" t2) (env 103000 "b") 102000 102000 true in
  wakeState "room" t1 <> None /\ notices = [Requested; Complete].
Proof. vm_compute. split; [discriminate|reflexivity]. Qed.

(** A wake is requested once: until the receipt of an accepted request expires,
    a request with the same identity (same sender, recipient and delivery) neither
    renews the pending wake nor resets its attempts; pushing does not lose receipts. *)
Theorem duplicate_wake_ignored (sha256 : jstr -> jstr) (previous st st' : wake) (env env' : jsv) (now now' : Z) :
  accept_wake sha256 previous env now = Some st -> wk_recent st' = wk_recent st ->
  wake_identity env' = wake_identity env -> now' < wake_expiry env now ->
  accept_wake sha256 st' env' now' = None.
Proof.
  intros H Hr Hid He. unfold accept_wake in *. destruct (existsb _ _) in H; [discriminate H|]. injection H as <-.
  unfold wake_key in *. rewrite Hr, Hid. simpl. set (l := filter _ (wk_recent previous)). clearbody l.
  destruct (existsb _ _) eqn:E; [done|exfalso]. apply not_true_iff_false in E. apply E. clear E.
  apply existsb_exists. exists (sha256 (json_text (wake_identity env)), wake_expiry env now). split.
  - apply list_elem_of_In, list_elem_of_filter. split; [by apply Is_true_true, Z.ltb_lt|].
    rewrite drop_app_le; [apply elem_of_app; right; by left|]. rewrite length_app. simpl. unfold WAKE_HISTORY_LIMIT. lia.
  - by apply bool_decide_eq_true.
Qed.

(** ** Witnesses *)

Module Examples.
Definition env (n : Z) : jsv :=
  JObj [("senderId", JStr "m"); ("deliveryId", JStr "d"); ("wake", JBool true); ("expiresAt", JNum (NInt n))].
Definition st : wake :=
  {| wk_recent := [(json_text (wake_identity (env 500000)), 500000)]; wk_pending := Some (500000, 0);
     wk_nextAt := Some 1000; wk_lastSentAt := None |}.
Definition claimed : wake :=
  {| wk_recent := wk_recent st; wk_pending := Some (500000, 1); wk_nextAt := Some 61000; wk_lastSentAt := Some 1000 |}.
Definition claimed_again : wake :=
  {| wk_recent := wk_recent st; wk_pending := Some (500000, 2); wk_nextAt := Some 121000; wk_lastSentAt := Some 61000 |}.
End Examples.

(** A failed push, repeated after the interval. *)
Lemma wakes_are_spaced_witness : spaced [Pushed 61000; Pushed 1000].
Proof.
  refine (proj1 (wakes_are_spaced (fun s => s) 0 {| rn_now := 61000; rn_state := Some Examples.claimed_again; rn_inflight := true;
    rn_log := [Pushed 61000; Pushed 1000]; rn_since := 2 |} _)).
  eapply rtc_l; [apply (step_accept _ _ (Examples.env 500000) 1000 Examples.st); vm_compute; done|].
  eapply rtc_l; [apply (step_claim _ _ 1000 Examples.claimed); vm_compute; done|].
  eapply rtc_l; [apply (step_settle _ _ 1000 Examples.claimed false); vm_compute; done|].
  apply rtc_once. apply (step_claim _ {| rn_now := 1000; rn_state := Some Examples.claimed; rn_inflight := false; rn_log := [Pushed 1000]; rn_since := 1 |} 61000 Examples.claimed_again);
    vm_compute; done.
Defined.

Lemma handlers_are_runs_witness :
  exists r', rtc (wake_step (fun s => s)) (run0 0) r' /\ rn_inflight r' = false /\
    rn_state r' = Some (clear_pending Examples.claimed) /\ rn_now r' <= 1000.
Proof.
  refine (handlers_are_runs (fun s => s) (run0 0) (Examples.env 500000) 1000 1000 true _ _ _); vm_compute; done.
Defined.

Lemma drain_makes_progress_witness : 1000 < 61000.
Proof.
  refine (drain_makes_progress (Some Examples.st) 1000 false _). intros st [= <-] _. discriminate.
Defined.

Lemma due_rooms_exact_witness : "room" ∈ dueWakeRooms 1000 [("room", Examples.st)].
Proof.
  apply (due_rooms_exact [("room", Examples.st)] 1000 "room").
  - apply NoDup_singleton.
  - simpl. lia.
  - intros room st H. apply list_elem_of_singleton in H as [= -> ->]. discriminate.
  - exists 1000. split; [reflexivity|lia].
Defined.

Lemma duplicate_wake_ignored_witness : accept_wake (fun s => s) Examples.claimed (Examples.env 500000) 2000 = None.
Proof.
  apply (duplicate_wake_ignored (fun s => s) no_wake Examples.st Examples.claimed (Examples.env 500000) (Examples.env 500000) 1000 2000);
    vm_compute; reflexivity.
Defined.
