(* ===== verification/Presence.v ===== *)
(** * Presence of a room's devices
    [src/roomPresence/index.js] and [src/roomPresence/worker.js].

    A room remembers when each device was last connected, for seven days and for
    at most 32 devices, and tells its phones who is online. *)

From Stdlib Require Import Permutation Sorted.
From S2P Require Import Prelude Base64 Validation Storage RetainedState RetainedStores.
#[local] Open Scope bool_scope.
#[local] Open Scope Z_scope.
#[local] Open Scope js_scope.

Definition RETENTION_MS : Z := 7 * 86400000.
Definition PRESENCE_LIMIT : nat := 32.

(** The room, role and announced digest of a connected socket, as far as known. *)
Record peer_state := { ps_room : jstr; ps_role : option jstr; ps_recipient : option jstr }.
#[export] Instance peer_state_eq_dec : EqDecision peer_state.
Proof. solve_decision. Defined.

Definition updatePresence (rows : list device) (role id : option jstr) (now : Z) : list device :=
  let live := filter (fun row => now - RETENTION_MS <? dv_lastSeenAt row) rows in
  match role, id with
  | Some role, Some id =>
      if ((role =?s "phone") || (role =?s "machine")) && hex64 id then
        let rows' := filter (fun row => negb (is_str (dv_id row) id) || negb (dv_role row =?s role)) live
                     ++ [{| dv_id := JStr id; dv_role := role; dv_lastSeenAt := now |}] in
        drop (length rows' - PRESENCE_LIMIT) rows'
      else live
  | _, _ => live
  end.

(** A value in a template string. *)
Definition role_text (v : option jstr) : jstr := default "null" v.
Definition id_text (v : option jstr) : jstr := default "undefined" v.
Definition presence_key (role id : jstr) : jstr := role +++ ":" +++ id.

(** [online.has(...)] *)
Definition is_online (room : jstr) (states : list peer_state) (row : device) : bool :=
  existsb (fun s => (ps_room s =?s room)
    && (presence_key (role_text (ps_role s)) (id_text (ps_recipient s)) =?s presence_key (dv_role row) (text_of (dv_id row)))) states.

Definition device_json (online : bool) (now : Z) (row : device) : jsv :=
  JObj [("id", dv_id row); ("role", JStr (dv_role row));
        ("lastSeenAt", JNum (NInt (if online then now else dv_lastSeenAt row))); ("online", JBool online)].

Definition presenceMessage (room : jstr) (rows : list device) (states : list peer_state) (now : Z) : jstr :=
  json_text (JObj [("type", JStr "relay.presence"); ("room", JStr room); ("generatedAt", JNum (NInt now));
    ("devices", JArr (map (fun row => device_json (is_online room states row) now row) rows))]).

(** ** The table [room_presence] and the sockets of a Node relay *)

Abbreviation presence_table := (list (jstr * list device)).

Definition presence_rows (t : presence_table) (room : jstr) : list device := default [] (map_get room t).
Definition note (t : presence_table) (room : jstr) (role id : option jstr) (now : Z) : presence_table :=
  map_push room (updatePresence (presence_rows t room) role id now) t.

(** A connected socket: its handle, whether it is open, and its state. *)
Record peer := { pr_id : nat; pr_open : bool; pr_state : peer_state; pr_presenceEnabled : bool }.
#[export] Instance peer_eq_dec : EqDecision peer.
Proof. solve_decision. Defined.

(** [sockets]: the peers of each room in insertion order. *)
Abbreviation socket_map := (list (jstr * list peer)).

(** The frames given to [delivery.send]; a store that was closed publishes nothing. *)
Definition publishNodePresence (room : jstr) (t : presence_table) (sockets : socket_map) (store_open : bool) (now : Z)
  : list (nat * jstr) :=
  if negb store_open then [] else
  let peers := filter (fun p => pr_open p) (default [] (map_get room sockets)) in
  let message := presenceMessage room (presence_rows t room) (map pr_state peers) now in
  map (fun p => (pr_id p, message))
    (filter (fun p => pr_presenceEnabled p && bool_decide (ps_role (pr_state p) = Some "phone")) peers).

(** [closeNodeSocket]: run for the [close] and the [error] event of a socket. *)
Definition closeNodeSocket (ws : peer) (t : presence_table) (sockets : socket_map) (store_open : bool) (now : Z)
  : presence_table * socket_map * list (nat * jstr) :=
  let room := ps_room (pr_state ws) in
  match map_get room sockets with
  | None => (t, sockets, [])
  | Some peers =>
      if negb (existsb (fun p => Nat.eqb (pr_id p) (pr_id ws)) peers) then (t, sockets, []) else
      let peers' := filter (fun p => pr_id p <> pr_id ws) peers in
      let sockets' := if bool_decide (peers' = []) then map_delete room sockets else map_set room peers' sockets in
      if negb store_open then (t, sockets', []) else
      let t' := note t room (ps_role (pr_state ws)) (ps_recipient (pr_state ws)) now in
      (t', sockets', publishNodePresence room t' sockets' store_open now)
  end.

(** ** The Durable Object of a room
    [sockets]: the hibernatable sockets with their attachments; [None] when a
    socket has none.  A socket that throws on [send] is ignored. *)
Definition wants_presence (target : option peer) : bool :=
  match target with
  | Some target => pr_presenceEnabled target && bool_decide (ps_role (pr_state target) = Some "phone") | None => false end.

Definition noteWorkerPresence (stored : list device) (sockets : list (nat * option peer)) (ws : nat) (closed : bool) (now : Z)
  : list device * list (nat * jstr) :=
  match map_get ws sockets with
  | Some (Some state) =>
      if ps_room (pr_state state) =?s "" then (stored, []) else
      let rows := updatePresence stored (ps_role (pr_state state)) (ps_recipient (pr_state state)) now in
      let peers := filter (fun p => negb (Nat.eqb p.1 ws) || negb closed) sockets in
      let message := presenceMessage (ps_room (pr_state state)) rows (map pr_state (omap snd peers)) now in
      (rows, map (fun p => (p.1, message))
               (filter (fun p => wants_presence p.2) peers))
  | _ => (stored, [])
  end.

(** ** The stored rows *)

Definition device_of (row : device) : jsv * jstr := (dv_id row, dv_role row).

(** At most 32 rows, one per device, in the order in which they were last seen. *)
Record presence_ok (now : Z) (rows : list device) : Prop := {
  po_length : (length rows <= PRESENCE_LIMIT)%nat;
  po_unique : NoDup (map device_of rows);
  po_sorted : StronglySorted (fun a b => dv_lastSeenAt a <= dv_lastSeenAt b) rows;
  po_past : Forall (fun row => dv_lastSeenAt row <= now) rows;
}.

Lemma sorted_sublist {A} (R : A -> A -> Prop) l1 l2 : l1 `sublist_of` l2 -> StronglySorted R l2 -> StronglySorted R l1.
Proof.
  induction 1 as [|x l1 l2 Hs IH|x l1 l2 Hs IH]; intros H; [constructor| |].
  - apply StronglySorted_inv in H as [H HF]. constructor; [auto|]. by eapply sublist_Forall.
  - apply StronglySorted_inv in H as [H _]. auto.
Qed.

Lemma presence_sublist now l1 l2 : l1 `sublist_of` l2 -> presence_ok now l2 -> presence_ok now l1.
Proof.
  intros Hs [Hl Hu Hso Hp]. split.
  - apply sublist_length in Hs. lia.
  - eapply sublist_NoDup; [exact Hu|]. by apply (sublist_fmap device_of).
  - by eapply sorted_sublist.
  - by eapply sublist_Forall.
Qed.

Lemma presence_later now now' rows : now <= now' -> presence_ok now rows -> presence_ok now' rows.
Proof. intros H [Hl Hu Hs Hp]. split; [done|done|done|]. eapply Forall_impl; [exact Hp|]. simpl. lia. Qed.

Lemma sublist_drop_any {A} n (l : list A) : drop n l `sublist_of` l.
Proof. apply sublist_drop. Qed.

Lemma updatePresence_ok (rows : list device) (role id : option jstr) (now now' : Z) :
  presence_ok now rows -> now <= now' -> presence_ok now' (updatePresence rows role id now').
Proof.
  intros H Hle. apply (presence_later _ now') in H; [|done]. unfold updatePresence.
  set (live := filter _ rows). pose proof (presence_sublist _ live _ (sublist_filter _ rows) H) as Hlive.
  destruct role as [role|], id as [id|]; try done. destruct (_ && _); [|done].
  set (others := filter _ live). pose proof (presence_sublist _ others _ (sublist_filter _ live) Hlive) as [Hl Hu Hs Hp].
  set (new := {| dv_id := _ |}). split.
  - rewrite length_drop. lia.
  - eapply sublist_NoDup; [|apply (sublist_fmap device_of), sublist_drop].
    change (device_of <$> others ++ [new]) with (map device_of (others ++ [new])). rewrite map_app. apply NoDup_app.
    split_and!; [done| |apply NoDup_singleton]. intros d Hd Hn. simpl in Hn. apply list_elem_of_singleton in Hn as ->.
    apply list_elem_of_fmap in Hd as (r & E & Hr). apply list_elem_of_filter in Hr as [Hr _].
    unfold device_of in E. simpl in E. injection E as E1 E2. rewrite <- E1, <- E2 in Hr.
    unfold is_str, jeqb in Hr. rewrite !bool_decide_eq_true_2 in Hr by done. done.
  - eapply sorted_sublist; [apply sublist_drop|]. clear -Hs Hp. induction Hs as [|r l Hs IH HF]; simpl; [repeat constructor|].
    apply Forall_cons in Hp as [Hr Hp]. constructor; [auto|]. apply Forall_app. split; [done|]. by constructor.
  - eapply sublist_Forall; [apply sublist_drop|]. apply Forall_app. split; [done|]. constructor; [simpl; lia|constructor].
Qed.

(** Presence is bounded and ordered: whatever devices connect, a room stores at
    most 32 rows, one per device, from the least to the most recently seen. *)
Theorem presence_bounded (rows : list device) (role id : option jstr) (now now' : Z) :
  presence_ok now rows -> now <= now' -> presence_ok now' (updatePresence rows role id now').
Proof. apply updatePresence_ok. Qed.

(** Noting a device keeps it and forgets only what it must: the device's row is
    stored with the current time; every other kept row is an unchanged one of the
    last seven days; and a row that was recent and of another device is forgotten
    only when 32 devices were seen no earlier than it. *)
Theorem note_keeps_recent (rows : list device) (role id : jstr) (now : Z) :
  presence_ok now rows -> (role = "phone" \/ role = "machine") -> hex64 id = true ->
  let rows' := updatePresence rows (Some role) (Some id) now in
  {| dv_id := JStr id; dv_role := role; dv_lastSeenAt := now |} ∈ rows' /\
  (forall row, row ∈ rows' -> row = {| dv_id := JStr id; dv_role := role; dv_lastSeenAt := now |} \/
     row ∈ rows /\ now - RETENTION_MS < dv_lastSeenAt row /\ device_of row <> (JStr id, role)) /\
  (forall row, row ∈ rows -> now - RETENTION_MS < dv_lastSeenAt row -> device_of row <> (JStr id, role) -> row ∉ rows' ->
     length rows' = PRESENCE_LIMIT /\ Forall (fun r => dv_lastSeenAt row <= dv_lastSeenAt r) rows').
Proof.
  intros [Hl Hu Hs Hp] Hrole Hid rows'. set (new := {| dv_id := JStr id; dv_role := role; dv_lastSeenAt := now |}).
  set (others := filter (fun row => negb (is_str (dv_id row) id) || negb (dv_role row =?s role))
                   (filter (fun row => now - RETENTION_MS <? dv_lastSeenAt row) rows)).
  assert (rows' = drop (length (others ++ [new]) - PRESENCE_LIMIT) (others ++ [new])) as E.
  { unfold rows', updatePresence. rewrite Hid. by destruct Hrole as [-> | ->]. }
  assert (forall row, row ∈ others <-> row ∈ rows /\ now - RETENTION_MS < dv_lastSeenAt row /\ device_of row <> (JStr id, role)) as Ho.
  { intros row. unfold others. rewrite !list_elem_of_filter, !Is_true_true, Z.ltb_lt.
    assert (negb (is_str (dv_id row) id) || negb (dv_role row =?s role) = true <-> device_of row <> (JStr id, role)) as ->; [|tauto].
    rewrite orb_true_iff, !negb_true_iff, <- !not_true_iff_false, is_str_eq. unfold jeqb. rewrite bool_decide_eq_true.
    unfold device_of. split; [intros [H|H] [= E1 E2]; auto|]. intros H. destruct (decide (dv_id row = JStr id)); [right|by left].
    intros E2. apply H. congruence. }
  set (k := (length (others ++ [new]) - PRESENCE_LIMIT)%nat) in *.
  assert (k <= length others)%nat as Hk by (unfold k; rewrite length_app; simpl; unfold PRESENCE_LIMIT; lia).
  rewrite E, drop_app_le by done. split_and!.
  - apply elem_of_app. right. by left.
  - intros row Hr. apply elem_of_app in Hr as [Hr|Hr]; [right|left; by apply list_elem_of_singleton in Hr].
    apply Ho. eapply elem_of_sublist; [exact Hr|apply sublist_drop].
  - intros row Hr Hlive Hd Hnot. assert (row ∈ others) as Hin by (by apply Ho).
    rewrite <- (take_drop k others) in Hin. apply elem_of_app in Hin as [Hin|Hin]; [|exfalso; apply Hnot; apply elem_of_app; by left].
    assert (StronglySorted (fun a b => dv_lastSeenAt a <= dv_lastSeenAt b) (take k others ++ drop k others)) as Hso.
    { rewrite take_drop. eapply sorted_sublist; [|exact Hs]. etrans; apply sublist_filter. }
    split.
    + rewrite length_app, length_drop. simpl. destruct k as [|k'] eqn:Ek; [by rewrite take_0 in Hin; apply elem_of_nil in Hin|].
      unfold k in Ek. rewrite length_app in Ek. simpl in Ek. lia.
    + apply Forall_app. split.
      * clear -Hso Hin. induction (take k others) as [|x l IH]; [by apply elem_of_nil in Hin|]. simpl in Hso.
        apply StronglySorted_inv in Hso as [Hso HF]. apply elem_of_cons in Hin as [->|Hin]; [|auto].
        apply Forall_app in HF as [_ HF]. done.
      * constructor; [|constructor]. rewrite Forall_forall in Hp. simpl. apply Hp, Hr.
Qed.

(** A device is shown online exactly when a socket of the room with its role and
    its digest is connected; the colon in the compared text cannot confuse two devices. *)
Theorem online_is_exact (room : jstr) (states : list peer_state) (row : device) (id : jstr) :
  dv_id row = JStr id -> hex64 id = true -> (dv_role row = "phone" \/ dv_role row = "machine") ->
  Forall (fun s => match ps_role s with Some r => r = "phone" \/ r = "machine" | None => True end) states ->
  is_online room states row = true <->
  exists s, s ∈ states /\ ps_room s = room /\ ps_role s = Some (dv_role row) /\ ps_recipient s = Some id.
Proof.
  intros Hid Hhex Hrole Hst. unfold is_online. rewrite existsb_exists. setoid_rewrite andb_true_iff.
  unfold jeqb. setoid_rewrite bool_decide_eq_true. rewrite Hid. unfold text_of. cbn [to_string].
  rewrite Forall_forall in Hst.
  assert (forall r, (r = "phone" \/ r = "machine") -> no_colon r) as Hnc.
  { intros r [-> | ->] H; apply (bool_decide_pack _) in H; vm_compute in H; exact H. }
  split.
  - intros (s & Hin & Hroom & E). exists s. apply list_elem_of_In in Hin. specialize (Hst s Hin).
    unfold presence_key in E. apply sapp_colon in E as [E1 E2]; [| |by apply Hnc].
    + split_and!; [done|done| |].
      * destruct (ps_role s) as [r|]; simpl in E1; [by subst|]. rewrite <- E1 in Hrole. by destruct Hrole.
      * destruct (ps_recipient s) as [r|]; simpl in E2; [by subst|]. subst id. vm_compute in Hhex. discriminate Hhex.
    + destruct (ps_role s) as [r|]; simpl; [by apply Hnc|]. intros H. apply (bool_decide_pack _) in H. vm_compute in H. exact H.
  - intros (s & Hin & Hroom & Hr & Hi). exists s. rewrite Hr, Hi. split; [by apply list_elem_of_In|done].
Qed.

Lemma filter_absent (n : nat) (l : list peer) : existsb (fun p => Nat.eqb (pr_id p) n) (filter (fun p => pr_id p <> n) l) = false.
Proof.
  apply not_true_iff_false. intros H. apply existsb_exists in H as (p & Hin & E). apply list_elem_of_In, list_elem_of_filter in Hin as [Hn _].
  by apply Nat.eqb_eq in E.
Qed.

(** A socket leaves its room once: when both its [close] and its [error] event
    fire, the second finds it gone and neither notes it again nor notifies the
    phones, and an empty room leaves the map. *)
Theorem close_is_idempotent (ws : peer) (t : presence_table) (sockets : socket_map) (store_open : bool) (now now' : Z) :
  NoDup sockets.*1 ->
  let '(t1, sockets1, _) := closeNodeSocket ws t sockets store_open now in
  closeNodeSocket ws t1 sockets1 store_open now' = (t1, sockets1, []) /\
  (forall peers, map_get (ps_room (pr_state ws)) sockets1 = Some peers -> forall p, p ∈ peers -> pr_id p <> pr_id ws \/ sockets1 = sockets).
Proof.
  intros Hn. unfold closeNodeSocket at 1. set (room := ps_room (pr_state ws)).
  assert (forall t1 s1, (match map_get room s1 with Some peers => existsb (fun p => Nat.eqb (pr_id p) (pr_id ws)) peers = false | None => True end) ->
    closeNodeSocket ws t1 s1 store_open now' = (t1, s1, [])) as Hgone.
  { intros t1 s1 H. unfold closeNodeSocket. fold room. destruct (map_get room s1); [by rewrite H|done]. }
  destruct (map_get room sockets) as [peers|] eqn:Eg; [|split; [apply Hgone; by rewrite Eg|intros ps H; rewrite Eg in H; discriminate H]].
  destruct (negb (existsb _ peers)) eqn:Ee.
  { split; [apply Hgone; rewrite Eg; by apply negb_true_iff|]. intros; by right. }
  set (peers' := filter _ peers). set (sockets' := if bool_decide (peers' = []) then _ else _).
  assert (map_get room sockets' = if bool_decide (peers' = []) then None else Some peers') as Eg'.
  { unfold sockets'. destruct (bool_decide _); [rewrite map_get_delete|rewrite map_get_set]; by rewrite decide_True. }
  assert (forall t1, closeNodeSocket ws t1 sockets' store_open now' = (t1, sockets', [])) as Hagain.
  { intros t1. apply Hgone. rewrite Eg'. destruct (bool_decide _); [done|]. apply filter_absent. }
  destruct (negb store_open); (split; [apply Hagain|]); intros ps; rewrite Eg'; destruct (bool_decide _); try done; intros [= <-] p Hp;
    left; by apply list_elem_of_filter in Hp as [? _].
Qed.

(** ** Witnesses *)

Module Examples.
Definition phone_id : jstr := JS (repeat 97%N 64).
Definition phone : device := {| dv_id := JStr phone_id; dv_role := "phone"; dv_lastSeenAt := 5 |}.
Definition state : peer_state := {| ps_room := "room"; ps_role := Some "phone"; ps_recipient := Some phone_id |}.
Definition socket : peer := {| pr_id := 1; pr_open := true; pr_state := state; pr_presenceEnabled := true |}.
End Examples.

Lemma presence_bounded_witness : presence_ok 9 (updatePresence [Examples.phone] (Some "machine") (Some Examples.phone_id) 9).
Proof.
  apply (presence_bounded [Examples.phone] (Some "machine") (Some Examples.phone_id) 5 9); [|lia].
  split; [vm_compute; lia|apply NoDup_singleton|repeat constructor|constructor; [vm_compute; discriminate|constructor]].
Defined.

Lemma note_keeps_recent_witness :
  {| dv_id := JStr Examples.phone_id; dv_role := "machine"; dv_lastSeenAt := 9 |}
    ∈ updatePresence [Examples.phone] (Some "machine") (Some Examples.phone_id) 9.
Proof.
  refine (proj1 (note_keeps_recent [Examples.phone] "machine" Examples.phone_id 9 _ (or_intror eq_refl) _)).
  - split; [vm_compute; lia|apply NoDup_singleton|repeat constructor|constructor; [vm_compute; discriminate|constructor]].
  - vm_compute. reflexivity.
Defined.

Lemma online_is_exact_witness : is_online "room" [Examples.state] Examples.phone = true.
Proof.
  apply (online_is_exact "room" [Examples.state] Examples.phone Examples.phone_id eq_refl).
  - vm_compute. reflexivity.
  - left. reflexivity.
  - constructor; [left; reflexivity|constructor].
  - exists Examples.state. split; [by left|]. split; [reflexivity|split; reflexivity].
Defined.

Lemma close_is_idempotent_witness :
  exists t, closeNodeSocket Examples.socket [] [("room", [Examples.socket])] true 9 = (t, [], []) /\
    closeNodeSocket Examples.socket t [] true 10 = (t, [], []).
Proof.
  pose proof (close_is_idempotent Examples.socket [] [("room", [Examples.socket])] true 9 10 (NoDup_singleton _)) as H.
  destruct (closeNodeSocket Examples.socket [] [("room", [Examples.socket])] true 9) as [[t s] m] eqn:E.
  vm_compute in E. injection E as <- <- <-. eexists. split; [vm_compute; reflexivity|]. exact (proj1 H).
Defined.
