(* ===== verification/SocketDelivery.v ===== *)
(** * Sockets of the Node relay
    [src/node/socketDelivery/index.js], [src/responseAcknowledgements/index.js],
    [src/ingressFlow/index.js], [src/node/heartbeat.js] and
    [src/retainedState/socketReplay.js].

    Frames that wait for slow receivers are bounded in memory; every delivered
    frame allows one acknowledgement past the frame limit; a dead peer is
    terminated within two heartbeats.  A socket is named by a number. *)

From S2P Require Import Prelude Base64 Validation.
#[local] Open Scope bool_scope.
#[local] Open Scope Z_scope.
#[local] Open Scope js_scope.

(** ** [responseAcknowledgements] *)

Definition MAX_OUTSTANDING : nat := 512.
Definition LIFETIME_MS : Z := 30000.
Definition MAX_ACK_BYTES : Z := 1536.

(** The identifiers a socket may acknowledge with their expiry, oldest first. *)
Abbreviation allowances := (list (jstr * Z)).
Abbreviation acknowledgements := (list (nat * allowances)).

Definition allowances_of (st : acknowledgements) (socket : nat) : allowances := default [] (map_get socket st).

Definition issue (st : acknowledgements) (socket : nat) (deliveryId : jsv) (now : Z) : acknowledgements :=
  if negb (validIdentifier deliveryId 180) then st else
  let pending := map_push (str_of deliveryId) (now + LIFETIME_MS) (allowances_of st socket) in
  map_set socket (if (MAX_OUTSTANDING <? length pending)%nat then tail pending else pending) st.

(** The acknowledged identifier; [parsed] is the result of [JSON.parse], [None] when it throws. *)
Definition ack_frame (raw : jstr) (parsed : option jsv) : option jstr :=
  if MAX_ACK_BYTES <? byte_length raw then None else
  match parsed with
  | None => None
  | Some frame =>
      if negb (is_str (get "type" frame) "relay.ack") || negb (validIdentifier (get "deliveryId" frame) 180)
         || negb (Nat.eqb (length (keys frame)) 2) then None
      else Some (str_of (get "deliveryId" frame))
  end.

Definition consume (st : acknowledgements) (socket : nat) (raw : jstr) (parsed : option jsv) (now : Z)
  : acknowledgements * bool :=
  match ack_frame raw parsed with
  | None => (st, false)
  | Some deliveryId =>
      match map_get deliveryId (allowances_of st socket) with
      | None => (st, false)
      | Some expiresAt => (map_set socket (map_delete deliveryId (allowances_of st socket)) st, now <? expiresAt)
      end
  end.

(** *** Every allowance is used at most once *)

Inductive ack_op :=
| AckIssue (socket : nat) (deliveryId : jsv)
| AckConsume (socket : nat) (raw : jstr) (parsed : option jsv).

(** The accepted acknowledgements of a trace of operations with their times. *)
Fixpoint ack_run (st : acknowledgements) (trace : list (Z * ack_op)) : acknowledgements * list (nat * jstr) :=
  match trace with
  | [] => (st, [])
  | (now, AckIssue socket id) :: rest => ack_run (issue st socket id now) rest
  | (now, AckConsume socket raw parsed) :: rest =>
      let '(st1, ok) := consume st socket raw parsed now in
      let '(st2, accepted) := ack_run st1 rest in
      (st2, if ok then (socket, default "" (ack_frame raw parsed)) :: accepted else accepted)
  end.

Definition issues (socket : nat) (id : jstr) (op : ack_op) : bool :=
  match op with AckIssue s d => Nat.eqb s socket && is_str d id | _ => false end.

Definition held (st : acknowledgements) (socket : nat) (id : jstr) : Z :=
  match map_get id (allowances_of st socket) with Some _ => 1 | None => 0 end.

Definition acks_wf (st : acknowledgements) : Prop :=
  forall socket, (length (allowances_of st socket) <= MAX_OUTSTANDING)%nat /\ NoDup (allowances_of st socket).*1.

Lemma allowances_set st socket socket' l :
  allowances_of (map_set socket l st) socket' = if decide (socket' = socket) then l else allowances_of st socket'.
Proof. unfold allowances_of. rewrite map_get_set. by case_decide. Qed.

Lemma tail_sublist {A} (l : list A) : tail l `sublist_of` l.
Proof. destruct l; simpl; [constructor|by apply sublist_cons]. Qed.

Lemma issue_wf st socket id now : acks_wf st -> acks_wf (issue st socket id now).
Proof.
  intros H socket'. unfold issue. destruct (negb _); [done|]. rewrite allowances_set. case_decide; [|done].
  destruct (H socket) as [Hl Hn]. set (p := map_push _ _ _).
  assert (NoDup p.*1) as Hp by by apply map_push_nodup.
  assert (length p <= S MAX_OUTSTANDING)%nat as Hlen.
  { pose proof (map_push_length (str_of id) (now + LIFETIME_MS) (allowances_of st socket)). unfold p. lia. }
  destruct (Nat.ltb_spec MAX_OUTSTANDING (length p)); [|done]. split.
  - destruct p; simpl in *; lia.
  - eapply sublist_NoDup; [exact Hp|]. apply sublist_keys, tail_sublist.
Qed.

Lemma consume_wf st socket raw parsed now : acks_wf st -> acks_wf (consume st socket raw parsed now).1.
Proof.
  intros H socket'. unfold consume. destruct (ack_frame raw parsed) as [id|]; [|apply H].
  destruct (map_get _ _); [|apply H]. simpl. rewrite allowances_set. case_decide; [|apply H]. destruct (H socket) as [Hl Hn]. split.
  - pose proof (sublist_length _ _ (map_delete_sublist id (allowances_of st socket))). lia.
  - by apply map_delete_nodup.
Qed.

(** Dropping rows only removes keys. *)
Lemma get_sublist {K V} `{EqDecision K} (k : K) (v : V) (l1 l2 : list (K * V)) :
  l1 `sublist_of` l2 -> NoDup l2.*1 -> map_get k l1 = Some v -> map_get k l2 = Some v.
Proof. intros Hs Hn H. apply map_get_In; [done|]. apply map_get_Some in H. by eapply elem_of_sublist. Qed.

Lemma held_issue st socket id now socket' id' :
  acks_wf st ->
  held (issue st socket id now) socket' id' <= held st socket' id' + (if issues socket' id' (AckIssue socket id) then 1 else 0).
Proof.
  intros Hwf. unfold issue. destruct (validIdentifier id 180) eqn:Ev; simpl; [|case_match; lia].
  apply validIdentifier_iff in Ev as (s & -> & _). simpl. unfold held. rewrite allowances_set.
  destruct (decide (socket' = socket)) as [->|Hs].
  2: { assert ((socket =? socket')%nat = false) as -> by (apply Nat.eqb_neq; congruence). simpl. lia. }
  rewrite Nat.eqb_refl. simpl.
  set (p := map_push s _ _). set (q := if (_ <? _)%nat then tail p else p).
  assert (NoDup p.*1) as Hp by (apply map_push_nodup, Hwf).
  assert (q `sublist_of` p) as Hq by (unfold q; destruct (_ <? _)%nat; [apply tail_sublist|done]).
  destruct (map_get id' q) as [v|] eqn:E; [|destruct (map_get id' (allowances_of st socket)); case_match; lia].
  eapply get_sublist in E; [|exact Hq|exact Hp]. unfold p in E. rewrite map_get_push in E.
  unfold jeqb. case_decide as Hid.
  - subst. rewrite bool_decide_eq_true_2 by done. case_match; lia.
  - rewrite E. case_match; lia.
Qed.

Lemma held_consume st socket raw parsed now socket' id' :
  let '(st', ok) := consume st socket raw parsed now in
  held st' socket' id' + (if ok && bool_decide ((socket, default "" (ack_frame raw parsed)) = (socket', id')) then 1 else 0)
  <= held st socket' id'.
Proof.
  unfold consume. destruct (ack_frame raw parsed) as [id|]; simpl; [|lia].
  destruct (map_get id (allowances_of st socket)) as [e|] eqn:E; simpl; [|lia].
  unfold held. rewrite allowances_set. case_decide as Hs.
  - subst. rewrite map_get_delete. case_decide as Hid.
    + subst. rewrite E. case_match; lia.
    + rewrite bool_decide_eq_false_2 by congruence. rewrite andb_false_r. lia.
  - rewrite bool_decide_eq_false_2 by congruence. rewrite andb_false_r. lia.
Qed.

Lemma count_by_cons {E} (p : E -> bool) x l : count_by p (x :: l) = (if p x then 1 else 0) + count_by p l.
Proof. done. Qed.

(** The acknowledgement allowance is bounded and single use: whatever frames
    and deliveries interleave, a socket holds at most 512 allowances, and the
    acknowledgements accepted for an identifier never exceed its deliveries. *)
Theorem acknowledgements_single_use (trace : list (Z * ack_op)) (socket : nat) (id : jstr) :
  let '(st, accepted) := ack_run [] trace in
  (length (allowances_of st socket) <= MAX_OUTSTANDING)%nat /\
  count_by (fun a => bool_decide (a = (socket, id))) accepted <= count_by (fun e => issues socket id e.2) trace.
Proof.
  cut (forall st, acks_wf st -> let '(st', accepted) := ack_run st trace in
    acks_wf st' /\ held st' socket id + count_by (fun a => bool_decide (a = (socket, id))) accepted
                 <= held st socket id + count_by (fun e => issues socket id e.2) trace).
  { intros H. assert (acks_wf []) as H0 by (intros s; split; [simpl; unfold MAX_OUTSTANDING; lia|constructor]).
    specialize (H [] H0). destruct (ack_run [] trace) as [st accepted]. destruct H as [Hwf Hc]. split; [apply Hwf|].
    change (held [] socket id) with 0 in Hc. assert (0 <= held st socket id) by (unfold held; case_match; lia). lia. }
  induction trace as [|[now [s d|s raw parsed]] rest IH]; intros st Hwf; cbn [ack_run].
  - split; [done|]. unfold count_by. simpl. lia.
  - specialize (IH _ (issue_wf st s d now Hwf)). destruct (ack_run _ rest) as [st' accepted]. destruct IH as [Hwf' Hc].
    split; [done|]. pose proof (held_issue st s d now socket id Hwf). rewrite count_by_cons. cbn [snd]. lia.
  - pose proof (held_consume st s raw parsed now socket id) as Hh. pose proof (consume_wf st s raw parsed now Hwf) as Hwf1.
    destruct (consume st s raw parsed now) as [st1 ok]. specialize (IH st1 Hwf1). destruct (ack_run st1 rest) as [st' accepted].
    destruct IH as [Hwf' Hc]. split; [done|]. rewrite (count_by_cons _ (now, _)). cbn [snd issues].
    destruct ok; [rewrite count_by_cons|]; cbn [andb] in Hh; lia.
Qed.

(** An accepted acknowledgement is a bounded frame of exactly two members whose
    identifier was allowed for that socket less than 30 seconds before it expired;
    using it removes the allowance, in time or not. *)
Theorem consume_spec (st : acknowledgements) (socket : nat) (raw : jstr) (parsed : option jsv) (now : Z) :
  let '(st', ok) := consume st socket raw parsed now in
  (ok = true <-> exists id expiresAt, ack_frame raw parsed = Some id /\
     map_get id (allowances_of st socket) = Some expiresAt /\ now < expiresAt) /\
  (forall id, ack_frame raw parsed = Some id -> map_get id (allowances_of st' socket) = None) /\
  (forall id, ack_frame raw parsed = Some id -> byte_length raw <= MAX_ACK_BYTES /\
     exists frame, parsed = Some frame /\ get "type" frame = JStr "relay.ack" /\ get "deliveryId" frame = JStr id /\
       length (keys frame) = 2%nat).
Proof.
  unfold consume. assert (forall id, ack_frame raw parsed = Some id -> byte_length raw <= MAX_ACK_BYTES /\
     exists frame, parsed = Some frame /\ get "type" frame = JStr "relay.ack" /\ get "deliveryId" frame = JStr id /\
       length (keys frame) = 2%nat) as Hframe.
  { unfold ack_frame. intros id H. destruct (Z.ltb_spec MAX_ACK_BYTES (byte_length raw)); [discriminate H|].
    destruct parsed as [frame|]; [|discriminate H]. destruct (_ || _) eqn:E in H; [discriminate H|].
    apply orb_false_iff in E as [[E1%negb_false_iff E2%negb_false_iff]%orb_false_iff E3%negb_false_iff].
    injection H as <-. split; [done|]. exists frame. apply is_str_eq in E1. apply validIdentifier_iff in E2 as (s & -> & _).
    split_and!; [done|done|done|by apply Nat.eqb_eq]. }
  destruct (ack_frame raw parsed) as [id|] eqn:Ef.
  - destruct (map_get id (allowances_of st socket)) as [e|] eqn:Eg; split_and!; try done.
    + rewrite Z.ltb_lt. split; [intros H; by exists id, e|]. intros (? & ? & [= <-] & Eg' & ?). congruence.
    + intros ? [= <-]. rewrite allowances_set, decide_True, map_get_delete by done. by rewrite decide_True.
    + split; [done|]. intros (? & ? & [= <-] & Eg' & _). congruence.
    + by intros ? [= <-].
  - split_and!; [|done|done]. split; [done|]. by intros (? & ? & ? & _).
Qed.

(** ** [socketDelivery] *)

Definition maxBufferedBytes : Z := 4 * 1024 ^ 2.
Definition maxPendingBytes : Z := 64 * 1024 ^ 2.

(** A frame handed to [socket.send] whose callback has not run: its socket and bytes. *)
Record flight := { fl_socket : nat; fl_bytes : Z }.

(** [dl_flights] are the [release] closures of all sockets by their creation. *)
Record delivery := {
  dl_pendingBytes : Z; dl_flights : list (nat * flight); dl_next : nat; dl_responses : acknowledgements;
}.
Definition createSocketDelivery : delivery :=
  {| dl_pendingBytes := 0; dl_flights := []; dl_next := 0; dl_responses := [] |}.

(** [release]: a closure that ran has left [releases] and does nothing more. *)
Definition release (d : delivery) (f : nat) : delivery :=
  match map_get f (dl_flights d) with
  | Some fl => {| dl_pendingBytes := dl_pendingBytes d - fl_bytes fl; dl_flights := map_delete f (dl_flights d);
                  dl_next := dl_next d; dl_responses := dl_responses d |}
  | None => d
  end.

(** The [close] event of a socket. *)
Definition close_flights (d : delivery) (socket : nat) : delivery :=
  fold_left release (map fst (filter (fun e => Nat.eqb (fl_socket e.2) socket) (dl_flights d))) d.

Inductive send_effect := NotOpen | Backpressure | Sent (f : nat) | Terminated.

(** [send]: [buffered] is [socket.bufferedAmount]; [throws] tells whether [socket.send] threw.
    [Backpressure] closes the socket with 1013, [Terminated] terminates it. *)
Definition send (d : delivery) (socket : nat) (is_open : bool) (buffered : Z) (raw : jstr) (deliveryId : jsv)
    (now : Z) (throws : bool) : delivery * send_effect :=
  if negb is_open then (d, NotOpen) else
  let bytes := byte_length raw in
  if (0 <? buffered) && (Z.max maxBufferedBytes bytes <? buffered + bytes)
     || (maxPendingBytes <? dl_pendingBytes d + bytes)
  then (d, Backpressure) else
  let f := dl_next d in
  let d1 := {| dl_pendingBytes := dl_pendingBytes d + bytes;
               dl_flights := dl_flights d ++ [(f, {| fl_socket := socket; fl_bytes := bytes |})];
               dl_next := S f; dl_responses := issue (dl_responses d) socket deliveryId now |} in
  if throws then (release d1 f, Terminated) else (d1, Sent f).

(** *** Accounting *)

Inductive delivery_op :=
| DSend (socket : nat) (is_open : bool) (buffered : Z) (raw : jstr) (deliveryId : jsv) (throws : bool)
| DCallback (f : nat)
| DClose (socket : nat).

Definition delivery_exec (d : delivery) (now : Z) (op : delivery_op) : delivery :=
  match op with
  | DSend socket o b raw id t => (send d socket o b raw id now t).1
  | DCallback f => release d f
  | DClose socket => close_flights d socket
  end.

Definition delivery_run (d : delivery) (trace : list (Z * delivery_op)) : delivery :=
  fold_left (fun d e => delivery_exec d e.1 e.2) trace d.

Record delivery_inv (d : delivery) : Prop := {
  di_sum : dl_pendingBytes d = sum_by (fun e => fl_bytes e.2) (dl_flights d);
  di_bound : dl_pendingBytes d <= maxPendingBytes;
  di_bytes : Forall (fun e => 0 <= fl_bytes e.2) (dl_flights d);
  di_ids : NoDup (dl_flights d).*1 /\ Forall (fun f => (f < dl_next d)%nat) (dl_flights d).*1;
}.

Lemma sum_by_delete {K V} `{EqDecision K} (f : K * V -> Z) (k : K) (v : V) (m : list (K * V)) :
  NoDup m.*1 -> map_get k m = Some v -> sum_by f (map_delete k m) = sum_by f m - f (k, v).
Proof.
  intros Hn H. unfold map_delete. induction m as [|[k' v'] m IH]; [discriminate H|]. cbn [map_get] in H. rewrite filter_cons. simpl in *.
  apply NoDup_cons in Hn as [Hk Hn]. case_decide as E.
  - subst. injection H as ->. rewrite decide_False by (by intros Hx). simpl.
    rewrite (filter_ext_in _ (fun _ => True)); [rewrite filter_always by done; lia|]. intros e He. split; [done|]. intros _ E.
    apply Hk. rewrite <- E. apply list_elem_of_fmap. by exists e.
  - rewrite decide_True by congruence. simpl. rewrite IH by done. lia.
Qed.

Lemma release_inv d f : delivery_inv d -> delivery_inv (release d f).
Proof.
  intros [Hs Hb Hf [Hn Hlt]]. unfold release. destruct (map_get f (dl_flights d)) as [fl|] eqn:E; [|by split].
  assert (0 <= fl_bytes fl) by (apply map_get_Some in E; rewrite Forall_forall in Hf; by apply (Hf (f, fl))).
  split; simpl.
  - rewrite (sum_by_delete _ f fl) by done. simpl. lia.
  - lia.
  - eapply sublist_Forall; [apply map_delete_sublist|done].
  - split; [by apply map_delete_nodup|]. eapply sublist_Forall; [apply sublist_keys, map_delete_sublist|done].
Qed.

Lemma release_all_inv l d : delivery_inv d -> delivery_inv (fold_left release l d).
Proof. revert d. induction l as [|f l IH]; intros d H; [done|]. apply IH. by apply release_inv. Qed.

Lemma send_inv d socket o b raw id now t : delivery_inv d -> delivery_inv (send d socket o b raw id now t).1.
Proof.
  intros [Hs Hb Hf [Hn Hlt]]. unfold send. destruct (negb o); [by split|]. destruct (_ || _) eqn:E; [by split|].
  apply orb_false_iff in E as [_ E]. reflect_bools. pose proof (byte_length_nonneg raw).
  match goal with |- context [release ?x _] => set (d1 := x) end.
  assert (delivery_inv d1); [|destruct t; [by apply release_inv|done]]. split; simpl.
  - rewrite sum_by_app. simpl. lia.
  - lia.
  - apply Forall_app. split; [done|]. constructor; [done|constructor].
  - rewrite fmap_app. split.
    + apply NoDup_app. split_and!; [done| |apply NoDup_singleton]. intros f Hin Hx. simpl in Hx.
      apply list_elem_of_singleton in Hx as ->. rewrite Forall_forall in Hlt. specialize (Hlt _ Hin). lia.
    + apply Forall_app. split; [|by repeat constructor]. eapply Forall_impl; [exact Hlt|]. simpl. lia.
Qed.

Lemma release_flights d f : (release d f).(dl_flights) = map_delete f (dl_flights d).
Proof.
  unfold release. destruct (map_get f (dl_flights d)) eqn:E; [done|]. symmetry. unfold map_delete.
  rewrite (filter_ext_in _ (fun _ => True)); [by rewrite filter_always|]. intros e He. split; [done|]. intros _ <-.
  apply map_get_None in E. apply E. apply list_elem_of_fmap. by exists e.
Qed.

Lemma release_all_flights l d : dl_flights (fold_left release l d) = filter (fun e => e.1 ∉ l) (dl_flights d).
Proof.
  revert d. induction l as [|f l IH]; intros d; simpl; [symmetry; apply filter_always; intros; apply not_elem_of_nil|].
  rewrite IH, release_flights. unfold map_delete. rewrite list_filter_filter. apply list_filter_iff. intros e.
  rewrite not_elem_of_cons. tauto.
Qed.

(** Memory for slow receivers is accounted exactly: after any sequence of sends,
    callbacks and closes the pending bytes are the bytes of the frames in flight, at
    most 64 MiB; and a closed socket has none, so nothing leaks with it. *)
Theorem delivery_accounting (trace : list (Z * delivery_op)) (socket : nat) :
  let d := delivery_run createSocketDelivery trace in
  dl_pendingBytes d = sum_by (fun e => fl_bytes e.2) (dl_flights d) /\
  0 <= dl_pendingBytes d <= maxPendingBytes /\
  Forall (fun e => fl_socket e.2 <> socket) (dl_flights (close_flights d socket)).
Proof.
  intros d. assert (delivery_inv d) as [Hs Hb Hf [Hn Hlt]].
  { unfold d, delivery_run. assert (delivery_inv createSocketDelivery) as H0.
    { split; simpl; [done|unfold maxPendingBytes; lia|constructor|split; constructor]. }
    revert H0. generalize createSocketDelivery. induction trace as [|[now op] rest IH]; intros d0 H0; [done|].
    apply IH. destruct op as [s o b raw id t|f|s]; simpl; [by apply send_inv|by apply release_inv|by apply release_all_inv]. }
  split_and!; [done| |done|].
  - rewrite Hs. by apply sum_by_nonneg.
  - unfold close_flights. rewrite release_all_flights. apply Forall_forall. intros e He E.
    apply list_elem_of_filter in He as [Hnot He]. apply Hnot. apply list_elem_of_fmap. exists e. split; [done|].
    apply list_elem_of_filter. split; [|done]. apply Is_true_true. by apply Nat.eqb_eq.
Qed.

(** A frame is accepted only for an open socket whose buffer is empty or holds at
    most 4 MiB with it, so at most one larger frame waits on a socket; accepting it
    allows one acknowledgement, and a refused frame changes nothing. *)
Theorem send_bounds_buffers (d : delivery) (socket : nat) (is_open : bool) (buffered : Z) (raw : jstr)
    (deliveryId : jsv) (now : Z) (throws : bool) :
  match send d socket is_open buffered raw deliveryId now throws with
  | (d', Sent f) => is_open = true /\ (buffered <= 0 \/ buffered + byte_length raw <= maxBufferedBytes) /\
      dl_pendingBytes d' = dl_pendingBytes d + byte_length raw /\ dl_pendingBytes d' <= maxPendingBytes /\
      dl_responses d' = issue (dl_responses d) socket deliveryId now
  | (d', NotOpen) => d' = d /\ is_open = false
  | (d', Backpressure) => d' = d /\ is_open = true /\
      (0 < buffered /\ maxBufferedBytes < buffered + byte_length raw \/ maxPendingBytes < dl_pendingBytes d + byte_length raw)
  | (d', Terminated) => throws = true
  end.
Proof.
  unfold send. destruct is_open; [|done]. simpl. destruct (_ || _) eqn:E.
  - split_and!; [done|done|]. apply orb_true_iff in E as [E|E]; [left|right; by reflect_bools]. split_andb. reflect_bools. lia.
  - apply orb_false_iff in E as [E1 E2]. destruct throws; [done|]. simpl. apply andb_false_iff in E1. reflect_bools.
    pose proof (byte_length_nonneg raw). split_and!; [done| |done|done|done]. destruct E1 as [E1|E1]; reflect_bools; lia.
Qed.

(** ** [ingressFlow] *)

Definition INGRESS_WINDOW : Z := 64.
Definition RECEIPT_EVERY : Z := 16.

Definition ingressCapabilities (enabled : bool) : list (jstr * jsv) :=
  if enabled then [("ingressWindow", JNum (NInt INGRESS_WINDOW))] else [].

Record ingress := { in_flow : bool; in_received : option Z }.

(** The new state and the receipt given to [send], whose failure is ignored. *)
Definition noteIngressFrame (st : ingress) : ingress * option jsv :=
  if negb (in_flow st) then (st, None) else
  let received := default 0 (in_received st) + 1 in
  ({| in_flow := in_flow st; in_received := Some received |},
   if negb (received mod RECEIPT_EVERY =? 0) then None
   else Some (JObj [("type", JStr "relay.ingress"); ("received", JNum (NInt received))])).

(** The receipts of [n] further frames. *)
Fixpoint ingress_run (n : nat) (st : ingress) : list Z :=
  match n with
  | O => []
  | S n' => let '(st', receipt) := noteIngressFrame st in
            match receipt with Some r => int_of (get "received" r) :: ingress_run n' st' | None => ingress_run n' st' end
  end.

Lemma ingress_run_spec n k :
  0 <= k -> ingress_run n {| in_flow := true; in_received := Some k |}
  = filter (fun i => i mod RECEIPT_EVERY = 0) (map (fun i => k + 1 + Z.of_nat i) (seq 0 n)).
Proof.
  revert k. induction n as [|n IH]; intros k Hk; [done|]. cbn [ingress_run noteIngressFrame in_flow in_received negb default].
  change (id k) with k. rewrite IH by lia. cbn [seq map]. rewrite <- seq_shift, map_map. rewrite filter_cons.
  replace (k + 1 + Z.of_nat 0) with (k + 1) by lia.
  rewrite (map_ext (fun i => k + 1 + 1 + Z.of_nat i) (fun i => k + 1 + Z.of_nat (S i)) ltac:(intros; cbv beta; lia)).
  destruct (Z.eqb_spec ((k + 1) mod RECEIPT_EVERY) 0) as [E|E]; cbn [negb].
  - rewrite decide_True by done. simpl. done.
  - by rewrite decide_False by done.
Qed.

(** Receipts are cumulative and periodic: a socket that asked for them is sent the
    exact counts 16, 32, ... as soon as that many frames were read and no others, so
    a sender with the announced window of 64 always has a receipt to wait for; a
    socket that did not ask is sent none. *)
Theorem ingress_receipts_exact (n : nat) (flow : bool) :
  ingress_run n {| in_flow := flow; in_received := None |}
  = if flow then filter (fun i => i mod RECEIPT_EVERY = 0) (map (fun i => 1 + Z.of_nat i) (seq 0 n)) else [].
Proof.
  destruct flow.
  - etrans; [|exact (ingress_run_spec n 0 ltac:(lia))]. by destruct n.
  - induction n as [|n IH]; [done|]. exact IH.
Qed.

(** ** [heartbeat] *)

Definition HEARTBEAT_INTERVAL_MS : Z := 30000.
Definition MIN_INTERVAL_MS : Z := 1000.
Definition MAX_INTERVAL_MS : Z := 120000.

(** [parsed] is [Number(value)], [None] when it is not a number. *)
Definition heartbeatIntervalFrom (value : option jstr) (parsed : option jsnum) : Z :=
  match value with
  | None => HEARTBEAT_INTERVAL_MS
  | Some v =>
      if v =?s "" then HEARTBEAT_INTERVAL_MS else
      match parsed with
      | Some (NInt z) =>
          if z =? 0 then 0
          else if num_is_safe (NInt z) && (MIN_INTERVAL_MS <=? z) && (z <=? MAX_INTERVAL_MS) then z
          else HEARTBEAT_INTERVAL_MS
      | _ => HEARTBEAT_INTERVAL_MS
      end
  end.

(** [awaitingPong] of every socket of the map. *)
Abbreviation pongs := (list (nat * bool)).

Definition markAlive (socket : nat) (st : pongs) : pongs := map (fun e => if Nat.eqb e.1 socket then (e.1, false) else e) st.

(** The new flags and the sockets terminated; [throws] tells whose [ping] throws. *)
Definition heartbeatSweep (throws : nat -> bool) (st : pongs) : pongs * list nat :=
  (map (fun e => (e.1, true)) st, map fst (filter (fun e => e.2 || throws e.1) st)).

(** [MAX_INTERVAL_MS]: twice the interval stays below nginx's 300 s. *)
Lemma heartbeatIntervalFrom_bounds value parsed :
  let ms := heartbeatIntervalFrom value parsed in ms = 0 \/ MIN_INTERVAL_MS <= ms /\ 2 * ms < 300000.
Proof.
  unfold heartbeatIntervalFrom, HEARTBEAT_INTERVAL_MS, MIN_INTERVAL_MS, MAX_INTERVAL_MS.
  destruct value as [v|]; [|right; lia]. destruct (v =?s ""); [right; lia|].
  destruct parsed as [[z| |]|]; try (right; lia). destruct (z =? 0); [by left|]. destruct (_ && _) eqn:E; [|right; lia].
  split_andb. reflect_bools. right. lia.
Qed.

Lemma markAlive_all alive (st : pongs) :
  fold_left (fun st socket => markAlive socket st) alive st = map (fun e => if bool_decide (e.1 ∈ alive) then (e.1, false) else e) st.
Proof.
  revert st. induction alive as [|s alive IH]; intros st; simpl.
  - symmetry. apply map_id.
  - rewrite IH. unfold markAlive. rewrite map_map. apply map_ext. intros [k b]. simpl. destruct (Nat.eqb_spec k s) as [->|Hs]; simpl.
    + rewrite (bool_decide_eq_true_2 (s ∈ s :: alive)) by by left. by destruct (bool_decide _).
    + destruct (decide (k ∈ alive)).
      * by rewrite !bool_decide_eq_true_2 by set_solver.
      * rewrite !bool_decide_eq_false_2; [done|set_solver|done].
Qed.

(** A dead peer is gone within two sweeps and a live one stays: between two
    successive sweeps exactly the sockets from which nothing was heard (no pong, no
    ping, no frame), and those that cannot be pinged, are terminated by the second. *)
Theorem heartbeat_detects_silence (st : pongs) (alive : list nat) (throws : nat -> bool) (socket : nat) :
  let st1 := (heartbeatSweep throws st).1 in
  let st2 := fold_left (fun st s => markAlive s st) alive st1 in
  socket ∈ (heartbeatSweep throws st2).2 <-> socket ∈ map fst st /\ (socket ∉ alive \/ throws socket = true).
Proof.
  simpl. rewrite markAlive_all, map_map. rewrite list_elem_of_fmap. setoid_rewrite list_elem_of_filter. split.
  - intros ([k b] & -> & Hb & Hin). apply list_elem_of_fmap in Hin as ([k0 b0] & E & Hin). simpl in *.
    apply Is_true_true, orb_true_iff in Hb.
    destruct (decide (k0 ∈ alive)); [rewrite bool_decide_eq_true_2 in E by done|rewrite bool_decide_eq_false_2 in E by done];
      injection E as -> ->; (split; [apply list_elem_of_fmap; by exists (k0, b0)|]).
    + destruct Hb as [Hb|Hb]; [discriminate Hb|by right].
    + by left.
  - intros [Hin Hor]. apply list_elem_of_fmap in Hin as ([k0 b0] & -> & Hin). simpl in *.
    exists (if bool_decide (k0 ∈ alive) then (k0, false) else (k0, true)). split; [by case_match|]. split.
    + apply Is_true_true, orb_true_iff. destruct Hor as [Hn|Ht]; [left; by rewrite bool_decide_eq_false_2|right; by case_match].
    + apply list_elem_of_fmap. by exists (k0, b0).
Qed.

(** ** [socketReplay.js] *)

(** A frame to replay; [ri_parsed] is its parsed text, [None] on a [SyntaxError]. *)
Record replay_item := { ri_raw : jstr; ri_deliveryId : option jstr; ri_parsed : option jsv }.

Definition replay_delivery_id (item : replay_item) : jsv :=
  match ri_deliveryId item with
  | Some d => JStr d
  | None => match ri_parsed item with Some v => get "deliveryId" v | None => JUndef end
  end.

(** The frames handed to the delivery, in order: [ready k] is the socket's state before
    the [k]-th and [sent k] whether its callback reported success. *)
Fixpoint replayNodeFrames (k : nat) (ready sent : nat -> bool) (rows : list replay_item) : list (jstr * jsv) :=
  match rows with
  | [] => []
  | item :: rest =>
      if negb (ready k) then []
      else (ri_raw item, replay_delivery_id item)
           :: if sent k then replayNodeFrames (S k) ready sent rest else []
  end.

(** One frame at a time: a frame is handed over only when all earlier ones were sent. *)
Lemma replay_is_prefix k ready sent rows :
  exists n, map fst (replayNodeFrames k ready sent rows) = map ri_raw (take n rows) /\
    forall j, (S j < n)%nat -> sent (k + j)%nat = true.
Proof.
  revert k. induction rows as [|item rest IH]; intros k; simpl; [exists 0%nat; split; [done|lia]|].
  destruct (ready k); simpl; [|exists 0%nat; split; [done|lia]].
  destruct (sent k) eqn:E; simpl; [|exists 1%nat; split; [done|lia]].
  destruct (IH (S k)) as (n & En & Hn). exists (S n). simpl. split; [by f_equal|].
  intros [|j] Hj; [by rewrite Nat.add_0_r|]. rewrite <- Nat.add_succ_comm. apply Hn. lia.
Qed.
