(* ===== verification/Pairing.v ===== *)
(** * Pairing mailboxes
    [src/relay/pairingMailbox.js] (one Durable Object per mailbox) and the pairing
    table of [src/node/store.js] behind [handlePairing] of [src/node/server.js].

    A mailbox carries one sealed pairing message to one reader.  [PairingStore] is
    what the handlers need, [PairingLaws] what they rely on; the single-use
    theorem is proved against the laws and holds for both implementations. *)

From stdpp Require Import relations.
From S2P Require Import Prelude Base64 Validation.
#[local] Open Scope bool_scope.
#[local] Open Scope Z_scope.
#[local] Open Scope js_scope.

Definition PAIR_TTL_MS : Z := 15 * 60 * 1000.

Record pairing := { pa_nonce : jstr; pa_box : jstr; pa_expiresAt : Z }.

Definition pair_live (now : Z) (p : pairing) : bool := now <? pa_expiresAt p.

Definition only_live (now : Z) (p : option pairing) : option pairing :=
  match p with Some p => if pair_live now p then Some p else None | None => None end.

Class PairingStore (S : Type) := {
  pair_put : S -> jstr -> pairing -> Z -> S * bool;
  pair_take : S -> jstr -> Z -> S * option pairing;
  pair_peek : S -> jstr -> Z -> S * bool;
}.

Class PairingLaws (S : Type) `{PairingStore S} := {
  pl_wf : S -> Prop;
  (** the message a reader could still take at a time *)
  pl_item : S -> jstr -> Z -> option pairing;
  pl_later : forall s m now now', now <= now' -> pl_item s m now' = only_live now' (pl_item s m now);
  pl_put : forall s m p now, pl_wf s -> now < pa_expiresAt p ->
    let '(s', ok) := pair_put s m p now in
    pl_wf s' /\ ok = bool_decide (pl_item s m now = None) /\
    forall m', pl_item s' m' now = if decide (m' = m /\ ok = true) then Some p else pl_item s m' now;
  pl_take : forall s m now, pl_wf s ->
    let '(s', p) := pair_take s m now in
    pl_wf s' /\ p = pl_item s m now /\
    forall m', pl_item s' m' now = if decide (m' = m) then None else pl_item s m' now;
  pl_peek : forall s m now, pl_wf s ->
    let '(s', ok) := pair_peek s m now in
    pl_wf s' /\ ok = bool_decide (is_Some (pl_item s m now)) /\ forall m', pl_item s' m' now = pl_item s m' now;
}.

(** ** The handlers *)

Inductive pair_reply :=
| Stored                                  (* 200 { ok, expiresInSec } *)
| Opened (nonce box : jstr)               (* 200 { nonce, box } *)
| Status (status : Z) (error : jstr).     (* any other answer; HEAD has no body *)

Definition valid_pairing (body : jsv) : bool :=
  match validBase64 (get "nonce" body) 32 32, validBase64 (get "box" body) 24 32768 with
  | Ok true, Ok true => true | _, _ => false end.

Section Handlers.
Context {S : Type} `{PairingStore S}.

(** [handlePairing] of the Node server; [body] is [None] when [readJson] answered
    [null] (an oversized or malformed body, or the text [null]). *)
Definition handlePairing (s : S) (method mailbox : jstr) (body : option jsv) (now : Z) : S * pair_reply :=
  if method =?s "HEAD" then
    let '(s', ok) := pair_peek s mailbox now in (s', Status (if ok then 200 else 404) "")
  else if method =?s "GET" then
    let '(s', item) := pair_take s mailbox now in
    (s', match item with Some p => Opened (pa_nonce p) (pa_box p) | None => Status 404 "unknown or expired mailbox" end)
  else if negb (method =?s "PUT") && negb (method =?s "POST") then (s, Status 405 "method not allowed")
  else
    match body with
    | Some body =>
        if negb (truthy body) || negb (valid_pairing body)
        then (s, Status 400 "canonical bounded base64 nonce and box required")
        else
          let '(s', stored) := pair_put s mailbox
             {| pa_nonce := str_of (get "nonce" body); pa_box := str_of (get "box" body); pa_expiresAt := now + PAIR_TTL_MS |} now in
          (s', if stored then Stored else Status 409 "mailbox already occupied")
    | None => (s, Status 400 "canonical bounded base64 nonce and box required")
    end.
End Handlers.

(** [GrantTapCodes.fetch] after the mailbox was read from the path; [body] is [None]
    when [readJsonLimited] threw. *)
Definition codes_fetch {S} `{PairingStore S} (s : S) (method mailbox : jstr) (body : option jsv) (now : Z) : S * pair_reply :=
  if (method =?s "PUT") || (method =?s "POST") then
    match body with
    | None => (s, Status 400 "bounded JSON body required")
    | Some body =>
        if negb (valid_pairing body) then (s, Status 400 "canonical bounded base64 nonce and box required")
        else
          let '(s', stored) := pair_put s mailbox
             {| pa_nonce := str_of (get "nonce" body); pa_box := str_of (get "box" body); pa_expiresAt := now + PAIR_TTL_MS |} now in
          (s', if stored then Stored else Status 409 "mailbox already occupied")
    end
  else if method =?s "HEAD" then
    let '(s', ok) := pair_peek s mailbox now in (s', Status (if ok then 200 else 404) "")
  else if method =?s "GET" then
    let '(s', item) := pair_take s mailbox now in
    (s', match item with Some p => Opened (pa_nonce p) (pa_box p) | None => Status 404 "unknown or expired mailbox" end)
  else (s, Status 405 "method not allowed").

(** ** The SQLite table *)

Abbreviation pairings := (list (jstr * pairing)).

Definition purge_pairings (now : Z) (t : pairings) : pairings := filter (fun e => negb (pa_expiresAt e.2 <=? now)) t.

(** [putPairing]: the primary key refuses a second row. *)
Definition putPairing (t : pairings) (mailbox : jstr) (p : pairing) (now : Z) : pairings * bool :=
  let t1 := purge_pairings now t in
  match map_get mailbox t1 with Some _ => (t1, false) | None => (t1 ++ [(mailbox, p)], true) end.

Definition peekPairing (t : pairings) (mailbox : jstr) (now : Z) : pairings * bool :=
  let t1 := purge_pairings now t in
  (t1, match map_get mailbox t1 with Some p => now <? pa_expiresAt p | None => false end).

Definition takePairing (t : pairings) (mailbox : jstr) (now : Z) : pairings * option pairing :=
  (map_delete mailbox t,
   match map_get mailbox t with Some p => if now <? pa_expiresAt p then Some p else None | None => None end).

#[export] Instance sql_pairings : PairingStore pairings :=
  {| pair_put := putPairing; pair_take := takePairing; pair_peek := peekPairing |}.

(** ** The Durable Objects *)

(** The storage of one mailbox object and its alarm. *)
Record codes := { co_pairing : option pairing; co_alarm : option Z }.
Definition fresh_codes : codes := {| co_pairing := None; co_alarm := None |}.

Definition codes_put (c : codes) (p : pairing) (now : Z) : codes * bool :=
  match co_pairing c with
  | Some item => if now <? pa_expiresAt item then (c, false)
                 else ({| co_pairing := Some p; co_alarm := Some (pa_expiresAt p) |}, true)
  | None => ({| co_pairing := Some p; co_alarm := Some (pa_expiresAt p) |}, true)
  end.

Definition codes_head (c : codes) (now : Z) : bool :=
  match co_pairing c with Some item => negb (pa_expiresAt item <=? now) | None => false end.

(** [deleteAll] removes the stored values; the alarm stays set. *)
Definition deleteAll (c : codes) : codes := {| co_pairing := None; co_alarm := co_alarm c |}.

Definition codes_get (c : codes) (now : Z) : codes * option pairing :=
  match co_pairing c with
  | None => (c, None)
  | Some item => if pa_expiresAt item <=? now then (deleteAll c, None) else (deleteAll c, Some item)
  end.

(** The alarm handler; the runtime clears the alarm that fires. *)
Definition codes_alarm (c : codes) : codes := {| co_pairing := None; co_alarm := None |}.

(** The objects of the namespace by name. *)
Abbreviation namespace := (list (jstr * codes)).
Definition object (ns : namespace) (mailbox : jstr) : codes := default fresh_codes (map_get mailbox ns).

#[export] Instance do_pairings : PairingStore namespace := {|
  pair_put ns m p now := let '(c, ok) := codes_put (object ns m) p now in (map_set m c ns, ok);
  pair_take ns m now := let '(c, item) := codes_get (object ns m) now in (map_set m c ns, item);
  pair_peek ns m now := (ns, codes_head (object ns m) now) |}.

(** ** The laws *)

Lemma only_live_mono now now' p : now <= now' -> only_live now' (only_live now p) = only_live now' p.
Proof.
  intros H. destruct p as [p|]; [|done]. simpl. unfold pair_live.
  destruct (Z.ltb_spec now (pa_expiresAt p)); [done|]. simpl. unfold pair_live. by rewrite (proj2 (Z.ltb_ge _ _)) by lia.
Qed.

Lemma purge_get now m (t : pairings) : NoDup t.*1 -> map_get m (purge_pairings now t) = only_live now (map_get m t).
Proof.
  intros Hn. unfold purge_pairings. rewrite map_get_filter by done. destruct (map_get m t) as [p|]; [|done]. simpl.
  unfold pair_live. destruct (Z.leb_spec (pa_expiresAt p) now), (Z.ltb_spec now (pa_expiresAt p)); simpl; done || lia.
Qed.

#[export] Instance sql_pairing_laws : PairingLaws pairings.
Proof.
  refine {| pl_wf t := NoDup t.*1; pl_item t m now := only_live now (map_get m t) |}.
  - intros t m now now' H. by rewrite only_live_mono.
  - intros t m p now Hn Hp. simpl. unfold putPairing. rewrite purge_get by done.
    assert (NoDup (purge_pairings now t).*1) as Hn1 by (eapply sublist_NoDup; [exact Hn|apply sublist_keys, sublist_filter]).
    destruct (only_live now (map_get m t)) as [q|] eqn:E.
    + split_and!; [done|done|]. intros m'. rewrite decide_False by (intros [_ H]; discriminate H).
      by rewrite purge_get, only_live_mono.
    + split_and!.
      * rewrite fmap_app. apply NoDup_app. split_and!; [done| |apply NoDup_singleton]. intros x Hx Hm. simpl in Hm.
        apply list_elem_of_singleton in Hm as ->. revert Hx. apply map_get_None. by rewrite purge_get.
      * done.
      * intros m'. rewrite map_get_app, purge_get by done. simpl.
        destruct (decide (m' = m)) as [->|Hm].
        -- rewrite E, !decide_True by done. simpl. unfold pair_live. by rewrite (proj2 (Z.ltb_lt _ _)).
        -- rewrite decide_False by (by intros [? _]). destruct (map_get m' t) as [q|]; simpl; [|done].
           destruct (pair_live now q) eqn:El; simpl; [by rewrite El|done].
  - intros t m now Hn. simpl. split_and!; [by apply map_delete_nodup| |].
    + by destruct (map_get m t).
    + intros m'. rewrite map_get_delete. by destruct (decide (m' = m)).
  - intros t m now Hn. simpl. split_and!.
    + eapply sublist_NoDup; [exact Hn|apply sublist_keys, sublist_filter].
    + rewrite purge_get by done. destruct (map_get m t) as [p|]; simpl; [|done].
      destruct (pair_live now p) eqn:E; [exact E|done].
    + intros m'. by rewrite purge_get, only_live_mono.
Defined.

#[export] Instance do_pairing_laws : PairingLaws namespace.
Proof.
  refine {| pl_wf ns := True; pl_item ns m now := only_live now (co_pairing (object ns m)) |}.
  - intros t m now now' H. by rewrite only_live_mono.
  - intros ns m p now _ Hp. simpl. destruct (codes_put (object ns m) p now) as [c ok] eqn:E.
    unfold codes_put in E. assert (ok = bool_decide (only_live now (co_pairing (object ns m)) = None) /\
      only_live now (co_pairing c) = if ok then Some p else only_live now (co_pairing (object ns m))) as [-> Hc].
    { destruct (co_pairing (object ns m)) as [q|] eqn:Eq; simpl; unfold pair_live.
      - destruct (now <? pa_expiresAt q) eqn:El; injection E as <- <-; (split; [done|]); simpl; unfold pair_live.
        + by rewrite Eq; simpl; unfold pair_live; rewrite El.
        + by rewrite (proj2 (Z.ltb_lt _ _)).
      - injection E as <- <-. split; [done|]. simpl. unfold pair_live. by rewrite (proj2 (Z.ltb_lt _ _)). }
    split_and!; [done|done|]. intros m'. unfold object at 1. rewrite map_get_set.
    destruct (decide (m' = m)) as [->|Hm]; simpl.
    + rewrite Hc. destruct (bool_decide _) eqn:Eb; [by rewrite decide_True|]. by rewrite decide_False by (intros [_ H]; discriminate H).
    + by rewrite decide_False by (by intros [? _]).
  - intros ns m now _. simpl. destruct (codes_get (object ns m) now) as [c item] eqn:E. unfold codes_get in E.
    assert (item = only_live now (co_pairing (object ns m)) /\ co_pairing c = None) as [-> Hc].
    { destruct (co_pairing (object ns m)) as [q|] eqn:Eq; simpl; unfold pair_live.
      - destruct (Z.leb_spec (pa_expiresAt q) now), (Z.ltb_spec now (pa_expiresAt q)); try lia; injection E as <- <-; done.
      - by injection E as <- <-. }
    split_and!; [done|done|]. intros m'. unfold object at 1. rewrite map_get_set.
    destruct (decide (m' = m)) as [->|Hm]; simpl; [by rewrite Hc|done].
  - intros ns m now _. simpl. split_and!; [done| |done]. unfold codes_head.
    destruct (co_pairing (object ns m)) as [q|]; simpl; unfold pair_live; [|done].
    destruct (Z.leb_spec (pa_expiresAt q) now), (Z.ltb_spec now (pa_expiresAt q)); done || lia.
Defined.

(** ** Single use *)

Record pair_request := { rq_at : Z; rq_method : jstr; rq_mailbox : jstr; rq_body : option jsv }.

Section SingleUse.
Context {S : Type} `{PairingLaws S}.

(** One step of a handler, whichever it is. *)
Definition answers (s : S) (q : pair_request) (s' : S) (r : pair_reply) : Prop :=
  handlePairing s (rq_method q) (rq_mailbox q) (rq_body q) (rq_at q) = (s', r) \/
  codes_fetch s (rq_method q) (rq_mailbox q) (rq_body q) (rq_at q) = (s', r).

(** What the visible items are after an answer. *)
Lemma answer_cases s q s' r :
  pl_wf s -> answers s q s' r ->
  pl_wf s' /\
  match r with
  | Stored => pl_item s (rq_mailbox q) (rq_at q) = None /\ exists body, rq_body q = Some body /\ valid_pairing body = true /\
      forall m, pl_item s' m (rq_at q) =
        if decide (m = rq_mailbox q)
        then Some {| pa_nonce := str_of (get "nonce" body); pa_box := str_of (get "box" body); pa_expiresAt := rq_at q + PAIR_TTL_MS |}
        else pl_item s m (rq_at q)
  | Opened nonce box => (exists p, pl_item s (rq_mailbox q) (rq_at q) = Some p /\ nonce = pa_nonce p /\ box = pa_box p) /\
      forall m, pl_item s' m (rq_at q) = if decide (m = rq_mailbox q) then None else pl_item s m (rq_at q)
  | Status _ _ => forall m, pl_item s' m (rq_at q) = pl_item s m (rq_at q)
  end.
Proof.
  intros Hwf Ha. destruct q as [now method m body]. unfold answers in Ha. simpl in *.
  assert (forall b s' r, valid_pairing b = true -> body = Some b -> (let '(s0, ok) := pair_put s m
      {| pa_nonce := str_of (get "nonce" b); pa_box := str_of (get "box" b); pa_expiresAt := now + PAIR_TTL_MS |} now in
      (s0, if ok then Stored else Status 409 "mailbox already occupied")) = (s', r) ->
    pl_wf s' /\ match r with
      | Stored => pl_item s m now = None /\ exists body', body = Some body' /\ valid_pairing body' = true /\
         forall m', pl_item s' m' now = if decide (m' = m)
           then Some {| pa_nonce := str_of (get "nonce" body'); pa_box := str_of (get "box" body'); pa_expiresAt := now + PAIR_TTL_MS |}
           else pl_item s m' now
      | Opened nonce box => (exists p, pl_item s m now = Some p /\ nonce = pa_nonce p /\ box = pa_box p) /\
         forall m', pl_item s' m' now = if decide (m' = m) then None else pl_item s m' now
      | Status _ _ => forall m', pl_item s' m' now = pl_item s m' now end) as Hput.
  { intros b s1 r1 Hb -> E. pose proof (pl_put s m {| pa_nonce := str_of (get "nonce" b); pa_box := str_of (get "box" b);
      pa_expiresAt := now + PAIR_TTL_MS |} now Hwf ltac:(unfold PAIR_TTL_MS; simpl; lia)) as Hp.
    destruct (pair_put s m _ now) as [s0 ok]. destruct Hp as (Hwf' & -> & Hitem). injection E as <- <-. split; [done|].
    destruct (bool_decide _) eqn:Eb; reflect_bools.
    - split; [done|]. exists b. split_and!; [done|done|]. intros m'. rewrite Hitem. repeat case_decide; tauto.
    - intros m'. rewrite Hitem. by rewrite decide_False by (intros [_ Hf]; discriminate Hf). }
  assert (forall s' r, (let '(s0, item) := pair_take s m now in
      (s0, match item with Some p => Opened (pa_nonce p) (pa_box p) | None => Status 404 "unknown or expired mailbox" end)) = (s', r) ->
    pl_wf s' /\ match r with
      | Opened nonce box => (exists p, pl_item s m now = Some p /\ nonce = pa_nonce p /\ box = pa_box p) /\
         forall m', pl_item s' m' now = if decide (m' = m) then None else pl_item s m' now
      | Stored => False | Status _ _ => forall m', pl_item s' m' now = pl_item s m' now end) as Htake.
  { intros s1 r1 E. pose proof (pl_take s m now Hwf) as Hp. destruct (pair_take s m now) as [s0 item].
    destruct Hp as (Hwf' & -> & Hitem). injection E as <- <-. split; [done|].
    destruct (pl_item s m now) as [p|] eqn:Ep; [split; [by exists p|done]|]. intros m'. rewrite Hitem. case_decide; congruence. }
  assert (forall s' r, (let '(s0, ok) := pair_peek s m now in (s0, Status (if ok then 200 else 404) "")) = (s', r) ->
    pl_wf s' /\ exists st e, r = Status st e /\ forall m', pl_item s' m' now = pl_item s m' now) as Hpeek.
  { intros s1 r1 E. pose proof (pl_peek s m now Hwf) as Hp. destruct (pair_peek s m now) as [s0 ok].
    destruct Hp as (Hwf' & _ & Hitem). injection E as <- <-. eauto. }
  destruct Ha as [E|E]; [unfold handlePairing in E|unfold codes_fetch in E].
  - destruct (method =?s "HEAD"); [apply Hpeek in E as (? & st & e & -> & ?); by split|].
    destruct (method =?s "GET"); [apply Htake in E as [? ?]; by destruct r|].
    destruct (_ && _); [by injection E as <- <-|]. destruct body as [b|]; [|by injection E as <- <-].
    destruct (_ || _) eqn:Eb; [by injection E as <- <-|]. apply orb_false_iff in Eb as [_ Eb%negb_false_iff].
    by apply (Hput b s' r Eb eq_refl) in E.
  - destruct (_ || _).
    + destruct body as [b|]; [|by injection E as <- <-]. destruct (valid_pairing b) eqn:Eb; simpl in E; [|by injection E as <- <-].
      by apply (Hput b s' r Eb eq_refl) in E.
    + destruct (method =?s "HEAD"); [apply Hpeek in E as (? & st & e & -> & ?); by split|].
      destruct (method =?s "GET"); [apply Htake in E as [? ?]; by destruct r|]. by injection E as <- <-.
Qed.

(** The answers of a trace of requests. *)
Inductive pair_run (s : S) : list (pair_request * pair_reply) -> S -> Prop :=
| pair_run_nil : pair_run s [] s
| pair_run_cons q r s1 rest s2 : answers s q s1 r -> pair_run s1 rest s2 -> pair_run s ((q, r) :: rest) s2.

Definition opens (m : jstr) (e : pair_request * pair_reply) : bool :=
  (rq_mailbox e.1 =?s m) && match e.2 with Opened _ _ => true | _ => false end.
Definition stores (m : jstr) (e : pair_request * pair_reply) : bool :=
  (rq_mailbox e.1 =?s m) && match e.2 with Stored => true | _ => false end.

Definition visible (s : S) (m : jstr) (now : Z) : Z := if bool_decide (is_Some (pl_item s m now)) then 1 else 0.

Lemma visible_later s m now now' : now <= now' -> 0 <= visible s m now' <= visible s m now.
Proof.
  intros Hle. unfold visible. rewrite (pl_later s m now now' Hle). destruct (pl_item s m now) as [p|]; simpl; [|lia].
  case_match; lia.
Qed.

(** The times of a trace do not decrease. *)
Fixpoint clock_runs (now : Z) (trace : list (pair_request * pair_reply)) : Prop :=
  match trace with [] => True | (q, _) :: rest => now <= rq_at q /\ clock_runs (rq_at q) rest end.
End SingleUse.

(** C35: A pairing message is read once: in any sequence of requests to a store that
    was empty, through either backend's handler, a mailbox is opened at most as
    often as a message was stored in it; between two openings someone stored anew. *)
Theorem pairing_single_use {S : Type} `{PairingLaws S} (s s' : S) (m : jstr) (now : Z)
    (trace : list (pair_request * pair_reply)) :
  pl_wf s -> pl_item s m now = None -> clock_runs now trace -> pair_run s trace s' ->
  count_by (opens m) trace <= count_by (stores m) trace.
Proof.
  intros Hwf Hempty Hclock Hrun. cut (count_by (opens m) trace <= count_by (stores m) trace + visible s m now).
  { unfold visible. rewrite Hempty. simpl. lia. }
  clear Hempty. revert now Hwf Hclock. induction Hrun as [|s q r s1 rest s2 Ha Hrun IH]; intros now Hwf Hclock.
  - unfold count_by. simpl. pose proof (visible_later s m now now ltac:(lia)). lia.
  - destruct Hclock as [Hle Hclock]. pose proof (visible_later s m now (rq_at q) Hle).
    apply answer_cases in Ha as [Hwf1 Hr]; [|done]. specialize (IH (rq_at q) Hwf1 Hclock).
    assert (forall (p : pair_request * pair_reply -> bool) x l, count_by p (x :: l) = (if p x then 1 else 0) + count_by p l) as Hcons by done.
    rewrite !Hcons. unfold opens at 1, stores at 1. cbn [fst snd]. unfold jeqb, visible in *.
    destruct r as [|nonce box|st e].
    + destruct Hr as [Hnone (b & _ & _ & Hitem)]. rewrite Hitem in IH. case_decide as E.
      * subst. rewrite (bool_decide_eq_true_2 (rq_mailbox q = rq_mailbox q)) by done. rewrite Hnone in *. simpl in *. lia.
      * rewrite (bool_decide_eq_false_2 (rq_mailbox q = m)) by congruence. simpl. lia.
    + destruct Hr as [(p & Hp & _) Hitem]. rewrite Hitem in IH. case_decide as E.
      * subst. rewrite (bool_decide_eq_true_2 (rq_mailbox q = rq_mailbox q)) by done. rewrite Hp in *. simpl in *. lia.
      * rewrite (bool_decide_eq_false_2 (rq_mailbox q = m)) by congruence. simpl. lia.
    + rewrite Hr in IH. rewrite !andb_false_r. lia.
Qed.

(** An answer up to the text of an error. *)
Definition reply_code (r : pair_reply) : pair_reply := match r with Status s _ => Status s "" | _ => r end.

(** C36: The two backends are interchangeable: the Node handler over the SQLite table
    and the Durable Objects give the same answers, up to the wording of a refusal,
    whenever the same messages can be taken from both, and that stays so. *)
Theorem pairing_backends_agree (t : pairings) (ns : namespace) (method mailbox : jstr) (body : option jsv) (now : Z) :
  NoDup t.*1 -> (forall m, pl_item t m now = pl_item ns m now) ->
  let '(t', r1) := handlePairing t method mailbox body now in
  let '(ns', r2) := codes_fetch ns method mailbox body now in
  reply_code r1 = reply_code r2 /\ NoDup t'.*1 /\ (forall m now', now <= now' -> pl_item t' m now' = pl_item ns' m now').
Proof.
  intros Hn Heq.
  assert (forall (t' : pairings) (ns' : namespace), (forall m, pl_item t' m now = pl_item ns' m now) ->
    forall m now', now <= now' -> pl_item t' m now' = pl_item ns' m now') as Hlater.
  { intros t' ns' E m now' Hle. rewrite (pl_later t' m now now' Hle), (pl_later ns' m now now' Hle). by rewrite E. }
  unfold handlePairing, codes_fetch.
  pose proof (pl_peek t mailbox now Hn) as Hp1. pose proof (pl_peek ns mailbox now I) as Hp2.
  pose proof (pl_take t mailbox now Hn) as Ht1. pose proof (pl_take ns mailbox now I) as Ht2.
  destruct (method =?s "HEAD") eqn:EH.
  { unfold jeqb in EH. apply bool_decide_eq_true in EH as ->. simpl (_ || _).
    destruct (pair_peek t mailbox now) as [t' b1], (pair_peek ns mailbox now) as [ns' b2].
    destruct Hp1 as (Hw & -> & H1), Hp2 as (_ & -> & H2). rewrite Heq. split_and!; [done|done|]. apply Hlater. intros m. by rewrite H1, H2. }
  destruct (method =?s "GET") eqn:EG.
  { unfold jeqb in EG. apply bool_decide_eq_true in EG as ->. simpl (_ || _).
    destruct (pair_take t mailbox now) as [t' p1], (pair_take ns mailbox now) as [ns' p2].
    destruct Ht1 as (Hw & -> & H1), Ht2 as (_ & -> & H2). rewrite Heq. split_and!; [done|done|]. apply Hlater. intros m. by rewrite H1, H2, Heq. }
  destruct (method =?s "PUT"), (method =?s "POST"); simpl (_ && _); simpl (_ || _); cbv iota;
    try (split_and!; [done|done|by apply Hlater]).
  all: destruct body as [b|]; [|split_and!; [done|done|by apply Hlater]].
  all: assert (valid_pairing b = true -> truthy b = true) as Htr by (intros Hv; destruct b; (reflexivity || discriminate Hv)).
  all: destruct (valid_pairing b); simpl; [rewrite Htr by done; simpl|rewrite orb_true_r; split_and!; [done|done|by apply Hlater]].
  all: set (p := {| pa_nonce := _ |}).
  all: pose proof (pl_put t mailbox p now Hn ltac:(simpl; unfold PAIR_TTL_MS; lia)) as Hq1.
  all: pose proof (pl_put ns mailbox p now I ltac:(simpl; unfold PAIR_TTL_MS; lia)) as Hq2.
  all: simpl in Hq1, Hq2; destruct (putPairing t mailbox p now) as [t' ok1], (codes_put (object ns mailbox) p now) as [ns' ok2].
  all: destruct Hq1 as (Hw & -> & H1), Hq2 as (_ & -> & H2); simpl in Heq; rewrite <- Heq in *.
  all: split_and!; [done|done|apply Hlater; intros m; etrans; [apply H1|]; etrans; [|symmetry; apply H2]; destruct (decide _); [reflexivity|apply Heq]].
Qed.

(** ** The alarm of a mailbox object *)

Inductive codes_step (c : codes) : codes -> Prop :=
| cs_put p now : now < pa_expiresAt p -> codes_step c (codes_put c p now).1
| cs_get now : codes_step c (codes_get c now).1
| cs_alarm now at_ : co_alarm c = Some at_ -> at_ <= now -> codes_step c (codes_alarm c).

(** A pairing message is erased when it expires even if nobody asks: in every
    reachable state of a mailbox object a stored message has its alarm set for
    exactly its expiry, so the alarm never erases a message that could still be read. *)
Theorem mailbox_alarm_at_expiry (c : codes) (now at_ : Z) :
  rtc codes_step fresh_codes c ->
  (forall p, co_pairing c = Some p -> co_alarm c = Some (pa_expiresAt p)) /\
  (co_alarm c = Some at_ -> at_ <= now -> only_live now (co_pairing c) = None).
Proof.
  intros H. assert (forall p, co_pairing c = Some p -> co_alarm c = Some (pa_expiresAt p)) as Hinv.
  { remember fresh_codes as c0 eqn:E. assert (forall p, co_pairing c0 = Some p -> co_alarm c0 = Some (pa_expiresAt p)) as H0
      by (subst; discriminate). clear E. induction H as [|c0 c1 c2 Hs _ IH]; [done|]. apply IH. clear IH.
    destruct Hs as [p now0 Hp|now0|now0 t Ht Hle]; simpl; [| |discriminate].
    - unfold codes_put. destruct (co_pairing c0) as [q|] eqn:Eq; [destruct (_ <? _)|]; simpl.
      + intros r Hr. rewrite Eq in Hr. by apply H0.
      + by intros r [= <-].
      + by intros r [= <-].
    - unfold codes_get. destruct (co_pairing c0) as [q|] eqn:Eq; [destruct (_ <=? _)|]; simpl; try discriminate.
      intros r Hr. rewrite Eq in Hr. discriminate Hr. }
  split; [done|]. intros Ha Hle. destruct (co_pairing c) as [p|] eqn:Ep; [|done]. specialize (Hinv p eq_refl).
  rewrite Ha in Hinv. injection Hinv as ->. simpl. unfold pair_live. by rewrite (proj2 (Z.ltb_ge _ _)).
Qed.

(** ** Witnesses *)

Module Examples.
Definition body : jsv := JObj [("nonce", JStr "AAAAAAAAAAAAAAAAAAAAAAAAAAAAAAAA"); ("box", JStr "AAAAAAAAAAAAAAAAAAAAAAAA")].
Definition put : pair_request := {| rq_at := 5; rq_method := "PUT"; rq_mailbox := "m"; rq_body := Some body |}.
Definition take (at_ : Z) : pair_request := {| rq_at := at_; rq_method := "GET"; rq_mailbox := "m"; rq_body := None |}.
Definition p : pairing :=
  {| pa_nonce := "AAAAAAAAAAAAAAAAAAAAAAAAAAAAAAAA"; pa_box := "AAAAAAAAAAAAAAAAAAAAAAAA"; pa_expiresAt := 900005 |}.
Definition trace : list (pair_request * pair_reply) :=
  [(put, Stored); (take 6, Opened (pa_nonce p) (pa_box p)); (take 7, Status 404 "unknown or expired mailbox")].
End Examples.

Lemma pairing_single_use_witness : count_by (opens "m") Examples.trace <= count_by (stores "m") Examples.trace.
Proof.
  apply (pairing_single_use ([] : pairings) [] "m" 0 Examples.trace).
  - apply NoDup_nil_2.
  - reflexivity.
  - simpl. lia.
  - eapply pair_run_cons; [left; vm_compute; reflexivity|]. eapply pair_run_cons; [left; vm_compute; reflexivity|].
    eapply pair_run_cons; [left; vm_compute; reflexivity|]. apply pair_run_nil.
Defined.

Lemma pairing_backends_agree_witness :
  reply_code (handlePairing ([] : pairings) "PUT" "m" (Some Examples.body) 5).2
  = reply_code (codes_fetch ([] : namespace) "PUT" "m" (Some Examples.body) 5).2.
Proof.
  pose proof (pairing_backends_agree [] [] "PUT" "m" (Some Examples.body) 5 (NoDup_nil_2) (fun m => eq_refl)) as H.
  destruct (handlePairing _ _ _ _ _) as [t r1]. destruct (codes_fetch _ _ _ _ _) as [ns r2]. exact (proj1 H).
Defined.

Lemma mailbox_alarm_at_expiry_witness :
  let c := (codes_put fresh_codes Examples.p 5).1 in co_alarm c = Some 900005.
Proof.
  simpl. refine (proj1 (mailbox_alarm_at_expiry {| co_pairing := Some Examples.p; co_alarm := Some 900005 |}
    0 0 _) Examples.p eq_refl).
  apply rtc_once. exact (cs_put fresh_codes Examples.p 5 eq_refl).
Defined.
