(* ===== verification/Endpoints.v ===== *)
(** * The endpoint directory
    [src/relay/endpointDirectory.js] (the protocol), [src/relay/endpointRetention.js]
    (Durable Object storage and its alarm) and the table [endpoint_directory] of
    [src/node/store.js].

    A machine publishes a sealed endpoint record for a room, or for one recipient
    of it, for at most 15 minutes; a room has at most 32 records. *)

From Stdlib Require Import Permutation Sorted.
From S2P Require Import Prelude Base64 Validation Storage.
#[local] Open Scope bool_scope.
#[local] Open Scope Z_scope.
#[local] Open Scope js_scope.

Definition ENDPOINT_BODY_LIMIT : Z := 12000.
Definition ENDPOINT_TTL_MS : Z := 15 * 60 * 1000.
Definition ENDPOINT_RECIPIENT_LIMIT : Z := 32.

(** [room] and [recipient] are query parameters, [None] when absent. *)
Definition valid_room_param (room : option jstr) : bool :=
  match room with Some r => validRoom (JStr r) | None => false end.

Definition endpointStorageKey (room recipient : option jstr) : option jstr :=
  if negb (valid_room_param room) || match recipient with Some r => negb (hex64 r) | None => false end then None
  else Some (match recipient with None => default "" room | Some r => default "" room +++ ":" +++ r end).

Definition validEndpointRecord (body : jsv) (now : Z) : bool :=
  match body with
  | JObj _ =>
      Nat.eqb (length (keys body)) 3
      && forallb (fun key => bool_decide (key ∈ ["nonce"; "box"; "expiresAt"]%js)) (keys body)
      && match validBase64 (get "nonce" body) 32 32 with Ok b => b | Throw => false end
      && match validBase64 (get "box" body) 24 10924 with Ok b => b | Throw => false end
      && is_safe_int (get "expiresAt" body) && (now <? int_of (get "expiresAt" body))
      && (int_of (get "expiresAt" body) <=? now + ENDPOINT_TTL_MS)
  | _ => false
  end.

(** ** [endpointResponse] *)

Inductive endpoint_reply :=
| EndpointStatus (status : Z) (error : jstr)
| EndpointOk
| EndpointFound (record : jsv).

(** The callbacks of the handler over a state [T]; [authorize pin] may pin the room's
    credential, [put] answers whether there was room. *)
Record endpoint_ops (T : Type) := {
  eo_authorize : bool -> T -> T * bool;
  eo_put : jsv -> T -> T * bool;
  eo_get : T -> T * option jsv;
  eo_delete : T -> T;
}.
Arguments eo_authorize {T}. Arguments eo_put {T}. Arguments eo_get {T}. Arguments eo_delete {T}.

(** [body] is [None] when [read] threw; the Node server's [read] answers [null] instead,
    which no record is. *)
Definition endpointResponse {T} (ops : endpoint_ops T) (method : jstr) (room : option jstr) (body : option jsv) (now : Z) (t : T)
  : T * endpoint_reply :=
  if negb (valid_room_param room) then (t, EndpointStatus 400 "valid room required") else
  if negb (bool_decide (method ∈ ["PUT"; "GET"; "DELETE"]%js)) then (t, EndpointStatus 405 "method not allowed") else
  let put := method =?s "PUT" in
  let record := default JUndef body in
  if put && negb (validEndpointRecord record now) then (t, EndpointStatus 400 "bounded sealed endpoint required") else
  let '(t1, authorized) := eo_authorize ops put t in
  if negb authorized then (t1, EndpointStatus 401 "invalid room credential") else
  if put then
    let '(t2, stored) := eo_put ops record t1 in
    (t2, if stored then EndpointOk else EndpointStatus 409 "endpoint capacity")
  else if method =?s "DELETE" then (eo_delete ops t1, EndpointOk)
  else
    let '(t2, current) := eo_get ops t1 in
    match current with
    | None => (t2, EndpointStatus 404 "endpoint unavailable")
    | Some c =>
        if validEndpointRecord c now then (t2, EndpointFound c)
        else (eo_delete ops t2, EndpointStatus 404 "endpoint unavailable")
    end.

(** ** The SQLite table *)

Record endpoint_row := { ep_nonce : jstr; ep_box : jstr; ep_expiresAt : Z }.

(** The stored members of a record that passed [validEndpointRecord]. *)
Definition endpoint_of (record : jsv) : endpoint_row :=
  {| ep_nonce := str_of (get "nonce" record); ep_box := str_of (get "box" record); ep_expiresAt := int_of (get "expiresAt" record) |}.
Definition endpoint_json (e : endpoint_row) : jsv :=
  JObj [("nonce", JStr (ep_nonce e)); ("box", JStr (ep_box e)); ("expiresAt", JNum (NInt (ep_expiresAt e)))].

Abbreviation endpoints := (list (jstr * endpoint_row)).

(** [room.split(":", 1)[0]] *)
Definition prefix_of (key : jstr) : jstr :=
  JS ((fix go l := match l with [] => [] | u :: rest => if (u =? 58)%N then [] else u :: go rest end) (units key)).

(** [room = prefix OR room LIKE 'prefix:%']; a hexadecimal prefix has no wildcard. *)
Definition of_room (prefix : jstr) (e : jstr * endpoint_row) : bool :=
  (e.1 =?s prefix) || starts_with (prefix +++ ":") e.1.

Definition purge_endpoints (now : Z) (t : endpoints) : endpoints := filter (fun e => negb (ep_expiresAt e.2 <=? now)) t.

Definition deleteEndpoint (key : jstr) (t : endpoints) : endpoints := map_delete key t.

Definition endpoint (t : endpoints) (key : jstr) (now : Z) : endpoints * option endpoint_row :=
  match map_get key t with
  | Some e => if ep_expiresAt e <=? now then (deleteEndpoint key t, None) else (t, Some e)
  | None => (deleteEndpoint key t, None)
  end.

Definition putEndpoint (t : endpoints) (key : jstr) (record : jsv) (now : Z) : endpoints * bool :=
  let t1 := purge_endpoints now t in
  let count := Z.of_nat (length (filter (of_room (prefix_of key)) t1)) in
  let '(t2, current) := endpoint t1 key now in
  if bool_decide (current = None) && (32 <=? count) then (t2, false)
  else (map_set key (endpoint_of record) t2, true).

(** ** Durable Object storage *)

(** The keys ["endpoint:..."] of the room's storage, and its alarm. *)
Record directory := { di_rows : list (jstr * jsv); di_alarm : option Z }.

Definition row_expiry (row : jsv) : Z := int_of (get "expiresAt" row).

(** [Math.min] of the expiries, if any. *)
Fixpoint earliest (rows : list (jstr * jsv)) : option Z :=
  match rows with
  | [] => None
  | (_, row) :: rest => Some (match earliest rest with Some t => Z.min (row_expiry row) t | None => row_expiry row end)
  end.

Definition purgeEndpointDirectory (d : directory) (now : Z) : directory * option Z :=
  let rows := storage_list "endpoint:" None None (di_rows d) in
  let kept := filter (fun e => negb (negb (truthy e.2) || (row_expiry e.2 <=? now))) rows in
  let next := earliest kept in
  ({| di_rows := fold_left (fun st e => if negb (truthy e.2) || (row_expiry e.2 <=? now) then storage_delete e.1 st else st)
                   rows (di_rows d);
      di_alarm := next |}, next).

Definition putDirectoryEndpoint (d : directory) (key : jstr) (record : jsv) (now : Z) : directory * bool :=
  let d1 := (purgeEndpointDirectory d now).1 in
  let rows := storage_list "endpoint:" None None (di_rows d1) in
  let name := "endpoint:" +++ key in
  if negb (bool_decide (name ∈ rows.*1)) && (ENDPOINT_RECIPIENT_LIMIT <=? Z.of_nat (length rows)) then (d1, false)
  else ({| di_rows := storage_put name record (di_rows d1);
           di_alarm := Some (match earliest rows with Some t => Z.min (row_expiry record) t | None => row_expiry record end) |}, true).

Definition directory_get (d : directory) (key : jstr) : option jsv := storage_get ("endpoint:" +++ key) (di_rows d).
Definition directory_delete (d : directory) (key : jstr) : directory :=
  {| di_rows := storage_delete ("endpoint:" +++ key) (di_rows d); di_alarm := di_alarm d |}.

(** ** The protocol *)

(** The directory serves only what may be served: a request that is not
    authorized changes nothing but what [authorize] changed and learns nothing; a
    record is stored only when it is bounded, sealed and expires within 15
    minutes; and a record is only returned while it is valid. *)
Theorem endpoint_guards {T} (ops : endpoint_ops T) (method : jstr) (room : option jstr) (body : option jsv) (now : Z) (t : T) :
  let '(t', r) := endpointResponse ops method room body now t in
  match r with
  | EndpointFound c => method = "GET" /\ validEndpointRecord c now = true /\
      exists t1, eo_authorize ops false t = (t1, true) /\ eo_get ops t1 = (t', Some c)
  | EndpointOk => exists t1, eo_authorize ops (method =?s "PUT") t = (t1, true) /\
      (method = "PUT" /\ (exists record, body = Some record /\ validEndpointRecord record now = true /\ eo_put ops record t1 = (t', true)) \/
       method = "DELETE" /\ t' = eo_delete ops t1)
  | EndpointStatus status _ =>
      (status = 400 \/ status = 405) /\ t' = t \/
      status = 401 /\ eo_authorize ops (method =?s "PUT") t = (t', false) \/
      status = 409 /\ method = "PUT" \/ status = 404 /\ method = "GET"
  end.
Proof.
  unfold endpointResponse. destruct (negb (valid_room_param room)); [by left; auto|].
  destruct (negb (bool_decide (method ∈ _))) eqn:Em; [by left; auto|]. apply negb_false_iff, bool_decide_eq_true in Em.
  destruct ((method =?s "PUT") && _) eqn:Ev; [by left; auto|].
  destruct (eo_authorize ops (method =?s "PUT") t) as [t1 ok] eqn:Ea. destruct ok; simpl; [|by right; left].
  destruct (method =?s "PUT") eqn:Ep; unfold jeqb in Ep; reflect_bools.
  - subst. simpl in Ev. apply negb_false_iff in Ev. destruct (eo_put ops _ t1) as [t2 stored] eqn:Eput.
    destruct stored; [|right; right; by left]. exists t1. split; [done|]. left. split; [done|].
    destruct body as [record|]; [|discriminate Ev]. by exists record.
  - destruct (method =?s "DELETE") eqn:Ed; unfold jeqb in Ed; reflect_bools; [exists t1; split; [done|by right]|].
    assert (method = "GET") as -> by set_solver. destruct (eo_get ops t1) as [t2 current] eqn:Eg.
    destruct current as [c|]; [|right; right; by right]. destruct (validEndpointRecord c now) eqn:Ec; [|right; right; by right].
    split_and!; [done|done|]. by exists t1.
Qed.

(** ** Capacity *)

Record directory_wf (d : directory) : Prop := {
  dw_sorted : sorted (di_rows d);
  dw_keys : Forall (fun e => starts_with "endpoint:" e.1 = true /\ truthy e.2 = true) (di_rows d);
}.

Lemma list_all d : directory_wf d -> storage_list "endpoint:" None None (di_rows d) = di_rows d.
Proof.
  intros [_ HF]. unfold storage_list. rewrite (filter_ext_in _ (fun _ => True)); [by apply filter_always|].
  intros e He. rewrite Forall_forall in HF. destruct (HF e He) as [-> _]. done.
Qed.

Lemma fold_delete_rows (p : jstr * jsv -> bool) l (st : list (jstr * jsv)) :
  fold_left (fun st e => if p e then storage_delete e.1 st else st) l st
  = filter (fun e => e.1 ∉ (filter (fun e => p e = true) l).*1) st.
Proof.
  revert st. induction l as [|e l IH]; intros st; cbn [fold_left].
  { symmetry. apply filter_always. intros x. apply not_elem_of_nil. }
  rewrite IH, filter_cons. destruct (p e).
  - rewrite decide_True by done. unfold storage_delete, map_delete. rewrite list_filter_filter. apply list_filter_iff.
    intros x. rewrite fmap_cons, not_elem_of_cons. tauto.
  - by rewrite decide_False.
Qed.

Lemma purge_rows d now :
  directory_wf d ->
  di_rows (purgeEndpointDirectory d now).1 = filter (fun e => now < row_expiry e.2) (di_rows d) /\
  di_alarm (purgeEndpointDirectory d now).1 = earliest (filter (fun e => now < row_expiry e.2) (di_rows d)) /\
  (purgeEndpointDirectory d now).2 = earliest (filter (fun e => now < row_expiry e.2) (di_rows d)).
Proof.
  intros Hwf. pose proof (list_all d Hwf) as Hall. destruct Hwf as [Hs HF]. rewrite Forall_forall in HF.
  unfold purgeEndpointDirectory. rewrite Hall. cbn [fst snd di_rows di_alarm].
  assert (filter (fun e => negb (negb (truthy e.2) || (row_expiry e.2 <=? now))) (di_rows d)
    = filter (fun e => now < row_expiry e.2) (di_rows d)) as Hkept.
  { apply filter_ext_in. intros e He. destruct (HF e He) as [_ ->]. simpl. rewrite Is_true_true, negb_true_iff, Z.leb_gt. done. }
  split_and!; [|by rewrite Hkept|by rewrite Hkept].
  rewrite fold_delete_rows. apply filter_ext_in. intros e He. rewrite list_elem_of_fmap. setoid_rewrite list_elem_of_filter. split.
  - intros Hn. destruct (Z.lt_ge_cases now (row_expiry e.2)) as [|Hle]; [done|]. exfalso. apply Hn. exists e. split_and!; [done| |done].
    apply orb_true_iff. right. by apply Z.leb_le.
  - intros Hlt (e' & E & Hdead & He'). assert (e' = e) as ->.
    { pose proof (sorted_nodup _ Hs) as Hn. destruct e as [k v], e' as [k' v']. simpl in *. subst k'.
      apply (map_get_In k) in He, He'; [|done|done]. congruence. }
    destruct (HF e He) as [_ Ht]. rewrite Ht in Hdead. simpl in Hdead. apply Z.leb_le in Hdead. lia.
Qed.

Lemma purge_wf d now : directory_wf d -> directory_wf (purgeEndpointDirectory d now).1.
Proof.
  intros Hwf. pose proof (purge_rows d now Hwf) as (Hr & _ & _). destruct Hwf as [Hs HF]. split; rewrite Hr.
  - unfold sorted in *. clear -Hs. induction Hs as [|e l Hs IH HF]; [constructor|]. rewrite filter_cons. case_decide; [|done].
    constructor; [done|]. eapply sublist_Forall; [apply sublist_filter|done].
  - eapply sublist_Forall; [apply sublist_filter|done].
Qed.

Lemma endpoint_key_prefix key : starts_with "endpoint:" ("endpoint:" +++ key) = true.
Proof. apply starts_with_iff. by exists (units key). Qed.

Lemma put_directory_spec d key record now :
  directory_wf d -> truthy record = true ->
  let live := filter (fun e => now < row_expiry e.2) (di_rows d) in
  let name := "endpoint:" +++ key in
  let '(d', ok) := putDirectoryEndpoint d key record now in
  directory_wf d' /\
  ok = bool_decide (name ∈ live.*1) || (Z.of_nat (length live) <? ENDPOINT_RECIPIENT_LIMIT) /\
  Permutation (di_rows d') (if ok then (name, record) :: storage_delete name live else live).
Proof.
  intros Hwf Ht live name. unfold putDirectoryEndpoint. pose proof (purge_wf d now Hwf) as Hwf1.
  pose proof (purge_rows d now Hwf) as (Hr & _ & _). fold live in Hr. rewrite (list_all _ Hwf1). rewrite Hr. fold name.
  destruct (negb _ && _) eqn:E.
  - split_and!; [done| |by rewrite Hr]. apply andb_true_iff in E as [E1 E2]. apply negb_true_iff in E1. rewrite E1. simpl.
    symmetry. apply Z.ltb_ge. by apply Z.leb_le.
  - split_and!.
    + split; simpl; [apply storage_put_sorted; rewrite <- Hr; apply Hwf1|]. apply storage_put_Forall; [|rewrite <- Hr; apply Hwf1].
      split; [apply endpoint_key_prefix|done].
    + symmetry. destruct (bool_decide _); [done|]. simpl in *. apply Z.ltb_lt. by apply Z.leb_gt.
    + apply storage_put_perm. rewrite <- Hr. apply Hwf1.
Qed.

Lemma earliest_le rows e t : e ∈ rows -> earliest rows = Some t -> t <= row_expiry e.2.
Proof.
  revert t. induction rows as [|[k r] rows IH]; intros t He Ht; [by apply elem_of_nil in He|]. simpl in Ht. injection Ht as <-.
  apply elem_of_cons in He as [->|He]; simpl.
  - destruct (earliest rows); lia.
  - destruct (earliest rows) as [u|] eqn:Eu; [specialize (IH u He eq_refl); lia|]. destruct rows as [|[? ?] ?]; [by apply elem_of_nil in He|discriminate Eu].
Qed.

Lemma delete_fewer name (live : list (jstr * jsv)) :
  ((if bool_decide (name ∈ live.*1) then S (length (storage_delete name live)) else length (storage_delete name live))
    <= length live)%nat.
Proof.
  pose proof (map_delete_sublist name live) as Hs. pose proof (sublist_length _ _ Hs) as Hl. fold (storage_delete name live) in *.
  case_bool_decide as H; [|lia]. apply list_elem_of_fmap in H as ([k v] & E & Hin). simpl in E. subst k.
  assert (length (storage_delete name live) <> length live) as Hne; [|lia].
  intros E. apply sublist_full in E; [|exact Hs].
  assert ((name, v) ∈ storage_delete name live) as Hx by by rewrite E. by apply map_delete_elem in Hx as [? _].
Qed.

(** A room's directory object never holds more than 32 live records: storing one
    more is refused with the others unchanged, and replacing one always succeeds; a
    successful store leaves the alarm no later than any record's expiry. *)
Theorem directory_bounded (d : directory) (key : jstr) (record : jsv) (now : Z) :
  directory_wf d -> validEndpointRecord record now = true ->
  let live := filter (fun e => now < row_expiry e.2) (di_rows d) in
  Z.of_nat (length live) <= ENDPOINT_RECIPIENT_LIMIT ->
  let '(d', ok) := putDirectoryEndpoint d key record now in
  directory_wf d' /\ Z.of_nat (length (di_rows d')) <= ENDPOINT_RECIPIENT_LIMIT /\
  (ok = false <-> "endpoint:" +++ key ∉ live.*1 /\ Z.of_nat (length live) = ENDPOINT_RECIPIENT_LIMIT) /\
  (ok = false -> Permutation (di_rows d') live) /\
  (ok = true -> directory_get d' key = Some record /\
     exists at_, di_alarm d' = Some at_ /\ Forall (fun e => at_ <= row_expiry e.2) (di_rows d')).
Proof.
  intros Hwf Hv live Hlen.
  assert (truthy record = true) as Ht by (by destruct record).
  pose proof (put_directory_spec d key record now Hwf Ht) as Hspec. pose proof (delete_fewer ("endpoint:" +++ key) live) as Hfew.
  cbv zeta in Hspec. fold live in Hspec. destruct (putDirectoryEndpoint d key record now) as [d' ok] eqn:Ep.
  destruct Hspec as (Hwf' & Hok & Hp). pose proof (Permutation_length Hp) as Hpl.
  assert (ok = false <-> "endpoint:" +++ key ∉ live.*1 /\ Z.of_nat (length live) = ENDPOINT_RECIPIENT_LIMIT) as Hiff.
  { rewrite Hok, orb_false_iff, bool_decide_eq_false, Z.ltb_ge. split; intros [? ?]; (split; [done|]); lia. }
  split_and!; [done| |done| |].
  - destruct ok; [|lia]. simpl in Hpl. case_bool_decide as Hin; [lia|].
    assert (Z.of_nat (length live) <> ENDPOINT_RECIPIENT_LIMIT) by (intros E; destruct Hiff as [_ Hiff]; by discriminate Hiff). lia.
  - intros ->. done.
  - intros ->. pose proof (purge_wf d now Hwf) as Hwf1. pose proof (purge_rows d now Hwf) as (Hr & _ & _). fold live in Hr.
    unfold putDirectoryEndpoint in Ep. rewrite (list_all _ Hwf1), Hr in Ep. destruct (_ && _) in Ep; [discriminate Ep|].
    apply (f_equal fst) in Ep. cbn [fst] in Ep. subst d'. split.
    + unfold directory_get. simpl. rewrite storage_get_put. by rewrite decide_True.
    + cbn [di_alarm di_rows]. eexists. split; [done|].
      apply storage_put_Forall; simpl; [destruct (earliest live); lia|]. apply Forall_forall. intros e He.
      destruct (earliest live) as [u|] eqn:Eu; [pose proof (earliest_le live e u He Eu); lia|].
      destruct live as [|[? ?] ?]; [by apply elem_of_nil in He|discriminate Eu].
Qed.

(** ** The two backends *)

(** A live record of one room as key, nonce, box and expiry. *)
Definition table_live (room : jstr) (now : Z) (t : endpoints) : list (jstr * endpoint_row) :=
  filter (fun e => now < ep_expiresAt e.2) (filter (of_room room) t).
Definition directory_live (now : Z) (d : directory) : list (jstr * endpoint_row) :=
  map (fun e => (e.1, endpoint_of e.2)) (filter (fun e => now < row_expiry e.2) (di_rows d)).

(** The table's rows of a room and the room's object hold the same live records. *)
Definition same_directory (room : jstr) (now : Z) (t : endpoints) (d : directory) : Prop :=
  Permutation (map (fun e => ("endpoint:" +++ e.1, e.2)) (table_live room now t)) (directory_live now d).

Lemma prefix_of_key room recipient key :
  endpointStorageKey (Some room) recipient = Some key -> prefix_of key = room /\ forall e, of_room room (key, e) = true.
Proof.
  unfold endpointStorageKey. destruct (negb _ || _) eqn:E; [done|]. apply orb_false_iff in E as [E _].
  apply negb_false_iff in E. change (re_class cls_hex 16 64 room = true) in E.
  pose proof (class_no_colon cls_hex 16 64 room eq_refl E) as Hnc.
  intros [= <-]. unfold prefix_of, no_colon in *. destruct room as [l]. simpl in *.
  assert (forall rest, (match rest with [] => True | u :: _ => u = 58%N end) ->
    (fix go l := match l with [] => [] | u :: rest => if (u =? 58)%N then [] else u :: go rest end) (l ++ rest) = l) as Hgo.
  { clear E. induction l as [|u l IH]; intros rest Hr; simpl; [destruct rest as [|u r]; [reflexivity|simpl in Hr; subst; reflexivity]|].
    destruct (N.eqb_spec u 58); [subst; exfalso; apply Hnc; by left|]. f_equal. apply IH; [|done]. intros Hin. apply Hnc. by right. }
  destruct recipient as [[r]|]; cbn [default].
  - split; [f_equal; exact (Hgo (58%N :: r) eq_refl)|]. intros e. unfold of_room. apply orb_true_iff. right.
    apply starts_with_iff. exists r. simpl. by rewrite <- app_assoc.
  - pose proof (Hgo [] I) as Hg. rewrite app_nil_r in Hg. split; [f_equal; exact Hg|].
    intros e. unfold of_room. apply orb_true_iff. left. by apply bool_decide_eq_true.
Qed.

(** The live rows of the table after a store. *)
Lemma put_endpoint_spec room recipient (t : endpoints) key record now :
  endpointStorageKey (Some room) recipient = Some key -> NoDup t.*1 -> now < row_expiry record ->
  let live := table_live room now t in
  let '(t', ok) := putEndpoint t key record now in
  NoDup t'.*1 /\ ok = bool_decide (key ∈ live.*1) || (Z.of_nat (length live) <? 32) /\
  Permutation (table_live room now t') (if ok then (key, endpoint_of record) :: map_delete key live else live).
Proof.
  intros Hkey Hn Hexp live. destruct (prefix_of_key _ _ _ Hkey) as [Hpre Hof]. unfold putEndpoint. rewrite Hpre.
  set (t1 := purge_endpoints now t).
  assert (forall e, e ∈ t1 -> now < ep_expiresAt e.2) as Hlive1.
  { intros e He. apply list_elem_of_filter in He as [He _]. apply Is_true_true, negb_true_iff, Z.leb_gt in He. done. }
  assert (NoDup t1.*1) as Hn1 by (eapply sublist_NoDup; [exact Hn|apply sublist_keys, sublist_filter]).
  assert (filter (of_room room) t1 = live) as Hl.
  { unfold t1, purge_endpoints, live, table_live. rewrite !list_filter_filter. apply list_filter_iff. intros e.
    rewrite !Is_true_true, negb_true_iff, Z.leb_gt. tauto. }
  assert (table_live room now t1 = live) as Htl.
  { unfold table_live. rewrite Hl. unfold live at 1, table_live. rewrite list_filter_filter. apply list_filter_iff. tauto. }
  assert (map_get key t1 = map_get key live) as Hget.
  { rewrite <- Hl. rewrite map_get_filter by done. destruct (map_get key t1); [|done]. by rewrite Hof. }
  assert (endpoint t1 key now = (t1, map_get key t1)) as ->.
  { unfold endpoint. destruct (map_get key t1) as [e|] eqn:E.
    - pose proof (Hlive1 _ (map_get_Some _ _ _ E)). simpl in *. by rewrite (proj2 (Z.leb_gt _ _)).
    - f_equal. unfold deleteEndpoint, map_delete. rewrite (filter_ext_in _ (fun _ => True)); [by apply filter_always|].
      intros e He. split; [done|]. intros _ <-. apply map_get_None in E. apply E. apply list_elem_of_fmap. by exists e. }
  rewrite Hl, Hget. assert (bool_decide (map_get key live = None) = negb (bool_decide (key ∈ live.*1))) as ->.
  { destruct (map_get key live) as [v|] eqn:E; [apply map_get_Some in E|apply map_get_None in E].
    - rewrite bool_decide_eq_false_2 by done. rewrite bool_decide_eq_true_2; [done|]. apply list_elem_of_fmap. by exists (key, v).
    - rewrite bool_decide_eq_true_2 by done. by rewrite bool_decide_eq_false_2. }
  destruct (negb _ && _) eqn:E.
  - split_and!; [done| |by rewrite Htl]. apply andb_true_iff in E as [E1%negb_true_iff E2]. rewrite E1. simpl.
    symmetry. apply Z.ltb_ge. by apply Z.leb_le.
  - split_and!; [by apply map_set_nodup| |].
    + symmetry. destruct (bool_decide _); [done|]. simpl in *. apply Z.ltb_lt. by apply Z.leb_gt.
    + unfold table_live. rewrite map_set_perm by done.
      rewrite (filter_cons_True _ (key, endpoint_of record)) by by rewrite Hof.
      rewrite (filter_cons_True _ (key, endpoint_of record)) by done. apply Permutation_skip, Permutation_refl'.
      rewrite <- Htl. unfold table_live, map_delete.
      etrans; [apply list_filter_filter|]. etrans; [apply list_filter_filter|]. symmetry. etrans; [apply list_filter_filter|].
      etrans; [apply list_filter_filter|]. apply list_filter_iff. intros e. tauto.
Qed.

(** The two directories are interchangeable: when the table's rows of a room and
    the room's object hold the same live records, storing a record answers the same
    in both and they still hold the same live records. *)
Theorem directories_agree (room : jstr) (recipient : option jstr) (key : jstr) (t : endpoints) (d : directory)
    (record : jsv) (now : Z) :
  endpointStorageKey (Some room) recipient = Some key -> NoDup t.*1 -> directory_wf d ->
  validEndpointRecord record now = true -> same_directory room now t d ->
  let '(t', ok1) := putEndpoint t key record now in
  let '(d', ok2) := putDirectoryEndpoint d key record now in
  ok1 = ok2 /\ NoDup t'.*1 /\ directory_wf d' /\ same_directory room now t' d'.
Proof.
  intros Hkey Hn Hwf Hv Hsame. assert (truthy record = true) as Ht by (by destruct record).
  assert (now < row_expiry record) as Hexp.
  { unfold validEndpointRecord in Hv. destruct record; try discriminate Hv. apply andb_true_iff in Hv as [Hv _].
    apply andb_true_iff in Hv as [_ Hv]. by apply Z.ltb_lt. }
  pose proof (put_endpoint_spec room recipient t key record now Hkey Hn Hexp) as H1.
  pose proof (put_directory_spec d key record now Hwf Ht) as H2. cbv zeta in H1, H2.
  destruct (putEndpoint t key record now) as [t' ok1], (putDirectoryEndpoint d key record now) as [d' ok2].
  destruct H1 as (Hn' & Hok1 & Hp1), H2 as (Hwf' & Hok2 & Hp2).
  unfold same_directory, directory_live in *. set (live2 := filter (fun e => now < row_expiry e.2) (di_rows d)) in *.
  set (live1 := table_live room now t) in *.
  assert (length live1 = length live2) as Hlen by (apply Permutation_length in Hsame; by rewrite !length_map in Hsame).
  assert (key ∈ live1.*1 <-> "endpoint:" +++ key ∈ live2.*1) as Hin.
  { assert ("endpoint:" +++ key ∈ (map (fun e => ("endpoint:" +++ e.1, e.2)) live1).*1
        <-> "endpoint:" +++ key ∈ (map (fun e => (e.1, endpoint_of e.2)) live2).*1) as Hx by by rewrite Hsame.
    rewrite !list_elem_of_fmap in Hx. rewrite !list_elem_of_fmap. split.
    - intros (e & -> & He). destruct Hx as [Hx _].
      destruct Hx as (e' & E' & He'); [exists ("endpoint:" +++ e.1, e.2); split; [done|apply list_elem_of_fmap; by exists e]|].
      apply list_elem_of_fmap in He' as (e2 & -> & He2). by exists e2.
    - intros (e & E & He). destruct Hx as [_ Hx].
      destruct Hx as (e' & E' & He'); [exists (e.1, endpoint_of e.2); split; [done|apply list_elem_of_fmap; by exists e]|].
      apply list_elem_of_fmap in He' as (e2 & -> & He2). cbn [fst] in E'. apply sapp_inj in E'. by exists e2. }
  assert (ok1 = ok2) as Eok.
  { rewrite Hok1, Hok2, Hlen. unfold ENDPOINT_RECIPIENT_LIMIT. f_equal. by apply bool_decide_ext. }
  split_and!; [done|done|done|]. clear Hok1 Hok2. rewrite Hp1. subst ok2.
  assert (Permutation (filter (fun e => now < row_expiry e.2) (di_rows d'))
    (if ok1 then ("endpoint:" +++ key, record) :: storage_delete ("endpoint:" +++ key) live2 else live2)) as Hp2'.
  { assert (forall l, filter (fun e => now < row_expiry e.2) (filter (fun e => now < row_expiry e.2) l)
      = filter (fun e : jstr * jsv => now < row_expiry e.2) l) as Hidem
      by (intros l; rewrite list_filter_filter; apply list_filter_iff; tauto).
    assert (filter (fun e => now < row_expiry e.2) (storage_delete ("endpoint:" +++ key) live2)
      = storage_delete ("endpoint:" +++ key) live2) as Hkept.
    { rewrite (filter_ext_in _ (fun _ => True)); [by apply filter_always|].
      intros [k r] He. split; [done|]. intros _. apply map_delete_elem in He as [_ He]. by apply list_elem_of_filter in He as [? _]. }
    destruct ok1; pose proof (filter_Permutation (fun e => now < row_expiry e.2) _ _ Hp2) as Hf; (etrans; [exact Hf|]).
    - rewrite (filter_cons_True (fun e => now < row_expiry e.2) ("endpoint:" +++ key, record)) by exact Hexp. by rewrite Hkept.
    - unfold live2. by rewrite Hidem. }
  rewrite Hp2'. destruct ok1; [|done]. cbn [map fst snd]. apply Permutation_skip.
  unfold storage_delete, map_delete.
  rewrite (map_filter_iff (fun e => ("endpoint:" +++ e.1, e.2)) (fun e => e.1 <> key) (fun e => e.1 <> "endpoint:" +++ key)),
    (map_filter_iff (fun e => (e.1, endpoint_of e.2)) (fun e => e.1 <> "endpoint:" +++ key) (fun e => e.1 <> "endpoint:" +++ key)).
  - by apply filter_Permutation.
  - done.
  - intros [k e] _. cbn [fst]. by rewrite sapp_prefix_inj.
Qed.

(** A refused record moves the room's alarm: [handleEndpoint] reschedules the task and
    wake alarms only after a success, but the purge of a refused store has already
    replaced the alarm, here of a job due at 50, by the directory's own. *)
Lemma refused_endpoint_moves_alarm :
  let row (n : N) := ("endpoint:" +++ JS [n], JObj [("expiresAt", JNum (NInt 900))]) in
  let d := {| di_rows := map row (map N.of_nat (seq 65 32)); di_alarm := Some 50 |} in
  let '(d', ok) := putDirectoryEndpoint d (JS [120%N]) (JObj [("expiresAt", JNum (NInt 900))]) 10 in
  ok = false /\ di_alarm d' = Some 900.
Proof. vm_compute. split; reflexivity. Qed.

(** ** Witnesses *)

Module Examples.
Definition room : jstr := JS (repeat 97%N 16).
Definition record : jsv := JObj [("nonce", JStr "AAAAAAAAAAAAAAAAAAAAAAAAAAAAAAAA"); ("box", JStr "AAAAAAAAAAAAAAAAAAAAAAAA");
  ("expiresAt", JNum (NInt 100))].
Definition nothing : directory := {| di_rows := []; di_alarm := None |}.
End Examples.

Lemma directory_bounded_witness :
  let '(d', ok) := putDirectoryEndpoint Examples.nothing Examples.room Examples.record 10 in
  directory_wf d' /\ Z.of_nat (length (di_rows d')) <= ENDPOINT_RECIPIENT_LIMIT.
Proof.
  assert (directory_wf Examples.nothing) as Hwf by (split; constructor).
  pose proof (directory_bounded Examples.nothing Examples.room Examples.record 10 Hwf eq_refl) as H.
  destruct (putDirectoryEndpoint _ _ _ _) as [d' ok]. destruct H as (H1 & H2 & _); [discriminate|]. split; assumption.
Defined.

Lemma directories_agree_witness :
  let '(t', ok1) := putEndpoint [] Examples.room Examples.record 10 in
  let '(d', ok2) := putDirectoryEndpoint Examples.nothing Examples.room Examples.record 10 in
  ok1 = ok2 /\ same_directory Examples.room 10 t' d'.
Proof.
  assert (directory_wf Examples.nothing) as Hwf by (split; constructor).
  assert (same_directory Examples.room 10 [] Examples.nothing) as Hsame by constructor.
  pose proof (directories_agree Examples.room None Examples.room [] Examples.nothing Examples.record 10
    eq_refl (NoDup_nil_2) Hwf eq_refl Hsame) as H.
  destruct (putEndpoint _ _ _ _) as [t' ok1]. destruct (putDirectoryEndpoint _ _ _ _) as [d' ok2].
  destruct H as (H1 & _ & _ & H4). split; assumption.
Defined.
