(* ===== verification/Activities.v ===== *)
(** * Live task activities
    [src/taskActivities/policy.js], [registry/sqlite.js], [registry/worker.js],
    [delivery/endpoint.js] and the payload of [delivery/apns.js].

    A phone enrolls up to eight encrypted activities of a room; a machine pushes
    updates to them.  [ActivityRegistry] is the interface between the endpoint and
    the two registries, [ActivityLaws] what the endpoint's theorems rely on. *)

From Stdlib Require Import Permutation.
From S2P Require Import Prelude Base64 Validation Storage.
#[local] Open Scope bool_scope.
#[local] Open Scope Z_scope.
#[local] Open Scope js_scope.

(** ** [policy.js] *)

Definition ACTIVITY_TTL_MS : Z := 8 * 60 * 60 * 1000.
Definition ACTIVITY_LIMIT : Z := 8.
Definition ACTIVITY_BODY_LIMIT : Z := 8192.
Definition ACTIVITY_BUNDLE_ID : jstr := "com.ziborov.granttap".

Definition fields (value : jsv) (names : list jstr) : bool :=
  match value with
  | JObj fs => Nat.eqb (length fs) (length names) && forallb (fun name => bool_decide (name ∈ names)) fs.*1
  | _ => false
  end.

Definition validActivityId (value : jsv) : bool := match value with JStr s => re_class cls_word 1 180 s | _ => false end.

(** [/^[a-fA-F0-9]{32,512}$/] and an even length. *)
Definition activity_token (value : jsv) : bool :=
  match value with JStr s => re_class cls_hex_any 32 512 s && (slen s mod 2 =? 0) | _ => false end.

Definition canonical64 (value : jsv) (lo hi : Z) : bool := match validBase64 value lo hi with Ok b => b | Throw => false end.

Definition validActivityRegistration (body : jsv) (now : Z) : bool :=
  fields body ["activityId"; "token"; "environment"; "bundleId"; "expiresAt"; "nonce"; "box"]
  && validActivityId (get "activityId" body) && activity_token (get "token" body)
  && str_in (get "environment" body) ["sandbox"; "production"] && is_str (get "bundleId" body) ACTIVITY_BUNDLE_ID
  && is_safe_int (get "expiresAt" body) && (now <? int_of (get "expiresAt" body))
  && (int_of (get "expiresAt" body) <=? now + ACTIVITY_TTL_MS)
  && canonical64 (get "nonce" body) 32 32 && canonical64 (get "box" body) 24 2048.

Definition validActivityUpdate (body : jsv) (now : Z) : bool :=
  let seconds := now / 1000 in
  let content := get "contentState" body in
  fields body ["activityId"; "deliveryId"; "event"; "staleDate"; "contentState"]
  && validActivityId (get "activityId" body) && validActivityId (get "deliveryId" body)
  && str_in (get "event" body) ["update"; "end"]
  && is_safe_int (get "staleDate" body) && (seconds - 300 <=? int_of (get "staleDate" body))
  && (int_of (get "staleDate" body) <=? seconds + 120)
  && fields content ["nonce"; "box"] && canonical64 (get "nonce" content) 32 32 && canonical64 (get "box" content) 24 3072.

(** ** The registry interface *)

Record route := {
  rt_activityId : jstr; rt_token : jstr; rt_environment : jstr; rt_bundleId : jstr; rt_expiresAt : Z;
  rt_nonce : jstr; rt_box : jstr; rt_lastDeliveryId : option jstr; rt_lastDeliveredAt : Z;
}.
#[export] Instance route_eq_dec : EqDecision route.
Proof. solve_decision. Defined.

(** The members of a route that a listing shows. *)
Record subscription := { sb_activityId : jstr; sb_expiresAt : Z; sb_nonce : jstr; sb_box : jstr }.
Definition subscription_of (r : route) : subscription :=
  {| sb_activityId := rt_activityId r; sb_expiresAt := rt_expiresAt r; sb_nonce := rt_nonce r; sb_box := rt_box r |}.

(** The stored record of a registration; a route that is enrolled again keeps its
    delivery state. *)
Definition private_record (body : jsv) (existing : option route) : route :=
  {| rt_activityId := str_of (get "activityId" body); rt_token := lower (str_of (get "token" body));
     rt_environment := str_of (get "environment" body); rt_bundleId := str_of (get "bundleId" body);
     rt_expiresAt := int_of (get "expiresAt" body); rt_nonce := str_of (get "nonce" body); rt_box := str_of (get "box" body);
     rt_lastDeliveryId := match existing with Some r => rt_lastDeliveryId r | None => None end;
     rt_lastDeliveredAt := match existing with Some r => rt_lastDeliveredAt r | None => 0 end |}.

Definition set_delivered (deliveryId : jstr) (now : Z) (r : route) : route :=
  {| rt_activityId := rt_activityId r; rt_token := rt_token r; rt_environment := rt_environment r; rt_bundleId := rt_bundleId r;
     rt_expiresAt := rt_expiresAt r; rt_nonce := rt_nonce r; rt_box := rt_box r;
     rt_lastDeliveryId := Some deliveryId; rt_lastDeliveredAt := now |}.

Class ActivityRegistry (S : Type) := {
  act_register : S -> jstr -> jsv -> Z -> S * bool;
  act_list : S -> jstr -> Z -> S * list subscription;
  act_get : S -> jstr -> jstr -> Z -> S * option route;
  act_remove : S -> jstr -> jstr -> Z -> S;
  act_delivered : S -> jstr -> jstr -> jstr -> Z -> S;
}.

Definition route_live (now : Z) (r : route) : bool := now <? rt_expiresAt r.
Definition find_route (id : jstr) (l : list route) : option route := List.find (fun r => rt_activityId r =?s id) l.
Definition without (id : jstr) (l : list route) : list route := filter (fun r => rt_activityId r <> id) l.

Class ActivityLaws (S : Type) `{ActivityRegistry S} := {
  al_wf : S -> Prop;
  (** the live routes of a room *)
  al_rows : S -> jstr -> Z -> list route;
  al_unique : forall s room now, al_wf s -> NoDup (map rt_activityId (al_rows s room now));
  al_later : forall s room now now', now <= now' -> al_rows s room now' = filter (route_live now') (al_rows s room now);
  al_register : forall s room body now, al_wf s -> validActivityRegistration body now = true ->
    let '(s', ok) := act_register s room body now in
    let old := find_route (str_of (get "activityId" body)) (al_rows s room now) in
    al_wf s' /\ ok = bool_decide (is_Some old) || (Z.of_nat (length (al_rows s room now)) <? ACTIVITY_LIMIT) /\
    Permutation (al_rows s' room now)
      (if ok then private_record body old :: without (str_of (get "activityId" body)) (al_rows s room now) else al_rows s room now) /\
    (forall room', room' <> room -> al_rows s' room' now = al_rows s room' now);
  al_list : forall s room now, al_wf s ->
    let '(s', l) := act_list s room now in
    al_wf s' /\ Permutation l (map subscription_of (al_rows s room now)) /\ (forall room', al_rows s' room' now = al_rows s room' now);
  al_get : forall s room id now, al_wf s ->
    let '(s', r) := act_get s room id now in
    al_wf s' /\ r = find_route id (al_rows s room now) /\ (forall room', al_rows s' room' now = al_rows s room' now);
  al_remove : forall s room id now, al_wf s ->
    al_wf (act_remove s room id now) /\ al_rows (act_remove s room id now) room now = without id (al_rows s room now) /\
    (forall room', room' <> room -> al_rows (act_remove s room id now) room' now = al_rows s room' now);
  al_delivered : forall s room id d now, al_wf s ->
    al_wf (act_delivered s room id d now) /\
    al_rows (act_delivered s room id d now) room now
      = map (fun r => if rt_activityId r =?s id then set_delivered d now r else r) (al_rows s room now) /\
    (forall room', room' <> room -> al_rows (act_delivered s room id d now) room' now = al_rows s room' now);
}.

(** ** [registry/sqlite.js] *)

(** The table [task_activities]; the delivery columns are separate from the record. *)
Abbreviation activity_table := (list ((jstr * jstr) * route)).

Definition in_activities (room : jstr) (e : (jstr * jstr) * route) : bool := e.1.1 =?s room.
Definition purge_activities (now : Z) (t : activity_table) : activity_table := filter (fun e => negb (rt_expiresAt e.2 <=? now)) t.

Definition sqlite_get (t : activity_table) (room id : jstr) (now : Z) : activity_table * option route :=
  let t1 := purge_activities now t in (t1, map_get (room, id) t1).

Definition sqlite_register (t : activity_table) (room : jstr) (body : jsv) (now : Z) : activity_table * bool :=
  if negb (validActivityRegistration body now) then (t, false) else
  let t1 := purge_activities now t in
  let id := str_of (get "activityId" body) in
  let '(t2, existing) := sqlite_get t1 room id now in
  let count := Z.of_nat (length (filter (in_activities room) t2)) in
  if bool_decide (existing = None) && (ACTIVITY_LIMIT <=? count) then (t2, false)
  else (map_set (room, id) (private_record body existing) t2, true).

(** [ORDER BY activity_id]: insertion by the order of the identifiers. *)
Fixpoint insert_by {A} (le : A -> A -> bool) (x : A) (l : list A) : list A :=
  match l with [] => [x] | y :: rest => if le x y then x :: l else y :: insert_by le x rest end.
Definition sort_by {A} (le : A -> A -> bool) (l : list A) : list A := foldr (insert_by le) [] l.

Definition sqlite_list (t : activity_table) (room : jstr) (now : Z) : activity_table * list subscription :=
  let t1 := purge_activities now t in
  (t1, map subscription_of (sort_by (fun a b => key_le (rt_activityId a) (rt_activityId b)) (map snd (filter (in_activities room) t1)))).

Definition sqlite_remove (t : activity_table) (room id : jstr) (now : Z) : activity_table := map_delete (room, id) t.

Definition sqlite_delivered (t : activity_table) (room id deliveryId : jstr) (now : Z) : activity_table :=
  map_update (fun k r => if bool_decide (k = (room, id)) && (now <? rt_expiresAt r) then set_delivered deliveryId now r else r) t.

#[export] Instance sqlite_activities : ActivityRegistry activity_table :=
  {| act_register := sqlite_register; act_list := sqlite_list; act_get := sqlite_get;
     act_remove := sqlite_remove; act_delivered := sqlite_delivered |}.

(** ** [registry/worker.js] *)

(** The value of the key ["task-activities:v1:<room>"]. *)
Abbreviation activity_storage := (list (jstr * list route)).

(** The transaction of [change]: expired rows are dropped, an empty list is deleted. *)
Definition change {R} (st : activity_storage) (room : jstr) (now : Z) (update : list route -> list route * R) : activity_storage * R :=
  let rows := filter (route_live now) (default [] (map_get room st)) in
  let '(rows', result) := update rows in
  (match rows' with [] => map_delete room st | _ => map_set room rows' st end, result).

(** [rows.splice(rows.indexOf(existing), 1, privateRecord)] *)
Fixpoint splice (id : jstr) (new : list route) (rows : list route) : list route :=
  match rows with [] => [] | r :: rest => if rt_activityId r =?s id then new ++ rest else r :: splice id new rest end.

(** The update of [register]. *)
Definition enroll (body : jsv) (rows : list route) : list route * bool :=
  let id := str_of (get "activityId" body) in
  let existing := find_route id rows in
  match existing with
  | None => if ACTIVITY_LIMIT <=? Z.of_nat (length rows) then (rows, false) else (rows ++ [private_record body existing], true)
  | Some _ => (splice id [private_record body existing] rows, true)
  end.

Definition worker_register (st : activity_storage) (room : jstr) (body : jsv) (now : Z) : activity_storage * bool :=
  if negb (validActivityRegistration body now) then (st, false) else change st room now (enroll body).

Definition worker_get (st : activity_storage) (room id : jstr) (now : Z) : activity_storage * option route :=
  change st room now (fun rows => (rows, find_route id rows)).
Definition worker_remove (st : activity_storage) (room id : jstr) (now : Z) : activity_storage :=
  (change st room now (fun rows => (splice id [] rows, tt))).1.

(** The first row with the identifier. *)
Fixpoint update_first (id deliveryId : jstr) (now : Z) (rows : list route) : list route :=
  match rows with
  | [] => []
  | r :: rest => if rt_activityId r =?s id then set_delivered deliveryId now r :: rest else r :: update_first id deliveryId now rest
  end.
Definition worker_delivered (st : activity_storage) (room id deliveryId : jstr) (now : Z) : activity_storage :=
  (change st room now (fun rows => (update_first id deliveryId now rows, tt))).1.

(** [locale_le a b] is [a.localeCompare(b) <= 0]. *)
Definition worker_list (locale_le : jstr -> jstr -> bool) (st : activity_storage) (room : jstr) (now : Z) : activity_storage * list subscription :=
  change st room now (fun rows =>
    (rows, sort_by (fun a b => locale_le (sb_activityId a) (sb_activityId b)) (map subscription_of rows))).

Definition worker_activities (locale_le : jstr -> jstr -> bool) : ActivityRegistry activity_storage :=
  {| act_register := worker_register; act_list := worker_list locale_le; act_get := worker_get;
     act_remove := worker_remove; act_delivered := worker_delivered |}.

(** ** The laws of the SQLite registry *)

Definition table_rows (t : activity_table) (room : jstr) (now : Z) : list route :=
  map snd (filter (fun e => in_activities room e && route_live now e.2) t).

Record activities_wf (t : activity_table) : Prop := {
  aw_keys : NoDup t.*1; aw_id : forall e, e ∈ t -> e.1.2 = rt_activityId e.2;
}.

Lemma insert_by_perm {A} (le : A -> A -> bool) x l : Permutation (insert_by le x l) (x :: l).
Proof. induction l as [|y l IH]; simpl; [done|]. case_match; [done|]. rewrite IH. by constructor. Qed.

Lemma sort_by_perm {A} (le : A -> A -> bool) l : Permutation (sort_by le l) l.
Proof. induction l as [|x l IH]; [done|]. simpl. rewrite insert_by_perm. by constructor. Qed.

Lemma filter_map {A B} (f : A -> B) (p : B -> bool) (l : list A) : filter p (map f l) = map f (filter (fun x => p (f x)) l).
Proof. induction l as [|x l IH]; [done|]. cbn [map]. rewrite !filter_cons. destruct (decide _); simpl; by rewrite IH. Qed.

Lemma filter_and {A} (p q : A -> bool) (l : list A) : filter p (filter q l) = filter (fun x => q x && p x) l.
Proof. rewrite list_filter_filter. apply list_filter_iff. intros x. rewrite andb_True. tauto. Qed.

Lemma filter_bool_ext {A} (p q : A -> bool) (l : list A) : (forall x, x ∈ l -> p x = q x) -> filter p l = filter q l.
Proof. intros H. apply filter_ext_in. intros x Hx. by rewrite H. Qed.

Lemma table_rows_later t room now now' : now <= now' -> table_rows t room now' = filter (route_live now') (table_rows t room now).
Proof.
  intros H. unfold table_rows. rewrite filter_map, filter_and. f_equal. apply filter_bool_ext. intros e _. unfold route_live.
  rewrite <- andb_assoc. f_equal. destruct (Z.ltb_spec now' (rt_expiresAt e.2)), (Z.ltb_spec now (rt_expiresAt e.2)); done || lia.
Qed.

Lemma purge_activities_wf now t : activities_wf t -> activities_wf (purge_activities now t).
Proof.
  intros [Hn Hi]. split; [eapply sublist_NoDup; [exact Hn|apply sublist_keys, sublist_filter]|].
  intros e He. apply list_elem_of_filter in He as [_ He]. auto.
Qed.

Lemma purge_activities_rows now t room : table_rows (purge_activities now t) room now = table_rows t room now.
Proof.
  unfold table_rows, purge_activities. rewrite filter_and. f_equal. apply filter_bool_ext. intros e _. unfold route_live.
  destruct (Z.leb_spec (rt_expiresAt e.2) now), (Z.ltb_spec now (rt_expiresAt e.2)); simpl; rewrite ?andb_false_r; done || lia.
Qed.

Lemma purged_rows now t room : map snd (filter (in_activities room) (purge_activities now t)) = table_rows t room now.
Proof.
  rewrite <- purge_activities_rows. unfold table_rows. f_equal. apply filter_bool_ext. intros e He. apply list_elem_of_filter in He as [He _].
  apply Is_true_true, negb_true_iff, Z.leb_gt in He. unfold route_live. rewrite (proj2 (Z.ltb_lt _ _)) by done. by rewrite andb_true_r.
Qed.

Lemma room_unique t room : activities_wf t -> NoDup (map rt_activityId (map snd (filter (in_activities room) t))).
Proof.
  intros [Hn Hi]. induction t as [|[[r i] x] t IH]; [constructor|]. apply NoDup_cons in Hn as [Hk Hn].
  assert (NoDup (map rt_activityId (map snd (filter (in_activities room) t)))) as IH' by (apply IH; [done|intros; apply Hi; by right]).
  rewrite filter_cons. case_decide as Hr; [|done]. simpl. constructor; [|done].
  unfold in_activities, jeqb in Hr. apply bool_decide_unpack in Hr. simpl in Hr. subst r.
  intros Hin. apply list_elem_of_fmap in Hin as (y & Ey & Hin). apply list_elem_of_fmap in Hin as (e & -> & Hin).
  apply list_elem_of_filter in Hin as [Hr Hin]. unfold in_activities, jeqb in Hr. apply bool_decide_unpack in Hr.
  apply Hk. apply list_elem_of_fmap. exists e. split; [|done]. pose proof (Hi e ltac:(by right)) as He.
  pose proof (Hi (room, i, x) ltac:(by left)) as Hx. destruct e as [[r' i'] y]. simpl in *. congruence.
Qed.

Lemma table_rows_unique t room now : activities_wf t -> NoDup (map rt_activityId (table_rows t room now)).
Proof. intros H. rewrite <- purged_rows. by apply room_unique, purge_activities_wf. Qed.

Lemma find_route_iff id l r : NoDup (map rt_activityId l) -> find_route id l = Some r <-> r ∈ l /\ rt_activityId r = id.
Proof.
  intros Hn. unfold find_route. split.
  - intros H. apply find_some in H as [Hin E]. apply list_elem_of_In in Hin. by apply bool_decide_eq_true in E.
  - intros [Hin <-]. induction l as [|x l IH]; [set_solver|]. simpl in *. apply NoDup_cons in Hn as [Hx Hn].
    apply elem_of_cons in Hin as [->|Hin]; unfold jeqb; [by rewrite bool_decide_eq_true_2|].
    rewrite bool_decide_eq_false_2; [by apply IH|]. intros E. apply Hx. rewrite E. by apply list_elem_of_fmap_2.
Qed.

Lemma find_route_eq id l o :
  NoDup (map rt_activityId l) -> (forall r, o = Some r <-> r ∈ l /\ rt_activityId r = id) -> o = find_route id l.
Proof.
  intros Hn H. destruct o as [r|], (find_route id l) as [r'|] eqn:E; try done.
  - apply (find_route_iff _ _ _ Hn) in E. apply H in E. congruence.
  - pose proof (proj1 (H r) eq_refl) as Hr. apply (find_route_iff _ _ _ Hn) in Hr. congruence.
  - apply (find_route_iff _ _ _ Hn) in E. apply H in E. congruence.
Qed.

Lemma sqlite_get_spec t room id now : activities_wf t -> (sqlite_get t room id now).2 = find_route id (table_rows t room now).
Proof.
  intros Hwf. unfold sqlite_get. cbn [snd]. pose proof (purge_activities_wf now t Hwf) as [Hn Hi]. apply find_route_eq; [by apply table_rows_unique|].
  intros r. rewrite <- purged_rows, list_elem_of_fmap. setoid_rewrite list_elem_of_filter. split.
  - intros H. apply map_get_Some in H. pose proof (Hi _ H) as E. simpl in E. split; [|done]. exists (room, id, r). split; [done|].
    split; [|done]. unfold in_activities, jeqb. by apply bool_decide_spec.
  - intros [(e & -> & Hr & He) <-]. apply map_get_In; [done|]. pose proof (Hi _ He) as E. destruct e as [[r' i] x]. simpl in *.
    unfold in_activities, jeqb in Hr. apply bool_decide_spec in Hr. simpl in Hr. by subst.
Qed.

Lemma table_rows_other_set t room room' id r now :
  NoDup t.*1 -> room' <> room -> table_rows (map_set (room, id) r t) room' now = table_rows t room' now.
Proof.
  intros Hn Hne. unfold table_rows. clear Hn.
  assert (forall x : route, in_activities room' (room, id, x) = false) as Hx
    by (intros x; apply bool_decide_eq_false_2; simpl; congruence).
  induction t as [|[k x] t IH]; simpl; [by rewrite filter_cons, Hx|].
  case_decide as E; [subst k; by rewrite !filter_cons, !Hx|]. rewrite !filter_cons. destruct (decide _); simpl; by rewrite IH.
Qed.

Lemma table_rows_set t room id r now :
  activities_wf t -> route_live now r = true ->
  Permutation (table_rows (map_set (room, id) r t) room now) (r :: without id (table_rows t room now)).
Proof.
  intros [Hn Hi] Hl. unfold table_rows. etrans; [apply Permutation_map, filter_Permutation, map_set_perm, Hn|].
  rewrite (filter_cons_True (fun e => in_activities room e && route_live now e.2)).
  2: { unfold in_activities, jeqb. simpl. rewrite bool_decide_eq_true_2 by done. by rewrite Hl. }
  cbn [map snd]. apply Permutation_skip, Permutation_refl'. unfold without, map_delete.
  rewrite <- (map_filter_iff snd (fun e => rt_activityId e.2 <> id) (fun x => rt_activityId x <> id)) by done. f_equal.
  etrans; [apply list_filter_filter|]. symmetry. etrans; [apply list_filter_filter|]. apply filter_ext_in. intros e He.
  specialize (Hi e He). destruct e as [[r' i] x]. simpl in *. subst i. unfold in_activities, jeqb. simpl.
  rewrite andb_True, bool_decide_spec. split.
  - intros (H1 & -> & H3). split_and!; [done|done|congruence].
  - intros ((-> & H3) & H1). split_and!; [|done|done]. intros E. apply H1. by rewrite E.
Qed.

Lemma table_rows_remove t room room' id now :
  activities_wf t ->
  table_rows (map_delete (room, id) t) room' now
  = if decide (room' = room) then without id (table_rows t room now) else table_rows t room' now.
Proof.
  intros [Hn Hi]. unfold table_rows, map_delete. destruct (decide (room' = room)) as [->|Hr].
  - unfold without. rewrite <- (map_filter_iff snd (fun e => rt_activityId e.2 <> id) (fun x => rt_activityId x <> id)) by done. f_equal.
    etrans; [apply list_filter_filter|]. symmetry. etrans; [apply list_filter_filter|]. apply filter_ext_in. intros e He.
    specialize (Hi e He). destruct e as [[r' i] x]. simpl in *. subst i. unfold in_activities, jeqb. simpl.
    rewrite andb_True, bool_decide_spec. split.
    + intros (H1 & -> & H3). split_and!; [done|done|congruence].
    + intros ((-> & H3) & H1). split_and!; [|done|done]. intros E. apply H1. by rewrite E.
  - f_equal. etrans; [apply list_filter_filter|]. apply filter_ext_in. intros e He. split; [tauto|]. intros Hx. split; [done|].
    intros E. apply andb_True in Hx as [Hx _]. unfold in_activities, jeqb in Hx. apply bool_decide_spec in Hx.
    rewrite E in Hx. simpl in Hx. congruence.
Qed.

Lemma filter_map_update {K} (p : K * route -> bool) (g : K -> route -> route) (t : list (K * route)) :
  (forall k r, p (k, g k r) = p (k, r)) ->
  filter p (map_update g t) = map_update g (filter p t).
Proof.
  intros H. unfold map_update. induction t as [|[k r] t IH]; [done|]. cbn [fmap list_fmap]. rewrite !filter_cons. simpl. rewrite H.
  destruct (decide _); simpl; [f_equal|]; exact IH.
Qed.

Lemma table_rows_delivered t room room' id d now :
  activities_wf t ->
  table_rows (sqlite_delivered t room id d now) room' now
  = if decide (room' = room) then map (fun r => if rt_activityId r =?s id then set_delivered d now r else r) (table_rows t room now)
    else table_rows t room' now.
Proof.
  intros [Hn Hi]. unfold table_rows, sqlite_delivered. rewrite filter_map_update.
  2: { intros k r. unfold in_activities, route_live. simpl. by destruct (bool_decide (k = _) && _). }
  unfold map_update. change (@fmap list list_fmap) with (@map). rewrite map_map.
  destruct (decide (room' = room)) as [->|Hr]; [rewrite map_map|]; apply map_ext_in; intros e He; simpl;
    apply list_elem_of_In, list_elem_of_filter in He as [Hp He]; apply andb_True in Hp as [Hp Hl];
    unfold in_activities, jeqb in Hp; apply bool_decide_spec in Hp; unfold route_live in Hl; apply Is_true_true in Hl;
    rewrite ?Hl, ?andb_true_r; specialize (Hi e He); destruct e as [[r' i] x]; simpl in *; subst.
  - unfold jeqb. rewrite (bool_decide_ext ((room, rt_activityId x) = (room, id)) (rt_activityId x = id)); [done|]. split; congruence.
  - rewrite (bool_decide_eq_false_2 ((_, _) = (room, id))); [done|congruence].
Qed.

#[export] Instance sqlite_activity_laws : ActivityLaws activity_table.
Proof.
  refine {| al_wf := activities_wf; al_rows := table_rows |}.
  - intros t room now H. by apply table_rows_unique.
  - intros t room now now'. apply table_rows_later.
  - intros t room body now Hwf Hv. unfold act_register, sqlite_activities, sqlite_register. rewrite Hv. cbn [negb].
    set (id := str_of (get "activityId" body)). set (t1 := purge_activities now t).
    pose proof (purge_activities_wf now t Hwf) as Hwf1. fold t1 in Hwf1.
    assert (sqlite_get t1 room id now = (t1, find_route id (table_rows t room now))) as ->.
    { rewrite <- (purge_activities_rows now t room). fold t1. rewrite <- sqlite_get_spec by done. unfold sqlite_get. f_equal.
      unfold t1, purge_activities. rewrite filter_and. apply filter_bool_ext. intros e _. by destruct (negb _). }
    assert (Z.of_nat (length (filter (in_activities room) t1)) = Z.of_nat (length (table_rows t room now))) as ->
      by (unfold t1; rewrite <- (purged_rows now t room), length_map; done).
    assert (route_live now (private_record body (find_route id (table_rows t room now))) = true) as Hl.
    { unfold validActivityRegistration in Hv. split_andb. done. }
    assert (forall o : option route, bool_decide (o = None) = negb (bool_decide (is_Some o))) as -> by (by intros []).
    destruct (negb _ && _) eqn:E.
    + apply andb_true_iff in E as [E1%negb_true_iff E2]. rewrite E1. simpl. split_and!; [done| |by rewrite (purge_activities_rows now t)|].
      * symmetry. apply Z.ltb_ge. by apply Z.leb_le.
      * intros room' _. apply purge_activities_rows.
    + split_and!.
      * destruct Hwf1 as [Hn1 Hi1]. split; [by apply map_set_nodup|]. intros [k r] He.
        apply map_set_elem in He as [[-> ->]|[_ He]]; [done|by apply (Hi1 (k, r))|done].
      * symmetry. destruct (bool_decide _); [done|]. simpl in *. apply Z.ltb_lt. by apply Z.leb_gt.
      * etrans; [by apply table_rows_set|]. unfold t1. by rewrite purge_activities_rows.
      * intros room' Hne. rewrite table_rows_other_set by (done || apply Hwf1). apply purge_activities_rows.
  - intros t room now Hwf. simpl. split_and!; [by apply purge_activities_wf| |intros; apply purge_activities_rows].
    rewrite <- purged_rows. apply Permutation_map, sort_by_perm.
  - intros t room id now Hwf. pose proof (sqlite_get_spec t room id now Hwf) as H. simpl in *.
    split_and!; [by apply purge_activities_wf|done|intros; apply purge_activities_rows].
  - intros t room id now Hwf. simpl. unfold sqlite_remove. split_and!.
    + destruct Hwf as [Hn Hi]. split; [by apply map_delete_nodup|]. intros e He. destruct e as [k r]. apply map_delete_elem in He as [_ He]. by apply (Hi (k, r)).
    + by rewrite table_rows_remove, decide_True.
    + intros room' Hne. by rewrite table_rows_remove, decide_False.
  - intros t room id d now Hwf. simpl. split_and!.
    + destruct Hwf as [Hn Hi]. split; [unfold sqlite_delivered; by rewrite map_update_keys|]. intros e He.
      unfold sqlite_delivered, map_update in He. apply list_elem_of_fmap in He as (e0 & -> & He). simpl. rewrite (Hi e0 He). by destruct (_ && _).
    + by rewrite table_rows_delivered, decide_True.
    + intros room' Hne. by rewrite table_rows_delivered, decide_False.
Defined.

(** ** The laws of the Worker registry *)

Definition stored_rows (st : activity_storage) (room : jstr) (now : Z) : list route :=
  filter (route_live now) (default [] (map_get room st)).

Definition storage_unique (st : activity_storage) : Prop :=
  forall room, NoDup (map rt_activityId (default [] (map_get room st))).

Lemma filter_unique (p : route -> bool) l : NoDup (map rt_activityId l) -> NoDup (map rt_activityId (filter p l)).
Proof. intros H. eapply sublist_NoDup; [exact H|]. apply sublist_fmap, sublist_filter. Qed.

Lemma without_unique id l : NoDup (map rt_activityId l) -> NoDup (map rt_activityId (without id l)).
Proof. intros H. eapply sublist_NoDup; [exact H|]. apply sublist_fmap, sublist_filter. Qed.

Lemma find_route_None id l : find_route id l = None <-> id ∉ map rt_activityId l.
Proof.
  unfold find_route. induction l as [|r l IH]; simpl; [split; [intros _; apply not_elem_of_nil|done]|].
  unfold jeqb at 1. destruct (decide (rt_activityId r = id)) as [E|E].
  - rewrite bool_decide_eq_true_2 by done. split; [done|]. intros H. exfalso. apply H. rewrite E. by left.
  - rewrite bool_decide_eq_false_2 by done. rewrite not_elem_of_cons, IH. intuition congruence.
Qed.

Lemma without_absent id l : id ∉ map rt_activityId l -> without id l = l.
Proof.
  intros H. unfold without. apply filter_all_in. intros r Hr E. apply H. rewrite <- E.
  by apply list_elem_of_fmap_2.
Qed.

Lemma splice_without id new l : NoDup (map rt_activityId l) -> id ∈ map rt_activityId l -> Permutation (splice id new l) (new ++ without id l).
Proof.
  induction l as [|r l IH]; [set_solver|]. simpl. rewrite NoDup_cons, elem_of_cons. intros [Hr Hn] Hin. unfold jeqb, without.
  destruct (decide (rt_activityId r = id)) as [E|E].
  - rewrite bool_decide_eq_true_2, filter_cons_False by tauto. fold (without id l). rewrite without_absent; [done|congruence].
  - rewrite bool_decide_eq_false_2, filter_cons_True by done. fold (without id l). rewrite IH; [|done|by destruct Hin].
    by rewrite Permutation_middle.
Qed.

Lemma splice_nil id l : NoDup (map rt_activityId l) -> splice id [] l = without id l.
Proof.
  induction l as [|r l IH]; [done|]. simpl. rewrite NoDup_cons. intros [Hr Hn]. unfold jeqb, without.
  destruct (decide (rt_activityId r = id)) as [E|E].
  - rewrite bool_decide_eq_true_2, filter_cons_False by tauto. fold (without id l). by rewrite without_absent by congruence.
  - rewrite bool_decide_eq_false_2, filter_cons_True by done. f_equal. by apply IH.
Qed.

Lemma update_first_map id d now l :
  NoDup (map rt_activityId l) ->
  update_first id d now l = map (fun r => if rt_activityId r =?s id then set_delivered d now r else r) l.
Proof.
  induction l as [|r l IH]; [done|]. simpl. rewrite NoDup_cons. intros [Hr Hn]. unfold jeqb at 1 2.
  destruct (decide (rt_activityId r = id)) as [E|E].
  - rewrite bool_decide_eq_true_2 by done. f_equal. symmetry. rewrite <- (map_id l) at 2. apply map_ext_in. intros x Hx.
    unfold jeqb. rewrite bool_decide_eq_false_2; [done|]. intros E'. apply Hr. rewrite E, <- E'.
    by apply list_elem_of_fmap_2, list_elem_of_In.
  - rewrite bool_decide_eq_false_2 by done. f_equal. by apply IH.
Qed.

Lemma map_delivered_ids id d now l :
  map rt_activityId (map (fun r => if rt_activityId r =?s id then set_delivered d now r else r) l) = map rt_activityId l.
Proof. rewrite map_map. apply map_ext. intros r. by destruct (_ =?s _). Qed.

Lemma change_spec {R} st room now (update : list route -> list route * R) rows' result :
  storage_unique st -> update (stored_rows st room now) = (rows', result) ->
  NoDup (map rt_activityId rows') -> (forall r, r ∈ rows' -> route_live now r = true) ->
  let '(st', result') := change st room now update in
  result' = result /\ storage_unique st' /\ stored_rows st' room now = rows' /\
  (forall room' now', room' <> room -> stored_rows st' room' now' = stored_rows st room' now').
Proof.
  intros Hu Eu Hn Hl. unfold change. fold (stored_rows st room now). rewrite Eu.
  assert (forall room', default [] (map_get room' (match rows' with [] => map_delete room st | _ => map_set room rows' st end))
            = if decide (room' = room) then rows' else default [] (map_get room' st)) as G.
  { intros room'. destruct rows'; rewrite ?map_get_delete, ?map_get_set; by case_decide. }
  split_and!; [done| | |].
  - intros room'. rewrite G. case_decide; [done|apply Hu].
  - unfold stored_rows. rewrite G, decide_True by done. apply filter_all_in. intros r Hr. by rewrite Hl.
  - intros room' now' Hne. unfold stored_rows. by rewrite G, decide_False.
Qed.

Lemma stored_unique st room now : storage_unique st -> NoDup (map rt_activityId (stored_rows st room now)).
Proof. intros H. apply filter_unique, H. Qed.

Lemma stored_live st room now r : r ∈ stored_rows st room now -> route_live now r = true.
Proof. intros H. apply list_elem_of_filter in H as [H _]. by apply Is_true_true. Qed.

Lemma without_elem id l r : r ∈ without id l <-> rt_activityId r <> id /\ r ∈ l.
Proof. unfold without. by rewrite list_elem_of_filter. Qed.

Lemma stored_later st room now now' : now <= now' -> stored_rows st room now' = filter (route_live now') (stored_rows st room now).
Proof.
  intros H. unfold stored_rows. rewrite filter_and. apply filter_bool_ext. intros r _. unfold route_live.
  destruct (Z.ltb_spec now' (rt_expiresAt r)), (Z.ltb_spec now (rt_expiresAt r)); done || lia.
Qed.

(** What [register] leaves in the live list. *)
Lemma enrolled_rows id r l l' :
  rt_activityId r = id -> NoDup (map rt_activityId l) -> Permutation l' (r :: without id l) ->
  NoDup (map rt_activityId l') /\ forall x, x ∈ l' -> x = r \/ x ∈ l.
Proof.
  intros Hi Hn Hp. split.
  - rewrite Hp. simpl. constructor; [|by apply without_unique]. intros Hin. apply list_elem_of_fmap in Hin as (y & Ey & Hy).
    apply without_elem in Hy. intuition congruence.
  - intros x. rewrite Hp, elem_of_cons, without_elem. tauto.
Qed.

Lemma enroll_spec body l :
  NoDup (map rt_activityId l) ->
  let id := str_of (get "activityId" body) in
  let '(l', ok) := enroll body l in
  ok = bool_decide (is_Some (find_route id l)) || (Z.of_nat (length l) <? ACTIVITY_LIMIT) /\
  Permutation l' (if ok then private_record body (find_route id l) :: without id l else l).
Proof.
  intros Hn id. unfold enroll. fold id. destruct (find_route id l) as [r|] eqn:Ef.
  - rewrite bool_decide_eq_true_2 by done. split; [done|]. apply (splice_without id); [done|].
    apply find_route_iff in Ef as [Hin <-]; [|done]. by apply list_elem_of_fmap_2.
  - rewrite bool_decide_eq_false_2 by (by intros []). apply find_route_None in Ef.
    destruct (Z.leb_spec ACTIVITY_LIMIT (Z.of_nat (length l))); simpl.
    + split; [|done]. symmetry. by apply Z.ltb_ge.
    + split; [symmetry; by apply Z.ltb_lt|]. rewrite without_absent by done. apply Permutation_app_comm.
Qed.

Lemma worker_register_laws st room body now :
  storage_unique st -> validActivityRegistration body now = true ->
  let '(st', ok) := worker_register st room body now in
  let old := find_route (str_of (get "activityId" body)) (stored_rows st room now) in
  storage_unique st' /\ ok = bool_decide (is_Some old) || (Z.of_nat (length (stored_rows st room now)) <? ACTIVITY_LIMIT) /\
  Permutation (stored_rows st' room now)
    (if ok then private_record body old :: without (str_of (get "activityId" body)) (stored_rows st room now) else stored_rows st room now) /\
  (forall room', room' <> room -> stored_rows st' room' now = stored_rows st room' now).
Proof.
  intros Hu Hv. unfold worker_register. rewrite Hv. cbn [negb]. set (l := stored_rows st room now).
  pose proof (stored_unique st room now Hu) as Hn. fold l in Hn. pose proof (enroll_spec body l Hn) as He. cbn zeta in *.
  destruct (enroll body l) as [l' ok] eqn:E. destruct He as [Hok Hp].
  assert (NoDup (map rt_activityId l') /\ forall x, x ∈ l' -> route_live now x = true) as [Hn' Hl'].
  { assert (forall x, x ∈ l -> route_live now x = true) as Hl by (intros x; apply stored_live). destruct ok.
    - destruct (enrolled_rows _ _ l l' eq_refl Hn Hp) as [H1 H2]. split; [done|]. intros x Hx.
      destruct (H2 x Hx) as [->|]; [|auto]. unfold validActivityRegistration in Hv. split_andb. done.
    - rewrite Hp. split; [done|]. intros x. rewrite Hp. auto. }
  pose proof (change_spec st room now (enroll body) l' ok Hu E Hn' Hl') as C. destruct (change _ _ _ _) as [st' ok'].
  destruct C as (-> & C1 & C2 & C3). split_and!; [done|done|by rewrite C2|auto].
Qed.

Definition worker_activity_laws locale_le : @ActivityLaws activity_storage (worker_activities locale_le).
Proof.
  refine {| al_wf := storage_unique; al_rows := stored_rows |}.
  - intros st room now. apply stored_unique.
  - intros st room now now'. apply stored_later.
  - intros st room body now. apply worker_register_laws.
  - intros st room now Hu. pose proof (change_spec st room now (fun rows =>
      (rows, sort_by (fun a b => locale_le (sb_activityId a) (sb_activityId b)) (map subscription_of rows)))
      _ _ Hu eq_refl (stored_unique _ _ _ Hu) (stored_live _ _ _)) as C.
    cbn [act_list act_get act_remove act_delivered worker_activities]. unfold worker_list. destruct (change _ _ _ _) as [st' r]. destruct C as (-> & C1 & C2 & C3).
    split_and!; [done|apply sort_by_perm|]. intros room'. destruct (decide (room' = room)) as [->|]; auto.
  - intros st room id now Hu.
    pose proof (change_spec st room now (fun rows => (rows, find_route id rows)) _ _ Hu eq_refl (stored_unique _ _ _ Hu) (stored_live _ _ _)) as C.
    cbn [act_list act_get act_remove act_delivered worker_activities]. unfold worker_get. destruct (change _ _ _ _) as [st' r]. destruct C as (-> & C1 & C2 & C3).
    split_and!; [done|done|]. intros room'. destruct (decide (room' = room)) as [->|]; auto.
  - intros st room id now Hu. cbn [act_list act_get act_remove act_delivered worker_activities]. unfold worker_remove. pose proof (stored_unique st room now Hu) as Hn.
    pose proof (change_spec st room now (fun rows => (splice id [] rows, tt)) _ _ Hu eq_refl) as C.
    destruct (change _ _ _ _) as [st' r]. rewrite splice_nil in C by done.
    destruct C as (-> & C1 & C2 & C3); [by apply without_unique|intros x Hx; apply without_elem in Hx as [_ Hx]; by eapply stored_live|].
    split_and!; [done|done|auto].
  - intros st room id d now Hu. cbn [act_list act_get act_remove act_delivered worker_activities]. unfold worker_delivered. pose proof (stored_unique st room now Hu) as Hn.
    pose proof (change_spec st room now (fun rows => (update_first id d now rows, tt)) _ _ Hu eq_refl) as C.
    destruct (change _ _ _ _) as [st' r]. rewrite update_first_map in C by done.
    destruct C as (-> & C1 & C2 & C3); [by rewrite map_delivered_ids| |split_and!; [done|done|auto]].
    intros x Hx. apply list_elem_of_fmap in Hx as (y & -> & Hy). apply stored_live in Hy. by destruct (_ =?s _).
Defined.
