(* ===== verification/ActivityEndpoint.v ===== *)
(** * The endpoint of live task activities
    [src/taskActivities/delivery/endpoint.js], [apns.js] (the payload) and
    [worker-room.js].

    A phone enrolls its activities, a machine pushes encrypted updates.  The updates
    of one activity are delivered one at a time; between the beginning of a delivery
    and the provider's answer any other request may run, so a delivery is two steps
    of the machine below. *)

From S2P Require Import Prelude Base64 Validation Storage Activities.
#[local] Open Scope bool_scope.
#[local] Open Scope Z_scope.
#[local] Open Scope js_scope.

(** ** Requests and answers *)

Inductive activity_reply :=
| ActivityError (status : Z) (error : jstr)
| ActivityList (subscriptions : list subscription)
| ActivityRemoved
| ActivityEnrolled (enabled : bool)
| ActivityDuplicate                              (* accepted before *)
| ActivityRetry (retryAfterSeconds : Z)          (* 202 *)
| ActivityDelivered (accepted closed : bool).

Record activity_request := {
  ar_path : jstr; ar_method : jstr; ar_room : option jstr;
  ar_authorized : bool;            (** the answer of [authorize]; [false] when it threw *)
  ar_body : option jsv;            (** the bounded body; [None] when [read] threw *)
}.

(** What the provider made of a notification. *)
Inductive send_result := SendThrew | SendAnswered (ok stale : bool).

Definition activity_paths : list jstr := ["/push/activity/register"; "/push/activity/subscriptions"; "/push/activity/update"].
Definition RETRY_MS : Z := 10000.

Section Endpoint.
Context {S : Type} `{ActivityRegistry S}.
(** [options.configured] *)
Context (configured : jstr -> bool).

Definition registration (s : S) (room method : jstr) (body : jsv) (now : Z) : S * activity_reply :=
  if method =?s "DELETE" then
    if negb (truthy body) || negb (Nat.eqb (length (keys body)) 1) || negb (validActivityId (get "activityId" body))
    then (s, ActivityError 400 "valid activity identity required")
    else (act_remove s room (str_of (get "activityId" body)) now, ActivityRemoved)
  else if negb (validActivityRegistration body now) then (s, ActivityError 400 "bounded encrypted enrollment required")
  else
    let '(s1, stored) := act_register s room body now in
    if negb stored then (s1, ActivityError 409 "active activity capacity reached")
    else (s1, ActivityEnrolled (configured (str_of (get "environment" body)))).

(** [handle]; the right summand is an update handed to [enqueue]. *)
Definition handle (s : S) (request : activity_request) (now : Z) : S * (activity_reply + jsv) :=
  let err status error := (s, inl (ActivityError status error)) in
  match ar_room request with
  | None => err 400 "valid room required"
  | Some room =>
      if negb (validRoom (JStr room)) then err 400 "valid room required" else
      if negb (bool_decide (ar_path request ∈ activity_paths)) then err 404 "not found" else
      if negb (ar_authorized request) then err 401 "invalid room credential" else
      if ar_path request =?s "/push/activity/subscriptions" then
        if negb (ar_method request =?s "GET") then err 405 "method not allowed"
        else let '(s1, l) := act_list s room now in (s1, inl (ActivityList l))
      else
        let register := ar_path request =?s "/push/activity/register" in
        if negb (bool_decide (ar_method request ∈ (if register then ["PUT"; "POST"; "DELETE"] else ["POST"])%js))
        then err 405 "method not allowed" else
        match ar_body request with
        | None => err 400 "bounded JSON body required"
        | Some body =>
            if register then let '(s1, r) := registration s room (ar_method request) body now in (s1, inl r)
            else if negb (validActivityUpdate body now) then err 400 "bounded encrypted activity update required"
            else (s, inr body)
        end
  end.

(** [deliver] up to [send]: the right summand is the route to send to. *)
Definition deliver_begin (s : S) (room : jstr) (update : jsv) (now : Z) : S * (activity_reply + route) :=
  let '(s1, found) := act_get s room (str_of (get "activityId" update)) now in
  match found with
  | None => (s1, inl (ActivityDelivered false true))
  | Some r =>
      if bool_decide (rt_lastDeliveryId r = Some (str_of (get "deliveryId" update))) then (s1, inl ActivityDuplicate)
      else if negb (configured (rt_environment r)) then (s1, inl (ActivityError 503 "activity delivery unavailable"))
      else
        let elapsed := now - rt_lastDeliveredAt r in
        if negb (is_str (get "event" update) "end") && (0 <? rt_lastDeliveredAt r) && (elapsed <? RETRY_MS)
        then (s1, inl (ActivityRetry (- ((- (RETRY_MS - elapsed)) / 1000))))
        else (s1, inr r)
  end.

(** [deliver] from the answer of [send] on; [now] is still the time of its beginning.  Its
    [get] and [remove], and its [delivered] and [remove], are one step: between them the
    code waits for the registry only, and then no other request runs (the input gate of
    the Durable Object stays shut during its storage operations; the SQLite registry answers
    at once and its continuations run before Node takes the next event). *)
Definition deliver_end (s : S) (room : jstr) (update : jsv) (r : route) (now : Z) (sent : send_result) : S * activity_reply :=
  let id := str_of (get "activityId" update) in
  match sent with
  | SendThrew => (s, ActivityError 502 "activity delivery unavailable")
  | SendAnswered _ true =>
      let '(s1, current) := act_get s room id now in
      let closed := match current with Some c => rt_token c =?s rt_token r | None => false end in
      (if closed then act_remove s1 room id now else s1, ActivityDelivered false closed)
  | SendAnswered false false => (s, ActivityError 502 "activity delivery unavailable")
  | SendAnswered true false =>
      let s1 := act_delivered s room id (str_of (get "deliveryId" update)) now in
      let ended := is_str (get "event" update) "end" in
      (if ended then act_remove s1 room id now else s1, ActivityDelivered true ended)
  end.

(** ** The machine: [inFlight] chains the updates of an activity *)

(** A delivery under way: its room, update, route and the time it began; the waiting
    ones: room and update. *)
Record flight := { fl_running : option (jstr * jsv * route * Z); fl_waiting : list (jstr * jsv) }.
Record machine := { mc_registry : S; mc_now : Z; mc_inFlight : list (jstr * flight) }.

(** [room + '\0' + activityId] *)
Definition flight_key (room id : jstr) : jstr := room +++ JS [0%N] +++ id.

Definition flight_of (m : machine) (key : jstr) : flight :=
  default {| fl_running := None; fl_waiting := [] |} (map_get key (mc_inFlight m)).

(** A chain whose last promise has settled is dropped. *)
Definition put_flight (key : jstr) (f : flight) (l : list (jstr * flight)) : list (jstr * flight) :=
  match f with {| fl_running := None; fl_waiting := [] |} => map_delete key l | _ => map_set key f l end.

Inductive activity_event :=
| Elapse (ms : Z)
| Request (request : activity_request)
| Begin (key : jstr)                            (* the previous delivery of the chain has settled *)
| Settle (key : jstr) (sent : send_result).

Inductive activity_output :=
| Answered (reply : activity_reply)
| Sent (room : jstr) (update : jsv) (r : route) (at_ : Z).

Definition activity_step (m : machine) (e : activity_event) : machine * list activity_output :=
  match e with
  | Elapse ms => ({| mc_registry := mc_registry m; mc_now := mc_now m + Z.max 0 ms; mc_inFlight := mc_inFlight m |}, [])
  | Request request =>
      let '(s, r) := handle (mc_registry m) request (mc_now m) in
      match r with
      | inl reply => ({| mc_registry := s; mc_now := mc_now m; mc_inFlight := mc_inFlight m |}, [Answered reply])
      | inr update =>
          let room := default "" (ar_room request) in
          let key := flight_key room (str_of (get "activityId" update)) in
          let f := flight_of m key in
          ({| mc_registry := s; mc_now := mc_now m;
              mc_inFlight := map_set key {| fl_running := fl_running f; fl_waiting := fl_waiting f ++ [(room, update)] |} (mc_inFlight m) |}, [])
      end
  | Begin key =>
      let f := flight_of m key in
      match fl_running f, fl_waiting f with
      | None, (room, update) :: rest =>
          let '(s, r) := deliver_begin (mc_registry m) room update (mc_now m) in
          match r with
          | inl reply => ({| mc_registry := s; mc_now := mc_now m;
                             mc_inFlight := put_flight key {| fl_running := None; fl_waiting := rest |} (mc_inFlight m) |}, [Answered reply])
          | inr r => ({| mc_registry := s; mc_now := mc_now m;
                         mc_inFlight := map_set key {| fl_running := Some (room, update, r, mc_now m); fl_waiting := rest |} (mc_inFlight m) |},
                      [Sent room update r (mc_now m)])
          end
      | _, _ => (m, [])
      end
  | Settle key sent =>
      let f := flight_of m key in
      match fl_running f with
      | Some (room, update, r, now) =>
          let '(s, reply) := deliver_end (mc_registry m) room update r now sent in
          ({| mc_registry := s; mc_now := mc_now m;
              mc_inFlight := put_flight key {| fl_running := None; fl_waiting := fl_waiting f |} (mc_inFlight m) |}, [Answered reply])
      | None => (m, [])
      end
  end.

Fixpoint activity_run (m : machine) (events : list activity_event) : machine * list activity_output :=
  match events with
  | [] => (m, [])
  | e :: rest =>
      let '(m1, out) := activity_step m e in
      let '(m2, outs) := activity_run m1 rest in (m2, out ++ outs)
  end.
End Endpoint.

(** ** Steps and the live rows *)

(** What one call can do to the live rows of a room: nothing, enroll, remove, or record
    a delivery that [delivers] describes. *)
Inductive rows_step (delivers : jstr -> Z -> Prop) (l : list route) : list route -> Prop :=
| rows_same l' : Permutation l' l -> rows_step delivers l l'
| rows_enroll body l' id :
    id = str_of (get "activityId" body) -> is_Some (find_route id l) \/ Z.of_nat (length l) < ACTIVITY_LIMIT ->
    Permutation l' (private_record body (find_route id l) :: without id l) -> rows_step delivers l l'
| rows_remove id : rows_step delivers l (without id l)
| rows_deliver id d at_ : delivers id at_ -> rows_step delivers l (map (fun r => if rt_activityId r =?s id then set_delivered d at_ r else r) l)
| rows_end id d at_ : delivers id at_ -> rows_step delivers l (without id (map (fun r => if rt_activityId r =?s id then set_delivered d at_ r else r) l)).

Lemma find_route_step l l' id :
  NoDup (map rt_activityId l) -> NoDup (map rt_activityId l') -> Permutation l' l -> find_route id l' = find_route id l.
Proof.
  intros Hn Hn' Hp. apply find_route_eq; [done|]. intros r. rewrite find_route_iff by done. by rewrite Hp.
Qed.

Lemma without_length id l : (length (without id l) <= length l)%nat.
Proof. apply sublist_length, sublist_filter. Qed.

Lemma rows_step_bounded delivers l l' :
  rows_step delivers l l' -> NoDup (map rt_activityId l) -> Z.of_nat (length l) <= ACTIVITY_LIMIT -> Z.of_nat (length l') <= ACTIVITY_LIMIT.
Proof.
  intros Hs Hn Hl. destruct Hs as [l' Hp|body l' id -> Hc Hp|id|id d at_ _|id d at_ _].
  - by rewrite Hp.
  - rewrite Hp. simpl. set (id := str_of _) in *. pose proof (without_length id l). destruct Hc as [[r Hr]|Hc]; [|lia].
    apply find_route_iff in Hr as [Hin Hid]; [|done]. apply list_elem_of_split in Hin as (l1 & l2 & ->).
    assert (length (without id (l1 ++ r :: l2)) <= length (l1 ++ l2))%nat.
    { unfold without. rewrite filter_app, filter_cons_False by tauto. rewrite <- filter_app. apply sublist_length, sublist_filter. }
    rewrite length_app in *. simpl in *. lia.
  - pose proof (without_length id l). lia.
  - by rewrite length_map.
  - pose proof (without_length id (map (fun r => if rt_activityId r =?s id then set_delivered d at_ r else r) l)) as Hw.
    rewrite length_map in Hw. lia.
Qed.

Lemma rows_step_delivered delivers l l' id t0 r r' :
  rows_step delivers l l' -> NoDup (map rt_activityId l) -> NoDup (map rt_activityId l') -> (forall at_, delivers id at_ -> t0 <= at_) ->
  find_route id l = Some r -> t0 <= rt_lastDeliveredAt r -> find_route id l' = Some r' -> t0 <= rt_lastDeliveredAt r'.
Proof.
  intros Hs Hn Hn' Hd Hr Ht Hr'. pose proof Hr as Hl. apply find_route_iff in Hl as [Hin Hid]; [|done].
  apply find_route_iff in Hr' as [Hin' Hid']; [|done].
  assert (forall x, x ∈ l -> rt_activityId x = id -> t0 <= rt_lastDeliveredAt x) as Hx.
  { intros x Hx1 Hx2. assert (find_route id l = Some x) as E by (by apply find_route_iff). congruence. }
  assert (forall i d at_ x, delivers i at_ -> x ∈ map (fun r => if rt_activityId r =?s i then set_delivered d at_ r else r) l ->
            rt_activityId x = id -> t0 <= rt_lastDeliveredAt x) as Hu.
  { intros i d at_ x Hi Hm Hxi. apply list_elem_of_fmap in Hm as (y & -> & Hy). unfold jeqb in *.
    destruct (bool_decide (rt_activityId y = i)) eqn:E; [|by apply Hx]. apply bool_decide_eq_true in E. simpl in Hxi |- *.
    apply Hd. congruence. }
  destruct Hs as [l' Hp|body l' id' -> Hc Hp|id'|id' d at_ Hi|id' d at_ Hi].
  - apply Hx; [by rewrite <- Hp|done].
  - rewrite Hp, elem_of_cons, without_elem in Hin'. destruct Hin' as [->|[_ Hin']]; [|by apply Hx].
    simpl in Hid'. rewrite Hid', Hr. done.
  - apply without_elem in Hin' as [_ Hin']. by apply Hx.
  - by eapply Hu.
  - apply without_elem in Hin' as [_ Hin']. by eapply Hu.
Qed.
Section Laws.
Context {S : Type} `{ActivityLaws S}.
Implicit Types (s : S) (room id d : jstr) (now later : Z).

(** The laws speak of the rows at the time of the call; a delivery ends later than it began. *)
Lemma remove_later s room id now later :
  al_wf s -> now <= later -> al_rows (act_remove s room id now) room later = without id (al_rows s room later).
Proof.
  intros Hwf Hle. rewrite (al_later _ room now later), (al_later s room now later) by done.
  destruct (al_remove s room id now Hwf) as (_ & -> & _). unfold without. rewrite !list_filter_filter. apply list_filter_iff. tauto.
Qed.

Lemma remove_other s room room' id now later :
  al_wf s -> now <= later -> room' <> room -> al_rows (act_remove s room id now) room' later = al_rows s room' later.
Proof.
  intros Hwf Hle Hne. rewrite (al_later _ room' now later), (al_later s room' now later) by done.
  destruct (al_remove s room id now Hwf) as (_ & _ & E). by rewrite E.
Qed.

Lemma delivered_later s room id d now later :
  al_wf s -> now <= later ->
  al_rows (act_delivered s room id d now) room later
  = map (fun r => if rt_activityId r =?s id then set_delivered d now r else r) (al_rows s room later).
Proof.
  intros Hwf Hle. rewrite (al_later _ room now later), (al_later s room now later) by done.
  destruct (al_delivered s room id d now Hwf) as (_ & -> & _). symmetry. apply map_filter_iff.
  intros r _. unfold route_live. by destruct (_ =?s _).
Qed.

Lemma delivered_other s room room' id d now later :
  al_wf s -> now <= later -> room' <> room -> al_rows (act_delivered s room id d now) room' later = al_rows s room' later.
Proof.
  intros Hwf Hle Hne. rewrite (al_later _ room' now later), (al_later s room' now later) by done.
  destruct (al_delivered s room id d now Hwf) as (_ & _ & E). by rewrite E.
Qed.

Lemma get_later s room id now later room' :
  al_wf s -> now <= later -> al_rows (act_get s room id now).1 room' later = al_rows s room' later.
Proof.
  intros Hwf Hle. rewrite (al_later _ room' now later), (al_later s room' now later) by done.
  pose proof (al_get s room id now Hwf) as Hg. destruct (act_get _ _ _ _). destruct Hg as (_ & _ & E). by rewrite E.
Qed.

Lemma get_wf s room id now : al_wf s -> al_wf (act_get s room id now).1.
Proof. intros Hwf. pose proof (al_get s room id now Hwf) as Hg. destruct (act_get _ _ _ _). tauto. Qed.

Lemma get_found s room id now : al_wf s -> (act_get s room id now).2 = find_route id (al_rows s room now).
Proof. intros Hwf. pose proof (al_get s room id now Hwf) as Hg. destruct (act_get _ _ _ _). tauto. Qed.

Context (configured : jstr -> bool).

Lemma handle_step delivers s request now :
  al_wf s -> let '(s', r) := handle configured s request now in
  al_wf s' /\ forall room, rows_step delivers (al_rows s room now) (al_rows s' room now).
Proof.
  intros Hwf. assert (al_wf s /\ forall room, rows_step delivers (al_rows s room now) (al_rows s room now)) as Hs
    by (split; [done|intros; by apply rows_same]).
  unfold handle. destruct (ar_room request) as [room|]; [|exact Hs]. repeat (destruct (negb _); [exact Hs|]).
  destruct (ar_path request =?s _).
  - destruct (negb _); [exact Hs|]. pose proof (al_list s room now Hwf) as Hl. destruct (act_list _ _ _) as [s1 l].
    destruct Hl as (H1 & _ & H2). split; [done|]. intros room'. rewrite H2. by apply rows_same.
  - destruct (negb _); [exact Hs|]. destruct (ar_body request) as [body|]; [|exact Hs].
    destruct (_ =?s _); [|destruct (negb _); exact Hs]. unfold registration. destruct (ar_method request =?s "DELETE").
    + destruct (_ || _); [exact Hs|]. destruct (al_remove s room (str_of (get "activityId" body)) now Hwf) as (H1 & H2 & H3).
      split; [done|]. intros room'. destruct (decide (room' = room)) as [->|Hne]; [rewrite H2; apply rows_remove|].
      rewrite H3 by done. by apply rows_same.
    + destruct (validActivityRegistration body now) eqn:Ev; [|exact Hs]. cbn [negb].
      pose proof (al_register s room body now Hwf Ev) as Hr. destruct (act_register _ _ _ _) as [s1 ok].
      destruct Hr as (H1 & Hok & H2 & H3).
      assert (forall room', rows_step delivers (al_rows s room' now) (al_rows s1 room' now)) as Hrows.
      { intros room'. destruct (decide (room' = room)) as [->|Hne]; [|rewrite H3 by done; by apply rows_same].
        destruct ok; [|by apply rows_same]. eapply rows_enroll; [done| |exact H2]. symmetry in Hok.
        apply orb_true_iff in Hok as [Hok|Hok]; [left; by apply bool_decide_eq_true in Hok|right; lia]. }
      by destruct (negb ok).
Qed.

Lemma deliver_end_step s room update r now later sent :
  al_wf s -> now <= later -> let delivers := fun room' i at_ => room' = room /\ i = str_of (get "activityId" update) /\ at_ = now in let '(s', reply) := deliver_end s room update r now sent in
  al_wf s' /\ forall room', rows_step (delivers room') (al_rows s room' later) (al_rows s' room' later).
Proof.
  intros Hwf Hle delivers. assert (al_wf s /\ forall room, rows_step (delivers room) (al_rows s room later) (al_rows s room later)) as Hs
    by (split; [done|intros; by apply rows_same]).
  unfold deliver_end. destruct sent as [|ok stale]; [exact Hs|]. destruct stale; [destruct ok|destruct ok; [|exact Hs]].
  1, 2: pose proof (get_wf s room (str_of (get "activityId" update)) now Hwf) as Hw;
    pose proof (fun r => get_later s room (str_of (get "activityId" update)) now later r Hwf Hle) as Hg;
    destruct (act_get _ _ _ _) as [s1 current]; simpl in Hw, Hg; destruct (match current with Some _ => _ | None => _ end);
    [split; [by apply al_remove|]|split; [done|]]; intros room'; try (rewrite Hg; by apply rows_same);
    destruct (decide (room' = room)) as [->|Hne]; [rewrite remove_later, Hg by done; apply rows_remove
      |rewrite remove_other, Hg by done; by apply rows_same].
  set (id := str_of _). set (d := str_of _). pose proof (al_delivered s room id d now Hwf) as (Hw & _).
  destruct (is_str _ _); (split; [try apply al_remove; done|]); intros room'; destruct (decide (room' = room)) as [->|Hne].
  - rewrite remove_later, delivered_later by done. by apply rows_end.
  - rewrite remove_other, delivered_other by done. by apply rows_same.
  - rewrite delivered_later by done. by apply rows_deliver.
  - rewrite delivered_other by done. by apply rows_same.
Qed.

Lemma deliver_begin_rows s room update now :
  al_wf s -> let '(s', r) := deliver_begin configured s room update now in
  al_wf s' /\ forall room', al_rows s' room' now = al_rows s room' now.
Proof.
  intros Hwf. unfold deliver_begin. pose proof (al_get s room (str_of (get "activityId" update)) now Hwf) as Hg.
  destruct (act_get _ _ _ _) as [s1 found]. destruct Hg as (H1 & _ & H2).
  destruct found; repeat case_match; simplify_eq; done.
Qed.

End Laws.

(** ** Runs of the machine *)

Lemma rows_step_mono (D D' : jstr -> Z -> Prop) l l' : (forall i a, D i a -> D' i a) -> rows_step D l l' -> rows_step D' l l'.
Proof.
  intros Hd []; [by apply rows_same|eapply rows_enroll; eauto|apply rows_remove|apply rows_deliver; auto|apply rows_end; auto].
Qed.

Section Machine.
Context {S : Type} `{ActivityLaws S}.
Context (configured : jstr -> bool).
Implicit Types (m : @machine S) (key room id : jstr).

Record flight_ok (now : Z) (key : jstr) (f : flight) : Prop := {
  fo_running : forall room update r at_, fl_running f = Some (room, update, r, at_) ->
    at_ <= now /\ key = flight_key room (str_of (get "activityId" update));
  fo_waiting : forall room update, (room, update) ∈ fl_waiting f -> key = flight_key room (str_of (get "activityId" update));
}.

Record machine_wf m : Prop := {
  mw_registry : al_wf (mc_registry m);
  mw_flights : forall key, flight_ok (mc_now m) key (flight_of m key);
}.

Definition live_rows m room : list route := al_rows (mc_registry m) room (mc_now m).

Lemma live_unique m room : machine_wf m -> NoDup (map rt_activityId (live_rows m room)).
Proof. intros [Hw _]. by apply al_unique. Qed.

Lemma flight_put key key' f (l : list (jstr * flight)) :
  default {| fl_running := None; fl_waiting := [] |} (map_get key' (put_flight key f l))
  = if decide (key' = key) then f else default {| fl_running := None; fl_waiting := [] |} (map_get key' l).
Proof. destruct f as [[] []]; simpl; rewrite ?map_get_set, ?map_get_delete; by case_decide. Qed.

#[local] Arguments put_flight : simpl never.

Lemma flight_set key key' f (l : list (jstr * flight)) :
  default {| fl_running := None; fl_waiting := [] |} (map_get key' (map_set key f l))
  = if decide (key' = key) then f else default {| fl_running := None; fl_waiting := [] |} (map_get key' l).
Proof. rewrite map_get_set. by case_decide. Qed.

Lemma flight_ok_later now now' key f : now <= now' -> flight_ok now key f -> flight_ok now' key f.
Proof. intros Hle [H1 H2]. split; [|done]. intros room u r a E. destruct (H1 room u r a E). split; [lia|done]. Qed.

(** The deliveries that the event records. *)
Definition event_delivers m (e : activity_event) (room id : jstr) (at_ : Z) : Prop :=
  match e with
  | Settle key _ => exists update r, fl_running (flight_of m key) = Some (room, update, r, at_) /\ id = str_of (get "activityId" update)
  | _ => False
  end.

Lemma activity_step_spec m e :
  machine_wf m -> let '(m', out) := activity_step configured m e in
  machine_wf m' /\ mc_now m <= mc_now m' /\
  (forall room, rows_step (event_delivers m e room) (al_rows (mc_registry m) room (mc_now m')) (live_rows m' room)).
Proof.
  intros [Hw Hf]. destruct e as [ms|request|key|key sent]; simpl.
  - split_and!; [|lia|].
    + split; [done|]. intros key. apply (flight_ok_later (mc_now m)); [simpl; lia|apply Hf].
    + intros room. by apply rows_same.
  - pose proof (handle_step configured (fun _ _ => False) (mc_registry m) request (mc_now m) Hw) as Hh.
    destruct (handle _ _ _ _) as [s r]. destruct Hh as [Hs Hr]. destruct r as [reply|update]; simpl; (split_and!; [|lia|exact Hr]); [by split|].
    split; [done|]. intros key. unfold flight_of. simpl. rewrite flight_set. case_decide as E; [|apply Hf]. rewrite E.
    destruct (Hf (flight_key (default "" (ar_room request)) (str_of (get "activityId" update)))) as [H1 H2]. split; [exact H1|].
    cbn [fl_waiting]. intros room u. rewrite elem_of_app, list_elem_of_singleton. intros [Hu|[= -> ->]]; [by apply H2|done].
  - destruct (fl_running (flight_of m key)) eqn:Er; [split_and!; [by split|lia|intros; by apply rows_same]|].
    destruct (fl_waiting (flight_of m key)) as [|[room update] rest] eqn:Ew; [split_and!; [by split|lia|intros; by apply rows_same]|].
    pose proof (deliver_begin_rows configured (mc_registry m) room update (mc_now m) Hw) as Hb.
    destruct (deliver_begin _ _ _ _ _) as [s r]. destruct Hb as [Hs Hr]. pose proof (Hf key) as [H1 H2]. rewrite Ew in H2.
    destruct r as [reply|r]; simpl; (split_and!; [|lia|intros; unfold live_rows; simpl; rewrite Hr; by apply rows_same]);
      (split; [done|]); intros key'; unfold flight_of; simpl; rewrite ?flight_put, ?flight_set; case_decide as E; try apply Hf; rewrite E;
      split; simpl; try done; try (intros room' u Hu; apply H2; by right).
    intros room' u r' a' [= <- <- <- <-]. split; [done|]. apply H2. by left.
  - destruct (fl_running (flight_of m key)) as [[[[room update] r] at_]|] eqn:Er; [|split_and!; [by split|lia|intros; by apply rows_same]].
    pose proof (Hf key) as [H1 H2]. destruct (H1 _ _ _ _ Er) as [Ha Hk].
    pose proof (deliver_end_step (mc_registry m) room update r at_ (mc_now m) sent Hw Ha) as He. cbn zeta in He.
    destruct (deliver_end _ _ _ _ _ _) as [s reply]. destruct He as [Hs Hr]. simpl. split_and!; [|lia|].
    + split; [done|]. intros key'. unfold flight_of. simpl. rewrite flight_put. case_decide as E; [|apply Hf]. rewrite E. by split.
    + intros room'. eapply rows_step_mono; [|exact (Hr room')]. intros i a (-> & -> & ->). by exists update, r.
Qed.


Lemma step_running m e key room update r at_ :
  fl_running (flight_of (activity_step configured m e).1 key) = Some (room, update, r, at_) ->
  fl_running (flight_of m key) = Some (room, update, r, at_) \/ at_ = mc_now m.
Proof.
  destruct e as [ms|request|key'|key' sent]; simpl; [by left| | |].
  - destruct (handle _ _ _ _) as [s [reply|u]]; simpl; [by left|]. unfold flight_of at 1. simpl. rewrite flight_set.
    case_decide as E; [rewrite E; by left|by left].
  - destruct (fl_running (flight_of m key')) eqn:Er; [by left|]. destruct (fl_waiting (flight_of m key')) as [|[room' u] rest]; [by left|].
    destruct (deliver_begin _ _ _ _ _) as [s [reply|r']]; simpl; unfold flight_of at 1; simpl; rewrite ?flight_put, ?flight_set;
      (case_decide as E; [|by left]); [done|]. intros [= _ _ _ <-]. by right.
  - destruct (fl_running (flight_of m key')) as [[[[room' u] r'] a]|] eqn:Er; [|by left].
    destruct (deliver_end _ _ _ _ _ _) as [s reply]. simpl. unfold flight_of at 1. simpl. rewrite flight_put. by case_decide; [|left].
Qed.

Definition enrolled room id m : Prop := is_Some (find_route id (live_rows m room)).

Fixpoint always (P : @machine S -> Prop) m (events : list activity_event) : Prop :=
  P m /\ match events with [] => True | e :: rest => always P (activity_step configured m e).1 rest end.

(** Nothing of the activity has been delivered, or is being delivered, since before [t0]. *)
Record paced room id (t0 : Z) m : Prop := {
  pc_wf : machine_wf m; pc_clock : t0 <= mc_now m;
  pc_running : forall key update r at_, fl_running (flight_of m key) = Some (room, update, r, at_) ->
    str_of (get "activityId" update) = id -> t0 <= at_;
  pc_row : forall r, find_route id (live_rows m room) = Some r -> t0 <= rt_lastDeliveredAt r;
}.

Lemma step_clock m e :
  mc_now (activity_step configured m e).1 = mc_now m \/ mc_registry (activity_step configured m e).1 = mc_registry m.
Proof. destruct e; simpl; [by right|left..]; repeat case_match; simplify_eq; done. Qed.

Lemma paced_step room id t0 m e :
  paced room id t0 m -> enrolled room id m -> enrolled room id (activity_step configured m e).1 -> paced room id t0 (activity_step configured m e).1.
Proof.
  intros [Hwf Ht Hrun Hrow] [r Hr] Hen. pose proof (activity_step_spec m e Hwf) as Hs.
  assert (forall key update r at_, fl_running (flight_of (activity_step configured m e).1 key) = Some (room, update, r, at_) ->
    str_of (get "activityId" update) = id -> t0 <= at_) as Hrun'.
  { intros key u r' a Hf Hu. apply step_running in Hf as [Hf| ->]; [by eapply Hrun|done]. }
  pose proof (step_clock m e) as Hclock.
  destruct (activity_step configured m e) as [m' out]. cbn [fst] in *. destruct Hs as (Hwf' & Hle & Hrows).
  split; [done|lia|done|]. intros r' Hr'. specialize (Hrows room).
  set (l := al_rows (mc_registry m) room (mc_now m')) in *.
  assert (NoDup (map rt_activityId l)) as Hl by apply al_unique, Hwf.
  assert (exists y, find_route id l = Some y /\ t0 <= rt_lastDeliveredAt y) as (y & Hy & Hty).
  { destruct Hclock as [E|E]; unfold l; [rewrite E; exists r; split; [exact Hr|by apply Hrow]|].
    exists r'. rewrite <- E. split; [exact Hr'|]. apply Hrow. apply find_route_iff in Hr' as [Hin Hid]; [|by apply live_unique].
    apply find_route_iff; [by apply live_unique|]. split; [|done]. unfold live_rows in Hin. rewrite E in Hin.
    rewrite (al_later _ room (mc_now m) (mc_now m')) in Hin by done. apply list_elem_of_filter in Hin. apply Hin. }
  eapply rows_step_delivered; [exact Hrows|done|by apply live_unique| |exact Hy|done|exact Hr'].
  intros a. destruct e; simpl; try done. intros (u & r0 & Hf & Hu). by eapply Hrun.
Qed.

(** What [deliver] found when it sends. *)
Lemma deliver_begin_sent s room update now s' r :
  al_wf s -> deliver_begin configured s room update now = (s', inr r) ->
  find_route (str_of (get "activityId" update)) (al_rows s room now) = Some r /\ configured (rt_environment r) = true /\
  rt_lastDeliveryId r <> Some (str_of (get "deliveryId" update)) /\
  (is_str (get "event" update) "end" = true \/ rt_lastDeliveredAt r <= 0 \/ rt_lastDeliveredAt r + RETRY_MS <= now).
Proof.
  intros Hwf. unfold deliver_begin. pose proof (get_found s room (str_of (get "activityId" update)) now Hwf) as Hg.
  destruct (act_get _ _ _ _) as [s1 found]. simpl in Hg. destruct found as [x|]; [|done].
  destruct (bool_decide _) eqn:Ed; [done|]. apply bool_decide_eq_false in Ed. destruct (negb (configured _)) eqn:Ec; [done|].
  apply negb_false_iff in Ec. destruct (negb (is_str _ _) && _ && _) eqn:Et; [done|]. intros [= _ <-]. split_and!; [done..|].
  destruct (is_str _ _); [by left|right]. simpl in Et. apply andb_false_iff in Et as [Et|Et]; unfold RETRY_MS in *; lia.
Qed.

Lemma paced_sent room id t0 m e update r at_ :
  paced room id t0 m -> 0 < t0 -> Sent room update r at_ ∈ (activity_step configured m e).2 ->
  str_of (get "activityId" update) = id -> is_str (get "event" update) "end" = false -> t0 + RETRY_MS <= at_.
Proof.
  intros [Hwf _ _ Hrow] H0t Hs Hid He. destruct e as [ms|request|key|key sent]; simpl in Hs.
  - by apply not_elem_of_nil in Hs.
  - destruct (handle _ _ _ _) as [s [reply|u]]; simpl in Hs; set_solver.
  - destruct (fl_running _); [set_solver|]. destruct (fl_waiting _) as [|[room' u] rest]; [set_solver|].
    destruct (deliver_begin _ _ _ _ _) as [s [reply|x]] eqn:Eb; simpl in Hs; [set_solver|].
    apply list_elem_of_singleton in Hs as [= -> -> -> ->]. apply deliver_begin_sent in Eb as (Hf & _ & _ & Hl); [|apply Hwf].
    rewrite Hid in Hf. specialize (Hrow _ Hf). destruct Hl as [Hl|Hl]; [congruence|]. lia.
  - destruct (fl_running _) as [[[[room' u] x] a]|]; [|set_solver]. destruct (deliver_end _ _ _ _ _ _). simpl in Hs. set_solver.
Qed.

Lemma paced_run room id t0 events m :
  paced room id t0 m -> 0 < t0 -> always (enrolled room id) m events ->
  forall update r at_, Sent room update r at_ ∈ (activity_run configured m events).2 ->
  str_of (get "activityId" update) = id -> is_str (get "event" update) "end" = false -> t0 + RETRY_MS <= at_.
Proof.
  revert m. induction events as [|e events IH]; simpl; intros m Hp Ht Hal update r a Hs Hid He; [set_solver|].
  destruct Hal as [Hen Hal]. pose proof (paced_sent room id t0 m e update r a Hp Ht) as Hsent.
  assert (enrolled room id (activity_step configured m e).1) as Hen' by (destruct events; apply Hal).
  pose proof (paced_step room id t0 m e Hp Hen Hen') as Hp'. destruct (activity_step configured m e) as [m1 out]. cbn [fst snd] in *.
  specialize (IH m1 Hp' Ht Hal update r a). destruct (activity_run configured m1 events) as [m2 outs]. cbn [snd] in *.
  apply elem_of_app in Hs as [Hs|Hs]; auto.
Qed.

Lemma settled_paced m key room update r t0 :
  machine_wf m -> fl_running (flight_of m key) = Some (room, update, r, t0) ->
  paced room (str_of (get "activityId" update)) t0 (activity_step configured m (Settle key (SendAnswered true false))).1.
Proof.
  intros Hwf Hr. pose proof (activity_step_spec m (Settle key (SendAnswered true false)) Hwf) as Hs.
  pose proof (mw_flights m Hwf key) as [Hrun _]. destruct (Hrun _ _ _ _ Hr) as [Ht Hk].
  assert (forall key' u x a, fl_running (flight_of (activity_step configured m (Settle key (SendAnswered true false))).1 key') = Some (room, u, x, a) ->
    str_of (get "activityId" u) = str_of (get "activityId" update) -> t0 <= a) as Hnew.
  { intros key' u x a Hf Hu. exfalso. cbn [activity_step] in Hf. rewrite Hr in Hf. destruct (deliver_end _ _ _ _ _ _) as [s reply].
    unfold flight_of in Hf. cbn [fst mc_inFlight] in Hf. rewrite flight_put in Hf. case_decide as E; [done|].
    pose proof (mw_flights m Hwf key') as [Hrun' _]. apply Hrun' in Hf as [_ Hk']. congruence. }
  destruct Hwf as [Hw _].
  assert (forall x, find_route (str_of (get "activityId" update)) (live_rows (activity_step configured m (Settle key (SendAnswered true false))).1 room) = Some x ->
    t0 <= rt_lastDeliveredAt x) as Hrow.
  { intros x Hx. cbn [activity_step] in Hx. rewrite Hr in Hx. unfold deliver_end in Hx. cbn [fst] in Hx.
    set (id := str_of (get "activityId" update)) in *. set (d := str_of (get "deliveryId" update)) in *.
    pose proof (al_delivered (mc_registry m) room id d t0 Hw) as (Hw1 & _).
    assert (x ∈ map (fun r => if rt_activityId r =?s id then set_delivered d t0 r else r) (al_rows (mc_registry m) room (mc_now m)) /\ rt_activityId x = id) as [Hin Hid].
    { unfold live_rows in Hx. cbn [fst mc_registry mc_now] in Hx. apply find_route_iff in Hx as [Hin Hid].
      - split; [|done]. destruct (is_str _ _); [rewrite remove_later in Hin by done; apply without_elem in Hin as [_ Hin]|];
          by rewrite delivered_later in Hin.
      - apply al_unique. destruct (is_str _ _); [by apply al_remove|done]. }
    apply list_elem_of_fmap in Hin as (y & -> & _). unfold jeqb in *. destruct (bool_decide _) eqn:E; [simpl; lia|].
    apply bool_decide_eq_false in E. congruence. }
  destruct (activity_step _ _ _) as [m1 out]. cbn [fst] in *. destruct Hs as (Hwf1 & Hle & _). split; [done|lia|exact Hnew|exact Hrow].
Qed.

Lemma run_bounded events m :
  machine_wf m -> (forall room, Z.of_nat (length (live_rows m room)) <= ACTIVITY_LIMIT) ->
  let m' := (activity_run configured m events).1 in
  machine_wf m' /\ forall room, Z.of_nat (length (live_rows m' room)) <= ACTIVITY_LIMIT.
Proof.
  revert m. induction events as [|e events IH]; simpl; intros m Hwf Hb; [done|].
  pose proof (activity_step_spec m e Hwf) as Hs. destruct (activity_step configured m e) as [m1 out]. destruct Hs as (Hwf1 & Hle & Hrows).
  specialize (IH m1 Hwf1). destruct (activity_run configured m1 events) as [m2 outs]. apply IH. intros room.
  eapply rows_step_bounded; [exact (Hrows room)|apply al_unique, Hwf|]. specialize (Hb room). unfold live_rows in Hb.
  rewrite (al_later _ room (mc_now m) (mc_now m1)) by done.
  pose proof (sublist_length _ _ (sublist_filter (route_live (mc_now m1)) (al_rows (mc_registry m) room (mc_now m)))). lia.
Qed.
End Machine.

(** ** Properties *)

(** A room never has more than eight live activities, whatever registrations,
    removals, expiries and deliveries happen and however the deliveries interleave
    with the other requests; this holds for every registry that satisfies the
    registry laws, so for the SQLite table and for the Durable Object's storage. *)
Theorem activities_bounded {S} `{ActivityLaws S} (configured : jstr -> bool) (m : @machine S) (events : list activity_event) :
  machine_wf m -> (forall room, Z.of_nat (length (live_rows m room)) <= ACTIVITY_LIMIT) ->
  forall room, Z.of_nat (length (live_rows (activity_run configured m events).1 room)) <= ACTIVITY_LIMIT.
Proof. intros Hwf Hb room. by apply (run_bounded configured events m Hwf Hb). Qed.

(** C38: After a delivery that began at [t0] and that the provider accepted, as long as the
    activity stays enrolled every later notification of it that is not the final one begins
    at least ten seconds after [t0]: enrolling the activity again, other deliveries, failed
    ones and the order in which providers answer do not shorten the pause.  The final
    notification (["end"]) is not delayed, and a delivery that failed starts no pause. *)
Theorem updates_are_throttled {S} `{ActivityLaws S} (configured : jstr -> bool) (m : @machine S) (key room : jstr) (update : jsv) (r : route)
    (t0 : Z) (events : list activity_event) :
  machine_wf m -> fl_running (flight_of m key) = Some (room, update, r, t0) -> 0 < t0 ->
  let m1 := (activity_step configured m (Settle key (SendAnswered true false))).1 in
  always configured (enrolled room (str_of (get "activityId" update))) m1 events ->
  forall update' r' at_, Sent room update' r' at_ ∈ (activity_run configured m1 events).2 ->
  str_of (get "activityId" update') = str_of (get "activityId" update) -> is_str (get "event" update') "end" = false ->
  t0 + RETRY_MS <= at_.
Proof. intros Hwf Hr Ht m1 Hal. apply (paced_run configured room _ t0 events m1); [by eapply settled_paced|done|done]. Qed.

(** ** Examples *)

Module Examples.
Definition room : jstr := JS (repeat 97%N 64).
Definition now : Z := 1700000000000.
Definition enrolled_route : route :=
  {| rt_activityId := "activity-1"; rt_token := "00112233445566778899aabbccddeeff"; rt_environment := "production";
     rt_bundleId := ACTIVITY_BUNDLE_ID; rt_expiresAt := now + 3600000; rt_nonce := "n"; rt_box := "b";
     rt_lastDeliveryId := None; rt_lastDeliveredAt := 0 |}.
Definition sealed : jsv :=
  JObj [("nonce", JStr "AAAAAAAAAAAAAAAAAAAAAAAAAAAAAAAA"); ("box", JStr "AAAAAAAAAAAAAAAAAAAAAAAAAAAAAAAA")].
Definition update (delivery event : jstr) : jsv :=
  JObj [("activityId", JStr "activity-1"); ("deliveryId", JStr delivery); ("event", JStr event);
        ("staleDate", JNum (NInt 1700000060)); ("contentState", sealed)].
Definition post (body : jsv) : activity_request :=
  {| ar_path := "/push/activity/update"; ar_method := "POST"; ar_room := Some room; ar_authorized := true; ar_body := Some body |}.
Definition key : jstr := flight_key room "activity-1".

(** A delivery is under way. *)
Definition start : @machine activity_table :=
  {| mc_registry := [((room, "activity-1"%js), enrolled_route)]; mc_now := now;
     mc_inFlight := [(key, {| fl_running := Some (room, update "d1" "update", enrolled_route, now); fl_waiting := [] |})] |}.
Definition always_on (environment : jstr) : bool := true.

Lemma start_wf : machine_wf start.
Proof.
  split.
  - split; [repeat constructor; set_solver|]. intros e He. by apply list_elem_of_singleton in He as ->.
  - intros k. unfold flight_of, start. cbn [mc_inFlight map_get]. destruct (decide (k = key)) as [->|]; split; simpl; try done.
    + intros ? ? ? ? [= <- <- <- <-]. by split.
    + intros ? ? Hin. by apply not_elem_of_nil in Hin.
    + intros ? ? Hin. by apply not_elem_of_nil in Hin.
Qed.

(** After the first update: one too early, one duplicate, one in time. *)
Definition later_events : list activity_event :=
  [Request (post (update "d2" "update")); Begin key; Elapse 10000; Request (post (update "d1" "update"));
   Request (post (update "d3" "update")); Begin key; Begin key; Settle key (SendAnswered true false)].

Example the_day_of_an_activity :
  (activity_run always_on (activity_step always_on start (Settle key (SendAnswered true false))).1 later_events).2
  = [Answered (ActivityRetry 10); Answered ActivityDuplicate;
     Sent room (update "d3" "update") (set_delivered "d1" now enrolled_route) (now + 10000); Answered (ActivityDelivered true false)].
Proof. vm_compute. reflexivity. Qed.

Lemma updates_are_throttled_witness :
  always always_on (enrolled room "activity-1") (activity_step always_on start (Settle key (SendAnswered true false))).1 later_events /\
  forall update' r' at_,
    Sent room update' r' at_ ∈ (activity_run always_on (activity_step always_on start (Settle key (SendAnswered true false))).1 later_events).2 ->
    str_of (get "activityId" update') = "activity-1" -> is_str (get "event" update') "end" = false -> now + RETRY_MS <= at_.
Proof.
  assert (always always_on (enrolled room "activity-1") (activity_step always_on start (Settle key (SendAnswered true false))).1 later_events) as H
    by (repeat split; (eexists; vm_compute; reflexivity)).
  split; [exact H|].
  apply (updates_are_throttled always_on start key room (update "d1" "update") enrolled_route now later_events);
    [apply start_wf|reflexivity|unfold now; lia|exact H].
Defined.

Lemma activities_bounded_witness :
  (forall r, Z.of_nat (length (live_rows start r)) <= ACTIVITY_LIMIT) /\
  forall r, Z.of_nat (length (live_rows (activity_run always_on start later_events).1 r)) <= ACTIVITY_LIMIT.
Proof.
  assert (forall r, Z.of_nat (length (live_rows start r)) <= ACTIVITY_LIMIT) as H.
  { intros r. unfold live_rows. cbn [al_rows sqlite_activity_laws]. unfold table_rows. rewrite length_map.
    pose proof (sublist_length _ _ (sublist_filter (fun e => in_activities r e && route_live (mc_now start) e.2) (mc_registry start))) as Hl.
    change (length (mc_registry start)) with 1%nat in Hl. unfold ACTIVITY_LIMIT. lia. }
  split; [exact H|]. exact (activities_bounded always_on start later_events start_wf H).
Defined.
End Examples.
