(* ===== verification/Apns.v ===== *)
(** * Push notifications
    [src/relay/apnsWake.js] (configuration, provider tokens, wakes) and
    [src/taskActivities/delivery/apns.js] (activity notifications).

    A notification only leaves for the host of the device's environment, signed for
    a key of that environment.  The encoding of the token's header and claims, the
    decoding of the private key and the ECDSA signature are the parameter [sign]. *)

From S2P Require Import Prelude Base64 Validation Activities.
#[local] Open Scope bool_scope.
#[local] Open Scope Z_scope.
#[local] Open Scope js_scope.

(** ** Configuration *)

Record apns_env := {
  APNS_TEAM_ID : option jstr; APNS_KEY_ID : option jstr; APNS_PRIVATE_KEY : option jstr;
  APNS_KEY_ENVIRONMENT : option jstr;
  APNS_SANDBOX_TEAM_ID : option jstr; APNS_SANDBOX_KEY_ID : option jstr; APNS_SANDBOX_PRIVATE_KEY : option jstr;
}.

(** A variable that is set and not empty. *)
Definition set_var (v : option jstr) : bool := match v with Some s => negb (s =?s "") | None => false end.

(** The environment of a device is never empty. *)
Definition apnsEnvironment (env : apns_env) (environment : jstr) : option apns_env :=
  if (environment =?s "sandbox") && set_var (APNS_SANDBOX_KEY_ID env) then
    Some {| APNS_TEAM_ID := match APNS_SANDBOX_TEAM_ID env with Some t => Some t | None => APNS_TEAM_ID env end;
            APNS_KEY_ID := APNS_SANDBOX_KEY_ID env; APNS_PRIVATE_KEY := APNS_SANDBOX_PRIVATE_KEY env;
            APNS_KEY_ENVIRONMENT := APNS_KEY_ENVIRONMENT env; APNS_SANDBOX_TEAM_ID := APNS_SANDBOX_TEAM_ID env;
            APNS_SANDBOX_KEY_ID := APNS_SANDBOX_KEY_ID env; APNS_SANDBOX_PRIVATE_KEY := APNS_SANDBOX_PRIVATE_KEY env |}
  else if set_var (APNS_KEY_ENVIRONMENT env) && negb (bool_decide (APNS_KEY_ENVIRONMENT env = Some environment)) then None
  else Some env.

Definition configured_for (env : apns_env) (environment : jstr) : bool :=
  match apnsEnvironment env environment with
  | Some selected => set_var (APNS_TEAM_ID selected) && set_var (APNS_KEY_ID selected) && set_var (APNS_PRIVATE_KEY selected)
  | None => false
  end.

Definition apnsConfigured (env : apns_env) (environment : option jstr) : bool :=
  match environment with
  | Some e => if e =?s "" then configured_for env "production" || configured_for env "sandbox" else configured_for env e
  | None => configured_for env "production" || configured_for env "sandbox"
  end.

(** ** Provider tokens *)

Record provider_token := { pt_issuedAt : Z; pt_token : jstr }.

(** [cachedProviderTokens], in insertion order. *)
Abbreviation token_cache := (list (jstr * provider_token)).

Definition var_text (v : option jstr) : jstr := default "undefined" v.
Definition token_identity (env : apns_env) : jstr := var_text (APNS_TEAM_ID env) +++ ":" +++ var_text (APNS_KEY_ID env).

Section ProviderToken.
(** The signed token of a configuration issued at a time; it may throw (an unusable key). *)
Context (sign : apns_env -> Z -> res jstr).

(** The oldest of four tokens makes room.  This runs after the signature was awaited;
    no other turn runs between its two statements. *)
Definition store_token (cache : token_cache) (identity : jstr) (t : provider_token) : token_cache :=
  map_set identity t (if 4 <=? Z.of_nat (length cache) then tail cache else cache).

(** [clock] is [Date.now()]. *)
Definition apnsProviderToken (cache : token_cache) (env : apns_env) (clock : Z) : token_cache * res jstr :=
  let now := clock / 1000 in
  let identity := token_identity env in
  let reuse := match map_get identity cache with
               | Some cached => if now - pt_issuedAt cached <? 45 * 60 then Some (pt_token cached) else None
               | None => None
               end in
  match reuse with
  | Some token => (cache, Ok token)
  | None =>
      match sign env now with
      | Throw => (cache, Throw)
      | Ok token =>
          (store_token cache identity {| pt_issuedAt := now; pt_token := token |}, Ok token)
      end
  end.

(** ** Requests *)

Record device := { dv_token : jstr; dv_environment : jstr; dv_bundleId : jstr }.

Record apns_request := {
  aq_url : jstr; aq_authorization : jstr; aq_topic : jstr; aq_push_type : jstr; aq_priority : jstr;
  aq_expiration : jstr; aq_collapse_id : jstr; aq_body : jsv;
}.

Definition apns_host (environment : jstr) : jstr :=
  if environment =?s "sandbox" then "https://api.sandbox.push.apple.com" else "https://api.push.apple.com".

Definition pushPayload : jsv :=
  JObj [("aps", JObj [("content-available", JNum (NInt 1))]); ("granttapWake", JBool true)].

(** The URL and the authorization of a device, or an exception. *)
Definition apnsRequestContext (cache : token_cache) (env : apns_env) (d : device) (clock : Z) : token_cache * res (jstr * jstr) :=
  if negb (apnsConfigured env (Some (dv_environment d))) then (cache, Throw) else
  match apnsEnvironment env (dv_environment d) with
  | None => (cache, Throw)
  | Some selected =>
      let '(cache1, token) := apnsProviderToken cache selected clock in
      (cache1, let* t := token in Ok (apns_host (dv_environment d) +++ "/3/device/" +++ dv_token d, "bearer " +++ t))
  end.

(** The request of [sendAPNs]. *)
Definition wake_request (cache : token_cache) (env : apns_env) (d : device) (clock : Z) : token_cache * res apns_request :=
  let '(cache1, context) := apnsRequestContext cache env d clock in
  (cache1, let* c := context in
     Ok {| aq_url := c.1; aq_authorization := c.2; aq_topic := dv_bundleId d; aq_push_type := "background";
           aq_priority := "5"; aq_expiration := "0"; aq_collapse_id := "granttap-wake"; aq_body := pushPayload |}).

(** The provider's answer: the status, and the reason of a refusal when its body has one. *)
Definition apns_outcome (status : Z) (reason : jstr) : bool * bool :=
  let ok := (200 <=? status) && (status <=? 299) in
  let reason := if ok then "" else reason in
  (ok, (status =? 410) || (reason =?s "BadDeviceToken") || (reason =?s "Unregistered")).

(** ** Activity notifications *)

Definition activity_payload (update : jsv) (now : Z) : jsv :=
  let seconds := now / 1000 in
  JObj [("aps", JObj ([("timestamp", JNum (NInt seconds)); ("event", get "event" update);
                       ("content-state", get "contentState" update); ("stale-date", get "staleDate" update)]
                      ++ if is_str (get "event" update) "end" then [("dismissal-date", JNum (NInt (seconds - 1)))] else []))].

Definition activity_request_of (cache : token_cache) (env : apns_env) (d : device) (update : jsv) (now clock : Z)
  : token_cache * res apns_request :=
  if negb (validActivityUpdate update now) || negb (dv_bundleId d =?s ACTIVITY_BUNDLE_ID)
     || negb (bool_decide (dv_environment d ∈ ["sandbox"; "production"]%js))
     || negb (activity_token (JStr (dv_token d))) then (cache, Throw) else
  let body := activity_payload update now in
  if 4096 <? json_bytes body then (cache, Throw) else
  let '(cache1, context) := apnsRequestContext cache env d clock in
  (cache1, let* c := context in
     Ok {| aq_url := c.1; aq_authorization := c.2; aq_topic := ACTIVITY_BUNDLE_ID +++ ".push-type.liveactivity";
           aq_push_type := "liveactivity"; aq_priority := "5"; aq_expiration := Z_text (now / 1000 + 90);
           aq_collapse_id := "granttap-task-activity"; aq_body := body |}).
End ProviderToken.

(** ** Provider tokens stay few and fresh *)

Section Tokens.
Context (sign : apns_env -> Z -> res jstr).

(** Every cached token is the signature of its time, for a configuration of its team and key. *)
Record cache_ok (cache : token_cache) : Prop := {
  co_few : (length cache <= 4)%nat;
  co_keys : NoDup cache.*1;
  co_signed : forall identity t, (identity, t) ∈ cache ->
    exists env, token_identity env = identity /\ sign env (pt_issuedAt t) = Ok (pt_token t);
}.

Lemma store_token_ok cache env now token :
  cache_ok cache -> sign env now = Ok token ->
  cache_ok (store_token cache (token_identity env) {| pt_issuedAt := now; pt_token := token |}).
Proof.
  intros [Hf Hk Hs] Hsign. unfold store_token. set (c1 := if 4 <=? Z.of_nat (length cache) then tail cache else cache).
  assert (c1 `sublist_of` cache /\ (length c1 <= 3)%nat) as [Hsub Hlen].
  { unfold c1. destruct (Z.leb_spec 4 (Z.of_nat (length cache))); [|split; [done|lia]].
    destruct cache as [|x l]; simpl in *; [done|]. split; [by constructor|lia]. }
  assert (NoDup c1.*1) as Hn by (eapply sublist_NoDup; [exact Hk|by apply sublist_keys]).
  split; [pose proof (map_set_length (token_identity env) {| pt_issuedAt := now; pt_token := token |} c1); lia|by apply map_set_nodup|].
  intros i t Hin. apply map_set_elem in Hin as [[-> ->]|[_ Hin]]; [by exists env| |done].
  apply Hs. by eapply elem_of_sublist.
Qed.

(** A request: the configuration it selects and the time. *)
Fixpoint token_requests (cache : token_cache) (requests : list (apns_env * Z)) : token_cache * list (res jstr) :=
  match requests with
  | [] => (cache, [])
  | (env, clock) :: rest =>
      let '(c1, t) := apnsProviderToken sign cache env clock in
      let '(c2, ts) := token_requests c1 rest in (c2, t :: ts)
  end.

Lemma provider_token_spec cache env clock :
  cache_ok cache -> let '(cache', r) := apnsProviderToken sign cache env clock in
  cache_ok cache' /\
  match r with
  | Ok token => exists env' at_, token_identity env' = token_identity env /\ clock / 1000 - at_ < 45 * 60 /\ sign env' at_ = Ok token
  | Throw => sign env (clock / 1000) = Throw
  end.
Proof.
  intros Hc. pose proof Hc as [_ Hk Hs]. unfold apnsProviderToken. set (now := clock / 1000).
  assert (forall o, o = None \/ (exists t, o = Some t /\ exists env' at_, token_identity env' = token_identity env /\ now - at_ < 45 * 60 /\ sign env' at_ = Ok t) ->
    let '(cache', r) := match o with
      | Some token => (cache, Ok token)
      | None => match sign env now with
                | Ok token => (store_token cache (token_identity env) {| pt_issuedAt := now; pt_token := token |}, Ok token)
                | Throw => (cache, Throw)
                end
      end in cache_ok cache' /\
    match r with
    | Ok token => exists env' at_, token_identity env' = token_identity env /\ now - at_ < 45 * 60 /\ sign env' at_ = Ok token
    | Throw => sign env now = Throw
    end) as Hall.
  { intros o [->|(t & -> & Ht)]; [|done]. destruct (sign env now) as [token|] eqn:E; [|done].
    split; [by apply store_token_ok|]. exists env, now. split_and!; [done|lia|done]. }
  apply Hall. destruct (map_get (token_identity env) cache) as [t|] eqn:E; [|by left]. destruct (now - pt_issuedAt t <? 45 * 60) eqn:El; [|by left].
  right. exists (pt_token t). split; [done|]. apply map_get_Some, Hs in E as (env' & Hi & Ht).
  exists env', (pt_issuedAt t). split_and!; [done|lia|done].
Qed.
End Tokens.

(** ** The size of an activity notification *)

Definition plain (u : N) : Prop := (32 <= u < 127 /\ u <> 34 /\ u <> 92)%N.

Lemma slen_app a b : slen (a +++ b) = slen a + slen b.
Proof. unfold slen, sapp. simpl. rewrite length_app. lia. Qed.

Lemma ascii_bytes s : Forall (fun u => u < 128)%N (units s) -> byte_length s = slen s.
Proof.
  unfold byte_length, slen. induction 1 as [|u l Hu _ IH]; [done|]. cbn [utf8_units length].
  rewrite (proj2 (N.ltb_lt _ _)) by done. lia.
Qed.

Lemma quote_plain s : Forall plain (units s) -> quote s = JS (34%N :: units s ++ [34%N]).
Proof.
  intros H. unfold quote. simpl. do 2 f_equal. f_equal. induction H as [|u l Hu _ IH]; [done|]. cbn [quote_units].
  destruct Hu as ((H1 & H2) & H3 & H4). replace ((55296 <=? u)%N && (u <? 56320)%N) with false by lia.
  replace ((56320 <=? u)%N && (u <? 57344)%N) with false by lia. rewrite IH. unfold quote_unit.
  repeat match goal with |- context [(u =? ?k)%N] => rewrite (proj2 (N.eqb_neq u k)) by lia end.
  rewrite (proj2 (N.ltb_ge u 32)) by done. done.
Qed.

Lemma quote_slen s : Forall plain (units s) -> slen (quote s) = slen s + 2 /\ Forall (fun u => u < 128)%N (units (quote s)).
Proof.
  intros H. rewrite quote_plain by done. unfold slen. simpl. rewrite length_app. simpl. split; [lia|].
  constructor; [lia|]. apply Forall_app. split; [|by constructor]. eapply Forall_impl; [exact H|]. intros u Hu. unfold plain in Hu. lia.
Qed.

Lemma digits_ascii fuel n acc : Forall (fun u => u < 128)%N acc -> Forall (fun u => u < 128)%N (digits_fuel fuel n acc).
Proof.
  revert n acc. induction fuel as [|fuel IH]; [done|]. intros n acc H. cbn [digits_fuel].
  assert (Forall (fun u => u < 128)%N ((48 + n mod 10)%N :: acc)) by (constructor; [|done]; pose proof (N.mod_lt n 10); lia).
  destruct (_ <? _)%N; auto.
Qed.

Lemma digits_length (k : nat) fuel n acc :
  (n < 10 ^ N.of_nat (Datatypes.S k))%N -> (length (digits_fuel fuel n acc) <= Datatypes.S k + length acc)%nat.
Proof.
  revert fuel n acc. induction k as [|k IH]; intros fuel n acc Hn; (destruct fuel as [|fuel]; [simpl; lia|]); cbn [digits_fuel].
  - rewrite (proj2 (N.ltb_lt n 10)) by (simpl in Hn; lia). simpl. lia.
  - destruct (_ <? _)%N; [simpl; lia|]. etrans; [apply IH|simpl; lia].
    apply N.Div0.div_lt_upper_bound. replace (N.of_nat (Datatypes.S (Datatypes.S k))) with (N.succ (N.of_nat (Datatypes.S k))) in Hn by lia.
    by rewrite N.pow_succ_r' in Hn.
Qed.

Lemma Z_text_size (k : nat) z :
  Z.abs z < 10 ^ Z.of_nat (Datatypes.S k) -> slen (Z_text z) <= Z.of_nat k + 2 /\ Forall (fun u => u < 128)%N (units (Z_text z)).
Proof.
  intros Hz. assert (forall m, (Z.of_N m < 10 ^ Z.of_nat (Datatypes.S k)) ->
    slen (N_text m) <= Z.of_nat k + 1 /\ Forall (fun u => u < 128)%N (units (N_text m))) as H.
  { intros m Hm. unfold N_text. split; [|by apply digits_ascii]. unfold slen. simpl.
    pose proof (digits_length k (Datatypes.S (N.to_nat (N.log2 m))) m []) as Hd. cbn [length] in Hd.
    assert (m < 10 ^ N.of_nat (Datatypes.S k))%N by (apply N2Z.inj_lt; rewrite N2Z.inj_pow; rewrite nat_N_Z; exact Hm).
    specialize (Hd H). change (slen (JS ?l)) with (Z.of_nat (length l)) in *. cbn [digits_fuel] in *. lia. }
  unfold Z_text. destruct (Z.ltb_spec z 0) as [Hn|Hn].
  - destruct (H (Z.to_N (- z))) as [H1 H2]; [lia|]. rewrite slen_app. split; [change (slen "-") with 1; lia|].
    simpl. constructor; [lia|done].
  - destruct (H (Z.to_N z)) as [H1 H2]; [lia|]. split; [lia|done].
Qed.

Lemma canonical64_shape v lo hi :
  canonical64 v lo hi = true -> exists s, v = JStr s /\ slen s <= hi /\ Forall plain (units s).
Proof.
  intros H. destruct v as [| | | |s| |]; try done. exists s. split; [done|].
  assert (slen s <= hi /\ re_base64 s = true) as [Hl Hr].
  { unfold canonical64 in H. simpl in H. destruct (_ || _) eqn:E in H; [done|]. split_andb. reflect_bools. split; [lia|done]. }
  split; [done|]. apply re_base64_shape in Hr as (body & pad & -> & _ & Hp & Hb). apply Forall_app. split.
  - eapply Forall_impl; [exact Hb|]. intros u Hu. unfold cls_base64, cls_alnum, in_range in Hu. unfold plain. lia.
  - destruct Hp; repeat constructor; done.
Qed.

Lemma sealed_shape content hi :
  fields content ["nonce"; "box"] = true -> canonical64 (get "nonce" content) 32 32 = true -> canonical64 (get "box" content) 24 hi = true ->
  exists n b, slen n <= 32 /\ slen b <= hi /\ Forall plain (units n) /\ Forall plain (units b) /\
    (content = JObj [("nonce", JStr n); ("box", JStr b)]%js \/ content = JObj [("box", JStr b); ("nonce", JStr n)]%js).
Proof.
  intros Hf Hn Hb. apply canonical64_shape in Hn as (n & En & Ln & Pn). apply canonical64_shape in Hb as (b & Eb & Lb & Pb).
  exists n, b. split_and!; [done..|]. destruct content as [| | | | | |fs]; try done. simpl in Hf.
  destruct fs as [|[k1 v1] [|[k2 v2] [|? ?]]]; try done. simpl in Hf. rewrite !andb_true_r in Hf.
  apply andb_true_iff in Hf as [H1 H2]. apply bool_decide_eq_true in H1, H2.
  assert (k1 = "nonce" \/ k1 = "box") as H1' by set_solver. assert (k2 = "nonce" \/ k2 = "box") as H2' by set_solver.
  destruct H1' as [-> | ->], H2' as [-> | ->]; vm_compute in En, Eb; try discriminate; simplify_eq; auto.
Qed.

Definition ascii_at_most (s : jstr) (k : Z) : Prop := slen s <= k /\ Forall (fun u => u < 128)%N (units s).

Lemma ascii_app a b j k : ascii_at_most a j -> ascii_at_most b k -> ascii_at_most (a +++ b) (j + k).
Proof. intros [H1 H2] [H3 H4]. split; [rewrite slen_app; lia|]. simpl. by apply Forall_app. Qed.

Lemma ascii_literal s : bool_decide (Forall (fun u => u < 128)%N (units s)) = true -> ascii_at_most s (slen s).
Proof. intros H. apply bool_decide_eq_true in H. split; [lia|done]. Qed.

Lemma ascii_quote s k : Forall plain (units s) -> slen s <= k -> ascii_at_most (quote s) (k + 2).
Proof. intros Hp Hl. destruct (quote_slen s Hp). split; [lia|done]. Qed.

Lemma ascii_number z : Z.abs z < 10 ^ 14 -> ascii_at_most (Z_text z) 15.
Proof. intros H. by apply (Z_text_size 13). Qed.

(** Bounds the parts of a concatenation by the given bounds and the length of the literals. *)
Local Ltac ascii_parts T1 T2 T3 T4 T5 :=
  repeat match goal with
  | |- ascii_at_most (_ +++ _) _ => apply ascii_app
  | |- ascii_at_most _ _ => first [exact T1 | exact T2 | exact T3 | exact T4 | exact T5 | apply ascii_literal; vm_compute; reflexivity]
  end.

Lemma payload_size event n b seconds stale content :
  event = "update" \/ event = "end" -> slen n <= 32 -> slen b <= 3072 -> Forall plain (units n) -> Forall plain (units b) ->
  content = JObj [("nonce", JStr n); ("box", JStr b)] \/ content = JObj [("box", JStr b); ("nonce", JStr n)] ->
  Z.abs seconds < 10 ^ 14 - 1 -> Z.abs stale < 10 ^ 14 ->
  json_bytes (JObj [("aps", JObj ([("timestamp", JNum (NInt seconds)); ("event", JStr event);
                       ("content-state", content); ("stale-date", JNum (NInt stale))]
                      ++ if event =?s "end" then [("dismissal-date", JNum (NInt (seconds - 1)))] else []))]) <= 4096.
Proof.
  intros He Ln Lb Pn Pb Hc Hs Hst. pose proof (ascii_number seconds ltac:(lia)) as T1. pose proof (ascii_number stale Hst) as T2.
  pose proof (ascii_number (seconds - 1) ltac:(lia)) as T3. pose proof (ascii_quote n 32 Pn Ln) as T4. pose proof (ascii_quote b 3072 Pb Lb) as T5.
  assert (exists k, ascii_at_most (json_text (JObj [("aps", JObj ([("timestamp", JNum (NInt seconds)); ("event", JStr event);
                       ("content-state", content); ("stale-date", JNum (NInt stale))]
                      ++ if event =?s "end" then [("dismissal-date", JNum (NInt (seconds - 1)))] else []))])) k /\ k <= 4096) as (k & [Hk Ha] & Hle).
  2: { unfold json_bytes. rewrite ascii_bytes by done. lia. }
  destruct He as [-> | ->], Hc as [-> | ->];
    try change ("update" =?s "end") with false; try change ("end" =?s "end") with true; cbn -[Z_text quote sapp slen]; eexists;
    (split; [ascii_parts T1 T2 T3 T4 T5|vm_compute; congruence]).
Qed.

(** ** Properties *)

(** However many notifications are sent, the cache of provider tokens holds at most
    four tokens, and every token that authorizes a request is the signature of the
    request's own team and key and was issued less than 45 minutes before, so that the
    provider never refuses it as expired (it does after an hour). *)
Theorem provider_tokens_fresh (sign : apns_env -> Z -> res jstr) (requests : list (apns_env * Z)) (cache : token_cache) :
  cache_ok sign cache ->
  let '(cache', tokens) := token_requests sign cache requests in
  cache_ok sign cache' /\
  Forall2 (fun request r => match r with
    | Ok token => exists env' at_, token_identity env' = token_identity request.1 /\ request.2 / 1000 - at_ < 45 * 60 /\ sign env' at_ = Ok token
    | Throw => sign request.1 (request.2 / 1000) = Throw
    end) requests tokens.
Proof.
  revert cache. induction requests as [|[env clock] requests IH]; intros cache Hc; [by split|]. cbn [token_requests].
  pose proof (provider_token_spec sign cache env clock Hc) as Hs. destruct (apnsProviderToken sign cache env clock) as [c1 t].
  destruct Hs as [Hc1 Ht]. specialize (IH c1 Hc1). destruct (token_requests sign c1 requests) as [c2 ts]. destruct IH as [Hc2 Hts].
  split; [done|]. by constructor.
Qed.

(** C39: The size limit of the provider never refuses a valid update: whatever the
    sealed content of an update that passed validation, the notification is at most
    4096 bytes, so [sendTaskActivityAPNs] throws for a device of a configured
    environment only when the provider token cannot be signed. *)
Theorem activity_notification_fits (sign : apns_env -> Z -> res jstr) (cache : token_cache) (env : apns_env) (d : device) (update : jsv)
    (now clock : Z) :
  0 <= now <= 8640000000000000 -> validActivityUpdate update now = true -> dv_bundleId d = ACTIVITY_BUNDLE_ID ->
  dv_environment d = "sandbox" \/ dv_environment d = "production" -> activity_token (JStr (dv_token d)) = true ->
  configured_for env (dv_environment d) = true ->
  json_bytes (activity_payload update now) <= 4096 /\
  match activity_request_of sign cache env d update now clock with
  | (_, Ok request) => aq_body request = activity_payload update now /\
      aq_url request = apns_host (dv_environment d) +++ "/3/device/" +++ dv_token d
  | (_, Throw) => exists selected, apnsEnvironment env (dv_environment d) = Some selected /\ sign selected (clock / 1000) = Throw
  end.
Proof.
  intros Hnow Hv Hb He Ht Hc. assert (json_bytes (activity_payload update now) <= 4096) as Hsize.
  { unfold validActivityUpdate in Hv. split_andb.
    match goal with Hf : fields (get "contentState" update) _ = true, Hn : canonical64 (get "nonce" _) _ _ = true, Hx : canonical64 (get "box" _) _ _ = true |- _ =>
      destruct (sealed_shape _ _ Hf Hn Hx) as (n & b & Ln & Lb & Pn & Pb & Hcontent) end.
    match goal with Hev : str_in (get "event" update) _ = true |- _ => apply str_in_iff in Hev as (event & Eev & Hevent) end.
    match goal with Hst : is_safe_int (get "staleDate" update) = true |- _ => apply is_safe_int_iff in Hst as (st & Est & _) end.
    unfold activity_payload. rewrite Eev, Est in *. cbn [is_str int_of] in *. reflect_bools. apply (payload_size event n b); try done.
    - destruct Hevent as [<-|[<-|[]]]; auto.
    - lia.
    - assert (0 <= now / 1000 <= 8640000000000000) by (split; [apply Z.div_pos; lia|apply Z.div_le_upper_bound; lia]).
      assert (now / 1000 <= 8640000000000) by (apply Z.div_le_upper_bound; lia). lia. }
  split; [done|]. unfold activity_request_of. rewrite Hv, Hb, Ht. unfold jeqb. rewrite bool_decide_eq_true_2 by done.
  rewrite bool_decide_eq_true_2 by (rewrite !elem_of_cons; tauto). cbn [negb orb]. rewrite (proj2 (Z.ltb_ge 4096 _)) by done.
  unfold apnsRequestContext, apnsConfigured. assert (dv_environment d =?s "" = false) as -> by (destruct He as [-> | ->]; reflexivity).
  rewrite Hc. cbn [negb]. unfold configured_for in Hc. destruct (apnsEnvironment env (dv_environment d)) as [selected|]; [|done].
  unfold apnsProviderToken. destruct (match map_get _ _ with Some _ => _ | None => _ end) as [token|]; [done|].
  destruct (sign selected (clock / 1000)) as [token|] eqn:Es; [done|]. by exists selected.
Qed.

(** ** Examples *)

Module Examples.
Definition sample_env : apns_env :=
  {| APNS_TEAM_ID := Some "TEAM"; APNS_KEY_ID := Some "KEY"; APNS_PRIVATE_KEY := Some "PEM"; APNS_KEY_ENVIRONMENT := Some "production";
     APNS_SANDBOX_TEAM_ID := None; APNS_SANDBOX_KEY_ID := None; APNS_SANDBOX_PRIVATE_KEY := None |}.
Definition sample_sign (env : apns_env) (now : Z) : res jstr := Ok (token_identity env +++ "@" +++ Z_text now).
Definition sample_device : device :=
  {| dv_token := "00112233445566778899aabbccddeeff"; dv_environment := "production"; dv_bundleId := ACTIVITY_BUNDLE_ID |}.
Definition sample_content : jsv :=
  JObj [("box", JStr "AAAAAAAAAAAAAAAAAAAAAAAAAAAAAAAA"); ("nonce", JStr "AAAAAAAAAAAAAAAAAAAAAAAAAAAAAAAA")].
Definition sample_update (delivery event : jstr) : jsv :=
  JObj [("activityId", JStr "activity-1"); ("deliveryId", JStr delivery); ("event", JStr event);
        ("staleDate", JNum (NInt 1700000060)); ("contentState", sample_content)].
Definition sample_now : Z := 1700000000000.

Example refused_after_45_minutes :
  (token_requests sample_sign [] [(sample_env, 1000); (sample_env, 2700999); (sample_env, 2701000)]).2
  = [Ok "TEAM:KEY@1"; Ok "TEAM:KEY@1"; Ok "TEAM:KEY@2701"]%js.
Proof. vm_compute. reflexivity. Qed.

Lemma provider_tokens_fresh_witness :
  cache_ok sample_sign [] /\
  let '(cache', tokens) := token_requests sample_sign [] [(sample_env, 1000); (sample_env, 2701000)] in
  cache_ok sample_sign cache' /\
  Forall2 (fun request r => match r with
    | Ok token => exists env' at_, token_identity env' = token_identity request.1 /\ request.2 / 1000 - at_ < 45 * 60 /\ sample_sign env' at_ = Ok token
    | Throw => sample_sign request.1 (request.2 / 1000) = Throw
    end) [(sample_env, 1000); (sample_env, 2701000)] tokens.
Proof.
  assert (cache_ok sample_sign []) as H by (split; [simpl; lia|constructor|intros i t Hin; by apply not_elem_of_nil in Hin]).
  split; [exact H|]. exact (provider_tokens_fresh sample_sign [(sample_env, 1000); (sample_env, 2701000)] [] H).
Defined.

Lemma activity_notification_fits_witness :
  validActivityUpdate (sample_update "d1" "end") sample_now = true /\
  json_bytes (activity_payload (sample_update "d1" "end") sample_now) <= 4096 /\
  match activity_request_of sample_sign [] sample_env sample_device (sample_update "d1" "end") sample_now sample_now with
  | (_, Ok request) => aq_body request = activity_payload (sample_update "d1" "end") sample_now /\
      aq_url request = apns_host (dv_environment sample_device) +++ "/3/device/" +++ dv_token sample_device
  | (_, Throw) => exists selected, apnsEnvironment sample_env (dv_environment sample_device) = Some selected /\ sample_sign selected (sample_now / 1000) = Throw
  end.
Proof.
  split; [vm_compute; reflexivity|].
  apply (activity_notification_fits sample_sign [] sample_env sample_device (sample_update "d1" "end") sample_now sample_now);
    [unfold sample_now; lia|vm_compute; reflexivity|reflexivity|right; reflexivity|vm_compute; reflexivity|vm_compute; reflexivity].
Defined.
End Examples.
