(* ===== verification/PushDevices.v ===== *)
(** * Room credentials and push devices
    [src/node/server.js] ([authorize]), [src/node/pushDelivery/] (registration and
    wakes) and the push handlers of the Durable Object ([src/relay/room.js]).

    The first credential shown for a room is pinned; with it a phone registers up to
    eight device tokens, which a wake notifies.  [RoomCredentials] and its laws are
    the interface that both deployments implement. *)

From S2P Require Import Prelude Validation NodeRooms Apns.
#[local] Open Scope bool_scope.
#[local] Open Scope Z_scope.
#[local] Open Scope js_scope.

(** ** Credentials *)

(** [rc_authorize] answers whether a credential is the room's; with [pin] an unclaimed
    room is claimed by it. *)
Class RoomCredentials (S : Type) := {
  rc_authorize : S -> jstr -> jstr -> bool -> Z -> bool * S;
  rc_pinned : S -> jstr -> option jstr;
}.

Section Platform.
(** The platform's SHA-256, in lower-case hexadecimal. *)
Context (sha256 : jstr -> jstr).

#[export] Instance node_credentials : RoomCredentials rooms :=
  {| rc_authorize db room credential pin now := authorize sha256 db room credential pin now; rc_pinned := authDigest |}.

(** The keys ["push:auth-sha256"] and ["push:tokens"] of a room's storage. *)
Record push_storage := { ps_auth : option jstr; ps_tokens : list NodeRooms.device }.

(** [requireRoomAuth]: [None] when the request may pass. *)
Definition requireRoomAuth (st : push_storage) (credential : jstr) : option (Z * jstr) * push_storage :=
  if negb (validRoomCredential (JStr credential)) then (Some (401, "room credential required"), st) else
  let digest := sha256 credential in
  match ps_auth st with
  | Some expected =>
      if negb (constantTimeEqual (JStr digest) (JStr expected)) then (Some (401, "invalid room credential"), st) else (None, st)
  | None => (None, {| ps_auth := Some digest; ps_tokens := ps_tokens st |})
  end.

(** The [authorize] callbacks of the Durable Object: without [pin] an unclaimed room refuses. *)
Definition room_authorize (st : push_storage) (credential : jstr) (pin : bool) : bool * push_storage :=
  if negb pin && bool_decide (ps_auth st = None) then (false, st) else
  let '(error, st1) := requireRoomAuth st credential in (bool_decide (error = None), st1).

(** A Durable Object serves one room; [room] is its name. *)
Definition worker_credentials (name : jstr) : RoomCredentials push_storage :=
  {| rc_authorize st room credential pin _ := if room =?s name then room_authorize st credential pin else (false, st);
     rc_pinned st room := if room =?s name then ps_auth st else None |}.
End Platform.

(** What both implementations guarantee, [sha256] giving hexadecimal texts. *)
Class CredentialLaws (sha256 : jstr -> jstr) (S : Type) `{RoomCredentials S} (served : jstr -> Prop) := {
  cl_wf : S -> Prop;
  cl_authorize : forall s room credential pin now, cl_wf s -> served room ->
    let '(ok, s') := rc_authorize s room credential pin now in
    cl_wf s' /\
    ok = validRoomCredential (JStr credential) && match rc_pinned s room with
         | Some digest => sha256 credential =?s digest | None => pin end /\
    rc_pinned s' room = (if ok then Some (sha256 credential) else rc_pinned s room) /\
    forall room', room' <> room -> rc_pinned s' room' = rc_pinned s room';
}.

(** ** Registration *)

Inductive push_reply :=
| PushError (status : Z) (error : jstr)
| PushRegistered (registered enabled : bool) (devices : nat)
| PushStatus (enabled : bool) (devices : nat).

Definition BUNDLE_ID : jstr := "com.ziborov.granttap".

(** [token.toLowerCase()] of [String(body?.token ?? "")]. *)
Definition token_text (v : jsv) : res jstr := let* s := to_string (if is_nullish v then JStr "" else v) in Ok (lower s).

Section Registration.
Context (sha256 : jstr -> jstr) (env : apns_env).

Definition node_device (token : jstr) (body : jsv) : NodeRooms.device :=
  {| d_token := token; d_environment := str_of (get "environment" body); d_bundleId := str_of (get "bundleId" body); d_updatedAt := 0 |}.

(** The Node handler; [body] is [JNull] when it is too long or no JSON. *)
Definition node_push (db : rooms) (path method : jstr) (room : option jstr) (credential : jstr) (body : jsv) (now : Z) : res push_reply * rooms :=
  match room with
  | None => (Ok (PushError 400 "valid room query parameter required"), db)
  | Some room =>
      if negb (validRoom (JStr room)) then (Ok (PushError 400 "valid room query parameter required"), db) else
      let '(ok, db) := authorize sha256 db room credential (path =?s "/push/register") now in
      if negb ok then (Ok (PushError 401 "invalid room credential"), db) else
      if path =?s "/push/status" then
        if negb (method =?s "GET") then (Ok (PushError 405 "method not allowed"), db)
        else (Ok (PushStatus (apnsConfigured env None) (length (pushTokens db room))), db)
      else
        if negb (bool_decide (method ∈ ["PUT"; "POST"; "DELETE"]%js)) then (Ok (PushError 405 "method not allowed"), db) else
        match token_text (get "token" body) with
        | Throw => (Throw, db)
        | Ok token =>
            if negb (validDeviceToken token) then (Ok (PushError 400 "valid APNs token required"), db) else
            if negb (str_in (get "environment" body) ["sandbox"; "production"]) then (Ok (PushError 400 "environment must be sandbox or production"), db) else
            if negb (is_str (get "bundleId" body) BUNDLE_ID) then (Ok (PushError 400 "unexpected bundle id"), db) else
            let '(tokens, db) := updatePushToken db room (node_device token body) (method =?s "DELETE") now in
            (Ok (PushRegistered (negb (method =?s "DELETE")) (apnsConfigured env (Some (str_of (get "environment" body)))) (length tokens)), db)
        end
  end.

(** [tokens.splice(0, tokens.length - limit)] when there are too many. *)
Definition room_update (tokens : list NodeRooms.device) (d : NodeRooms.device) (now : Z) : list NodeRooms.device :=
  let tokens := filter (fun item => d_token item <> d_token d) tokens in
  let tokens := tokens ++ [{| d_token := d_token d; d_environment := d_environment d; d_bundleId := d_bundleId d; d_updatedAt := now |}] in
  if (PUSH_TOKEN_LIMIT <? length tokens)%nat then drop (length tokens - PUSH_TOKEN_LIMIT) tokens else tokens.

(** [handlePushRegistration] of the Durable Object; [body] is [None] when [readJsonLimited] threw. *)
Definition room_push_registration (st : push_storage) (method credential : jstr) (body : option jsv) (now : Z) : res push_reply * push_storage :=
  let '(error, st) := requireRoomAuth sha256 st credential in
  match error with
  | Some (status, text) => (Ok (PushError status text), st)
  | None =>
      match body with
      | None => (Ok (PushError 400 "bounded JSON body required"), st)
      | Some body =>
          match token_text (get "token" body) with
          | Throw => (Throw, st)
          | Ok token =>
              if negb (validDeviceToken token) then (Ok (PushError 400 "valid APNs token required"), st) else
              if negb (is_str (get "environment" body) "sandbox") && negb (is_str (get "environment" body) "production")
              then (Ok (PushError 400 "environment must be sandbox or production"), st) else
              match to_string (if is_nullish (get "bundleId" body) then JStr "" else get "bundleId" body) with
              | Throw => (Throw, st)
              | Ok bundleId =>
                  if negb (bundleId =?s BUNDLE_ID) then (Ok (PushError 400 "unexpected bundle id"), st) else
                  let d := {| d_token := token; d_environment := str_of (get "environment" body); d_bundleId := bundleId; d_updatedAt := now |} in
                  let registered tokens :=
                    (Ok (PushRegistered (negb (method =?s "DELETE")) (apnsConfigured env (Some (str_of (get "environment" body)))) (length tokens)),
                     {| ps_auth := ps_auth st; ps_tokens := tokens |}) in
                  if method =?s "DELETE" then registered (filter (fun item => d_token item <> token) (ps_tokens st))
                  else if (method =?s "PUT") || (method =?s "POST") then registered (room_update (ps_tokens st) d now)
                  else (Ok (PushError 405 "method not allowed"), st)
              end
          end
      end
  end.

(** [handlePushStatus] *)
Definition room_push_status (st : push_storage) (credential : jstr) : push_reply :=
  if negb (validRoomCredential (JStr credential))
     || negb match ps_auth st with Some expected => constantTimeEqual (JStr (sha256 credential)) (JStr expected) | None => false end
  then PushError 401 "invalid room credential"
  else PushStatus (apnsConfigured env None) (length (ps_tokens st)).
End Registration.

(** ** Wakes *)

(** What came of notifying a device: the provider's [ok] and [stale], or an exception. *)
Definition push_outcome : Type := option (bool * bool).

Definition stale_tokens (sent : list (NodeRooms.device * push_outcome)) : list jstr :=
  omap (fun x => match x.2 with Some (_, true) => Some (d_token x.1) | _ => None end) sent.
Definition wake_ok (sent : list (NodeRooms.device * push_outcome)) : bool :=
  forallb (fun x => match x.2 with Some (_, true) => true | Some (ok, false) => ok | None => false end) sent.

(** [sendWakePush] runs in two parts: the devices are read, then all are notified
    (other requests run meanwhile), then the stale ones are removed. *)
Definition node_wake_begin (env : apns_env) (db : rooms) (room : jstr) : option (list NodeRooms.device) :=
  if negb (apnsConfigured env None) then None else Some (pushTokens db room).
Definition node_wake_end (db : rooms) (room : jstr) (sent : list (NodeRooms.device * push_outcome)) (now : Z) : bool * rooms :=
  (wake_ok sent, match stale_tokens sent with [] => db | stale => removePushTokens db room stale now end).

Definition room_wake_begin (env : apns_env) (st : push_storage) : option (list NodeRooms.device) :=
  if negb (apnsConfigured env None) then None else Some (ps_tokens st).
(** [tokens] is the list that was read at the beginning. *)
Definition room_wake_end (st : push_storage) (tokens : list NodeRooms.device) (sent : list (NodeRooms.device * push_outcome)) : bool * push_storage :=
  (wake_ok sent, match stale_tokens sent with
                 | [] => st
                 | stale => {| ps_auth := ps_auth st; ps_tokens := filter (fun item => d_token item ∉ stale) tokens |}
                 end).

(** ** The laws of the two deployments *)

Lemma hex_value_inj u v x : cls_hex u = true -> cls_hex v = true -> hex_value u = Some x -> hex_value v = Some x -> u = v.
Proof.
  unfold cls_hex, hex_value, in_range. intros Hu Hv H1 H2.
  repeat case_match; simplify_eq; lia.
Qed.

Lemma hex_value_some u : cls_hex u = true -> is_Some (hex_value u).
Proof.
  unfold cls_hex, hex_value. destruct (in_range 48 57 u); [eauto|]. simpl. intros ->. eauto.
Qed.

Lemma hex_bytes_inj (n : nat) (a b : list N) :
  length a = (2 * n)%nat -> length b = (2 * n)%nat -> forallb cls_hex a = true -> forallb cls_hex b = true ->
  hex_bytes a = hex_bytes b -> a = b.
Proof.
  revert a b. induction n as [|n IH]; intros a b Ha Hb; [by destruct a, b|].
  destruct a as [|a1 [|a2 a]]; simpl in Ha; [lia|lia|]. destruct b as [|b1 [|b2 b]]; simpl in Hb; [lia|lia|].
  simpl. intros Ca Cb. split_andb.
  repeat match goal with H : cls_hex ?u = true |- context [hex_value ?u] =>
    let x := fresh "x" in let E := fresh "E" in destruct (hex_value_some u H) as [x E]; rewrite E end.
  intros [= Heq1 Heq2].
  assert (forall u y, cls_hex u = true -> hex_value u = Some y -> (y < 16)%N) as Hlt.
  { intros u y Hu. unfold hex_value, cls_hex, in_range in *. repeat case_match; intros [= <-]; lia. }
  repeat match goal with H : hex_value ?u = Some ?y, C : cls_hex ?u = true |- _ =>
    lazymatch goal with _ : (y < 16)%N |- _ => fail | _ => pose proof (Hlt u y C H) end end.
  f_equal; [|f_equal; [|by apply IH; [lia|lia|..]]]; (eapply hex_value_inj; [done|done|eassumption|]);
    match goal with H : hex_value ?u = Some _ |- hex_value ?u = _ => rewrite H; f_equal; lia end.
Qed.

Lemma equalDigest_hex a b : hex64 a = true -> hex64 b = true -> equalDigest a b = (a =?s b).
Proof.
  unfold hex64, re_class, slen, equalDigest, jeqb. intros Ha Hb. split_andb. reflect_bools. apply bool_decide_ext. split; [|by intros ->].
  intros E. destruct a as [a], b as [b]. simpl in *. f_equal. apply (hex_bytes_inj 32); [lia|lia|done|done|done].
Qed.

Section Laws.
Context (sha256 : jstr -> jstr) (Hsha : forall s, hex64 (sha256 s) = true).

Lemma alter_authDigest (f : room_row -> room_row) db room room' :
  authDigest (alter f room db) room' = if decide (room' = room) then (db !! room ≫= fun row => auth_sha256 (f row)) else authDigest db room'.
Proof.
  unfold authDigest. destruct (decide (room' = room)) as [->|Hne]; [|by rewrite lookup_alter_ne].
  rewrite lookup_alter_eq. by destruct (db !! room).
Qed.

Lemma ensureRoom_auth db room now room' : authDigest (ensureRoom db room now) room' = authDigest db room'.
Proof.
  unfold authDigest, ensureRoom. destruct (db !! room) as [row|] eqn:E; rewrite lookup_insert; case_decide as Hd; subst; rewrite ?E; done.
Qed.

Lemma ensureRoom_some db room now : is_Some (ensureRoom db room now !! room).
Proof. unfold ensureRoom. destruct (db !! room); rewrite lookup_insert_eq; eauto. Qed.

Lemma pinAuth_auth db room digest now :
  let '(expected, db') := pinAuth db room digest now in
  expected = Some (default digest (authDigest db room)) /\
  forall room', authDigest db' room' = if decide (room' = room) then Some (default digest (authDigest db room)) else authDigest db room'.
Proof.
  unfold pinAuth. destruct (ensureRoom_some db room now) as [row Hrow].
  assert (auth_sha256 row = authDigest db room) as Ha
    by (pose proof (ensureRoom_auth db room now room) as H; unfold authDigest at 1 in H; by rewrite Hrow in H).
  assert (forall room', authDigest (alter (fun row => {| auth_sha256 := Some (default digest (auth_sha256 row)); push_tokens := push_tokens row;
    machine_queue := machine_queue row; phone_queue := phone_queue row; updated_at := now |}) room (ensureRoom db room now)) room'
    = if decide (room' = room) then Some (default digest (authDigest db room)) else authDigest db room') as H.
  { intros room'. rewrite alter_authDigest. case_decide; [|apply ensureRoom_auth]. rewrite Hrow. simpl. by rewrite Ha. }
  split; [|done]. rewrite H. by rewrite decide_True.
Qed.

#[export] Instance node_credential_laws : CredentialLaws sha256 (H := node_credentials sha256) rooms (fun _ => True).
Proof.
  refine {| cl_wf := fun db => forall room digest, authDigest db room = Some digest -> hex64 digest = true |}.
  intros db room credential pin now Hwf _. cbn [rc_authorize rc_pinned node_credentials]. unfold authorize.
  destruct (validRoomCredential (JStr credential)) eqn:Ev; [|done]. cbn [negb andb].
  destruct (authDigest db room) as [current|] eqn:Ea.
  - rewrite equalDigest_hex by eauto. split_and!; [done|done| |done]. rewrite Ea. unfold jeqb.
    destruct (bool_decide _) eqn:E; [|done]. apply bool_decide_eq_true in E. by rewrite E.
  - destruct pin; cbn [negb]; [|split_and!; done]. pose proof (pinAuth_auth db room (sha256 credential) now) as Hp.
    destruct (pinAuth db room (sha256 credential) now) as [expected db']. destruct Hp as [-> Hp]. rewrite Ea in *. simpl in *.
    rewrite equalDigest_hex by done. unfold jeqb. rewrite bool_decide_eq_true_2 by done. split_and!; [|done| |].
    + intros room' digest. rewrite Hp. case_decide; [intros [= <-]; apply Hsha|apply Hwf].
    + rewrite Hp. by rewrite decide_True.
    + intros room' Hne. rewrite Hp. by rewrite decide_False.
Defined.

Definition worker_credential_laws (name : jstr) :
  CredentialLaws sha256 (H := worker_credentials sha256 name) push_storage (fun room => room = name).
Proof.
  refine {| cl_wf := fun _ => True |}.
  intros st room credential pin now _ ->. cbn [rc_authorize rc_pinned worker_credentials]. unfold jeqb. rewrite bool_decide_eq_true_2 by done.
  unfold room_authorize, requireRoomAuth.
  destruct (validRoomCredential (JStr credential)) eqn:Ev; destruct (ps_auth st) as [expected|] eqn:Ea, pin; cbn [negb andb];
    try (destruct (constantTimeEqual (JStr (sha256 credential)) (JStr expected)) eqn:Ec; cbn [negb];
         [apply constantTimeEqual_iff in Ec|
          assert (sha256 credential <> expected) by (intros E; apply constantTimeEqual_iff in E; congruence)]);
    split_and!; intros; repeat case_bool_decide; simplify_eq/=; done || congruence.
Defined.
End Laws.

(** ** Runs of authentication requests *)

Record auth_request := { au_room : jstr; au_credential : jstr; au_pin : bool; au_now : Z }.

Fixpoint authorize_all {S} `{RoomCredentials S} (s : S) (requests : list auth_request) : list bool * S :=
  match requests with
  | [] => ([], s)
  | r :: rest =>
      let '(ok, s1) := rc_authorize s (au_room r) (au_credential r) (au_pin r) (au_now r) in
      let '(oks, s2) := authorize_all s1 rest in (ok :: oks, s2)
  end.

(** The reference: the digest of the first credential of each room that was pinned. *)
Abbreviation claims := (gmap jstr jstr).
Definition reference_authorize (sha256 : jstr -> jstr) (c : claims) (r : auth_request) : bool * claims :=
  if negb (validRoomCredential (JStr (au_credential r))) then (false, c) else
  match c !! au_room r with
  | Some digest => (sha256 (au_credential r) =?s digest, c)
  | None => if au_pin r then (true, <[au_room r := sha256 (au_credential r)]> c) else (false, c)
  end.
Fixpoint reference_all (sha256 : jstr -> jstr) (c : claims) (requests : list auth_request) : list bool * claims :=
  match requests with
  | [] => ([], c)
  | r :: rest =>
      let '(ok, c1) := reference_authorize sha256 c r in
      let '(oks, c2) := reference_all sha256 c1 rest in (ok :: oks, c2)
  end.

Section Runs.
Context (sha256 : jstr -> jstr) {S : Type} (served : jstr -> Prop) `{CredentialLaws sha256 S served}.

Definition credentials_agree (s : S) (c : claims) : Prop := cl_wf s /\ forall room, served room -> rc_pinned s room = c !! room.

Lemma authorize_agrees s c r :
  credentials_agree s c -> served (au_room r) ->
  let '(ok, s') := rc_authorize s (au_room r) (au_credential r) (au_pin r) (au_now r) in
  let '(ok', c') := reference_authorize sha256 c r in ok = ok' /\ credentials_agree s' c'.
Proof.
  intros [Hwf Hag] Hs. pose proof (cl_authorize s (au_room r) (au_credential r) (au_pin r) (au_now r) Hwf Hs) as Hl.
  destruct (rc_authorize _ _ _ _ _) as [ok s']. destruct Hl as (Hwf' & Hok & Hp & Ho). rewrite (Hag _ Hs) in *.
  assert (forall c' : claims, c' !! au_room r = rc_pinned s' (au_room r) -> (forall room', room' <> au_room r -> c' !! room' = c !! room') -> credentials_agree s' c') as Hc.
  { intros c' H1 H2. split; [done|]. intros room Hr. destruct (decide (room = au_room r)) as [->|Hne]; [done|]. rewrite Ho, H2 by done. by apply Hag. }
  unfold reference_authorize. destruct (validRoomCredential _); simpl in *.
  - destruct (c !! au_room r) as [digest|] eqn:Ec.
    + split; [done|]. apply Hc; [|done]. rewrite Hp, Ec. subst ok. unfold jeqb. destruct (bool_decide _) eqn:E; [|done].
      apply bool_decide_eq_true in E. by rewrite E.
    + destruct (au_pin r); subst ok; (split; [done|]); apply Hc; try done.
      * rewrite Hp. by rewrite lookup_insert_eq.
      * intros room' Hne. by rewrite lookup_insert_ne.
      * by rewrite Hp.
  - subst ok. split; [done|]. apply Hc; [by rewrite Hp|done].
Qed.

Lemma runs_agree requests s c :
  credentials_agree s c -> Forall (fun r => served (au_room r)) requests ->
  let '(oks, s') := authorize_all s requests in
  let '(oks', c') := reference_all sha256 c requests in oks = oks' /\ credentials_agree s' c'.
Proof.
  revert s c. induction requests as [|r requests IH]; intros s c Ha Hf; [done|]. cbn [authorize_all reference_all].
  apply Forall_cons in Hf as [Hr Hf]. pose proof (authorize_agrees s c r Ha Hr) as H1.
  destruct (rc_authorize _ _ _ _ _) as [ok s1]. destruct (reference_authorize _ _ _) as [ok' c1]. destruct H1 as [-> H1].
  specialize (IH s1 c1 H1 Hf). destruct (authorize_all s1 requests) as [oks s2]. destruct (reference_all sha256 c1 requests) as [oks' c2].
  destruct IH as [-> IH]. done.
Qed.
End Runs.

Lemma reference_keeps sha256 requests c room digest :
  c !! room = Some digest ->
  let '(oks, c') := reference_all sha256 c requests in
  c' !! room = Some digest /\
  Forall2 (fun r ok => au_room r = room -> ok = validRoomCredential (JStr (au_credential r)) && (sha256 (au_credential r) =?s digest)) requests oks.
Proof.
  revert c. induction requests as [|r requests IH]; intros c Hc; [by split|]. cbn [reference_all].
  assert (let '(ok, c1) := reference_authorize sha256 c r in c1 !! room = Some digest /\
    (au_room r = room -> ok = validRoomCredential (JStr (au_credential r)) && (sha256 (au_credential r) =?s digest))) as Hr.
  { unfold reference_authorize. destruct (validRoomCredential _); [|done]. simpl.
    destruct (c !! au_room r) as [d|] eqn:E; [split; [done|]; intros <-; congruence|].
    destruct (au_pin r); (split; [|intros <-; congruence]); [|done]. rewrite lookup_insert_ne; [done|congruence]. }
  destruct (reference_authorize sha256 c r) as [ok c1]. destruct Hr as [Hc1 Hok]. specialize (IH c1 Hc1).
  destruct (reference_all sha256 c1 requests) as [oks c2]. destruct IH. split; [done|]. by constructor.
Qed.

(** ** The devices of the Durable Object *)

Definition devices_wf (tokens : list NodeRooms.device) : Prop := (length tokens <= PUSH_TOKEN_LIMIT)%nat /\ NoDup (map d_token tokens).

Lemma devices_sublist l l' : l' `sublist_of` l -> devices_wf l -> devices_wf l'.
Proof.
  intros Hs [H1 H2]. split; [apply sublist_length in Hs; lia|]. eapply sublist_NoDup; [exact H2|]. by apply (sublist_fmap d_token).
Qed.

Lemma room_update_wf tokens d now : devices_wf tokens -> devices_wf (room_update tokens d now).
Proof.
  intros Hwf. unfold room_update. set (kept := filter _ tokens).
  assert (devices_wf kept) as [Hl Hn] by (eapply devices_sublist; [apply sublist_filter|done]).
  set (all := kept ++ _).
  assert (NoDup (map d_token all)) as Hna.
  { unfold all. rewrite map_app. apply NoDup_app. split_and!; [done| |apply NoDup_singleton].
    intros x Hx Hx'. apply list_elem_of_singleton in Hx' as ->. apply list_elem_of_fmap in Hx as (y & Hy & Hin).
    apply list_elem_of_filter in Hin as [? _]. simpl in Hy. congruence. }
  destruct (Nat.ltb_spec PUSH_TOKEN_LIMIT (length all)); [|split; [lia|done]]. split; [rewrite length_drop; lia|].
  eapply sublist_NoDup; [exact Hna|]. apply (sublist_fmap d_token), sublist_drop.
Qed.

Lemma requireRoomAuth_tokens sha256 st credential : ps_tokens (requireRoomAuth sha256 st credential).2 = ps_tokens st.
Proof. unfold requireRoomAuth. by repeat case_match. Qed.

Lemma registration_wf sha256 env st method credential body now :
  devices_wf (ps_tokens st) -> devices_wf (ps_tokens (room_push_registration sha256 env st method credential body now).2).
Proof.
  intros Hwf. unfold room_push_registration. pose proof (requireRoomAuth_tokens sha256 st credential) as Ht.
  destruct (requireRoomAuth sha256 st credential) as [error st1]. simpl in Ht. rewrite <- Ht in Hwf.
  destruct error as [[? ?]|]; [done|]. destruct body as [body|]; [|done]. destruct (token_text _); [|done].
  destruct (negb (validDeviceToken _)); [done|]. destruct (negb _ && negb _); [done|]. destruct (to_string _); [|done]. destruct (negb (_ =?s BUNDLE_ID)); [done|].
  destruct (method =?s "DELETE"); [eapply devices_sublist; [apply sublist_filter|done]|].
  destruct (_ || _); [by apply room_update_wf|done].
Qed.

(** Turns of a Durable Object: requests, and the two parts of wakes; a wake that began
    read the devices of that time. *)
Inductive push_turn (sha256 : jstr -> jstr) (env : apns_env) : push_storage * list (list NodeRooms.device) -> push_storage * list (list NodeRooms.device) -> Prop :=
| turn_register st wakes method credential body now :
    push_turn sha256 env (st, wakes) ((room_push_registration sha256 env st method credential body now).2, wakes)
| turn_authorize st wakes credential pin : push_turn sha256 env (st, wakes) ((room_authorize sha256 st credential pin).2, wakes)
| turn_wake st wakes tokens : room_wake_begin env st = Some tokens -> push_turn sha256 env (st, wakes) (st, tokens :: wakes)
| turn_sent st w1 tokens w2 sent : push_turn sha256 env (st, w1 ++ tokens :: w2) ((room_wake_end st tokens sent).2, w1 ++ w2).

Inductive push_turns (sha256 : jstr -> jstr) (env : apns_env) : push_storage * list (list NodeRooms.device) -> Prop :=
| turns_start : push_turns sha256 env ({| ps_auth := None; ps_tokens := [] |}, [])
| turns_step s s' : push_turns sha256 env s -> push_turn sha256 env s s' -> push_turns sha256 env s'.

Lemma push_turns_wf sha256 env s : push_turns sha256 env s -> devices_wf (ps_tokens s.1) /\ Forall devices_wf s.2.
Proof.
  induction 1 as [|s s' _ [Hst Hw] Hturn]; [split; [split; [simpl; lia|constructor]|constructor]|].
  destruct Hturn as [st wakes|st wakes credential pin|st wakes tokens Hb|st w1 tokens w2 sent]; simpl in *.
  - split; [by apply registration_wf|done].
  - split; [|done]. unfold room_authorize. destruct (_ && _); [done|]. pose proof (requireRoomAuth_tokens sha256 st credential) as Ht.
    destruct (requireRoomAuth sha256 st credential) as [e st1]. simpl in *. by rewrite Ht.
  - unfold room_wake_begin in Hb. destruct (negb _); [done|]. injection Hb as <-. split; [done|]. by constructor.
  - apply Forall_app in Hw as [Hw1 Hw2]. apply Forall_cons in Hw2 as [Ht Hw2]. split; [|by apply Forall_app].
    destruct (stale_tokens sent); [done|]. simpl. eapply devices_sublist; [apply sublist_filter|done].
Qed.

(** ** The two registration handlers *)

(** The status of an answer and, of a success, its body. *)
Definition push_answer (r : res push_reply) : option (Z + (bool * bool * nat)) :=
  match r with
  | Throw => None
  | Ok (PushError status _) => Some (inl status)
  | Ok (PushRegistered registered enabled devices) => Some (inr (registered, enabled, devices))
  | Ok (PushStatus enabled devices) => Some (inr (true, enabled, devices))
  end.

Lemma alter_pushTokens (f : room_row -> room_row) db room :
  is_Some (db !! room) -> (forall row, exists l, push_tokens (f row) = l) ->
  pushTokens (alter f room db) room = match db !! room with Some row => push_tokens (f row) | None => [] end.
Proof. intros [row E] _. unfold pushTokens. by rewrite lookup_alter_eq, E. Qed.

Lemma authorize_tokens sha256 db room credential pin now :
  pushTokens (authorize sha256 db room credential pin now).2 room = pushTokens db room.
Proof.
  unfold authorize. repeat case_match; simplify_eq/=; try done.
  match goal with H : pinAuth _ _ _ _ = _ |- _ => unfold pinAuth in H; injection H as _ <- end.
  unfold pushTokens. rewrite lookup_alter_eq. unfold ensureRoom. destruct (db !! room) eqn:E; by rewrite lookup_insert_eq.
Qed.

Lemma pinned_room db room digest : authDigest db room = Some digest -> is_Some (db !! room).
Proof. unfold authDigest. destruct (db !! room); [eauto|done]. Qed.

Lemma updatePushToken_agrees db room d remove now :
  is_Some (db !! room) -> devices_wf (pushTokens db room) ->
  let '(tokens, db') := updatePushToken db room d remove now in
  pushTokens db' room = tokens /\ authDigest db' room = authDigest db room /\
  tokens = if remove then filter (fun item => d_token item <> d_token d) (pushTokens db room) else room_update (pushTokens db room) d now.
Proof.
  intros [row E] [Hl _]. unfold updatePushToken. split_and!.
  - unfold pushTokens at 1. rewrite lookup_alter_eq, E. done.
  - unfold authDigest. by rewrite lookup_alter_eq, E.
  - destruct remove.
    + rewrite bool_decide_eq_false_2; [done|]. pose proof (sublist_length _ _ (sublist_filter (fun item => d_token item <> d_token d) (pushTokens db room))). lia.
    + unfold room_update. set (l := filter _ _ ++ _). destruct (Nat.ltb_spec PUSH_TOKEN_LIMIT (length l)).
      * by rewrite bool_decide_eq_true_2.
      * rewrite bool_decide_eq_false_2; [done|lia].
Qed.

Definition plain_bundle (body : jsv) : Prop := is_string (get "bundleId" body) = true \/ is_nullish (get "bundleId" body) = true.

Lemma bundle_agrees body :
  plain_bundle body ->
  exists b, to_string (if is_nullish (get "bundleId" body) then JStr "" else get "bundleId" body) = Ok b /\
  is_str (get "bundleId" body) BUNDLE_ID = (b =?s BUNDLE_ID) /\ (b = BUNDLE_ID -> str_of (get "bundleId" body) = b).
Proof. intros [H|H]; destruct (get "bundleId" body); try done; simpl; eauto. Qed.

Lemma authorizations_agree sha256 db st room credential now :
  (forall s, hex64 (sha256 s) = true) -> (forall room digest, authDigest db room = Some digest -> hex64 digest = true) ->
  authDigest db room = ps_auth st ->
  let '(ok, db1) := authorize sha256 db room credential true now in
  let '(error, st1) := requireRoomAuth sha256 st credential in
  match error with None => ok = true | Some (status, _) => ok = false /\ status = 401 end /\
  authDigest db1 room = ps_auth st1 /\ (ok = true -> is_Some (db1 !! room)).
Proof.
  intros Hsha Hwf Hauth. pose proof (cl_authorize (CredentialLaws := node_credential_laws sha256 Hsha) db room credential true now Hwf I) as Hn.
  cbn [rc_authorize rc_pinned node_credentials] in Hn. destruct (authorize sha256 db room credential true now) as [ok db1].
  destruct Hn as (_ & Hok & Hpin & _). rewrite Hauth in *.
  assert (ok = true -> is_Some (db1 !! room)) as Hroom by (intros ->; by eapply pinned_room).
  unfold requireRoomAuth. destruct (validRoomCredential (JStr credential)); cbn [negb andb] in *; [|by subst ok].
  destruct (ps_auth st) as [expected|] eqn:Ea; [|by subst ok].
  destruct (constantTimeEqual (JStr (sha256 credential)) (JStr expected)) eqn:Ec; cbn [negb].
  - apply constantTimeEqual_iff in Ec. rewrite Ec in *. unfold jeqb in Hok. rewrite bool_decide_eq_true_2 in Hok by done. subst ok. by rewrite Ea.
  - unfold jeqb in Hok. rewrite bool_decide_eq_false_2 in Hok by (intros E; apply constantTimeEqual_iff in E; congruence). subst ok. by rewrite Ea.
Qed.

(** ** Properties *)

(** C23: A room is claimed once and for all, on both deployments alike: started with the
    same claims, any sequence of authorized requests gets from the relay the answers of
    the reference, which is a map from rooms to the digest of the first credential; in
    it a credential is accepted exactly when its digest is the one that was pinned. *)
Theorem first_credential_wins (sha256 : jstr -> jstr) {S : Type} (served : jstr -> Prop) `{CredentialLaws sha256 S served}
    (s : S) (c : claims) (requests : list auth_request) (room digest : jstr) :
  credentials_agree sha256 served s c -> Forall (fun r => served (au_room r)) requests -> c !! room = Some digest ->
  let '(oks, s') := authorize_all s requests in
  oks = (reference_all sha256 c requests).1 /\
  Forall2 (fun r ok => au_room r = room -> ok = validRoomCredential (JStr (au_credential r)) && (sha256 (au_credential r) =?s digest)) requests oks /\
  (served room -> rc_pinned s' room = Some digest).
Proof.
  intros Ha Hf Hc. pose proof (runs_agree sha256 served requests s c Ha Hf) as Hr. pose proof (reference_keeps sha256 requests c room digest Hc) as Hk.
  destruct (authorize_all s requests) as [oks s']. destruct (reference_all sha256 c requests) as [oks' c'].
  destruct Hr as [-> [_ Hag]]. destruct Hk as [Hk1 Hk2]. split_and!; [done|done|]. intros Hs. by rewrite (Hag _ Hs).
Qed.

(** The Durable Object never stores more than eight devices of a room and no device
    twice, however registrations, removals and the halves of wakes interleave. *)
Theorem room_devices_bounded (sha256 : jstr -> jstr) (env : apns_env) (s : push_storage * list (list NodeRooms.device)) :
  push_turns sha256 env s -> (length (ps_tokens s.1) <= PUSH_TOKEN_LIMIT)%nat /\ NoDup (map d_token (ps_tokens s.1)).
Proof. intros H. by destruct (push_turns_wf _ _ _ H) as [Hw _]. Qed.

(** The two deployments answer a registration alike: with the same pinned
    credential and devices, a request with one of the methods of the interface gets
    the same status and body from the Node server and from the Durable Object, and
    they store the same devices and pin the same credential. *)
Theorem registrations_agree (sha256 : jstr -> jstr) (env : apns_env) (db : rooms) (st : push_storage) (room method credential : jstr) (body : jsv) (now : Z) :
  (forall s, hex64 (sha256 s) = true) -> (forall room digest, authDigest db room = Some digest -> hex64 digest = true) ->
  authDigest db room = ps_auth st -> pushTokens db room = ps_tokens st -> devices_wf (ps_tokens st) ->
  validRoom (JStr room) = true -> method = "PUT" \/ method = "POST" \/ method = "DELETE" -> plain_bundle body ->
  let '(r, db') := node_push sha256 env db "/push/register" method (Some room) credential body now in
  let '(r', st') := room_push_registration sha256 env st method credential (Some body) now in
  push_answer r = push_answer r' /\ pushTokens db' room = ps_tokens st' /\ authDigest db' room = ps_auth st'.
Proof.
  intros Hsha Hwf Hauth Htok Hdev Hroom Hm Hb. unfold node_push, room_push_registration. rewrite Hroom. cbn [negb].
  change ("/push/register" =?s "/push/register") with true. change ("/push/register" =?s "/push/status") with false.
  pose proof (authorizations_agree sha256 db st room credential now Hsha Hwf Hauth) as Ha.
  pose proof (authorize_tokens sha256 db room credential true now) as Ht. pose proof (requireRoomAuth_tokens sha256 st credential) as Htw.
  destruct (authorize sha256 db room credential true now) as [ok db1]. destruct (requireRoomAuth sha256 st credential) as [error st1].
  destruct Ha as (Hok & Hpin & Hsome). cbn [snd] in Ht, Htw. destruct error as [[status text]|].
  { destruct Hok as [-> ->]. cbn. split_and!; [done|congruence|done]. }
  subst ok. cbn [negb]. rewrite bool_decide_eq_true_2 by set_solver. cbn [negb].
  destruct (token_text (get "token" body)) as [token|]; [|split_and!; [done|congruence|done]].
  destruct (negb (validDeviceToken token)); [split_and!; [done|congruence|done]|].
  assert (negb (is_str (get "environment" body) "sandbox") && negb (is_str (get "environment" body) "production")
          = negb (str_in (get "environment" body) ["sandbox"; "production"])) as -> by (simpl; rewrite orb_false_r; by destruct (is_str _ _)).
  destruct (negb (str_in _ _)); [split_and!; [done|congruence|done]|].
  destruct (bundle_agrees body Hb) as (b & -> & -> & Hbs). destruct (b =?s BUNDLE_ID) eqn:Eb; cbn [negb]; [|split_and!; [done|congruence|done]].
  apply bool_decide_eq_true in Eb. specialize (Hbs Eb).
  pose proof (updatePushToken_agrees db1 room (node_device token body) (method =?s "DELETE") now (Hsome eq_refl)) as Hu.
  rewrite Ht, Htok in Hu. specialize (Hu Hdev). destruct (updatePushToken _ _ _ _ _) as [tokens db2]. destruct Hu as (Hu1 & Hu2 & Hu3).
  rewrite Htw. unfold node_device in Hu3. rewrite Hbs in Hu3. cbn [d_token] in Hu3.
  destruct Hm as [-> | [-> | ->]]; (split_and!; [rewrite Hu3; reflexivity|rewrite Hu1, Hu3; reflexivity|rewrite Hu2; exact Hpin]).
Qed.

(** A registration that arrives while the notifications of a wake are under way is lost
    when one of them reports a stale token: the list that was read first is written back. *)
Lemma wake_loses_registration (st : push_storage) (d other : NodeRooms.device) (now : Z) :
  d_token d <> d_token other ->
  let read := [d] in
  let meanwhile := {| ps_auth := ps_auth st; ps_tokens := room_update [d] other now |} in
  (room_wake_end meanwhile read [(d, Some (false, true))]).2 = {| ps_auth := ps_auth st; ps_tokens := [] |} /\
  exists updated, d_token updated = d_token other /\ updated ∈ ps_tokens meanwhile.
Proof.
  intros Hne. cbn [room_wake_end stale_tokens omap list_omap snd fst ps_auth ps_tokens]. split.
  - f_equal. rewrite filter_cons_False; [done|]. intros H. apply H. simpl. by left.
  - unfold room_update. rewrite filter_cons_True by done. simpl. eexists. split; [|right; by left]. done.
Qed.

(** On the Node server the wake removes the stale devices only, from the current list. *)
Lemma node_wake_keeps db room sent now d :
  d ∈ pushTokens db room -> d_token d ∉ stale_tokens sent -> d ∈ pushTokens (node_wake_end db room sent now).2 room.
Proof.
  intros Hin Hs. unfold node_wake_end. cbn [snd]. destruct (stale_tokens sent) as [|x l] eqn:E; [done|]. unfold removePushTokens, pushTokens in *.
  rewrite lookup_alter_eq. destruct (db !! room); [|done]. simpl. by apply list_elem_of_filter.
Qed.

(** ** Examples *)

Module Examples.
Definition room : jstr := JS (repeat 97%N 64).
Definition credential (u : N) : jstr := JS (repeat u 64).
(** A stand-in digest: hexadecimal, and different for the credentials below. *)
Definition sample_sha (s : jstr) : jstr := JS (repeat (if bool_decide (s = credential 97) then 97%N else 98%N) 64).
Lemma sample_sha_hex s : hex64 (sample_sha s) = true.
Proof. unfold sample_sha. case_bool_decide; vm_compute; reflexivity. Qed.

Definition requests : list auth_request :=
  [{| au_room := room; au_credential := credential 98; au_pin := true; au_now := 1 |};
   {| au_room := room; au_credential := credential 97; au_pin := false; au_now := 2 |};
   {| au_room := room; au_credential := "short"; au_pin := true; au_now := 3 |}].
Definition claimed : push_storage := {| ps_auth := Some (sample_sha (credential 97)); ps_tokens := [] |}.

Example second_caller_is_refused :
  (@authorize_all _ (worker_credentials sample_sha room) claimed requests).1 = [false; true; false].
Proof. vm_compute. reflexivity. Qed.

Lemma first_credential_wins_witness :
  let '(oks, s') := @authorize_all _ (worker_credentials sample_sha room) claimed requests in
  oks = (reference_all sample_sha {[room := sample_sha (credential 97)]} requests).1 /\
  Forall2 (fun r ok => au_room r = room -> ok = validRoomCredential (JStr (au_credential r)) && (sample_sha (au_credential r) =?s sample_sha (credential 97))) requests oks /\
  (room = room -> @rc_pinned _ (worker_credentials sample_sha room) s' room = Some (sample_sha (credential 97))).
Proof.
  apply (first_credential_wins sample_sha (fun r => r = room) (H0 := worker_credential_laws sample_sha room) claimed {[room := sample_sha (credential 97)]} requests room).
  - split; [exact I|]. intros r ->. vm_compute. reflexivity.
  - repeat constructor.
  - vm_compute. reflexivity.
Defined.

Definition sample_env : apns_env := Apns.Examples.sample_env.
Definition registration_body : jsv :=
  JObj [("token", JStr "00112233445566778899AABBCCDDEEFF"); ("environment", JStr "production"); ("bundleId", JStr BUNDLE_ID)].
Definition empty_storage : push_storage := {| ps_auth := None; ps_tokens := [] |}.

Lemma registrations_agree_witness :
  let '(r, db') := node_push sample_sha sample_env ∅ "/push/register" "PUT" (Some room) (credential 97) registration_body 7 in
  let '(r', st') := room_push_registration sample_sha sample_env empty_storage "PUT" (credential 97) (Some registration_body) 7 in
  push_answer r = push_answer r' /\ pushTokens db' room = ps_tokens st' /\ authDigest db' room = ps_auth st'.
Proof.
  apply (registrations_agree sample_sha sample_env ∅ empty_storage room "PUT" (credential 97) registration_body 7).
  - exact sample_sha_hex.
  - intros r d H. vm_compute in H. discriminate H.
  - vm_compute. reflexivity.
  - vm_compute. reflexivity.
  - split; [simpl; lia|constructor].
  - vm_compute. reflexivity.
  - left. reflexivity.
  - left. vm_compute. reflexivity.
Defined.

Lemma room_devices_bounded_witness :
  let s := ((room_push_registration sample_sha sample_env empty_storage "PUT" (credential 97) (Some registration_body) 7).2, []) in
  push_turns sample_sha sample_env s /\ (length (ps_tokens s.1) <= PUSH_TOKEN_LIMIT)%nat /\ NoDup (map d_token (ps_tokens s.1)).
Proof.
  cbv zeta. assert (push_turns sample_sha sample_env ((room_push_registration sample_sha sample_env empty_storage "PUT" (credential 97) (Some registration_body) 7).2, [])) as H
    by (eapply turns_step; [apply turns_start|apply turn_register]).
  split; [exact H|]. exact (room_devices_bounded sample_sha sample_env _ H).
Defined.
End Examples.
