(* ===== verification/Admission.v ===== *)
(** * Admission to the Node relay
    [src/node/managed-admission.js] (signed tickets), [client-access.js] (quota
    identities) and [upgrade-gate.js] (the decision before a WebSocket handshake and
    the text of a refusal).

    HMAC-SHA256, SHA-256, UTF-8 decoding with [JSON.parse] and [isIP] are the
    platform's: parameters of the definitions that use them. *)

From S2P Require Import Prelude Base64 Validation CoolDown.
#[local] Open Scope bool_scope.
#[local] Open Scope Z_scope.
#[local] Open Scope js_scope.

(** ** Tickets *)

(** [s.split(sep)] for a separator of one code unit. *)
Fixpoint split_units (sep : N) (l : list N) : list (list N) :=
  match l with
  | [] => [[]]
  | u :: rest =>
      if (u =? sep)%N then [] :: split_units sep rest
      else match split_units sep rest with
           | first :: others => (u :: first) :: others
           | [] => [[u]]
           end
  end.
Definition split (sep : N) (s : jstr) : list jstr := map JS (split_units sep (units s)).

(** [Buffer.from(s, "base64url")] of a text of the URL alphabet. *)
Definition b64url_value (u : N) : N :=
  if (u =? 45)%N then 62%N else if (u =? 95)%N then 63%N else default 0%N (b64_value u).
Definition base64url_bytes (s : jstr) : list N := decode_sextets (map b64url_value (units s)).

(** [/^[0-9a-f]{8}-[0-9a-f]{4}-[1-8][0-9a-f]{3}-[89ab][0-9a-f]{3}-[0-9a-f]{12}$/i] *)
Definition UUID (s : jstr) : bool :=
  match split 45 s with
  | [a; b; c; d; e] =>
      re_class cls_hex_any 8 8 a && re_class cls_hex_any 4 4 b && re_class cls_hex_any 4 4 c && re_class cls_hex_any 4 4 d
      && re_class cls_hex_any 12 12 e
      && match units c with u :: _ => in_range 49 56 u | [] => false end
      && match units d with u :: _ => bool_decide (u ∈ [56; 57; 97; 98; 65; 66]%N) | [] => false end
  | _ => false
  end.

Definition SIGNATURE (s : jstr) : bool := re_class cls_word 43 43 s.

(** [/^[A-Za-z0-9+/]{43}=$/] *)
Definition PUBLIC_KEY (s : jstr) : bool :=
  re_class cls_base64 43 43 (JS (take 43 (units s))) && bool_decide (drop 43 (units s) = [61%N]).

(** [Buffer.from(v, "base64").toString("base64") === v] of a value that passed [PUBLIC_KEY]:
    a string is canonical when re-encoding its bytes gives it back; an array gives bytes
    of its own and is not its encoding. *)
Definition canonical_key (v : jsv) : bool :=
  match v with JStr s => match atob s with Ok bytes => btoa bytes =?s s | Throw => false end | _ => false end.

Definition TICKET_TTL_MS : Z := 360000.

Section Tickets.
(** [createHmac("sha256", secret).update(text).digest()], 32 bytes. *)
Context (hmac : list N -> jstr -> list N).
(** [JSON.parse(bytes.toString("utf8"))], [None] on a [SyntaxError]. *)
Context (parse_json : list N -> option jsv).

(** The test of the decoded value; [Throw] is caught by the caller. *)
Definition ticket_valid (value : jsv) (room : option jstr) (now : Z) : res bool :=
  let* version := get_strict "version" value in
  let supported := is_int version 1 && bool_decide (get "role" value = JUndef) || is_int version 2 && is_str (get "role" value) "phone" in
  let source := get "source" value in
  res_and (Ok (supported && (bool_decide (source = JUndef) || is_str source "subscription" || is_str source "beta")))
  (res_and (test UUID (get "accountId" value)) (res_and (test UUID (get "computerId" value))
  (res_and (test PUBLIC_KEY (get "publicKey" value))
  (Ok (canonical_key (get "publicKey" value) && match room with Some r => is_str (get "room" value) r | None => bool_decide (get "room" value = JNull) end
       && is_safe_int (get "expiresAt" value) && (now <? int_of (get "expiresAt" value))
       && (int_of (get "expiresAt" value) <=? now + TICKET_TTL_MS)))))).

(** [token] is a header or a member of a frame; [room] the query parameter ([null] when absent). *)
Definition readManagedTicket (token : jsv) (secret : list N) (room : option jstr) (now : Z) : option jsv :=
  match token with
  | JStr token =>
      if 2048 <? slen token then None else
      match split 46 token with
      | [payload; signature] =>
          if negb (forallb cls_word (units payload) && (1 <=? slen payload)) || negb (SIGNATURE signature) then None else
          if negb (bool_decide (base64url_bytes signature = hmac secret ("granttap-managed-v1." +++ payload))) then None else
          match parse_json (base64url_bytes payload) with
          | None => None
          | Some value => match ticket_valid value room now with Ok true => Some value | _ => None end
          end
      | _ => None
      end
  | _ => None
  end.

(** [managedAdmission(env)]: [None] when admission is not required, [Throw] without a usable key. *)
Definition managedAdmission (required : option jstr) (key_path : option jstr) (read_key : jstr -> list N) : res (option (jsv -> option jstr -> Z -> option jsv)) :=
  if negb (bool_decide (required = Some "1"%js)) then Ok None else
  match key_path with
  | None => Throw
  | Some path =>
      if path =?s "" then Throw else
      let key := read_key path in
      if Z.of_nat (length key) <? 32 then Throw else Ok (Some (fun token room now => readManagedTicket token key room now))
  end.
End Tickets.

(** [ticket.role ?? 'machine'] *)
Definition ticket_role (ticket : jsv) : jsv := if is_nullish (get "role" ticket) then JStr "machine" else get "role" ticket.

Definition managedCooldownIdentity (sha256 : jstr -> jstr) (ticket : option jsv) : option jstr :=
  match ticket with
  | Some t => Some ("managed:" +++ sha256 (json_text (JArr [get "accountId" t; get "computerId" t; ticket_role t; get "publicKey" t])))
  | None => None
  end.

(** ** Quota identities *)

Record client_identity := {
  ci_category : jstr; ci_account : option jsv; ci_device : option (res jstr); ci_expiresAt : option jsv; ci_clientIp : option jstr;
}.

Section ClientAccess.
(** [isIP(text)] of [node:net]. *)
Context (isIP : jstr -> bool).

(** [address.replace(/^::ffff:/, '')] *)
Definition unmapped (address : jstr) : jstr := if starts_with "::ffff:" address then JS (drop 7 (units address)) else address.

Definition clientIdentity (ticket : option jsv) (remoteAddress : option jstr) (forwarded : option jstr) (trusted_ips : option jstr) : client_identity :=
  let peer := unmapped <$> remoteAddress in
  let trusted := match peer with Some p => bool_decide (p ∈ split 44 (default "" trusted_ips)) | None => false end in
  let clientIp := match forwarded with
                  | Some f => if trusted && isIP f then Some f else peer
                  | None => peer
                  end in
  match ticket with
  | Some t =>
      {| ci_category := if is_str (get "source" t) "subscription" then "subscriber" else if is_str (get "source" t) "beta" then "beta" else "registered";
         ci_account := Some (get "accountId" t);
         ci_device := Some (let* c := to_string (get "computerId" t) in let* r := to_string (ticket_role t) in
                            let* k := to_string (get "publicKey" t) in Ok (c +++ ":" +++ r +++ ":" +++ k));
         ci_expiresAt := Some (get "expiresAt" t); ci_clientIp := clientIp |}
  | None => {| ci_category := "anonymous"; ci_account := None; ci_device := None; ci_expiresAt := None; ci_clientIp := clientIp |}
  end.
End ClientAccess.

(** ** The decision on an upgrade *)

Record refusal := { rf_status : Z; rf_reason : jstr; rf_retryAfter : option Z }.
Definition refuse (status : Z) (reason : jstr) : option refusal := Some {| rf_status := status; rf_reason := reason; rf_retryAfter := None |}.

Record upgrade := {
  up_authorized : bool; up_admissionRequired : bool; up_ticketHeader : option jstr; up_ticket : option jsv;
  up_recipientKeyId : option jstr; up_room : option jstr; up_roomSize : Z; up_maxRoomSockets : Z;
}.

(** [null] is [None]; the registry may forget an entry on the way. *)
Definition upgradeRefusal (sha256 : jstr -> jstr) (u : upgrade) (coolDowns : CoolDownRegistry) (now : Z) : option refusal * CoolDownRegistry :=
  if negb (up_authorized u) then (refuse 401 "unauthorized", coolDowns) else
  if up_admissionRequired u && negb (bool_decide (default "" (up_ticketHeader u) = "")) && bool_decide (up_ticket u = None)
  then (refuse 403 "admission-invalid", coolDowns) else
  if match up_recipientKeyId u with Some r => negb (validRecipientKeyId (JStr r)) | None => false end
  then (refuse 400 "recipient-invalid", coolDowns) else
  let legacy := upgradeIdentity (up_room u) (up_recipientKeyId u) in
  let admitted := bool_decide (is_Some (up_ticket u)) in
  let coolDowns := if admitted then (remaining coolDowns now legacy true).2 else coolDowns in
  let identity := match managedCooldownIdentity sha256 (up_ticket u) with Some i => Some i | None => legacy end in
  let '(waitMs, coolDowns) := remaining coolDowns now identity admitted in
  if 0 <? waitMs
  then (Some {| rf_status := 429; rf_reason := "cool-down"; rf_retryAfter := Some (Z.max 1 ((waitMs + 999) / 1000)) |}, coolDowns) else
  if up_maxRoomSockets u <=? up_roomSize u then (refuse 503 "room-full", coolDowns) else (None, coolDowns).

(** ** The text of a refusal *)

Definition STATUS_TEXT (status : Z) : jstr :=
  if status =? 400 then "Bad Request" else if status =? 401 then "Unauthorized" else if status =? 403 then "Forbidden"
  else if status =? 429 then "Too Many Requests" else if status =? 503 then "Service Unavailable" else "undefined".

Definition CRLF : jstr := JS [13; 10]%N.
Fixpoint join (sep : jstr) (l : list jstr) : jstr :=
  match l with [] => "" | [x] => x | x :: rest => x +++ sep +++ join sep rest end.

(** [/^[a-z-]+$/] *)
Definition limit_name (s : jstr) : bool := forallb (fun u => cls_lower u || (u =? 45)%N) (units s) && (1 <=? slen s).

(** The bytes written to the socket before it is destroyed. *)
Definition refuseUpgrade (r : refusal) (category limitReason : option jstr) : jstr :=
  let retry := match rf_retryAfter r with Some n => if n =? 0 then None else Some n | None => None end in
  let body := if rf_status r =? 429
              then json_text (JObj [("error", JStr (rf_reason r)); ("retryAfter", match rf_retryAfter r with Some n => JNum (NInt n) | None => JUndef end)])
              else "" in
  let limit := match limitReason with Some l => l | None => rf_reason r end in
  let lines :=
    ["HTTP/1.1 " +++ Z_text (rf_status r) +++ " " +++ STATUS_TEXT (rf_status r); "Connection: close"]
    ++ match retry with Some n => ["Retry-After: " +++ Z_text n] | None => [] end
    ++ match category with
       | Some c => if bool_decide (c ∈ ["anonymous"; "registered"; "subscriber"; "beta"]%js)
                   then ["X-Hostwatch-Client-Category: " +++ c;
                         "X-Hostwatch-Client-Limit: " +++ (if limit_name limit then limit else "policy-limit")]
                   else []
       | None => []
       end
    ++ (if body =?s "" then []
        else ["Content-Type: application/json"; "Cache-Control: no-store"; "Content-Length: " +++ Z_text (byte_length body)]) in
  join CRLF lines +++ CRLF +++ CRLF +++ body.

(** ** Tickets are authentic and bounded *)

Lemma split_units_two sep l a b : split_units sep l = [a; b] -> l = a ++ sep :: b /\ sep ∉ b.
Proof.
  assert (forall l b, split_units sep l = [b] -> l = b /\ sep ∉ b) as H1.
  { clear. intros l. induction l as [|u l IH]; simpl; intros b H; [injection H as <-; split; [done|apply not_elem_of_nil]|].
    destruct (N.eqb_spec u sep) as [->|Hne].
    - injection H as <- H. by destruct l as [|v l]; simpl in H; [|destruct (v =? sep)%N, (split_units sep l)].
    - destruct (split_units sep l) as [|first [|? ?]] eqn:E; try done.
      + by destruct l as [|v l]; simpl in E; [|destruct (v =? sep)%N, (split_units sep l)].
      + injection H as <-. destruct (IH first eq_refl) as [-> Hs]. split; [done|]. by apply not_elem_of_cons. }
  revert a b. induction l as [|u l IH]; simpl; intros a b H; [done|]. destruct (N.eqb_spec u sep) as [->|Hne].
  - injection H as <- H. apply H1 in H as [-> Hs]. done.
  - destruct (split_units sep l) as [|first rest] eqn:E; [done|]. injection H as <- ->. destruct (IH first b eq_refl) as [-> Hs]. done.
Qed.

Lemma split_two sep s a b : split sep s = [a; b] -> s = a +++ JS [sep] +++ b.
Proof.
  unfold split. destruct (split_units sep (units s)) as [|x [|y [|? ?]]] eqn:E; try done. simpl. intros [= <- <-].
  apply split_units_two in E as [E _]. destruct s as [u]. simpl in E. by rewrite E.
Qed.

Lemma decode_sextets_43 (n : nat) (l : list N) : length l = (4 * n + 3)%nat -> length (decode_sextets l) = (3 * n + 2)%nat.
Proof.
  revert l. induction n as [|n IH]; intros l Hl.
  - by destruct l as [|a [|b [|c [|d l]]]].
  - destruct l as [|a [|b [|c [|d l]]]]; simpl in Hl; try lia. cbn [decode_sextets length]. rewrite IH; [lia|simpl in Hl; lia].
Qed.

(** A key that passed both tests encodes 32 bytes. *)
Lemma public_key_bytes v :
  test PUBLIC_KEY v = Ok true -> canonical_key v = true -> exists bytes, v = JStr (btoa bytes) /\ length bytes = 32%nat.
Proof.
  intros Ht Hc. destruct v as [| | | |s| |]; try done. unfold test in Ht. simpl in Ht. injection Ht as Hp.
  unfold canonical_key in Hc. destruct (atob s) as [bytes|] eqn:Ea; [|done]. apply bool_decide_eq_true in Hc.
  exists bytes. split; [by rewrite Hc|]. unfold PUBLIC_KEY in Hp. apply andb_true_iff in Hp as [Hp1 Hp2]. apply bool_decide_eq_true in Hp2.
  unfold re_class, slen in Hp1. simpl in Hp1. split_andb. reflect_bools.
  assert (units s = take 43 (units s) ++ [61%N]) as Hu by (rewrite <- Hp2; symmetry; apply take_drop).
  set (body := take 43 (units s)) in *. assert (length body = 43%nat) as Hlen by lia.
  assert (Forall (fun c => cls_base64 c = true) body) as HF by (apply Forall_forall; intros c Hin; rewrite forallb_forall in *; by apply H, list_elem_of_In).
  destruct (mapM_values body HF) as (sx & Hsx & _).
  assert (s = JS (body ++ [61%N])) as Es by (destruct s as [u]; simpl in *; congruence).
  rewrite Es in Ea. rewrite (atob_shape body [61%N] sx) in Ea.
  - injection Ea as <-. apply (decode_sextets_43 10). apply Forall2_length in Hsx. lia.
  - constructor.
  - done.
  - rewrite length_app, Hlen. reflexivity.
  - done.
Qed.

(** ** Refusals are single responses *)

Definition no_break (s : jstr) : Prop := Forall (fun u => u <> 13 /\ u <> 10)%N (units s).

Lemma no_break_app a b : no_break a -> no_break b -> no_break (a +++ b).
Proof. intros. by apply Forall_app. Qed.

Lemma no_break_digits fuel n acc : Forall (fun u => u <> 13 /\ u <> 10)%N acc -> Forall (fun u => u <> 13 /\ u <> 10)%N (digits_fuel fuel n acc).
Proof.
  revert n acc. induction fuel as [|fuel IH]; [done|]. intros n acc H. cbn [digits_fuel].
  assert (Forall (fun u => u <> 13 /\ u <> 10)%N ((48 + n mod 10)%N :: acc)) by (constructor; [lia|done]).
  destruct (_ <? _)%N; auto.
Qed.

Lemma no_break_number z : no_break (Z_text z).
Proof.
  assert (forall n, no_break (N_text n)) as H by (intros n; unfold no_break, N_text; cbn [units]; apply no_break_digits; constructor).
  unfold Z_text. destruct (z <? 0); [|done]. apply no_break_app; [by repeat constructor|done].
Qed.

Lemma no_break_limit s : limit_name s = true -> no_break s.
Proof.
  intros H. unfold limit_name in H. apply andb_true_iff in H as [H _]. apply Forall_forall. intros u Hu.
  rewrite forallb_forall in H. specialize (H u (proj1 (list_elem_of_In _ _) Hu)). unfold cls_lower, in_range in H. lia.
Qed.

Lemma no_break_literal s : bool_decide (no_break s) = true -> no_break s.
Proof. apply bool_decide_eq_true. Qed.

Lemma no_break_status status : no_break (STATUS_TEXT status).
Proof. unfold STATUS_TEXT. repeat case_match; apply no_break_literal; vm_compute; reflexivity. Qed.

(** ** Properties *)

(** C24: Only what the account authority signed is a ticket, and only for this room and
    the next six minutes: an accepted token consists of a payload and a text of the
    HMAC of that payload under the relay's key, and its decoded value names the room
    of the connection, an account and a computer by UUID, a public key of 32 bytes in
    canonical base64 and an expiry within six minutes. *)
Theorem tickets_are_authentic (hmac : list N -> jstr -> list N) (parse_json : list N -> option jsv) (token : jsv) (secret : list N)
    (room : option jstr) (now : Z) (value : jsv) :
  readManagedTicket hmac parse_json token secret room now = Some value ->
  exists payload signature,
    token = JStr (payload +++ "." +++ signature) /\ base64url_bytes signature = hmac secret ("granttap-managed-v1." +++ payload) /\
    parse_json (base64url_bytes payload) = Some value /\
    (is_int (get "version" value) 1 = true /\ get "role" value = JUndef \/ is_int (get "version" value) 2 = true /\ get "role" value = JStr "phone") /\
    test UUID (get "accountId" value) = Ok true /\ test UUID (get "computerId" value) = Ok true /\
    (exists bytes, get "publicKey" value = JStr (btoa bytes) /\ length bytes = 32%nat) /\
    (forall r, room = Some r -> get "room" value = JStr r) /\
    exists expiresAt, get "expiresAt" value = JNum (NInt expiresAt) /\ now < expiresAt <= now + TICKET_TTL_MS.
Proof.
  unfold readManagedTicket. destruct token as [| | | |s| |]; try done. destruct (2048 <? slen s); [done|].
  destruct (split 46 s) as [|payload [|signature [|? ?]]] eqn:Es; try done. destruct (_ || _) eqn:Er; [done|].
  destruct (negb (bool_decide _)) eqn:Eh; [done|]. apply negb_false_iff, bool_decide_eq_true in Eh.
  destruct (parse_json _) as [v|] eqn:Ep; [|done]. destruct (ticket_valid v room now) as [[|]|] eqn:Ev; try done. intros [= <-].
  unfold ticket_valid, get_strict in Ev. destruct (is_nullish v); [done|]. cbn [res_bind] in Ev.
  apply res_and_true in Ev as (E1 & Ev). apply res_and_true in Ev as (E2 & Ev). apply res_and_true in Ev as (E3 & Ev).
  apply res_and_true in Ev as (E4 & Ev). injection E1 as E1. injection Ev as Ev. apply andb_true_iff in E1 as [Hsup _]. split_andb.
  exists payload, signature. split_and!; [by rewrite (split_two _ _ _ _ Es)|done|done|..].
  - apply orb_true_iff in Hsup as [Hs|Hs]; apply andb_true_iff in Hs as [Hs Hrole]; [left|right]; (split; [done|]).
    + by apply bool_decide_eq_true in Hrole.
    + by apply is_str_eq.
  - done.
  - done.
  - by apply public_key_bytes.
  - intros r ->. by apply is_str_eq.
  - match goal with H : is_safe_int _ = true |- _ => apply is_safe_int_iff in H as (z & Hz & _) end. exists z. rewrite Hz in *. simpl in *.
    split; [done|]. reflect_bools. lia.
Qed.

(** Waiting as told is enough: when an upgrade is refused for a cool-down with
    [Retry-After: s], the same request [s] seconds later or after is not refused for
    its cool-down. *)
Theorem retry_after_is_enough (sha256 : jstr -> jstr) (u : upgrade) (coolDowns : CoolDownRegistry) (now later s : Z) :
  (upgradeRefusal sha256 u coolDowns now).1 = Some {| rf_status := 429; rf_reason := "cool-down"; rf_retryAfter := Some s |} ->
  now + 1000 * s <= later ->
  1 <= s /\ match (upgradeRefusal sha256 u (upgradeRefusal sha256 u coolDowns now).2 later).1 with Some r' => rf_status r' <> 429 | None => True end.
Proof.
  unfold upgradeRefusal. destruct (negb (up_authorized u)); [done|]. destruct (_ && bool_decide (up_ticket u = None)); [done|].
  destruct (match up_recipientKeyId u with Some _ => _ | None => _ end); [done|]. cbv zeta.
  set (legacy := upgradeIdentity _ _). set (admitted := bool_decide (is_Some (up_ticket u))).
  set (cd1 := if admitted then _ else coolDowns). set (identity := match managedCooldownIdentity sha256 _ with Some _ => _ | None => _ end).
  destruct (remaining cd1 now identity admitted) as [waitMs cd2] eqn:Er.
  destruct (0 <? waitMs) eqn:Ew; [|destruct (_ <=? _); done]. cbn [fst snd]. intros [= <-] Hl. split; [lia|].
  (* only a live entry makes wait, and it leaves the registry as it was *)
  assert (exists key e, identity = Some key /\ key <> "" /\ map_get key (entries cd1) = Some e /\ cd2 = cd1 /\ waitMs = Z.max 0 (until e - now)) as (key & e & Hi & Hk & He & -> & Hw).
  { unfold remaining in Er. destruct identity as [key|]; [|by simplify_eq]. unfold jeqb in Er.
    destruct (bool_decide (key = "")) eqn:Ek; [by simplify_eq|]. apply bool_decide_eq_false in Ek.
    destruct (map_get key (entries cd1)) as [e|] eqn:Eg; [|by simplify_eq].
    destruct (_ && _); [by simplify_eq|]. destruct (_ <? _); [by simplify_eq|]. simplify_eq.
    by exists key, e. }
  set (cd3 := if admitted then (remaining cd1 later legacy true).2 else cd1).
  destruct (remaining cd3 later identity admitted) as [w cd4] eqn:Er3.
  assert (w <= 0) as Hw3.
  { unfold remaining in Er3. rewrite Hi in Er3. unfold jeqb in Er3. rewrite bool_decide_eq_false_2 in Er3 by done.
    destruct (map_get key (entries cd3)) as [e'|] eqn:Eg; [|by simplify_eq].
    destruct (admitted && admissionOnly e'); [by simplify_eq|]. destruct (resetMs cd3 <? later - until e'); [by simplify_eq|].
    injection Er3 as <- _.
    assert (e' = e) as ->; [|apply Z.max_lub; [done|]; Z.to_euclidean_division_equations; lia].
    enough (map_get key (entries cd3) = None \/ map_get key (entries cd3) = map_get key (entries cd1)) as [E|E] by congruence.
    unfold cd3. destruct admitted; [|by right]. unfold remaining. repeat case_match; simpl; try (by right); rewrite map_get_delete; case_decide; auto. }
  rewrite (proj2 (Z.ltb_ge 0 w)) by done. destruct (_ <=? _); simpl; [done|done].
Qed.

(** A refusal is one response, whatever reason, category and limit it names (the
    quota service chooses them): the text written is a head of lines that hold no line
    break, an empty line, and a body that is empty or of the announced length. *)
Theorem refusals_are_single_responses (r : refusal) (category limitReason : option jstr) :
  exists lines body, refuseUpgrade r category limitReason = join CRLF lines +++ CRLF +++ CRLF +++ body /\
    Forall no_break lines /\
    (body = "" \/ "Content-Length: " +++ Z_text (byte_length body) ∈ lines).
Proof.
  unfold refuseUpgrade. cbv zeta.
  match goal with |- context [join CRLF ?l +++ CRLF +++ CRLF +++ ?b] => set (lines := l); set (body := b) end.
  exists lines, body. split; [done|]. split.
  - assert (forall s, bool_decide (no_break s) = true -> no_break s) as Hlit by exact no_break_literal.
    unfold lines. apply Forall_app; split; [|apply Forall_app; split; [|apply Forall_app; split]].
    + apply Forall_cons; split; [|apply Forall_cons; split; [by apply Hlit|done]].
      repeat apply no_break_app; try apply no_break_number; try apply no_break_status; by apply Hlit.
    + destruct (match rf_retryAfter r with Some _ => _ | None => _ end); [|done]. apply Forall_cons; split; [|done].
      apply no_break_app; [by apply Hlit|apply no_break_number].
    + destruct category as [c|]; [|done]. destruct (bool_decide _) eqn:Ec; [|done]. apply bool_decide_eq_true in Ec.
      apply Forall_cons; split; [|apply Forall_cons; split; [|done]]; (apply no_break_app; [by apply Hlit|]).
      * rewrite !elem_of_cons in Ec. destruct Ec as [-> | [-> | [-> | [-> | Ec]]]]; try (by apply Hlit). by apply not_elem_of_nil in Ec.
      * destruct (limit_name _) eqn:El; [by apply no_break_limit|by apply Hlit].
    + fold body. destruct (body =?s ""); [done|]. apply Forall_cons; split; [by apply Hlit|]. apply Forall_cons; split; [by apply Hlit|].
      apply Forall_cons; split; [|done]. apply no_break_app; [by apply Hlit|apply no_break_number].
  - destruct (body =?s "") eqn:Eb; [left; by apply bool_decide_eq_true in Eb|right]. unfold lines. fold body. rewrite Eb.
    repeat (apply elem_of_app; right). do 2 apply list_elem_of_further. apply list_elem_of_here.
Qed.

(** A strike that an admission close recorded for a new identity is lifted by a lease. *)
Lemma fresh_admission_strike r now key :
  registry_wf r -> map_get key (entries r) = None ->
  exists e, map_get key (entries (strike r now key true).2) = Some e /\ admissionOnly e = true /\
    until e = now + (strike r now key true).1 /\ baseMs r <= (strike r now key true).1.
Proof.
  intros Hwf Hnone. pose proof (strike_entries r now key true Hwf) as (m & e & Hent & Hsub & _ & Hu & _). exists e.
  assert (map_get key m = None) as Hm.
  { apply map_get_None. intros Hin. apply (map_delete_fresh key (entries r)).
    eapply elem_of_sublist; [exact Hin|]. by apply sublist_keys. }
  assert (map_get key (entries (strike r now key true).2) = Some e) as Hg by (rewrite Hent, map_get_app, Hm; simpl; by rewrite decide_True).
  split; [exact Hg|].
  assert (e = {| strikes := 1; until := now + backoff r 1; admissionOnly := true |}) as He.
  { (* the entry pushed last *)
    pose proof Hent as Hl. unfold strike in Hl. rewrite Hnone in Hl. cbn [snd sweep with_entries entries] in Hl.
    unfold map_push in Hl.
    match type of Hl with sweep_loop ?R now 0 ?n (?mm ++ [(key, ?e0)]) = _ =>
      pose proof (sweep_loop_sublist R now 0 n (mm ++ [(key, e0)])) as Hs; rewrite Hl in Hs;
      assert ((key, e) ∈ mm ++ [(key, e0)]) as Hin by (eapply elem_of_sublist; [|exact Hs]; apply elem_of_app; right; by left) end.
    apply elem_of_app in Hin as [Hin|Hin].
    - exfalso. apply (map_delete_fresh key (entries r)). apply list_elem_of_fmap. by exists (key, e).
    - by apply list_elem_of_singleton in Hin as [= ->]. }
  rewrite strike_backoff in *. destruct Hwf as (Hb & _). pose proof (backoff_bounds r (strike_count r now key) Hb) as Hbb.
  assert (strike_count r now key = 1) as Hc by (unfold strike_count; by rewrite Hnone).
  rewrite Hc in *. split_and!; [by rewrite He|done|apply Hbb; lia].
Qed.

(** A cool-down that stands for a missing admission lets a renewed admission in at
    once: after a close for a missing lease of an identity without earlier strikes, the
    same device is refused with 429 while it shows no ticket, and accepted with a valid
    one, provided the managed identity itself has no strikes and the room has space. *)
Theorem valid_lease_lifts_admission_cooldown (sha256 : jstr -> jstr) (r : CoolDownRegistry) (u : upgrade) (token : jstr) (ticket : jsv) (key managed : jstr) (closed now : Z) :
  registry_wf r -> up_authorized u = true -> upgradeIdentity (up_room u) (up_recipientKeyId u) = Some key -> key <> "" ->
  match up_recipientKeyId u with Some id => validRecipientKeyId (JStr id) = true | None => True end ->
  map_get key (entries r) = None -> managedCooldownIdentity sha256 (Some ticket) = Some managed ->
  map_get managed (entries (strike r closed key true).2) = None -> managed <> key ->
  up_roomSize u < up_maxRoomSockets u ->
  closed <= now < closed + baseMs r ->
  let cd := (strike r closed key true).2 in
  let shows t := {| up_authorized := true; up_admissionRequired := up_admissionRequired u; up_ticketHeader := fst <$> t; up_ticket := snd <$> t;
                    up_recipientKeyId := up_recipientKeyId u; up_room := up_room u; up_roomSize := up_roomSize u;
                    up_maxRoomSockets := up_maxRoomSockets u |} in
  (exists s, 1 <= s /\ (upgradeRefusal sha256 (shows None) cd now).1 = Some {| rf_status := 429; rf_reason := "cool-down"; rf_retryAfter := Some s |}) /\
  (upgradeRefusal sha256 (shows (Some (token, ticket))) cd now).1 = None.
Proof.
  intros Hwf Hauth Hid Hk Hrec Hnone Hman Hfree Hne Hsize Ht cd shows.
  destruct (fresh_admission_strike r closed key Hwf Hnone) as (e & Hg & Ha & Hu & Hb). fold cd in Hg, Hfree.
  assert (resetMs cd = resetMs r /\ 0 <= resetMs r) as [Hreset H0] by (split; [reflexivity|apply Hwf]).
  assert (match up_recipientKeyId u with Some r => negb (validRecipientKeyId (JStr r)) | None => false end = false) as Hv
    by (destruct (up_recipientKeyId u); [by rewrite Hrec|done]).
  assert (forall t : option (jstr * jsv), up_admissionRequired u && negb (bool_decide (default "" (fst <$> t) = "")) && bool_decide (snd <$> t = None) = false) as Hadm
    by (intros [[h t]|]; cbn; [by rewrite andb_false_r|by rewrite andb_false_r]).
  unfold upgradeRefusal, shows. cbn [up_authorized up_admissionRequired up_ticketHeader up_ticket up_recipientKeyId up_room up_roomSize up_maxRoomSockets negb].
  rewrite !Hadm, Hv, Hid. split.
  - rewrite bool_decide_eq_false_2 by (by intros []). cbn [fmap option_fmap option_map managedCooldownIdentity]. unfold remaining, jeqb.
    rewrite bool_decide_eq_false_2, Hg by done. cbn [andb]. rewrite Hreset, (proj2 (Z.ltb_ge _ _)) by lia. rewrite (proj2 (Z.ltb_lt 0 _)) by lia.
    eexists. split; [|reflexivity]. lia.
  - cbn [fmap option_fmap option_map snd]. rewrite Hman. rewrite bool_decide_eq_true_2 by done. unfold remaining at 2, jeqb. rewrite bool_decide_eq_false_2, Hg by done. rewrite Ha. cbn [andb snd].
    unfold remaining. cbn [jeqb]. unfold jeqb. case_bool_decide; [subst managed; discriminate Hman|]. cbn [entries with_entries]. rewrite map_get_delete, decide_False by done.
    rewrite Hfree. cbn [Z.ltb Z.compare]. rewrite (proj2 (Z.leb_gt _ _)) by done. done.
Qed.

(** ** Examples *)

Module Examples.
Definition room : jstr := JS (repeat 97%N 64).
Definition now : Z := 1700000000000.
Definition ticket : jsv :=
  JObj [("version", JNum (NInt 2)); ("role", JStr "phone"); ("source", JStr "beta");
        ("accountId", JStr "0b0e0d0c-1234-4abc-8def-0123456789ab"); ("computerId", JStr "0B0E0D0C-1234-4abc-9def-0123456789AB");
        ("publicKey", JStr (JS (repeat 65%N 43 ++ [61%N]))); ("room", JStr room); ("expiresAt", JNum (NInt (now + 360000)))].
Definition signature : jstr := JS (repeat 65%N 43).
Definition token : jstr := "eyJ2IjoyfQ" +++ "." +++ signature.
Definition sample_hmac (secret : list N) (text : jstr) : list N := if text =?s "granttap-managed-v1.eyJ2IjoyfQ" then repeat 0%N 32 else [].
Definition sample_json (bytes : list N) : option jsv := Some ticket.

Example other_rooms_refuse : readManagedTicket sample_hmac sample_json (JStr token) [] (Some "ffff"%js) now = None.
Proof. vm_compute. reflexivity. Qed.

Lemma tickets_are_authentic_witness :
  readManagedTicket sample_hmac sample_json (JStr token) [] (Some room) now = Some ticket /\
  exists payload signature,
    JStr token = JStr (payload +++ "." +++ signature) /\ base64url_bytes signature = sample_hmac [] ("granttap-managed-v1." +++ payload) /\
    sample_json (base64url_bytes payload) = Some ticket /\
    (is_int (get "version" ticket) 1 = true /\ get "role" ticket = JUndef \/ is_int (get "version" ticket) 2 = true /\ get "role" ticket = JStr "phone") /\
    test UUID (get "accountId" ticket) = Ok true /\ test UUID (get "computerId" ticket) = Ok true /\
    (exists bytes, get "publicKey" ticket = JStr (btoa bytes) /\ length bytes = 32%nat) /\
    (forall r, Some room = Some r -> get "room" ticket = JStr r) /\
    exists expiresAt, get "expiresAt" ticket = JNum (NInt expiresAt) /\ now < expiresAt <= now + TICKET_TTL_MS.
Proof.
  assert (readManagedTicket sample_hmac sample_json (JStr token) [] (Some room) now = Some ticket) as H by (vm_compute; reflexivity).
  split; [exact H|]. exact (tickets_are_authentic sample_hmac sample_json (JStr token) [] (Some room) now ticket H).
Defined.

Definition key_id : jstr := JS (repeat 98%N 64).
Definition plain_upgrade : upgrade :=
  {| up_authorized := true; up_admissionRequired := true; up_ticketHeader := None; up_ticket := None; up_recipientKeyId := Some key_id;
     up_room := Some room; up_roomSize := 3; up_maxRoomSockets := 32 |}.
Definition key : jstr := default "" (upgradeIdentity (Some room) (Some key_id)).
Definition sample_sha (s : jstr) : jstr := "digest".
Definition cooling : CoolDownRegistry := (strike (newRegistry 4) now key true).2.

Lemma retry_after_is_enough_witness :
  (upgradeRefusal sample_sha plain_upgrade cooling (now + 1500)).1 = Some {| rf_status := 429; rf_reason := "cool-down"; rf_retryAfter := Some 4 |} /\
  1 <= 4 /\ match (upgradeRefusal sample_sha plain_upgrade (upgradeRefusal sample_sha plain_upgrade cooling (now + 1500)).2 (now + 5500)).1 with
            | Some r' => rf_status r' <> 429 | None => True end.
Proof.
  assert ((upgradeRefusal sample_sha plain_upgrade cooling (now + 1500)).1 = Some {| rf_status := 429; rf_reason := "cool-down"; rf_retryAfter := Some 4 |}) as H
    by (vm_compute; reflexivity).
  split; [exact H|]. exact (retry_after_is_enough sample_sha plain_upgrade cooling (now + 1500) (now + 5500) 4 H ltac:(unfold now; lia)).
Defined.

Lemma valid_lease_lifts_admission_cooldown_witness :
  let shows t := {| up_authorized := true; up_admissionRequired := true; up_ticketHeader := fst <$> t; up_ticket := snd <$> t;
                    up_recipientKeyId := Some key_id; up_room := Some room; up_roomSize := 3; up_maxRoomSockets := 32 |} in
  (exists s, 1 <= s /\ (upgradeRefusal sample_sha (shows None) cooling (now + 1000)).1 = Some {| rf_status := 429; rf_reason := "cool-down"; rf_retryAfter := Some s |}) /\
  (upgradeRefusal sample_sha (shows (Some (token, ticket))) cooling (now + 1000)).1 = None.
Proof.
  apply (valid_lease_lifts_admission_cooldown sample_sha (newRegistry 4) plain_upgrade token ticket key "managed:digest" now (now + 1000));
    [apply newRegistry_wf; lia|reflexivity|reflexivity|vm_compute; discriminate|vm_compute; reflexivity|reflexivity|reflexivity|reflexivity
    |vm_compute; discriminate|vm_compute; reflexivity|vm_compute; split; [discriminate|reflexivity]].
Defined.
End Examples.
