(* ===== verification/NodeSocket.v ===== *)
(** * The frame handler of the Node relay
    [src/node/socket-messages.js] with [socket-policy.js] and
    [managed-connection.js]: what one text frame of an authenticated socket does to
    the rooms, the retained state, the presence, the cool-downs and the other sockets.

    The handler is synchronous; it is composed from the models of the components it
    calls.  [parse] is [JSON.parse] ([None] on a [SyntaxError]), [verify] the ticket
    check of the deployment ([None] without managed admission), and [buffered] and
    [throws] say what [bufferedAmount] is and whether [send] throws.  The relay always
    has a delivery.  The clock does not advance during a frame, and the database does
    not fail other than by refusing a value it cannot bind. *)

From S2P Require Import Prelude Validation CoolDown ConnectionPolicy Delivery NodeRooms RetainedState RetainedStores Presence SocketDelivery Admission.
#[local] Open Scope bool_scope.
#[local] Open Scope Z_scope.
#[local] Open Scope js_scope.

Definition MAX_WEBSOCKET_MESSAGE_BYTES : Z := 32 * 1024 * 1024.

(** [ws.relayState] and the ready state of a socket; [sk_timer] is the time of the
    admission timer. *)
Record sock := {
  sk_id : nat; sk_open : bool; sk_room : jstr; sk_role : option role; sk_identity : option jstr;
  sk_commercial : bool; sk_ticket : option jsv; sk_timer : option Z; sk_relayControl : bool; sk_ingress : ingress;
  sk_window : frame_window; sk_recipientKeyId : option jstr; sk_presenceEnabled : bool; sk_presenceAt : option Z;
  sk_policyClose : bool;
}.

(** The stores and sockets of the relay; the sockets in the order of their upgrades. *)
Record relay := {
  rl_rooms : rooms; rl_retained : state_table; rl_presence : presence_table; rl_sockets : list sock;
  rl_coolDowns : CoolDownRegistry; rl_delivery : delivery;
}.

(** Why a frame is handed to a socket's delivery. *)
Inductive purpose := Forwarded | PresenceFrame | StoredReceipt | Replayed.

(** What the outside sees of a frame. *)
Inductive effect :=
| Closed (id : nat) (code : Z) (reason : jstr)
| Wrote (id : nat) (frame : jsv)                                    (* [ws.send] *)
| Handed (purpose : purpose) (id : nat) (raw : jstr) (deliveryId : jsv) (result : send_effect)   (* [delivery.send] *)
| Replays (id : nat) (rows : list replay_item)                      (* follow once the replayed frame was sent *)
| Dropped (id : nat) (reason : jstr)                                (* the log line *)
| Woke (room : jstr) (envelope : jsv).

(** ** Updates of the state *)

Definition set_sock (id : nat) (f : sock -> sock) (r : relay) : relay :=
  {| rl_rooms := rl_rooms r; rl_retained := rl_retained r; rl_presence := rl_presence r;
     rl_sockets := map (fun s => if Nat.eqb (sk_id s) id then f s else s) (rl_sockets r);
     rl_coolDowns := rl_coolDowns r; rl_delivery := rl_delivery r |}.
Definition with_rooms (db : rooms) (r : relay) : relay :=
  {| rl_rooms := db; rl_retained := rl_retained r; rl_presence := rl_presence r; rl_sockets := rl_sockets r;
     rl_coolDowns := rl_coolDowns r; rl_delivery := rl_delivery r |}.
Definition with_retained (t : state_table) (r : relay) : relay :=
  {| rl_rooms := rl_rooms r; rl_retained := t; rl_presence := rl_presence r; rl_sockets := rl_sockets r;
     rl_coolDowns := rl_coolDowns r; rl_delivery := rl_delivery r |}.
Definition with_presence (t : presence_table) (r : relay) : relay :=
  {| rl_rooms := rl_rooms r; rl_retained := rl_retained r; rl_presence := t; rl_sockets := rl_sockets r;
     rl_coolDowns := rl_coolDowns r; rl_delivery := rl_delivery r |}.
Definition with_coolDowns (c : CoolDownRegistry) (r : relay) : relay :=
  {| rl_rooms := rl_rooms r; rl_retained := rl_retained r; rl_presence := rl_presence r; rl_sockets := rl_sockets r;
     rl_coolDowns := c; rl_delivery := rl_delivery r |}.
Definition with_delivery (d : delivery) (r : relay) : relay :=
  {| rl_rooms := rl_rooms r; rl_retained := rl_retained r; rl_presence := rl_presence r; rl_sockets := rl_sockets r;
     rl_coolDowns := rl_coolDowns r; rl_delivery := d |}.

Definition sock_with (open : bool) (role : option role) (identity : option jstr) (ticket : option jsv) (timer : option Z) (flow : ingress)
    (window : frame_window) (presenceAt : option Z) (policyClose : bool) (s : sock) : sock :=
  {| sk_id := sk_id s; sk_open := open; sk_room := sk_room s; sk_role := role; sk_identity := identity;
     sk_commercial := sk_commercial s; sk_ticket := ticket; sk_timer := timer; sk_relayControl := sk_relayControl s; sk_ingress := flow;
     sk_window := window; sk_recipientKeyId := sk_recipientKeyId s; sk_presenceEnabled := sk_presenceEnabled s;
     sk_presenceAt := presenceAt; sk_policyClose := policyClose |}.
Definition shut (s : sock) : sock :=
  sock_with false (sk_role s) (sk_identity s) (sk_ticket s) (sk_timer s) (sk_ingress s) (sk_window s) (sk_presenceAt s) (sk_policyClose s) s.
Definition shut_by_policy (s : sock) : sock :=
  sock_with false (sk_role s) (sk_identity s) (sk_ticket s) (sk_timer s) (sk_ingress s) (sk_window s) (sk_presenceAt s) true s.
Definition set_window (w : frame_window) (s : sock) : sock :=
  sock_with (sk_open s) (sk_role s) (sk_identity s) (sk_ticket s) (sk_timer s) (sk_ingress s) w (sk_presenceAt s) (sk_policyClose s) s.
Definition set_ingress (flow : ingress) (s : sock) : sock :=
  sock_with (sk_open s) (sk_role s) (sk_identity s) (sk_ticket s) (sk_timer s) flow (sk_window s) (sk_presenceAt s) (sk_policyClose s) s.
Definition set_presenceAt (now : Z) (s : sock) : sock :=
  sock_with (sk_open s) (sk_role s) (sk_identity s) (sk_ticket s) (sk_timer s) (sk_ingress s) (sk_window s) (Some now) (sk_policyClose s) s.
Definition set_role (r : role) (identity : option jstr) (s : sock) : sock :=
  sock_with (sk_open s) (Some r) identity (sk_ticket s) (sk_timer s) (sk_ingress s) (sk_window s) (sk_presenceAt s) (sk_policyClose s) s.
(** [armManagedExpiry]: the timer fires at the expiry of the ticket. *)
Definition arm (ticket : jsv) (s : sock) : sock :=
  sock_with (sk_open s) (sk_role s) (sk_identity s) (Some ticket) (Some (int_of (get "expiresAt" ticket))) (sk_ingress s) (sk_window s)
    (sk_presenceAt s) (sk_policyClose s) s.

Definition find_sock (id : nat) (r : relay) : option sock := List.find (fun s => Nat.eqb (sk_id s) id) (rl_sockets r).
Definition room_socks (room : jstr) (r : relay) : list sock := filter (fun s => sk_room s = room) (rl_sockets r).

Definition role_name (s : sock) : option jstr := Delivery.role_text <$> sk_role s.
Definition peer_of (s : sock) : peer :=
  {| pr_id := sk_id s; pr_open := sk_open s;
     pr_state := {| ps_room := sk_room s; ps_role := role_name s; ps_recipient := sk_recipientKeyId s |};
     pr_presenceEnabled := sk_presenceEnabled s |}.

(** ** [socket-policy.js] *)

Definition admittedSocket (s : sock) (now : Z) : bool :=
  match sk_ticket s with Some t => now <? int_of (get "expiresAt" t) | None => false end.

(** [envelope] is [JUndef] when none was parsed. *)
Definition identityOf (s : sock) (envelope : jsv) : option jstr :=
  match sk_identity s with
  | Some i => Some i
  | None => socketIdentity (Some (sk_room s)) (sk_recipientKeyId s)
              (match role_name s with Some r => Some r | None => str_opt (get "from" envelope) end) (get "senderId" envelope)
  end.

Definition closeForPolicy (s : sock) (token : close_token) (envelope : jsv) (now : Z) (r : relay) : relay * list effect :=
  if negb (sk_open s) then (r, []) else
  let '(close, coolDowns) := applyPolicyClose token (identityOf s envelope) (rl_coolDowns r) now in
  (set_sock (sk_id s) shut_by_policy (with_coolDowns coolDowns r), [Closed (sk_id s) (pc_code close) (pc_reason close)]).

(** [None]: not refused. *)
Definition refuseCoolingSocket (s : sock) (envelope : jsv) (now : Z) (r : relay) : relay * option (list effect) :=
  let '(remainingMs, coolDowns) := remaining (rl_coolDowns r) now (identityOf s envelope) (admittedSocket s now) in
  let r := with_coolDowns coolDowns r in
  if remainingMs <=? 0 then (r, None) else
  let close := refuseCoolingFrame remainingMs in
  (set_sock (sk_id s) shut r, Some [Closed (sk_id s) (pc_code close) (pc_reason close)]).

(** ** [managed-connection.js] *)

Definition same_computer (s : sock) (next current : jsv) : bool :=
  strict_eq (get "version" next) (get "version" current) && strict_eq (get "role" next) (get "role" current)
  && match role_name s with Some r => is_str (ticket_role current) r | None => true end
  && strict_eq (get "accountId" next) (get "accountId" current) && strict_eq (get "computerId" next) (get "computerId" current)
  && strict_eq (get "publicKey" next) (get "publicKey" current)
  && (int_of (get "expiresAt" current) <? int_of (get "expiresAt" next)).

Section Handler.
Context (parse : jstr -> option jsv).
Context (verify : option (jsv -> option jstr -> Z -> option jsv)).
Context (buffered : delivery -> nat -> Z) (throws : delivery -> nat -> bool).

(** [None]: the frame is no renewal. *)
Definition renewManagedConnection (s : sock) (value : jsv) (now : Z) (r : relay) : option (relay * list effect) :=
  if negb (is_str (get "type" value) "relay.admission") then None else
  if negb (sk_commercial s) then Some (r, []) else
  let next := match verify with Some v => v (get "ticket" value) (Some (sk_room s)) now | None => None end in
  match next, sk_ticket s with
  | Some next, Some current =>
      if same_computer s next current
      then Some (set_sock (sk_id s) (arm next) r,
                 [Wrote (sk_id s) (JObj [("type", JStr "relay.admission.accepted"); ("expiresAt", get "expiresAt" next)])])
      else Some (closeForPolicy s AdmissionRenewalRejected JUndef now r)
  | _, _ => Some (closeForPolicy s AdmissionRenewalRejected JUndef now r)
  end.

(** ** Sending *)

(** [delivery.send(target, raw, undefined, deliveryId)] *)
Definition hand (why : purpose) (id : nat) (raw : jstr) (deliveryId : jsv) (now : Z) (r : relay) : relay * list effect :=
  match find_sock id r with
  | None => (r, [])
  | Some s =>
      let '(d, result) := send (rl_delivery r) id (sk_open s) (buffered (rl_delivery r) id) raw deliveryId now (throws (rl_delivery r) id) in
      let r := with_delivery d r in
      (match result with Backpressure | Terminated => set_sock id shut r | _ => r end, [Handed why id raw deliveryId result])
  end.

Fixpoint hand_all (why : purpose) (frames : list (nat * jstr * jsv)) (now : Z) (r : relay) : relay * list effect :=
  match frames with
  | [] => (r, [])
  | (id, raw, deliveryId) :: rest =>
      let '(r1, out1) := hand why id raw deliveryId now r in
      let '(r2, out2) := hand_all why rest now r1 in (r2, out1 ++ out2)
  end.

(** [dropMessage] *)
Definition dropMessage (s : sock) (envelope : jsv) (reason : jstr) : list effect :=
  Dropped (sk_id s) reason
  :: (if sk_relayControl s && truthy (get "deliveryId" envelope) && sk_open s
      then [Wrote (sk_id s) (droppedNotice (get "deliveryId" envelope) reason)] else []).

(** ** Registration of a role *)

Definition replay_rows (s : sock) (raws : list replay_item) : list replay_item :=
  filter (fun item => matchesQueuedRecipient (ri_parsed item) (sk_recipientKeyId s)) raws.

(** One round of [replayNodeFrames]: it hands over the first row if the socket is open, and
    suspends with the others until the frame was sent. *)
Definition replay_next (id : nat) (rows : list replay_item) (now : Z) (r : relay) : relay * list effect :=
  match rows, find_sock id r with
  | item :: rest, Some s =>
      if negb (sk_open s) then (r, []) else
      let '(r, out) := hand Replayed id (ri_raw item) (replay_delivery_id item) now r in
      (r, out ++ match out with [Handed _ _ _ _ (Sent _)] => [Replays id rest] | _ => [] end)
  | _, _ => (r, [])
  end.

(** [registerRole]: the replay runs up to its first wait; [replay_next] continues it. *)
Definition registerRole (s : sock) (from : role) (envelope : jsv) (now : Z) (r : relay) : relay * list effect :=
  let identity := match sk_identity s with
                  | Some i => Some i
                  | None => socketIdentity (Some (sk_room s)) (sk_recipientKeyId s) (Some (Delivery.role_text from)) (get "senderId" envelope)
                  end in
  let r := set_sock (sk_id s) (set_role from identity) r in
  let saved := match from with Phone => list_state (rl_retained r) (sk_room s) (sk_recipientKeyId s) now | Machine => [] end in
  let '(queued, db) := queue (rl_rooms r) (sk_room s) from now in
  let items := map (fun raw => {| ri_raw := raw; ri_deliveryId := None; ri_parsed := parse raw |}) saved
    ++ map (fun row => {| ri_raw := row_raw row; ri_deliveryId := row_deliveryId row; ri_parsed := parse (row_raw row) |}) queued in
  replay_next (sk_id s) (replay_rows s items) now (with_rooms db r).

(** [store.presence.note] of a socket with a role. *)
Definition note_sock (s : sock) (from : role) (now : Z) (r : relay) : relay :=
  with_presence (note (rl_presence r) (sk_room s) (Some (Delivery.role_text from)) (sk_recipientKeyId s) now) r.

(** [publishNodePresence] *)
Definition publish (room : jstr) (now : Z) (r : relay) : relay * list effect :=
  hand_all PresenceFrame (map (fun f => (f.1, f.2, JUndef))
             (publishNodePresence room (rl_presence r) [(room, map peer_of (room_socks room r))] true now)) now r.

(** ** Delivery of an envelope *)

Definition matches_role (to : jstr) (s : sock) : bool := match role_name s with Some r => r =?s to | None => false end.

(** The sockets a frame is forwarded to. *)
Definition is_target (s target : sock) (envelope : jsv) : bool :=
  negb (Nat.eqb (sk_id target) (sk_id s)) && sk_open target
  && (is_str (get "to" envelope) "all" || matches_role (str_of (get "to" envelope)) target)
  && matchesRecipient envelope (sk_recipientKeyId target).

(** The loop over the room; a socket's ready state is read when its turn comes. *)
Fixpoint forward_loop (s : sock) (targets : list nat) (envelope : jsv) (raw : jstr) (now : Z) (r : relay) : relay * list effect :=
  match targets with
  | [] => (r, [])
  | id :: rest =>
      let '(r1, out1) := match find_sock id r with
                         | Some target => if is_target s target envelope then hand Forwarded id raw (get "deliveryId" envelope) now r else (r, [])
                         | None => (r, [])
                         end in
      let '(r2, out2) := forward_loop s rest envelope raw now r1 in (r2, out1 ++ out2)
  end.

Definition forward (s : sock) (envelope : jsv) (raw : jstr) (now : Z) (r : relay) : relay * list effect :=
  let '(r, out) := forward_loop s (map sk_id (room_socks (sk_room s) r)) envelope raw now r in
  (r, out ++ if is_str (get "to" envelope) "phone" && bool_decide (get "wake" envelope = JBool true)
             then [Woke (sk_room s) envelope] else []).

(** The reliable part: [inl] ends the frame. *)
Definition store_reliable (s : sock) (envelope : jsv) (raw : jstr) (now : Z) (r : relay)
  : relay * (list effect + list effect) :=
  match role_of (str_of (get "to" envelope)) with
  | Some to =>
      if negb (truthy (get "deliveryId" envelope)) then (r, inr []) else
      let deliveryId := str_of (get "deliveryId" envelope) in
      let '(stored, db) := enqueue (rl_rooms r) (sk_room s) to raw deliveryId (int_opt (get "expiresAt" envelope)) now in
      let r := with_rooms db r in
      match queueOutcome stored (Some deliveryId) with
      | Close token => let '(r, out) := closeForPolicy s token JUndef now r in (r, inl out)
      | Drop reason => (r, inl (dropMessage s envelope reason))
      | Forward =>
          if sk_relayControl s && is_str (get "from" envelope) "phone" && is_str (get "to" envelope) "machine"
             && isDurableSubmission (Some deliveryId) && sk_open s
          then let '(r, out) := hand StoredReceipt (sk_id s) (json_text (storedSubmissionNotice (get "deliveryId" envelope))) JUndef now r in (r, inr out)
          else (r, inr [])
      end
  | None => (r, inr [])
  end.

(** The first frame of a socket registers its role and announces it. *)
Definition announce (s : sock) (from : role) (envelope : jsv) (now : Z) (r : relay) : relay * list effect :=
  match sk_role s with
  | None =>
      let '(r, out) := registerRole s from envelope now r in
      let '(r, out') := publish (sk_room s) now (note_sock s from now r) in (r, out ++ out')
  | Some _ => (r, [])
  end.

(** A socket is noted every 30 seconds. *)
Definition refresh_presence (s : sock) (from : role) (now : Z) (r : relay) : relay :=
  if match sk_presenceAt s with Some t => (t =? 0) || negb (now - t <? 30000) | None => true end
  then set_sock (sk_id s) (set_presenceAt now) (note_sock s from now r) else r.

(** The retained state; the flag tells that the put threw. *)
Definition retain (s : sock) (envelope : jsv) (raw : jstr) (now : Z) (r : relay) : relay * bool :=
  if truthy (get "stateKey" envelope) then
    match put_state (rl_retained r) (sk_room s) envelope raw now (presence_rows (rl_presence r) (sk_room s)) with
    | Ok t => (with_retained t r, false)
    | Throw => (r, true)
    end
  else (r, false).

(** From the role check of a valid, admitted envelope on. *)
Definition route (s : sock) (from : role) (envelope : jsv) (raw : jstr) (now : Z) (r : relay) : relay * list effect :=
  if bool_decide (is_Some (sk_role s)) && negb (bool_decide (sk_role s = Some from)) then (r, []) else
  let '(r, out0) := announce s from envelope now r in
  let r := refresh_presence s from now r in
  match find_sock (sk_id s) r with
  | None => (r, out0)
  | Some s =>
      let '(r, failed) := retain s envelope raw now r in
      if failed then (r, out0 ++ dropMessage s envelope "storage-unavailable") else
      let '(r, stored) := store_reliable s envelope raw now r in
      match stored with
      | inl out => (r, out0 ++ out)
      | inr out =>
          let '(r, out') := forward s envelope raw now r in (r, out0 ++ out ++ out')
      end
  end.

(** A parsed frame that is no admission renewal, after the ingress receipt; [Throw] is an
    exception that no caller catches. *)
Definition handleEnvelope (s : sock) (envelope : jsv) (raw : jstr) (now : Z) (r : relay) : res (relay * list effect) :=
  if is_str (get "type" envelope) "relay.ack" && validIdentifier (get "deliveryId" envelope) 180 then
    Ok (match sk_role s with
        | Some role => with_rooms (acknowledge (rl_rooms r) (sk_room s) role (str_of (get "deliveryId" envelope)) now) r
        | None => r
        end, [])
  else
    let* problem := envelopeProblem envelope (sk_room s) now None in
    match problem with
    | Some Expired => Ok (r, dropMessage s envelope "expired")
    | Some Invalid => Ok (r, [])
    | None =>
        let '(r, refused) := match sk_role s with None => refuseCoolingSocket s envelope now r | Some _ => (r, None) end in
        match refused with
        | Some effects => Ok (r, effects)
        | None =>
            if sk_commercial s && match sk_ticket s with Some t => negb (strict_eq (get "from" envelope) (ticket_role t)) | None => false end
            then Ok (closeForPolicy s AdmissionRequired envelope now r)
            else if sk_commercial s && is_str (get "from" envelope) "machine" && negb (admittedSocket s now)
            then Ok (closeForPolicy s (admissionCloseToken envelope) envelope now r)
            else match role_of (str_of (get "from" envelope)) with
                 | Some from => Ok (route s from envelope raw now r)
                 | None => Ok (r, [])
                 end
        end
    end.

Definition handleSocketMessage (id : nat) (raw : jstr) (now : Z) (r : relay) : res (relay * list effect) :=
  match find_sock id r with
  | None => Ok (r, [])
  | Some s =>
      if negb (sk_open s) then Ok (r, []) else
      if MAX_WEBSOCKET_MESSAGE_BYTES <? byte_length raw then Ok (closeForPolicy s Oversize JUndef now r) else
      let '(acks, acknowledged) := consume (dl_responses (rl_delivery r)) id raw (parse raw) now in
      let r := with_delivery {| dl_pendingBytes := dl_pendingBytes (rl_delivery r); dl_flights := dl_flights (rl_delivery r);
                                dl_next := dl_next (rl_delivery r); dl_responses := acks |} r in
      let '(accepted, window) := if acknowledged then (true, sk_window s) else acceptSocketFrame (sk_window s) now MAX_SOCKET_MESSAGES_PER_SECOND in
      let r := set_sock id (set_window window) r in
      let s := set_window window s in
      if negb accepted then Ok (closeForPolicy s RateLimit JUndef now r) else
      match parse raw with
      | None => Ok (r, [])
      | Some envelope =>
          match renewManagedConnection s envelope now r with
          | Some result => Ok result
          | None =>
              let '(flow, receipt) := noteIngressFrame (sk_ingress s) in
              let r := set_sock id (set_ingress flow) r in
              let* result := handleEnvelope (set_ingress flow s) envelope raw now r in
              Ok (result.1, (match receipt with Some frame => [Wrote id frame] | None => [] end) ++ result.2)
          end
      end
  end.
End Handler.

(** ** The invariant of the relay *)

(** Every component's own invariant, and one socket per handle. *)
Record relay_wf (r : relay) : Prop := {
  rw_rooms : rooms_wf (rl_rooms r);
  rw_coolDowns : registry_wf (rl_coolDowns r);
  rw_delivery : delivery_inv (rl_delivery r);
  rw_acks : acks_wf (dl_responses (rl_delivery r));
  rw_retained : table_wf (rl_retained r);
  rw_sockets : NoDup (map sk_id (rl_sockets r));
}.

(** What a frame of socket [id] leaves of a socket. *)
Record keeps (id : nat) (s s' : sock) : Prop := {
  ks_id : sk_id s' = sk_id s; ks_room : sk_room s' = sk_room s; ks_recipient : sk_recipientKeyId s' = sk_recipientKeyId s;
  ks_commercial : sk_commercial s' = sk_commercial s; ks_control : sk_relayControl s' = sk_relayControl s;
  ks_role : is_Some (sk_role s) \/ sk_id s <> id -> sk_role s' = sk_role s;
  ks_open : sk_open s' = true -> sk_open s = true;
}.

Definition step_ok (id : nat) (r r' : relay) : Prop :=
  relay_wf r -> Forall2 (keeps id) (rl_sockets r) (rl_sockets r') /\ relay_wf r'.

Lemma keeps_refl id s : keeps id s s.
Proof. by split. Qed.

Lemma keeps_trans id a b c : keeps id a b -> keeps id b c -> keeps id a c.
Proof.
  intros [I1 R1 K1 C1 L1 O1 P1] [I2 R2 K2 C2 L2 O2 P2]. split; try congruence; [|auto].
  intros H. specialize (O1 H). rewrite <- O1. apply O2. rewrite O1, I1. exact H.
Qed.

Lemma sockets_refl id l : Forall2 (keeps id) l l.
Proof. induction l; constructor; auto using keeps_refl. Qed.

Lemma sockets_trans id l l1 l2 : Forall2 (keeps id) l l1 -> Forall2 (keeps id) l1 l2 -> Forall2 (keeps id) l l2.
Proof.
  intros S1. revert l2. induction S1 as [|x y l l' Hxy _ IH]; intros l2 S2; inversion S2; subst; constructor; [by eapply keeps_trans|auto].
Qed.

#[export] Instance step_ok_preorder id : PreOrder (step_ok id).
Proof.
  split; [intros r Hw; split; [apply sockets_refl|done]|]. intros a b c H1 H2 Hw. destruct (H1 Hw) as [S1 W1]. destruct (H2 W1) as [S2 W2].
  split; [by eapply sockets_trans|done].
Qed.

Lemma keeps_ids id l l' : Forall2 (keeps id) l l' -> map sk_id l' = map sk_id l.
Proof. induction 1 as [|x y l l' Hxy _ IH]; [done|]. simpl. rewrite IH. by rewrite (ks_id _ _ _ Hxy). Qed.

Lemma set_sock_ok id id' f r : (forall s, s ∈ rl_sockets r -> relay_wf r -> sk_id s = id' -> keeps id s (f s)) -> step_ok id r (set_sock id' f r).
Proof.
  intros Hf Hw. assert (Forall2 (keeps id) (rl_sockets r) (rl_sockets (set_sock id' f r))) as Hs.
  { unfold set_sock. cbn [rl_sockets]. assert (forall l, (forall s, s ∈ l -> s ∈ rl_sockets r) ->
      Forall2 (keeps id) l (map (fun s => if Nat.eqb (sk_id s) id' then f s else s) l)) as H; [|by apply H].
    induction l as [|s l IH]; intros Hl; simpl; constructor; [|apply IH; intros; apply Hl; by right].
    destruct (Nat.eqb_spec (sk_id s) id'); [apply Hf; auto; apply Hl; by left|apply keeps_refl]. }
  split; [exact Hs|]. destruct Hw. split; try done. by rewrite (keeps_ids _ _ _ Hs).
Qed.

Lemma same_sockets_ok id r r' : rl_sockets r' = rl_sockets r -> (relay_wf r -> relay_wf r') -> step_ok id r r'.
Proof. intros Hs Hw Hr. split; [rewrite Hs; apply sockets_refl|auto]. Qed.

Lemma with_rooms_ok id db r : (rooms_wf (rl_rooms r) -> rooms_wf db) -> step_ok id r (with_rooms db r).
Proof. intros H. apply same_sockets_ok; [done|]. intros []. split; auto. Qed.
Lemma with_presence_ok id t r : step_ok id r (with_presence t r).
Proof. apply same_sockets_ok; [done|]. intros []. by split. Qed.
Lemma with_coolDowns_ok id c r : (registry_wf (rl_coolDowns r) -> registry_wf c) -> step_ok id r (with_coolDowns c r).
Proof. intros H. apply same_sockets_ok; [done|]. intros []. split; auto. Qed.
Lemma with_retained_ok id t r : (table_wf (rl_retained r) -> table_wf t) -> step_ok id r (with_retained t r).
Proof. intros H. apply same_sockets_ok; [done|]. intros []. split; auto. Qed.
Lemma with_delivery_ok id d r :
  (delivery_inv (rl_delivery r) -> delivery_inv d) -> (acks_wf (dl_responses (rl_delivery r)) -> acks_wf (dl_responses d)) -> step_ok id r (with_delivery d r).
Proof. intros H1 H2. apply same_sockets_ok; [done|]. intros []. split; auto. Qed.

(** ** Every helper is such a step *)

Lemma mailbox_ok id room now op r : step_ok id r (with_rooms (@mb_exec _ (node_mailbox room) (rl_rooms r) now op) r).
Proof. apply with_rooms_ok. apply (law_wf (MailboxLaws := node_mailbox_laws room)). Qed.

Lemma insert_state_wf room row t t' : table_wf t -> insert_state room row t = Ok t' -> table_wf t'.
Proof.
  intros [Hn Hr]. unfold insert_state. destruct (sr_recipient row) as [| | | |a| |] eqn:Ea; try done. destruct (sr_key row) as [| | | |b| |] eqn:Eb; try done.
  cbn [bind_text res_bind]. destruct (if is_nullish (sr_group row) then Ok "" else bind_text (sr_group row)); [|done]. intros [= <-].
  split; [by apply map_push_nodup|]. intros e He. unfold map_push in He. apply elem_of_app in He as [He|He].
  - apply Hr. eapply elem_of_sublist; [exact He|apply map_delete_sublist].
  - apply list_elem_of_singleton in He as ->. unfold slot_of. simpl. by rewrite Ea, Eb.
Qed.

Lemma put_state_wf t room env raw now activity t' : table_wf t -> put_state t room env raw now activity = Ok t' -> table_wf t'.
Proof.
  intros Hwf. unfold put_state. destruct (retainState _ _ _ _ _) as [rows|]; [|done]. cbn [res_bind].
  set (before := metadata room t). set (t1 := fold_left _ before t).
  assert (table_wf t1) as Hwf1.
  { unfold t1. generalize before. intros l. clear -Hwf. revert t Hwf. induction l as [|old l IH]; intros t Hwf; [done|]. simpl. apply IH.
    destruct (bool_decide _); [done|]. unfold map_delete. by apply wf_filter. }
  clearbody t1. clear Hwf. revert t1 Hwf1. generalize rows. intros l. induction l as [|row l IH]; intros t1 Hwf1; cbn [fold_left]; [by intros [= <-]|].
  assert (forall l', fold_left (add_row before room) l' Throw = Throw) as Hthrow by (intros l'; induction l'; done).
  destruct (add_row before room (Ok t1) row) as [t2|] eqn:E; [|by rewrite Hthrow]. apply IH. unfold add_row in E. cbn [res_bind] in E.
  destruct (bool_decide _); [by injection E as <-|by eapply insert_state_wf].
Qed.

Lemma shut_keeps id s : keeps id s (shut s).
Proof. by split. Qed.
Lemma shut_by_policy_keeps id s : keeps id s (shut_by_policy s).
Proof. by split. Qed.

Lemma closeForPolicy_ok id s token env now r : step_ok id r (closeForPolicy s token env now r).1.
Proof.
  unfold closeForPolicy. destruct (negb (sk_open s)); [reflexivity|].
  pose proof (applyPolicyClose_wf token (identityOf s env) (rl_coolDowns r) now) as Hc. destruct (applyPolicyClose _ _ _ _) as [close c].
  etransitivity; [by apply with_coolDowns_ok|]. apply set_sock_ok. intros; apply shut_by_policy_keeps.
Qed.

Lemma refuseCoolingSocket_ok id s env now r : step_ok id r (refuseCoolingSocket s env now r).1.
Proof.
  unfold refuseCoolingSocket. pose proof (remaining_wf (rl_coolDowns r) now (identityOf s env) (admittedSocket s now)) as Hc.
  destruct (remaining _ _ _ _) as [ms c]. destruct (ms <=? 0); [by apply with_coolDowns_ok|].
  etransitivity; [by apply with_coolDowns_ok|]. apply set_sock_ok. intros; apply shut_keeps.
Qed.

Section Steps.
Context (parse : jstr -> option jsv).
Context (verify : option (jsv -> option jstr -> Z -> option jsv)).
Context (buffered : delivery -> nat -> Z) (throws : delivery -> nat -> bool).

Lemma renew_ok id s value now r result : renewManagedConnection verify s value now r = Some result -> step_ok id r result.1.
Proof.
  unfold renewManagedConnection. destruct (negb (is_str _ _)); [done|]. destruct (negb (sk_commercial s)); [by intros [= <-]|].
  destruct (match verify with Some _ => _ | None => _ end) as [next|]; [|intros [= <-]; apply closeForPolicy_ok].
  destruct (sk_ticket s) as [current|]; [|intros [= <-]; apply closeForPolicy_ok].
  destruct (same_computer _ _ _); intros [= <-]; [|apply closeForPolicy_ok]. apply set_sock_ok. intros; by split.
Qed.

Lemma send_acks d socket o b raw id now t : acks_wf (dl_responses d) -> acks_wf (dl_responses (send d socket o b raw id now t).1).
Proof.
  intros H. unfold send. destruct (negb o); [done|]. destruct (_ || _); [done|]. destruct t; cbn [fst dl_responses]; [|by apply issue_wf].
  unfold release. destruct (map_get _ _); by apply issue_wf.
Qed.

Lemma hand_ok id why i raw d now r : step_ok id r (hand buffered throws why i raw d now r).1.
Proof.
  unfold hand. destruct (find_sock i r) as [s|]; [|reflexivity].
  pose proof (send_inv (rl_delivery r) i (sk_open s) (buffered (rl_delivery r) i) raw d now (throws (rl_delivery r) i)) as H1.
  pose proof (send_acks (rl_delivery r) i (sk_open s) (buffered (rl_delivery r) i) raw d now (throws (rl_delivery r) i)) as H2.
  destruct (send _ _ _ _ _ _ _ _) as [dl res]. etransitivity; [by apply (with_delivery_ok id dl)|].
  destruct res; [reflexivity| |reflexivity|]; apply set_sock_ok; intros; apply shut_keeps.
Qed.

Lemma hand_all_ok id why frames now r : step_ok id r (hand_all buffered throws why frames now r).1.
Proof.
  revert r. induction frames as [|[[i raw] d] frames IH]; intros r; [reflexivity|]. cbn [hand_all].
  pose proof (hand_ok id why i raw d now r) as H. destruct (hand _ _ _ _ _ _ _ _) as [r1 out1]. specialize (IH r1).
  destruct (hand_all _ _ _ _ _ _) as [r2 out2]. by etransitivity.
Qed.

Lemma publish_ok id room now r : step_ok id r (publish buffered throws room now r).1.
Proof. apply hand_all_ok. Qed.

Lemma note_sock_ok id s from now r : step_ok id r (note_sock s from now r).
Proof. apply with_presence_ok. Qed.

(** A socket handle names one socket. *)
Lemma find_sock_in id r s : find_sock id r = Some s -> s ∈ rl_sockets r /\ sk_id s = id.
Proof. intros H. apply find_some in H as [H1 H2]. split; [by apply list_elem_of_In|by apply Nat.eqb_eq]. Qed.

Lemma find_sock_unique r s s' : relay_wf r -> find_sock (sk_id s') r = Some s -> s' ∈ rl_sockets r -> s' = s.
Proof.
  intros [_ _ _ _ _ Hn] H Hin. apply find_sock_in in H as [Hs Hi]. apply list_elem_of_lookup in Hs as [i Hs]. apply list_elem_of_lookup in Hin as [j Hj].
  assert (i = j) as ->.
  { eapply NoDup_lookup; [exact Hn| |]; change (@map sock nat) with (@fmap list _ sock nat); rewrite list_lookup_fmap; [rewrite Hs|rewrite Hj]; simpl; [by rewrite Hi|done]. }
  congruence.
Qed.

Lemma replay_next_ok id i rows now r : step_ok id r (replay_next buffered throws i rows now r).1.
Proof.
  unfold replay_next. destruct rows as [|item rest]; [reflexivity|]. destruct (find_sock i r) as [s|]; [|reflexivity]. destruct (negb _); [reflexivity|].
  pose proof (hand_ok id Replayed i (ri_raw item) (replay_delivery_id item) now r) as H. by destruct (hand _ _ _ _ _ _ _ _).
Qed.

Lemma registerRole_ok s s0 from env now r :
  find_sock (sk_id s) r = Some s0 -> sk_role s0 = None -> step_ok (sk_id s) r (registerRole parse buffered throws s from env now r).1.
Proof.
  intros Hf Hnone. unfold registerRole. set (identity := match sk_identity s with Some _ => _ | None => _ end).
  set (r1 := set_sock (sk_id s) (set_role from identity) r).
  assert (step_ok (sk_id s) r r1) as H1.
  { apply set_sock_ok. intros s1 Hin Hw Hid. assert (s1 = s0) as -> by (apply (find_sock_unique r); [done|by rewrite Hid|done]).
    split; try done. intros [H|H]; [rewrite Hnone in H; by destruct H|by rewrite Hid in H]. }
  pose proof (mailbox_ok (sk_id s) (sk_room s) now (OpRead from) r1) as H2.
  change (step_ok (sk_id s) r1 (with_rooms (queue (rl_rooms r1) (sk_room s) from now).2 r1)) in H2.
  destruct (queue (rl_rooms r1) (sk_room s) from now) as [queued db]. etransitivity; [exact H1|]. etransitivity; [exact H2|]. apply replay_next_ok.
Qed.

Lemma forward_loop_ok id s targets env raw now r : step_ok id r (forward_loop buffered throws s targets env raw now r).1.
Proof.
  revert r. induction targets as [|i targets IH]; intros r; [reflexivity|]. cbn [forward_loop].
  assert (step_ok id r (match find_sock i r with
    | Some target => if is_target s target env then hand buffered throws Forwarded i raw (get "deliveryId" env) now r else (r, [])
    | None => (r, []) end).1) as H1 by (destruct (find_sock i r); [destruct (is_target _ _ _); [apply hand_ok|reflexivity]|reflexivity]).
  destruct (match find_sock i r with Some _ => _ | None => _ end) as [r1 out1]. specialize (IH r1).
  destruct (forward_loop _ _ _ _ _ _ _ _) as [r2 out2]. by etransitivity.
Qed.

Lemma forward_ok id s env raw now r : step_ok id r (forward buffered throws s env raw now r).1.
Proof.
  unfold forward. pose proof (forward_loop_ok id s (map sk_id (room_socks (sk_room s) r)) env raw now r) as H.
  by destruct (forward_loop _ _ _ _ _ _ _ _).
Qed.

Lemma enqueue_ok id room to raw d e now r : step_ok id r (with_rooms (enqueue (rl_rooms r) room to raw d e now).2 r).
Proof. apply (mailbox_ok id room now (OpEnqueue to raw d e) r). Qed.

Lemma store_reliable_ok id s env raw now r : step_ok id r (store_reliable buffered throws s env raw now r).1.
Proof.
  unfold store_reliable. destruct (role_of _) as [to|]; [|reflexivity]. destruct (negb _); [reflexivity|].
  pose proof (enqueue_ok id (sk_room s) to raw (str_of (get "deliveryId" env)) (int_opt (get "expiresAt" env)) now r) as H.
  destruct (enqueue _ _ _ _ _ _ _) as [stored db]. cbn [snd] in H. set (r1 := with_rooms db r) in *.
  destruct (queueOutcome _ _) as [|token|reason]; [|etransitivity; [exact H|]|exact H].
  - destruct (_ && _); [|exact H]. pose proof (hand_ok id StoredReceipt (sk_id s) (json_text (storedSubmissionNotice (get "deliveryId" env))) JUndef now r1) as H2.
    destruct (hand _ _ _ _ _ _ _ _). by etransitivity.
  - pose proof (closeForPolicy_ok id s token JUndef now r1) as H2. by destruct (closeForPolicy _ _ _ _ _).
Qed.

Lemma put_retained_ok id t room env raw now activity r :
  put_state (rl_retained r) room env raw now activity = Ok t -> step_ok id r (with_retained t r).
Proof. intros H. apply with_retained_ok. intros Hwf. by eapply put_state_wf. Qed.

Lemma presenceAt_ok id i now r : step_ok id r (set_sock i (set_presenceAt now) r).
Proof. apply set_sock_ok. intros; by split. Qed.

Lemma announce_ok s s0 from env now r :
  find_sock (sk_id s) r = Some s0 -> sk_role s0 = sk_role s -> step_ok (sk_id s) r (announce parse buffered throws s from env now r).1.
Proof.
  intros Hf Hr. unfold announce. destruct (sk_role s) eqn:E; [reflexivity|]. pose proof (registerRole_ok s s0 from env now r Hf Hr) as H1.
  destruct (registerRole _ _ _ _ _ _ _ _) as [r1 out]. pose proof (publish_ok (sk_id s) (sk_room s) now (note_sock s from now r1)) as H2.
  destruct (publish _ _ _ _ _) as [r2 out']. etransitivity; [exact H1|]. etransitivity; [apply note_sock_ok|exact H2].
Qed.

Lemma refresh_ok id s from now r : step_ok id r (refresh_presence s from now r).
Proof.
  unfold refresh_presence. destruct (match sk_presenceAt s with Some _ => _ | None => _ end); [|reflexivity].
  etransitivity; [apply note_sock_ok|apply presenceAt_ok].
Qed.

Lemma retain_ok id s env raw now r : step_ok id r (retain s env raw now r).1.
Proof.
  unfold retain. destruct (truthy _); [|reflexivity]. destruct (put_state _ _ _ _ _ _) eqn:E; [by eapply put_retained_ok|reflexivity].
Qed.

Lemma route_ok s s0 from env raw now r :
  find_sock (sk_id s) r = Some s0 -> sk_role s0 = sk_role s -> step_ok (sk_id s) r (route parse buffered throws s from env raw now r).1.
Proof.
  intros Hf Hr. unfold route. destruct (_ && _); [reflexivity|]. pose proof (announce_ok s s0 from env now r Hf Hr) as H1.
  destruct (announce _ _ _ _ _ _ _ _) as [r1 out0]. cbv zeta. pose proof (refresh_ok (sk_id s) s from now r1) as H2.
  set (r2 := refresh_presence s from now r1) in *. assert (step_ok (sk_id s) r r2) as H12 by (by etransitivity).
  destruct (find_sock (sk_id s) r2) as [s'|] eqn:Ef; [|done]. pose proof (retain_ok (sk_id s) s' env raw now r2) as H3.
  destruct (retain _ _ _ _ _) as [r3 failed]. assert (step_ok (sk_id s) r r3) as H13 by (by etransitivity). destruct failed; [done|].
  pose proof (store_reliable_ok (sk_id s) s' env raw now r3) as H4. destruct (store_reliable _ _ _ _ _ _ _) as [r4 stored].
  assert (step_ok (sk_id s) r r4) as H14 by (by etransitivity). destruct stored as [out|out]; [done|].
  pose proof (forward_ok (sk_id s) s' env raw now r4) as H5. destruct (forward _ _ _ _ _ _ _) as [r5 out']. by etransitivity.
Qed.

Lemma find_set_sock id f r s : (forall s, sk_id (f s) = sk_id s) -> find_sock id r = Some s -> find_sock id (set_sock id f r) = Some (f s).
Proof.
  intros Hf. unfold find_sock, set_sock. cbn [rl_sockets]. induction (rl_sockets r) as [|x l IH]; simpl; [done|].
  destruct (Nat.eqb (sk_id x) id) eqn:E; [intros [= <-]; by rewrite Hf, E|]. rewrite E. exact IH.
Qed.

(** A frame either ends in the router of a valid and admitted envelope, or it forwards nothing. *)
Definition is_forward (e : effect) : bool := match e with Handed Forwarded _ _ _ _ => true | _ => false end.
Definition silent (out : list effect) : Prop := Forall (fun e => is_forward e = false) out.

Record admitted_frame (s : sock) (from : role) (env : jsv) (now : Z) : Prop := {
  af_valid : envelopeProblem env (sk_room s) now None = Ok None;
  af_from : get "from" env = JStr (Delivery.role_text from);
  af_lease : sk_commercial s = true -> from = Machine -> admittedSocket s now = true;
  af_ticket : forall t, sk_commercial s = true -> sk_ticket s = Some t -> JStr (Delivery.role_text from) = ticket_role t;
}.

Inductive frame_result (id : nat) (raw : jstr) (now : Z) (r r' : relay) (out : list effect) : Prop :=
| fr_silent : step_ok id r r' -> silent out -> frame_result id raw now r r' out
| fr_routed r1 s s1 from env pre :
    step_ok id r r1 -> rl_rooms r1 = rl_rooms r -> find_sock id r = Some s -> sk_open s = true ->
    find_sock id r1 = Some s1 -> keeps id s s1 -> sk_role s1 = sk_role s -> parse raw = Some env -> admitted_frame s from env now ->
    silent pre -> r' = (route parse buffered throws s1 from env raw now r1).1 ->
    out = pre ++ (route parse buffered throws s1 from env raw now r1).2 -> frame_result id raw now r r' out.

Lemma closeForPolicy_silent s token env now r : silent (closeForPolicy s token env now r).2.
Proof. unfold closeForPolicy. destruct (negb _); [constructor|]. destruct (applyPolicyClose _ _ _ _). by repeat constructor. Qed.

Lemma dropMessage_silent s env reason : silent (dropMessage s env reason).
Proof. unfold dropMessage. destruct (_ && _); by repeat constructor. Qed.

Lemma renew_silent s value now r result : renewManagedConnection verify s value now r = Some result -> silent result.2.
Proof.
  unfold renewManagedConnection. destruct (negb (is_str _ _)); [done|]. destruct (negb (sk_commercial s)); [intros [= <-]; constructor|].
  destruct (match verify with Some _ => _ | None => _ end) as [next|]; [|intros [= <-]; apply closeForPolicy_silent].
  destruct (sk_ticket s) as [current|]; [|intros [= <-]; apply closeForPolicy_silent].
  destruct (same_computer _ _ _); intros [= <-]; [by repeat constructor|apply closeForPolicy_silent].
Qed.

Lemma refuseCoolingSocket_result s env now r :
  let result := refuseCoolingSocket s env now r in
  match result.2 with Some out => silent out | None => rl_sockets result.1 = rl_sockets r /\ rl_rooms result.1 = rl_rooms r end.
Proof.
  unfold refuseCoolingSocket. destruct (remaining _ _ _ _) as [ms c]. cbv zeta. destruct (ms <=? 0); cbn [fst snd]; [done|by repeat constructor].
Qed.

Lemma admitted_frame_intro s env now from :
  envelopeProblem env (sk_room s) now None = Ok None -> get "from" env = JStr (Delivery.role_text from) ->
  sk_commercial s && match sk_ticket s with Some t => negb (strict_eq (get "from" env) (ticket_role t)) | None => false end = false ->
  sk_commercial s && is_str (get "from" env) "machine" && negb (admittedSocket s now) = false -> admitted_frame s from env now.
Proof.
  intros Hp Hf Ht Ha. split; [done|done| |].
  - intros Hc ->. rewrite Hc, Hf in Ha. cbn in Ha. by apply negb_false_iff in Ha.
  - intros t Hc E. rewrite Hc, E in Ht. cbn [andb] in Ht. apply negb_false_iff in Ht. rewrite Hf in Ht.
    unfold strict_eq in Ht. destruct (ticket_role t); try done. by apply bool_decide_eq_true in Ht as ->.
Qed.

(** What the router was given by the guards before it. *)
Inductive envelope_result (s : sock) (env : jsv) (raw : jstr) (now : Z) (r : relay) (result : relay * list effect) : Prop :=
| er_silent : step_ok (sk_id s) r result.1 -> silent result.2 -> envelope_result s env raw now r result
| er_routed r1 from :
    step_ok (sk_id s) r r1 -> rl_rooms r1 = rl_rooms r -> rl_sockets r1 = rl_sockets r -> admitted_frame s from env now ->
    result = route parse buffered throws s from env raw now r1 -> envelope_result s env raw now r result.

Lemma closed_result s tok env env' raw now r r1 :
  step_ok (sk_id s) r r1 -> envelope_result s env raw now r (closeForPolicy s tok env' now r1).
Proof. intros H. apply er_silent; [etransitivity; [exact H|apply closeForPolicy_ok]|apply closeForPolicy_silent]. Qed.

Lemma handleEnvelope_result s env raw now r result :
  handleEnvelope parse buffered throws s env raw now r = Ok result -> envelope_result s env raw now r result.
Proof.
  unfold handleEnvelope. destruct (_ && validIdentifier _ _).
  { intros [= <-]. apply er_silent; [|constructor]. destruct (sk_role s); [|reflexivity]. apply (mailbox_ok (sk_id s) _ now (OpAcknowledge _ _)). }
  destruct (envelopeProblem _ _ _ _) as [[[]|]|] eqn:Ep; cbn [res_bind].
  - intros [= <-]. apply er_silent; [reflexivity|constructor].
  - intros [= <-]. apply er_silent; [reflexivity|apply dropMessage_silent].
  - set (cooled := match sk_role s with Some _ => _ | None => _ end).
    assert (step_ok (sk_id s) r cooled.1 /\
      match cooled.2 with Some o => silent o | None => rl_sockets cooled.1 = rl_sockets r /\ rl_rooms cooled.1 = rl_rooms r end) as [Hc Hr].
    { unfold cooled. destruct (sk_role s); [split; [reflexivity|done]|]. split; [apply refuseCoolingSocket_ok|apply refuseCoolingSocket_result]. }
    destruct cooled as [r1 [o|]]; cbn [fst snd] in Hc, Hr; [intros [= <-]; by apply er_silent|].
    destruct (sk_commercial s && match sk_ticket s with Some _ => _ | None => _ end) eqn:E1; [intros [= <-]; by apply closed_result|].
    destruct (sk_commercial s && _ && negb _) eqn:E2; [intros [= <-]; by apply closed_result|].
    destruct (role_of_from env (sk_room s) now None _ Ep eq_refl) as (from & Hfrom & Ef). rewrite Hfrom. intros [= <-].
    destruct Hr as [Hs Hr]. eapply er_routed; [exact Hc|exact Hr|exact Hs|by apply admitted_frame_intro|done].
  - done.
Qed.

(** The bookkeeping before the envelope is looked at. *)
Lemma enter_ok id raw now r acks b :
  consume (dl_responses (rl_delivery r)) id raw (parse raw) now = (acks, b) ->
  step_ok id r (with_delivery {| dl_pendingBytes := dl_pendingBytes (rl_delivery r); dl_flights := dl_flights (rl_delivery r);
                                 dl_next := dl_next (rl_delivery r); dl_responses := acks |} r).
Proof.
  intros E. apply with_delivery_ok; [by intros []|]. intros H. cbn [dl_responses].
  pose proof (consume_wf _ id raw (parse raw) now H) as Hc. by rewrite E in Hc.
Qed.

Lemma set_window_ok i j w r : step_ok i r (set_sock j (set_window w) r).
Proof. apply set_sock_ok. intros; by split. Qed.
Lemma set_ingress_ok i j w r : step_ok i r (set_sock j (set_ingress w) r).
Proof. apply set_sock_ok. intros; by split. Qed.

Lemma closed_frame id s tok raw now r r1 :
  step_ok id r r1 -> frame_result id raw now r (closeForPolicy s tok JUndef now r1).1 (closeForPolicy s tok JUndef now r1).2.
Proof. intros H. apply fr_silent; [etransitivity; [exact H|apply closeForPolicy_ok]|apply closeForPolicy_silent]. Qed.

Lemma handle_result id raw now r r' out :
  handleSocketMessage parse verify buffered throws id raw now r = Ok (r', out) -> frame_result id raw now r r' out.
Proof.
  unfold handleSocketMessage. destruct (find_sock id r) as [s|] eqn:Ef; [|intros [= <- <-]; apply fr_silent; [reflexivity|constructor]].
  pose proof (find_sock_in _ _ _ Ef) as [_ Hid].
  destruct (sk_open s) eqn:Eo; cbn [negb]; [|intros [= <- <-]; apply fr_silent; [reflexivity|constructor]].
  destruct (_ <? _). { intros [= Heq]. pose proof (closed_frame id s Oversize raw now r r ltac:(reflexivity)) as H. by rewrite Heq in H. }
  destruct (consume _ _ _ _ _) as [acks acked] eqn:Ec. pose proof (enter_ok id raw now r acks acked Ec) as H0.
  set (r0 := with_delivery _ r) in *. destruct (if acked then _ else _) as [accepted window]. set (s1 := set_window window s).
  set (ra := set_sock id (set_window window) r0). assert (step_ok id r ra) as Ha by (etransitivity; [exact H0|apply set_window_ok]).
  cbv zeta. destruct accepted; cbn [negb].
  2: { intros [= Heq]. pose proof (closed_frame id s1 RateLimit raw now r ra Ha) as H. by rewrite Heq in H. }
  destruct (parse raw) as [env|] eqn:Ep; [|intros [= <- <-]; apply fr_silent; [exact Ha|constructor]].
  destruct (renewManagedConnection _ _ _ _ _) as [[rn on]|] eqn:Er.
  { intros [= <- <-]. apply fr_silent; [etransitivity; [exact Ha|exact (renew_ok _ _ _ _ _ _ Er)]|exact (renew_silent _ _ _ _ _ Er)]. }
  destruct (noteIngressFrame _) as [flow receipt]. set (s2 := set_ingress flow s1). set (rb := set_sock id (set_ingress flow) ra).
  assert (step_ok id r rb) as Hb by (etransitivity; [exact Ha|apply set_ingress_ok]).
  destruct (handleEnvelope _ _ _ _ _ _ _ _) as [result|] eqn:Eh; [|done]. cbn [res_bind].
  set (pre := match receipt with Some _ => _ | None => [] end). assert (silent pre) as Hpre by (unfold pre; destruct receipt; by repeat constructor).
  intros [= <- <-]. apply handleEnvelope_result in Eh. change (sk_id s2) with (sk_id s) in Eh.
  destruct Eh as [H1 H2|r1 from H1 H2 H3 H4 ->]; change (sk_id s2) with (sk_id s) in *; rewrite Hid in *.
  - apply fr_silent; [by etransitivity|by apply Forall_app].
  - assert (find_sock id r1 = Some s2) as Ef2.
    { unfold find_sock. rewrite H3. apply find_set_sock; [done|]. apply find_set_sock; [done|exact Ef]. }
    eapply (fr_routed id raw now r _ _ r1 s s2 from env pre); try done; [by etransitivity|by destruct H4].
Qed.

(** ** Where a frame goes *)

Lemma hand_rooms why i raw d now r : rl_rooms (hand buffered throws why i raw d now r).1 = rl_rooms r.
Proof. unfold hand. destruct (find_sock i r); [|done]. destruct (send _ _ _ _ _ _ _ _) as [dl []]; done. Qed.

Lemma hand_effects why i raw d now r e :
  e ∈ (hand buffered throws why i raw d now r).2 -> exists s res, find_sock i r = Some s /\ e = Handed why i raw d res.
Proof.
  unfold hand. destruct (find_sock i r) as [s|]; [|by intros ?%elem_of_nil]. destruct (send _ _ _ _ _ _ _ _) as [dl res].
  intros ->%list_elem_of_singleton. eauto.
Qed.

Lemma hand_silent why i raw d now r : why <> Forwarded -> silent (hand buffered throws why i raw d now r).2.
Proof. intros Hw. apply Forall_forall. intros e (s & res & _ & ->)%hand_effects. by destruct why. Qed.

Lemma hand_all_silent why frames now r : why <> Forwarded -> silent (hand_all buffered throws why frames now r).2.
Proof.
  intros Hw. revert r. induction frames as [|[[i raw] d] frames IH]; intros r; [constructor|]. cbn [hand_all].
  pose proof (hand_silent why i raw d now r Hw) as H. destruct (hand _ _ _ _ _ _ _ _) as [r1 out1]. specialize (IH r1).
  destruct (hand_all _ _ _ _ _ _) as [r2 out2]. by apply Forall_app.
Qed.

Lemma replay_next_silent i rows now r : silent (replay_next buffered throws i rows now r).2.
Proof.
  unfold replay_next. destruct rows as [|item rest]; [constructor|]. destruct (find_sock i r) as [s|]; [|constructor]. destruct (negb _); [constructor|].
  pose proof (hand_silent Replayed i (ri_raw item) (replay_delivery_id item) now r ltac:(done)) as H. destruct (hand _ _ _ _ _ _ _ _) as [r1 out].
  cbn [snd] in *. apply Forall_app. split; [done|]. repeat case_match; repeat constructor.
Qed.

Lemma registerRole_silent s from env now r : silent (registerRole parse buffered throws s from env now r).2.
Proof. unfold registerRole. destruct (queue _ _ _ _). apply replay_next_silent. Qed.

Lemma announce_silent s from env now r : silent (announce parse buffered throws s from env now r).2.
Proof.
  unfold announce. destruct (sk_role s); [constructor|]. pose proof (registerRole_silent s from env now r) as H1. destruct (registerRole _ _ _ _ _ _ _ _) as [r1 out]. cbn [snd] in H1.
  pose proof (hand_all_silent PresenceFrame) as H2. unfold publish. specialize (H2 (map (fun f => (f.1, f.2, JUndef))
    (publishNodePresence (sk_room s) (rl_presence (note_sock s from now r1)) [(sk_room s, map peer_of (room_socks (sk_room s) (note_sock s from now r1)))] true now))
    now (note_sock s from now r1) ltac:(done)). destruct (hand_all _ _ _ _ _ _). by apply Forall_app.
Qed.

Lemma keeps_find id r r' i t' :
  Forall2 (keeps id) (rl_sockets r) (rl_sockets r') -> find_sock i r' = Some t' -> exists t, find_sock i r = Some t /\ keeps id t t'.
Proof.
  unfold find_sock. induction 1 as [|x y l l' Hxy _ IH]; simpl; [done|]. rewrite (ks_id _ _ _ Hxy).
  destruct (Nat.eqb (sk_id x) i); [intros [= <-]; by exists x|exact IH].
Qed.

(** A socket keeps what its role depends on, so a target of a later state was one before. *)
Lemma is_target_keeps s t t' env : keeps (sk_id s) t t' -> is_target s t' env = true -> is_target s t env = true.
Proof.
  unfold is_target, matches_role, role_name. intros K. destruct (Nat.eqb_spec (sk_id t') (sk_id s)) as [|Hne]; cbn [negb andb]; [done|].
  rewrite (ks_role _ _ _ K) by (right; by rewrite <- (ks_id _ _ _ K)). rewrite (ks_recipient _ _ _ K), <- (ks_id _ _ _ K).
  destruct (sk_open t') eqn:E; [|done]. rewrite (ks_open _ _ _ K E). by destruct (Nat.eqb_spec (sk_id t') (sk_id s)).
Qed.

Lemma forward_loop_rooms s targets env raw now r : rl_rooms (forward_loop buffered throws s targets env raw now r).1 = rl_rooms r.
Proof.
  revert r. induction targets as [|i targets IH]; intros r; [done|]. cbn [forward_loop].
  destruct (find_sock i r) as [t|]; [destruct (is_target s t env)|].
  - pose proof (hand_rooms Forwarded i raw (get "deliveryId" env) now r) as H. destruct (hand _ _ _ _ _ _ _ _) as [r1 o1]. specialize (IH r1).
    destruct (forward_loop _ _ _ _ _ _ _ _). simpl in *. congruence.
  - specialize (IH r). by destruct (forward_loop _ _ _ _ _ _ _ _).
  - specialize (IH r). by destruct (forward_loop _ _ _ _ _ _ _ _).
Qed.

Lemma forward_loop_targets s targets env raw now r e :
  relay_wf r -> e ∈ (forward_loop buffered throws s targets env raw now r).2 ->
  exists i t res, i ∈ targets /\ find_sock i r = Some t /\ is_target s t env = true /\ e = Handed Forwarded i raw (get "deliveryId" env) res.
Proof.
  revert r. induction targets as [|i targets IH]; intros r Hw; [by intros ?%elem_of_nil|]. cbn [forward_loop].
  set (first := match find_sock i r with Some _ => _ | None => _ end).
  assert (step_ok (sk_id s) r first.1) as Hstep by (unfold first; destruct (find_sock i r); [destruct (is_target _ _ _); [apply hand_ok|reflexivity]|reflexivity]).
  destruct (Hstep Hw) as [Hs1 Hw1]. specialize (IH first.1 Hw1).
  assert (forall x, x ∈ first.2 -> exists t res, find_sock i r = Some t /\ is_target s t env = true /\ x = Handed Forwarded i raw (get "deliveryId" env) res) as Hfirst.
  { intros x. unfold first. destruct (find_sock i r) as [t|] eqn:Et; [|by intros ?%elem_of_nil]. destruct (is_target s t env) eqn:Eg; [|by intros ?%elem_of_nil].
    intros (t1 & res & Ht1 & ->)%hand_effects. rewrite Et in Ht1. injection Ht1 as <-. eauto. }
  destruct first as [r1 out1]. cbn [fst snd] in *. destruct (forward_loop _ _ _ _ _ _ _ r1) as [r2 out2]. cbn [snd] in *. intros [He|He]%elem_of_app.
  - destruct (Hfirst e He) as (t & res & H1 & H2 & ->). exists i, t, res. split; [by left|done].
  - destruct (IH He) as (j & t' & res & Hj & Hf & Ht & ->). destruct (keeps_find _ _ _ _ _ Hs1 Hf) as (t & Hft & K).
    exists j, t, res. split; [by right|]. split; [done|]. split; [by eapply is_target_keeps|done].
Qed.

Lemma forward_targets s env raw now r i raw' d res :
  relay_wf r -> Handed Forwarded i raw' d res ∈ (forward buffered throws s env raw now r).2 ->
  raw' = raw /\ exists t, find_sock i r = Some t /\ sk_room t = sk_room s /\ is_target s t env = true.
Proof.
  intros Hw. unfold forward. pose proof (forward_loop_targets s (map sk_id (room_socks (sk_room s) r)) env raw now r) as H.
  destruct (forward_loop _ _ _ _ _ _ _ _) as [r1 out]. cbn [snd] in *. intros [He|He]%elem_of_app.
  2: { destruct (_ && _) in He; [by apply list_elem_of_singleton in He|by apply elem_of_nil in He]. }
  destruct (H _ Hw He) as (j & t & res' & Hj & Hf & Ht & [= -> -> _ _]). split; [done|]. exists t. split; [done|]. split; [|done].
  apply list_elem_of_fmap in Hj as (t1 & -> & [Hroom Hin]%list_elem_of_filter). by rewrite <- (find_sock_unique _ _ _ Hw Hf Hin).
Qed.

(** A reliable frame goes on only once its identifier waits in the recipient's mailbox. *)
Definition mailbox_holds (db db' : rooms) (room : jstr) (env : jsv) (raw : jstr) : Prop :=
  forall to id, get "to" env = JStr (Delivery.role_text to) -> get "deliveryId" env = JStr id -> id <> "" ->
  exists row, row ∈ NodeRooms.rows_of room db' to /\ row_deliveryId row = Some id /\ (row_raw row = raw \/ row ∈ NodeRooms.rows_of room db to).

Lemma store_reliable_row s env raw now r out :
  (store_reliable buffered throws s env raw now r).2 = inr out ->
  silent out /\ mailbox_holds (rl_rooms r) (rl_rooms (store_reliable buffered throws s env raw now r).1) (sk_room s) env raw.
Proof.
  unfold store_reliable. destruct (role_of (str_of (get "to" env))) as [to|] eqn:Eto.
  2: { intros [= <-]. split; [constructor|]. intros to id H. rewrite H in Eto. by destruct to. }
  destruct (truthy (get "deliveryId" env)) eqn:Ed; cbn [negb].
  2: { intros [= <-]. split; [constructor|]. intros to' id _ H Hne. rewrite H in Ed. cbn in Ed. apply negb_false_iff, bool_decide_eq_true in Ed. done. }
  pose proof (enqueue_spec (sk_room s) (rl_rooms r) to raw (str_of (get "deliveryId" env)) (int_opt (get "expiresAt" env)) now) as (Ho & _ & _).
  destruct (enqueue _ _ _ _ _ _ _) as [stored db]. cbn [fst snd] in Ho. set (r1 := with_rooms db r).
  assert (queueOutcome stored (Some (str_of (get "deliveryId" env))) = Forward -> mailbox_holds (rl_rooms r) (rl_rooms r1) (sk_room s) env raw) as Hrow.
  { intros Hout to' id Hto Hid _. rewrite Hto in Eto. assert (to' = to) as -> by (destruct to', to; vm_compute in Eto; congruence). rewrite Hid in Ho. cbn [str_of] in Ho.
    change (rl_rooms r1) with db. destruct Ho as [ | | |row H1 H2| |a b _ _ _]; try (unfold queueOutcome in Hout; try destruct (isDurableSubmission _) in Hout; discriminate Hout).
    - exists row. split_and!; [done|done|right]. by apply list_elem_of_filter in H1 as [_ ?].
    - exists (new_row raw id (int_opt (get "expiresAt" env)) now). split_and!; [|done|by left]. rewrite !elem_of_app. right; right. by apply list_elem_of_singleton. }
  destruct (queueOutcome _ _) as [|token|reason]; [|by destruct (closeForPolicy _ _ _ _ _)|done].
  destruct (_ && sk_open s); [|intros [= <-]; split; [constructor|by apply Hrow]].
  pose proof (hand_rooms StoredReceipt (sk_id s) (json_text (storedSubmissionNotice (get "deliveryId" env))) JUndef now r1) as Hr.
  pose proof (hand_silent StoredReceipt (sk_id s) (json_text (storedSubmissionNotice (get "deliveryId" env))) JUndef now r1 ltac:(done)) as Hq.
  destruct (hand _ _ _ _ _ _ _ _) as [r2 o]. cbn [fst snd] in *. intros [= <-]. split; [done|]. rewrite Hr. by apply Hrow.
Qed.

Lemma store_reliable_stop s env raw now r out : (store_reliable buffered throws s env raw now r).2 = inl out -> silent out.
Proof.
  unfold store_reliable. destruct (role_of _); [|done]. destruct (negb _); [done|]. destruct (enqueue _ _ _ _ _ _ _) as [stored db].
  destruct (queueOutcome _ _) as [|token|reason].
  - destruct (_ && sk_open s); [|done]. by destruct (hand _ _ _ _ _ _ _ _).
  - pose proof (closeForPolicy_silent s token JUndef now (with_rooms db r)) as H. destruct (closeForPolicy _ _ _ _ _). by intros [= <-].
  - intros [= <-]. apply dropMessage_silent.
Qed.

Lemma silent_forward out i raw d res : silent out -> Handed Forwarded i raw d res ∈ out -> False.
Proof. intros H Hin. unfold silent in H. rewrite Forall_forall in H. by apply H in Hin. Qed.

(** What the router forwards. *)
Lemma route_forwards s s0 from env raw now r i raw' d res :
  relay_wf r -> find_sock (sk_id s) r = Some s0 -> sk_role s0 = sk_role s ->
  Handed Forwarded i raw' d res ∈ (route parse buffered throws s from env raw now r).2 ->
  raw' = raw /\ (sk_role s = None \/ sk_role s = Some from) /\
  (exists t, find_sock i r = Some t /\ sk_room t = sk_room s0 /\ is_target s t env = true) /\
  exists db, mailbox_holds db (rl_rooms (route parse buffered throws s from env raw now r).1) (sk_room s0) env raw.
Proof.
  intros Hw Hf Hr. unfold route. destruct (_ && _) eqn:Erole; [by intros ?%elem_of_nil|].
  assert (sk_role s = None \/ sk_role s = Some from) as Hrole.
  { destruct (sk_role s) as [x|]; [right|by left]. cbn in Erole. apply negb_false_iff, bool_decide_eq_true in Erole. done. }
  pose proof (announce_ok s s0 from env now r Hf Hr) as H1. pose proof (announce_silent s from env now r) as Q1.
  destruct (announce _ _ _ _ _ _ _ _) as [r1 out0]. cbv zeta. cbn [fst snd] in *.
  pose proof (refresh_ok (sk_id s) s from now r1) as H2. set (r2 := refresh_presence s from now r1) in *.
  assert (step_ok (sk_id s) r r2) as H12 by (by etransitivity). destruct (find_sock (sk_id s) r2) as [s'|] eqn:Ef; [|intros H; by destruct (silent_forward _ _ _ _ _ Q1 H)].
  destruct (H12 Hw) as [S2 W2]. destruct (keeps_find _ _ _ _ _ S2 Ef) as (s0' & Hs0 & K). rewrite Hf in Hs0. injection Hs0 as <-.
  pose proof (find_sock_in _ _ _ Ef) as [_ Hid]. pose proof (retain_ok (sk_id s) s' env raw now r2) as H3.
  destruct (retain _ _ _ _ _) as [r3 failed]. cbn [fst] in H3. destruct failed.
  { intros [H|H]%elem_of_app; [by destruct (silent_forward _ _ _ _ _ Q1 H)|by destruct (silent_forward _ _ _ _ _ (dropMessage_silent _ _ _) H)]. }
  pose proof (store_reliable_ok (sk_id s) s' env raw now r3) as H4. pose proof (store_reliable_stop s' env raw now r3) as Qs.
  pose proof (store_reliable_row s' env raw now r3) as Hrow. destruct (store_reliable _ _ _ _ _ _ _) as [r4 stored]. cbn [fst snd] in *.
  destruct stored as [out|out]. { intros [H|H]%elem_of_app; [by destruct (silent_forward _ _ _ _ _ Q1 H)|by destruct (silent_forward _ _ _ _ _ (Qs _ eq_refl) H)]. }
  destruct (Hrow out eq_refl) as [Qo Hm]. assert (step_ok (sk_id s) r r4) as H14 by (etransitivity; [exact H12|by etransitivity]).
  destruct (H14 Hw) as [S4 W4]. pose proof (forward_targets s' env raw now r4 i raw' d res W4) as Ht.
  assert (rl_rooms (forward buffered throws s' env raw now r4).1 = rl_rooms r4) as Hrooms.
  { unfold forward. pose proof (forward_loop_rooms s' (map sk_id (room_socks (sk_room s') r4)) env raw now r4) as E. by destruct (forward_loop _ _ _ _ _ _ _ _). }
  destruct (forward _ _ _ _ _ _ _) as [r5 out']. cbn [fst snd] in *. intros [H|[H|H]%elem_of_app]%elem_of_app;
    [by destruct (silent_forward _ _ _ _ _ Q1 H)|by destruct (silent_forward _ _ _ _ _ Qo H)|].
  destruct (Ht H) as (-> & t' & Hft & Hroom & Hg). destruct (keeps_find _ _ _ _ _ S4 Hft) as (t & Hft0 & Kt).
  assert (is_target s t env = true) as Hg0.
  { apply (is_target_keeps s t t' env Kt). unfold is_target in *. by rewrite <- Hid. }
  split; [done|]. split; [done|]. split.
  - exists t. split; [done|]. split; [|done]. by rewrite <- (ks_room _ _ _ Kt), Hroom, (ks_room _ _ _ K).
  - exists (rl_rooms r3). rewrite Hrooms. by rewrite <- (ks_room _ _ _ K).
Qed.
End Steps.

(** ** Runs of frames *)

(** One accepted frame after another, from any sockets. *)
Inductive frames_from (parse : jstr -> option jsv) (verify : option (jsv -> option jstr -> Z -> option jsv)) (buffered : delivery -> nat -> Z)
    (throws : delivery -> nat -> bool) (r : relay) : relay -> Prop :=
| frames_none : frames_from parse verify buffered throws r r
| frames_next r1 r2 id raw now out :
    frames_from parse verify buffered throws r r1 -> handleSocketMessage parse verify buffered throws id raw now r1 = Ok (r2, out) ->
    frames_from parse verify buffered throws r r2.

Lemma frame_result_ok parse buffered throws id raw now r r' out : frame_result parse buffered throws id raw now r r' out -> step_ok id r r'.
Proof.
  intros [H _|r1 s s1 from env pre H1 _ _ _ Hf1 K Hrole _ _ _ -> _]; [exact H|]. etransitivity; [exact H1|].
  pose proof (find_sock_in _ _ _ Hf1) as [_ <-]. by apply route_ok with s1.
Qed.

(** What no frame changes of a socket: its room, key and lease kind, and its role once it has one. *)
Record locked (s s' : sock) : Prop := {
  lk_id : sk_id s' = sk_id s; lk_room : sk_room s' = sk_room s; lk_recipient : sk_recipientKeyId s' = sk_recipientKeyId s;
  lk_commercial : sk_commercial s' = sk_commercial s; lk_role : forall x, sk_role s = Some x -> sk_role s' = Some x;
  lk_closed : sk_open s = false -> sk_open s' = false;
}.

Lemma keeps_locked id s s' : keeps id s s' -> locked s s'.
Proof.
  intros [I R K C L O P]. split; try done.
  - intros x H. rewrite O; [done|left]. by exists x.
  - intros H. destruct (sk_open s') eqn:E; [|done]. rewrite P in H; done.
Qed.

Lemma locked_trans a b c : locked a b -> locked b c -> locked a c.
Proof. intros [] []. split; try congruence; auto. Qed.

(** Whatever frames arrive on whatever sockets, the relay stays well formed (every
    mailbox, the cool-downs, the retained state, the delivery accounting and the
    acknowledgements within their bounds) and no socket is added, reopened, moved to
    another room or recipient key, or given another role than its first. *)
Theorem frames_keep_the_relay parse verify buffered throws r r' :
  relay_wf r -> frames_from parse verify buffered throws r r' -> relay_wf r' /\ Forall2 locked (rl_sockets r) (rl_sockets r').
Proof.
  intros Hw. induction 1 as [|r1 r2 id raw now out _ [IHw IHs] Hh].
  - split; [done|]. induction (rl_sockets r); constructor; [by split|done].
  - apply handle_result, frame_result_ok in Hh. destruct (Hh IHw) as [S2 W2]. split; [done|]. clear -IHs S2. revert IHs S2.
    generalize (rl_sockets r), (rl_sockets r1), (rl_sockets r2). intros l l1 l2 H. revert l2.
    induction H as [|x y l l1 Hxy _ IH]; intros l2 S2; inversion S2; subst; constructor; [|by apply IH].
    eapply locked_trans; [exact Hxy|by eapply keeps_locked].
Qed.

(** C2: A frame is forwarded only where it may go and only if it was admitted: verbatim,
    to another open socket of the sender's room whose role and recipient key the
    envelope addresses; the envelope is valid and unexpired for that room, comes from
    the sender's own role, on a managed socket under an unexpired lease of that role;
    and if it is reliable its identifier already waits in the recipient's mailbox. *)
Theorem frames_reach_their_recipients parse verify buffered throws id raw now r r' out id' raw' d res :
  relay_wf r -> handleSocketMessage parse verify buffered throws id raw now r = Ok (r', out) ->
  Handed Forwarded id' raw' d res ∈ out ->
  raw' = raw /\ id' <> id /\ exists s target env from,
    find_sock id r = Some s /\ find_sock id' r = Some target /\ sk_open s = true /\ sk_open target = true /\
    sk_room target = sk_room s /\ (get "to" env = JStr "all" \/ exists x, sk_role target = Some x /\ get "to" env = JStr (Delivery.role_text x)) /\
    matchesRecipient env (sk_recipientKeyId target) = true /\
    parse raw = Some env /\ admitted_frame s from env now /\ (sk_role s = None \/ sk_role s = Some from) /\
    exists db, mailbox_holds db (rl_rooms r') (sk_room s) env raw.
Proof.
  intros Hw Hh Hin. apply handle_result in Hh as [_ Q|r1 s s1 from env pre H1 _ Hf Ho Hf1 K Hrole Hp Ha Q -> ->]; [by destruct (silent_forward _ _ _ _ _ Q Hin)|].
  apply elem_of_app in Hin as [Hin|Hin]; [by destruct (silent_forward _ _ _ _ _ Q Hin)|]. destruct (H1 Hw) as [S1 W1].
  pose proof (find_sock_in _ _ _ Hf1) as [_ Hid]. rewrite <- Hid in Hf1.
  destruct (route_forwards parse buffered throws s1 s1 from env raw now r1 id' raw' d res W1 Hf1 eq_refl Hin) as (-> & Hr & (t' & Hft' & Hroom & Hg) & Hm).
  destruct (keeps_find _ _ _ _ _ S1 Hft') as (t & Hft & Kt). rewrite <- Hid in Kt. apply (is_target_keeps _ _ _ _ Kt) in Hg.
  pose proof (find_sock_in _ _ _ Hft) as [_ Hidt]. unfold is_target in Hg. apply andb_true_iff in Hg as [[[Hne Hop]%andb_true_iff Hto]%andb_true_iff Hrec].
  apply negb_true_iff, Nat.eqb_neq in Hne. split; [done|]. split; [congruence|]. exists s, t, env, from.
  rewrite Hrole in Hr. rewrite (ks_room _ _ _ K) in Hroom, Hm. split_and!; try done; [by rewrite <- (ks_room _ _ _ Kt)|].
  apply orb_true_iff in Hto as [Hto|Hto]; [left; by apply is_str_eq|right]. unfold matches_role, role_name in Hto.
  destruct (sk_role t) as [x|]; [|done]. exists x. split; [done|]. cbn in Hto. apply bool_decide_eq_true in Hto.
  pose proof (af_valid _ _ _ _ Ha) as Hv. apply envelopeProblem_shape in Hv as [Hs _]; [|done].
  destruct (sh_to _ _ _ _ Hs) as [E|[E|E]]; rewrite E in Hto |- *; cbn in Hto; by rewrite Hto.
Qed.

(** ** Exceptions *)

(** The members a frame's validation converts to strings. *)
Definition printable (env : jsv) : Prop :=
  forall k, k ∈ (["recipientKeyId"; "stateKey"; "stateGroup"] : list jstr) -> to_string (get k env) <> Throw.

Lemma test_total re v : to_string v <> Throw -> exists b, test re v = Ok b.
Proof. unfold test. destruct (to_string v); [eauto|done]. Qed.
Lemma test_or_empty_total re v : to_string v <> Throw -> exists b, test_or_empty re v = Ok b.
Proof. intros H. apply test_total. by destruct (is_nullish v). Qed.

Lemma guard_total {A} (b : res bool) (v : A) (k : res A) : (exists x, b = Ok x) -> (exists p, k = Ok p) -> exists p, guard_res b v k = Ok p.
Proof. intros [[] ->] Hk; [by exists v|exact Hk]. Qed.

Lemma envelopeProblem_total env room now ttl : printable env -> exists p, envelopeProblem env room now ttl = Ok p.
Proof.
  intros Hp. destruct (test_total hex64 _ (Hp "recipientKeyId" ltac:(by left))) as [b1 E1].
  destruct (test_or_empty_total hex64 _ (Hp "recipientKeyId" ltac:(by left))) as [b2 E2].
  destruct (test_or_empty_total hex64 _ (Hp "stateKey" ltac:(by right; left))) as [b3 E3].
  destruct (test_total hex64 _ (Hp "stateGroup" ltac:(by right; right; left))) as [b4 E4].
  assert (exists b, validRetainedState env now = Ok b) as [b5 E5].
  { unfold validRetainedState. rewrite E2, E3, E4. repeat case_match; eauto. all: destruct b2, b3; cbn; eauto; by destruct b4; eauto. }
  unfold envelopeProblem. rewrite E1, E5. cbn [res_bind].
  repeat match goal with |- exists p, (if ?b then Ok (Some Invalid) else _) = Ok p => destruct b; [by eauto|] end.
  apply guard_total; [destruct (is_nullish _); eauto|].
  repeat match goal with |- exists p, (if ?b then Ok (Some Invalid) else _) = Ok p => destruct b; [by eauto|] end. eauto.
Qed.

Lemma envelopeProblem_throws env room now ttl : envelopeProblem env room now ttl = Throw -> ~ printable env.
Proof. intros H Hp. destruct (envelopeProblem_total env room now ttl Hp) as [p E]. congruence. Qed.

(** C26: The handler answers every frame: parsed or not, valid or not, from a socket in any
    state, it returns a new state and effects; the one exception that escapes it is the
    conversion of a member of the envelope that cannot be printed. *)
Theorem frames_are_answered parse verify buffered throws id raw now r :
  match handleSocketMessage parse verify buffered throws id raw now r with
  | Ok _ => True
  | Throw => exists env, parse raw = Some env /\ ~ printable env
  end.
Proof.
  unfold handleSocketMessage. destruct (find_sock id r) as [s|]; [|done]. destruct (negb (sk_open s)); [done|].
  destruct (_ <? _); [done|]. destruct (consume _ _ _ _ _) as [acks acked]. destruct (if acked then _ else _) as [accepted window].
  cbv zeta. destruct (negb accepted); [done|]. destruct (parse raw) as [env|]; [|done]. destruct (renewManagedConnection _ _ _ _ _); [done|].
  destruct (noteIngressFrame _) as [flow receipt]. destruct (handleEnvelope _ _ _ _ _ _ _ _) as [|] eqn:E; [done|]. cbn [res_bind].
  exists env. split; [done|]. unfold handleEnvelope in E. destruct (_ && validIdentifier _ _) in E; [done|].
  destruct (envelopeProblem env _ now None) as [p|] eqn:Ep; [|by eapply envelopeProblem_throws]. exfalso. cbn [res_bind] in E.
  destruct p as [[]|]; try done. destruct (match sk_role _ with Some _ => _ | None => _ end) as [r1 [|]]; [done|].
  destruct (_ && _) in E; [done|]. destruct (_ && _) in E; [done|]. by destruct (role_of _) in E.
Qed.

Module Examples.
Definition room : jstr := "00112233445566778899".
Definition key : jstr := JS (repeat 97%N 64).
Definition envelope : jsv :=
  JObj [("v", JNum (NInt 1)); ("room", JStr room); ("from", JStr "phone"); ("to", JStr "machine"); ("senderId", JStr "phone-1");
        ("deliveryId", JStr "user-message-1"); ("expiresAt", JNum (NInt 9000)); ("nonce", JStr (JS (repeat 65%N 32)));
        ("box", JStr (JS (repeat 65%N 24)))].
Definition sample_sock (id : nat) (role : option role) (ticket : option jsv) : sock :=
  {| sk_id := id; sk_open := true; sk_room := room; sk_role := role; sk_identity := None; sk_commercial := bool_decide (is_Some ticket);
     sk_ticket := ticket; sk_timer := None; sk_relayControl := true; sk_ingress := {| in_flow := true; in_received := None |};
     sk_window := {| windowStartedAt := None; windowMessages := 0 |}; sk_recipientKeyId := None; sk_presenceEnabled := false;
     sk_presenceAt := None; sk_policyClose := false |}.
Definition sample_relay : relay :=
  {| rl_rooms := (pinAuth ∅ room "d" 1).2; rl_retained := []; rl_presence := [];
     rl_sockets := [sample_sock 1 None None; sample_sock 2 (Some Machine) (Some (JObj [("expiresAt", JNum (NInt 9000))])); sample_sock 3 (Some Phone) None];
     rl_coolDowns := newRegistry 16; rl_delivery := createSocketDelivery |}.
Definition text : jstr := "frame".
Definition run (env : jsv) : res (relay * list effect) :=
  handleSocketMessage (fun raw => if raw =?s text then Some env else None) None (fun _ _ => 0) (fun _ _ => false) 1 text 5000 sample_relay.

Lemma sample_relay_wf : relay_wf sample_relay.
Proof.
  split.
  - apply pinAuth_wf. intros ??. by rewrite lookup_empty.
  - apply newRegistry_wf. lia.
  - split; [done|vm_compute; discriminate|constructor|split; constructor].
  - intros s. split; [simpl; unfold MAX_OUTSTANDING; lia|constructor].
  - split; [constructor|]. intros e H. by apply elem_of_nil in H.
  - change (NoDup [1; 2; 3]%nat). apply (bool_decide_unpack _). vm_compute. exact I.
Qed.

(** The submission of a phone reaches the machine, the sender gets its receipt. *)
Example submission_is_forwarded :
  match run envelope with
  | Ok (_, out) => omap (fun e => match e with Handed why id _ _ (Sent _) => Some (why, id) | _ => None end) out = [(StoredReceipt, 1%nat); (Forwarded, 2%nat)]
  | Throw => False
  end.
Proof. vm_compute. reflexivity. Qed.

Lemma frames_reach_their_recipients_witness :
  exists r' out res, run envelope = Ok (r', out) /\ Handed Forwarded 2 text (JStr "user-message-1") res ∈ out /\
  exists db, mailbox_holds db (rl_rooms r') room envelope text.
Proof.
  destruct (run envelope) as [[r' out]|] eqn:E; [|vm_compute in E; discriminate E].
  assert (Handed Forwarded 2 text (JStr "user-message-1") (Sent 1) ∈ out) as Hin.
  { assert (out = match run envelope with Ok (_, o) => o | Throw => [] end) as -> by (by rewrite E).
    apply list_elem_of_lookup. exists 1%nat. vm_compute. reflexivity. }
  exists r', out, (Sent 1). split; [done|]. split; [exact Hin|].
  destruct (frames_reach_their_recipients _ _ _ _ 1 text 5000 sample_relay r' out 2 text (JStr "user-message-1") (Sent 1) sample_relay_wf E Hin)
    as (_ & _ & s & target & env & from & Hs & _ & _ & _ & _ & _ & _ & Hp & _ & _ & H).
  vm_compute in Hs. injection Hs as <-. vm_compute in Hp. injection Hp as <-. exact H.
Defined.

Lemma frames_keep_the_relay_witness :
  exists r' out, run envelope = Ok (r', out) /\ relay_wf r' /\ Forall2 locked (rl_sockets sample_relay) (rl_sockets r').
Proof.
  destruct (run envelope) as [[r' out]|] eqn:E; [|vm_compute in E; discriminate E]. exists r', out. split; [done|].
  exact (frames_keep_the_relay _ _ _ _ sample_relay r' sample_relay_wf (frames_next _ _ _ _ sample_relay sample_relay r' 1 text 5000 out (frames_none _ _ _ _ _) E)).
Defined.

(** The replay of two rows: the first frame of the socket hands over the first row, the
    second follows once that one was sent; a socket that closed meanwhile ends it. *)
Definition row (raw : jstr) : replay_item := {| ri_raw := raw; ri_deliveryId := Some raw; ri_parsed := None |}.
Example replay_waits_for_each_frame :
  let '(r1, out1) := replay_next (fun _ _ => 0) (fun _ _ => false) 1 [row "a"; row "b"] 5000 sample_relay in
  let '(r2, out2) := replay_next (fun _ _ => 0) (fun _ _ => false) 1 [row "b"] 5001 r1 in
  out1 = [Handed Replayed 1 "a" (JStr "a") (Sent 0); Replays 1 [row "b"]] /\
  out2 = [Handed Replayed 1 "b" (JStr "b") (Sent 1); Replays 1 []] /\
  (replay_next (fun _ _ => 0) (fun _ _ => false) 1 [row "b"] 5001 (set_sock 1 shut r1)).2 = [].
Proof. vm_compute. split_and!; reflexivity. Qed.

(** A frame of one anonymous client whose key is an object with its own ["toString"]
    throws a [TypeError] out of the message event. *)
Example unprintable_key_throws :
  run (JObj [("v", JNum (NInt 1)); ("room", JStr room); ("from", JStr "phone"); ("to", JStr "machine"); ("senderId", JStr "phone-1");
             ("recipientKeyId", JObj [("toString", JNull)])]) = Throw.
Proof. vm_compute. reflexivity. Qed.
End Examples.
