(* ===== verification/TaskJobs.v ===== *)
(** * Scheduled task jobs: the state machine ([src/taskDispatch/policy.js])

    A job carries an encrypted envelope from a phone or a delegated writer to
    one machine.  It is [queued] until a receiver that knows the acceptance token
    claims it; the receiver then finishes it, or the owner cancels it before
    that; a queued job whose expiry passed becomes [expired].  The relay compares
    digests only, so [sha256] is not needed here: the digest of the presented
    token is an argument. *)

From S2P Require Import Prelude Base64 Validation Storage.
From Stdlib Require Import Permutation.
#[local] Open Scope bool_scope.
#[local] Open Scope Z_scope.
#[local] Open Scope js_scope.

Definition JOB_TTL_MS : Z := 30 * 86400000.
Definition JOB_BYTES : Z := 22000000.
Definition ROOM_JOB_BYTES : Z := 48000000.
Definition ROOM_JOB_LIMIT : Z := 100.
Definition ROOM_RECEIPT_LIMIT : Z := 10000.

Inductive job_state := Queued | Accepted | Failed | Completed | Cancelled | ExpiredJob.
#[export] Instance job_state_eq_dec : EqDecision job_state.
Proof. solve_decision. Defined.

Definition state_text (s : job_state) : jstr :=
  match s with
  | Queued => "queued" | Accepted => "accepted" | Failed => "failed"
  | Completed => "completed" | Cancelled => "cancelled" | ExpiredJob => "expired"
  end.

Record job := {
  j_id : jstr;
  j_state : job_state;
  j_notBefore : Z;
  j_expiresAt : Z;
  j_createdAt : Z;
  j_updatedAt : Z;
  j_acceptanceHash : jsv;
  j_envelope : jsv;
  j_bytes : Z;
  j_fingerprint : jstr;
  j_claimId : option jstr;
  j_writerId : option jstr;
  j_writerSourceKeyId : jsv;
  j_resultCode : option jstr;
  j_resultEnvelope : option jsv;
}.

Definition retainsTaskPayload (row : job) : bool :=
  match j_state row with Queued | Accepted | Failed => true | _ => false end.

Definition validJobId (id : jsv) : bool :=
  match id with JStr s => re_job_id s | _ => false end.

(** ** Object helpers *)

(** [const { a, b, ...rest } = v] *)
Definition omit (names : list jstr) (v : jsv) : jsv :=
  match v with
  | JObj fs => JObj (filter (fun p => p.1 ∉ names) fs)
  | _ => JObj []
  end.

Fixpoint insert_entry (p : jstr * jsv) (l : list (jstr * jsv)) : list (jstr * jsv) :=
  match l with
  | [] => [p]
  | q :: rest => if units_le (units p.1) (units q.1) then p :: q :: rest else q :: insert_entry p rest
  end.

(** [Object.entries(v).sort(([a], [b]) => a.localeCompare(b))]: on the field names
    of an envelope [localeCompare] agrees with the order of code units. *)
Definition sort_entries (fs : list (jstr * jsv)) : list (jstr * jsv) := foldr insert_entry [] fs.

Definition ordered (v : jsv) : jsv := match v with JObj fs => JObj (sort_entries fs) | _ => JObj [] end.

(** ** Normalization of a submitted job *)

Record normalized := {
  n_notBefore : Z; n_expiresAt : Z; n_acceptanceHash : jsv; n_envelope : jsv;
  n_writerId : option jstr; n_writerSourceKeyId : jsv;
  n_canonical : jstr; n_bytes : Z;
}.

Definition JOB_FIELDS : list jstr :=
  ["notBefore"; "expiresAt"; "acceptanceHash"; "envelope"; "writerId"; "writerSourceKeyId"].

Definition canonical_value (notBefore expiresAt : Z) (acceptanceHash envelope writerId writerSource : jsv)
  : jsv :=
  JObj ([("notBefore", JNum (NInt notBefore)); ("expiresAt", JNum (NInt expiresAt));
         ("acceptanceHash", acceptanceHash); ("envelope", envelope)]
        ++ if truthy writerId then [("writerId", writerId); ("writerSourceKeyId", writerSource)] else []).

Definition is_undef (v : jsv) : bool := match v with JUndef => true | _ => false end.

Definition normalizeJob (room id : jstr) (body : jsv) (now : Z) : res (option normalized) :=
  let field k := get k body in
  if negb (validRoom (JStr room)) || negb (validJobId (JStr id))
     || negb (match body with JObj _ | JArr _ => true | _ => false end)
     || existsb (fun key => negb (bool_decide (key ∈ JOB_FIELDS))) (keys body)
  then Ok None else
  if negb (is_undef (field "writerId")) && negb (validJobId (field "writerId")) then Ok None else
  guard_res (if is_undef (field "writerId") then Ok false
             else let* m := test_or_empty hex64 (field "writerSourceKeyId") in Ok (negb m))
    None (
  if is_undef (field "writerId") && negb (is_undef (field "writerSourceKeyId")) then Ok None else
  if negb (is_safe_int (field "notBefore")) || negb (is_safe_int (field "expiresAt")) then Ok None else
  let notBefore := int_of (field "notBefore") in
  let expiresAt := int_of (field "expiresAt") in
  if (notBefore <? 0) || (expiresAt <=? now) || (expiresAt <=? notBefore)
     || (JOB_TTL_MS <? expiresAt - notBefore) || (now + JOB_TTL_MS <? expiresAt) then Ok None else
  guard_res (let* m := test_or_empty hex64 (field "acceptanceHash") in Ok (negb m)) None (
  let envelope := field "envelope" in
  if negb (truthy envelope) || negb (is_str (get "deliveryId" envelope) id)
     || negb (is_str (get "to" envelope) "machine") then Ok None else
  guard_res (let* m := test_or_empty hex64 (get "recipientKeyId" envelope) in Ok (negb m)) None (
  if negb (is_int (get "expiresAt" envelope) expiresAt) then Ok None else
  guard_res (let* v := validEnvelope envelope room now (Some JOB_TTL_MS) in Ok (negb v)) None (
  let orderedEnvelope := ordered envelope in
  let encoded := json_text (canonical_value notBefore expiresAt (field "acceptanceHash")
                   orderedEnvelope (field "writerId") (field "writerSourceKeyId")) in
  if JOB_BYTES <? byte_length encoded then Ok None else
  Ok (Some {| n_notBefore := notBefore; n_expiresAt := expiresAt;
              n_acceptanceHash := field "acceptanceHash"; n_envelope := orderedEnvelope;
              n_writerId := str_opt (field "writerId");
              n_writerSourceKeyId := field "writerSourceKeyId";
              n_canonical := encoded; n_bytes := byte_length encoded |}))))).

(** ** Views *)

Record public_job := {
  p_id : jstr; p_state : job_state; p_notBefore : Z; p_expiresAt : Z; p_createdAt : Z;
  p_updatedAt : Z; p_envelope : jsv; p_resultCode : option jstr; p_writerId : option jstr;
  p_resultEnvelope : option jsv;
}.

Definition publicJob (row : job) : public_job :=
  {| p_id := j_id row; p_state := j_state row; p_notBefore := j_notBefore row;
     p_expiresAt := j_expiresAt row; p_createdAt := j_createdAt row; p_updatedAt := j_updatedAt row;
     p_envelope := j_envelope row; p_resultCode := j_resultCode row; p_writerId := j_writerId row;
     p_resultEnvelope := j_resultEnvelope row |}.

Definition taskJobMetadata (row : public_job) : public_job :=
  {| p_id := p_id row; p_state := p_state row; p_notBefore := p_notBefore row;
     p_expiresAt := p_expiresAt row; p_createdAt := p_createdAt row; p_updatedAt := p_updatedAt row;
     p_envelope := omit ["box"; "nonce"] (p_envelope row); p_resultCode := p_resultCode row;
     p_writerId := p_writerId row; p_resultEnvelope := p_resultEnvelope row |}.

(** ** Transitions *)

(** [{ ...row, state, updatedAt, ... }] *)
Definition with_state (row : job) (s : job_state) (updatedAt : Z) (claimId : option jstr) : job :=
  {| j_id := j_id row; j_state := s; j_notBefore := j_notBefore row; j_expiresAt := j_expiresAt row;
     j_createdAt := j_createdAt row; j_updatedAt := updatedAt;
     j_acceptanceHash := j_acceptanceHash row; j_envelope := j_envelope row; j_bytes := j_bytes row;
     j_fingerprint := j_fingerprint row; j_claimId := claimId; j_writerId := j_writerId row;
     j_writerSourceKeyId := j_writerSourceKeyId row; j_resultCode := j_resultCode row;
     j_resultEnvelope := j_resultEnvelope row |}.

Definition retireJob (row : job) (s : job_state) (updatedAt : Z) : job :=
  {| j_id := j_id row; j_state := s; j_notBefore := j_notBefore row; j_expiresAt := j_expiresAt row;
     j_createdAt := j_createdAt row; j_updatedAt := updatedAt;
     j_acceptanceHash := j_acceptanceHash row; j_envelope := omit ["box"; "nonce"] (j_envelope row);
     j_bytes := 0; j_fingerprint := j_fingerprint row; j_claimId := j_claimId row;
     j_writerId := j_writerId row; j_writerSourceKeyId := j_writerSourceKeyId row;
     j_resultCode := j_resultCode row; j_resultEnvelope := j_resultEnvelope row |}.

Definition with_result (row : job) (code : option jstr) (envelope : option jsv) : job :=
  {| j_id := j_id row; j_state := j_state row; j_notBefore := j_notBefore row;
     j_expiresAt := j_expiresAt row; j_createdAt := j_createdAt row; j_updatedAt := j_updatedAt row;
     j_acceptanceHash := j_acceptanceHash row; j_envelope := j_envelope row; j_bytes := j_bytes row;
     j_fingerprint := j_fingerprint row; j_claimId := j_claimId row; j_writerId := j_writerId row;
     j_writerSourceKeyId := j_writerSourceKeyId row;
     j_resultCode := match code with Some c => Some c | None => j_resultCode row end;
     j_resultEnvelope := match envelope with Some e => Some e | None => j_resultEnvelope row end |}.

Definition expireJob (row : job) (now : Z) : job :=
  if bool_decide (j_state row = Queued) && (j_expiresAt row <=? now)
  then retireJob row ExpiredJob (j_expiresAt row) else row.

Inductive job_result :=
| JobError (status : Z) (error : jstr)
| JobRow (status : Z) (row : job).

(** [proofHash] is the digest of the presented token. *)
Definition validProof (row : job) (proof : jsv) (proofHash : jstr) : res bool :=
  if negb (strict_eq (get "recipientKeyId" proof) (get "recipientKeyId" (j_envelope row)))
  then Ok false
  else let* m := test_or_empty hex64 (get "token" proof) in
       if negb m then Ok false
       else Ok (constantTimeEqual (JStr proofHash) (j_acceptanceHash row)).

Definition claimJob (row : job) (proof : jsv) (now : Z) (proofHash : jstr) : res job_result :=
  let* proved := validProof row proof proofHash in
  if negb proved then Ok (JobError 403 "invalid acceptance proof") else
  let current := expireJob row now in
  if negb (validJobId (get "claimId" proof)) then Ok (JobError 400 "invalid receiver attempt") else
  let claimId := str_of (get "claimId" proof) in
  if bool_decide (j_state current = Accepted) then
    Ok (if bool_decide (j_claimId current = Some claimId) then JobRow 200 current
        else JobError 409 "another receiver accepted this job")
  else if negb (bool_decide (j_state current = Queued)) || (now <? j_notBefore current)
  then Ok (JobError 409 "job is not ready")
  else Ok (JobRow 200 (with_state current Accepted now (Some claimId))).

Definition cancelJob (row : job) (now : Z) : job_result :=
  let current := expireJob row now in
  if bool_decide (j_state current = Cancelled) then JobRow 200 current
  else if negb (bool_decide (j_state current = Queued \/ j_state current = Failed))
  then JobError 409 "job has already left the relay queue"
  else JobRow 200 (retireJob current Cancelled now).

Definition RESULT_CODES : list jstr :=
  ["provider_unavailable"; "policy_denied"; "delivery_failed"; "cancelled"; "confirmation_required"].

Definition final_state (v : jsv) : option job_state :=
  match v with
  | JStr s => if s =?s "completed" then Some Completed else if s =?s "failed" then Some Failed else None
  | _ => None
  end.

(** The sealed result a delegated writer's receiver may attach. *)
Definition validResultEnvelope (row : job) (result : jsv) (now : Z) : res bool :=
  match j_writerId row with
  | None => Ok false
  | Some _ =>
      if negb (truthy result) || negb (is_str (get "from" result) "machine")
         || negb (is_str (get "to" result) "machine")
         || negb (strict_eq (get "recipientKeyId" result) (j_writerSourceKeyId row))
      then Ok false
      else let* v := validEnvelope result (str_of (get "room" (j_envelope row))) now (Some JOB_TTL_MS) in
           Ok (v && (json_bytes result <=? 32000))
  end.

Definition finishJob (row : job) (proof : jsv) (now : Z) (proofHash : jstr) : res job_result :=
  let* proved := validProof row proof proofHash in
  if negb proved then Ok (JobError 403 "invalid acceptance proof") else
  match j_claimId row with
  | None => Ok (JobError 409 "job has not been accepted")
  | Some claimed =>
      if negb (validJobId (get "claimId" proof)) || negb (is_str (get "claimId" proof) claimed)
      then Ok (JobError 403 "invalid receiver attempt") else
      match final_state (get "state" proof) with
      | None => Ok (JobError 400 "invalid final state")
      | Some state =>
          let resultCode := get "resultCode" proof in
          if negb (is_undef resultCode) && negb (str_in resultCode RESULT_CODES)
          then Ok (JobError 400 "invalid result code") else
          if bool_decide (j_state row = state) then Ok (JobRow 200 row) else
          if negb (bool_decide (j_state row = Accepted))
          then Ok (JobError 409 "job has not been accepted") else
          let resultEnvelope := get "resultEnvelope" proof in
          guard_res (if is_undef resultEnvelope then Ok false
                     else let* v := validResultEnvelope row resultEnvelope now in Ok (negb v))
            (JobError 400 "invalid encrypted task result")
            (let result := match state with
                           | Completed => retireJob row Completed now
                           | _ => with_state row state now (j_claimId row)
                           end in
             Ok (JobRow 200 (with_result result (str_opt resultCode)
                   (if truthy resultEnvelope then Some resultEnvelope else None))))
      end
  end.

(** ** What each transition does *)

Lemma get_omit names k v : k ∈ names -> get k (omit names v) = JUndef.
Proof.
  intros Hk. destruct v as [| | | | | |fs]; try done. simpl.
  induction fs as [|[k' v] fs IH]; [done|]. rewrite filter_cons.
  case_decide as Hkk; [|done]. simpl in *. unfold jeqb. case_bool_decide; [by subst|done].
Qed.

Lemma get_omit_other names k v : k ∉ names -> get k (omit names v) = get k v.
Proof.
  intros Hk. destruct v as [| | | | | |fs]; try done. simpl.
  induction fs as [|[k' v] fs IH]; [done|]. rewrite filter_cons. simpl in *. unfold jeqb.
  repeat case_decide; simpl; unfold jeqb; repeat case_bool_decide; naive_solver.
Qed.

Lemma expireJob_cases row now :
  (expireJob row now = row /\ ~ (j_state row = Queued /\ j_expiresAt row <= now)) \/
  (j_state row = Queued /\ j_expiresAt row <= now /\
   expireJob row now = retireJob row ExpiredJob (j_expiresAt row)).
Proof.
  unfold expireJob. destruct (bool_decide (j_state row = Queued)) eqn:E1; reflect_bools; simpl.
  - destruct (Z.leb_spec (j_expiresAt row) now); [by right|left]. split; [done|]. intros []. lia.
  - left. split; [done|]. by intros [].
Qed.

Lemma expire_expire row now : expireJob (expireJob row now) now = expireJob row now.
Proof.
  destruct (expireJob_cases row now) as [[E _]|(_ & _ & E)]; rewrite E; [exact E|].
  unfold expireJob. done.
Qed.

Definition claim_attempt (proof : jsv) (c : jstr) : Prop :=
  get "claimId" proof = JStr c /\ re_job_id c = true.

Lemma validJobId_attempt proof :
  validJobId (get "claimId" proof) = true <-> claim_attempt proof (str_of (get "claimId" proof)).
Proof. unfold claim_attempt, validJobId. case_match; simpl; naive_solver. Qed.

(** A claim answers with a row exactly for the holder of the attempt, or inside the window. *)
Definition claim_admissible (row : job) (c : jstr) (now : Z) (r : job) : Prop :=
  (j_state row = Accepted /\ j_claimId row = Some c /\ r = row) \/
  (j_state row = Queued /\ j_notBefore row <= now < j_expiresAt row /\
   r = with_state row Accepted now (Some c)).

Lemma claimJob_row row proof now h st r :
  claimJob row proof now h = Ok (JobRow st r) <->
  st = 200 /\ validProof row proof h = Ok true /\
  exists c, claim_attempt proof c /\ claim_admissible row c now r.
Proof.
  unfold claimJob, claim_admissible. destruct (validProof row proof h) as [[]|]; cbn [res_bind negb];
    [|naive_solver..].
  destruct (validJobId (get "claimId" proof)) eqn:Ec; cbn [negb].
  2: { split; [done|]. intros (_ & _ & c & [Hg Hc] & _). rewrite Hg in Ec. simpl in Ec. congruence. }
  apply validJobId_attempt in Ec. set (c := str_of (get "claimId" proof)) in *.
  assert (forall c', claim_attempt proof c' -> c' = c) as Hu
    by (intros c' [E _]; destruct Ec as [E' _]; congruence).
  destruct (expireJob_cases row now) as [[-> Hn]|(Hq & Hx & ->)].
  - destruct (j_state row) eqn:Es; simpl.
    + destruct (Z.ltb_spec now (j_notBefore row)); simpl.
      { split; [done|]. intros (_ & _ & c' & _ & [(? & _)|(_ & ? & _)]); [done|lia]. }
      split; [intros [= <- <-]|].
      { split_and!; [done|done|]. exists c. split; [done|right]. split_and!; [done|lia| |done].
        destruct (Z.le_gt_cases (j_expiresAt row) now); [exfalso; by apply Hn|lia]. }
      intros (-> & _ & c' & Hc' & [(? & _)|(_ & _ & ->)]); [done|]. by rewrite (Hu _ Hc').
    + case_bool_decide as Hcl; split.
      * intros [= <- <-]. eauto 10.
      * intros (-> & _ & c' & Hc' & [(_ & _ & ->)|(? & _)]); done.
      * done.
      * intros (-> & _ & c' & Hc' & [(_ & Hcl' & _)|(? & _)]); [|done].
        rewrite (Hu _ Hc') in Hcl'. done.
    + split; [done|]. by intros (_ & _ & c' & _ & [(? & _)|(? & _)]).
    + split; [done|]. by intros (_ & _ & c' & _ & [(? & _)|(? & _)]).
    + split; [done|]. by intros (_ & _ & c' & _ & [(? & _)|(? & _)]).
    + split; [done|]. by intros (_ & _ & c' & _ & [(? & _)|(? & _)]).
  - simpl. split; [done|]. intros (_ & _ & c' & _ & [(? & _)|(_ & ? & _)]); [congruence|lia].
Qed.

Lemma cancelJob_row row now st r :
  cancelJob row now = JobRow st r <->
  st = 200 /\
  ((j_state row = Cancelled /\ r = row) \/
   (j_state row = Failed /\ r = retireJob row Cancelled now) \/
   (j_state row = Queued /\ now < j_expiresAt row /\ r = retireJob row Cancelled now)).
Proof.
  unfold cancelJob. destruct (expireJob_cases row now) as [[-> Hn]|(Hq & Hx & ->)].
  - destruct (j_state row) eqn:Es; simpl; try (split; [done|naive_solver]); try naive_solver.
    destruct (Z.le_gt_cases (j_expiresAt row) now); [exfalso; by apply Hn|].
    split; [intros [= <- <-]; eauto 10|naive_solver].
  - simpl. rewrite Hq. split; [done|]. intros (_ & [[? _]|[[? _]|(_ & ? & _)]]); try done. lia.
Qed.

Definition finish_target (proof : jsv) (s : job_state) : Prop :=
  final_state (get "state" proof) = Some s.

Lemma final_state_cases v s : final_state v = Some s -> s = Completed \/ s = Failed.
Proof. unfold final_state. repeat case_match; naive_solver. Qed.

Lemma finishJob_row row proof now h st r :
  finishJob row proof now h = Ok (JobRow st r) ->
  st = 200 /\ validProof row proof h = Ok true /\
  exists c s, j_claimId row = Some c /\ claim_attempt proof c /\ finish_target proof s /\
    ((j_state row = s /\ r = row) \/
     (j_state row = Accepted /\
      (get "resultEnvelope" proof = JUndef \/
       validResultEnvelope row (get "resultEnvelope" proof) now = Ok true) /\
      exists code env, r = with_result
        (if decide (s = Completed) then retireJob row Completed now else with_state row s now (Some c))
        code env)).
Proof.
  unfold finishJob. destruct (validProof row proof h) as [[]|]; cbn [res_bind negb]; [|done..].
  destruct (j_claimId row) as [c|] eqn:Ec; [|done].
  destruct (validJobId (get "claimId" proof)) eqn:Ev; cbn [negb orb]; [|done].
  destruct (is_str (get "claimId" proof) c) eqn:Es; cbn [negb]; [|done].
  apply is_str_eq in Es. apply validJobId_attempt in Ev. rewrite Es in Ev. simpl in Ev.
  destruct (final_state (get "state" proof)) as [s|] eqn:Ef; [|done].
  destruct (_ && _); [done|].
  destruct (bool_decide (j_state row = s)) eqn:E1.
  { intros [= <- <-]. split_and!; [done|done|]. exists c, s. reflect_bools. eauto 10. }
  destruct (bool_decide (j_state row = Accepted)) eqn:E2; cbn [negb]; [|done].
  reflect_bools. intros H. unfold guard_res in H.
  destruct (if is_undef _ then Ok false else _) as [[]|] eqn:Er; [done| |done].
  injection H as <- <-. split_and!; [done|done|]. exists c, s. split_and!; [done|done|done|].
  right. split; [done|]. split.
  { destruct (get "resultEnvelope" proof); simpl in *; try (by left); right;
      destruct (validResultEnvelope _ _ _) as [[]|]; naive_solver. }
  do 2 eexists.
  destruct (final_state_cases _ _ Ef) as [->| ->]; rewrite ?decide_True, ?decide_False by done; done.
Qed.

(** ** Lifetimes: one row under any sequence of requests *)

Inductive job_op :=
| OpClaim (proof : jsv) (proofHash : jstr)
| OpFinish (proof : jsv) (proofHash : jstr)
| OpCancel
| OpExpire.

(** The answer of a request, and the row the store keeps afterwards. *)
Definition job_answer (row : job) (now : Z) (op : job_op) : res job_result :=
  match op with
  | OpClaim proof h => claimJob row proof now h
  | OpFinish proof h => finishJob row proof now h
  | OpCancel => Ok (cancelJob row now)
  | OpExpire => Ok (JobRow 200 (expireJob row now))
  end.

Definition job_exec (row : job) (now : Z) (op : job_op) : job :=
  match job_answer row now op with Ok (JobRow _ r) => r | _ => row end.

Fixpoint job_run (row : job) (trace : list (Z * job_op)) : job :=
  match trace with
  | [] => row
  | (now, op) :: rest => job_run (job_exec row now op) rest
  end.

(** The attempt ids whose claim was answered with 200, in order. *)
Fixpoint granted (row : job) (trace : list (Z * job_op)) : list jstr :=
  match trace with
  | [] => []
  | (now, op) :: rest =>
      match op, job_answer row now op with
      | OpClaim proof _, Ok (JobRow _ _) => str_of (get "claimId" proof) :: nil
      | _, _ => []
      end ++ granted (job_exec row now op) rest
  end.

(** How often the stored row changed. *)
Fixpoint changes (row : job) (trace : list (Z * job_op)) : Z :=
  match trace with
  | [] => 0
  | (now, op) :: rest =>
      (if bool_decide (j_state row = j_state (job_exec row now op)) then 0 else 1)
      + changes (job_exec row now op) rest
  end.

Definition job_rank (s : job_state) : Z :=
  match s with Queued => 0 | Accepted => 1 | Failed => 2 | _ => 3 end.

Definition terminal (s : job_state) : Prop := s = Completed \/ s = Cancelled \/ s = ExpiredJob.
#[export] Instance terminal_dec s : Decision (terminal s).
Proof. unfold terminal. apply _. Defined.

(** Every request leaves the row alone or moves it forward. *)
Lemma job_exec_cases row now op :
  job_exec row now op = row \/
  (exists c, j_state row = Queued /\ job_exec row now op = with_state row Accepted now (Some c)) \/
  (exists code env c, j_state row = Accepted /\ j_claimId row = Some c /\
     job_exec row now op = with_result (with_state row Failed now (Some c)) code env) \/
  (exists code env, j_state row = Accepted /\
     job_exec row now op = with_result (retireJob row Completed now) code env) \/
  ((j_state row = Failed \/ j_state row = Queued) /\ job_exec row now op = retireJob row Cancelled now) \/
  (j_state row = Queued /\ job_exec row now op = retireJob row ExpiredJob (j_expiresAt row)).
Proof.
  unfold job_exec. destruct op as [proof h|proof h| |]; simpl.
  - destruct (claimJob row proof now h) as [[|st r]|] eqn:E; auto.
    apply claimJob_row in E as (_ & _ & c & _ & [(_ & _ & ->)|(? & _ & ->)]); eauto 10.
  - destruct (finishJob row proof now h) as [[|st r]|] eqn:E; auto.
    apply finishJob_row in E as (_ & _ & c & s & ? & _ & Hf & [[_ ->]|(? & _ & code & env & ->)]);
      auto.
    destruct (final_state_cases _ _ Hf) as [->| ->]; simpl; eauto 12.
  - destruct (cancelJob row now) as [|st r] eqn:E; auto.
    apply cancelJob_row in E as (_ & [[_ ->]|[[? ->]|(? & _ & ->)]]); eauto 10.
  - destruct (expireJob_cases row now) as [[-> _]|(? & _ & ->)]; auto 10.
Qed.

Ltac exec_cases row now op :=
  destruct (job_exec_cases row now op)
    as [->|[(?c & ?Hs & ->)|[(?code & ?env & ?c & ?Hs & ?Hc & ->)|
        [(?code & ?env & ?Hs & ->)|[([?Hs|?Hs] & ->)|(?Hs & ->)]]]]].

Lemma job_rank_step row now op :
  job_rank (j_state row) +
    (if bool_decide (j_state row = j_state (job_exec row now op)) then 0 else 1)
  <= job_rank (j_state (job_exec row now op)).
Proof. exec_cases row now op; try rewrite Hs; case_bool_decide; simpl; lia || congruence. Qed.

Lemma changes_rank row trace :
  changes row trace <= job_rank (j_state (job_run row trace)) - job_rank (j_state row).
Proof.
  revert row. induction trace as [|[now op] t IH]; intros row; simpl; [lia|].
  pose proof (job_rank_step row now op). specialize (IH (job_exec row now op)). lia.
Qed.

(** Once claimed, always claimed by the same attempt. *)
Lemma claimed_step row now op c :
  j_claimId row = Some c -> j_state row <> Queued ->
  j_claimId (job_exec row now op) = Some c /\ j_state (job_exec row now op) <> Queued.
Proof. intros Hcl Hq. exec_cases row now op; simpl; naive_solver. Qed.

Lemma granted_after row c trace :
  j_claimId row = Some c -> j_state row <> Queued -> Forall (eq c) (granted row trace).
Proof.
  revert row. induction trace as [|[now op] t IH]; intros row Hc Hq; simpl; [done|].
  apply Forall_app. split.
  - destruct op as [proof h| | |]; try done.
    simpl. destruct (claimJob row proof now h) as [[|st r]|] eqn:E; try done.
    apply claimJob_row in E as (_ & _ & c' & [Ha _] & [(_ & ? & _)|(? & _)]); [|done].
    rewrite Ha. simpl. constructor; [congruence|done].
  - destruct (claimed_step row now op c Hc Hq). by apply IH.
Qed.

(** A retired row carries no ciphertext; every other row keeps its envelope. *)
Definition payload_wf (original : jsv) (row : job) : Prop :=
  (terminal (j_state row) -> j_envelope row = omit ["box"; "nonce"] original /\ j_bytes row = 0) /\
  (~ terminal (j_state row) -> j_envelope row = original).

Lemma payload_wf_step original row now op :
  payload_wf original row -> payload_wf original (job_exec row now op).
Proof.
  unfold payload_wf, terminal. intros [Ht Hn].
  exec_cases row now op; [done|..]; rewrite Hs in Ht, Hn; simpl; (split; intros; [|naive_solver]);
    try (rewrite Hn by naive_solver); naive_solver.
Qed.

Lemma payload_wf_run original row trace :
  payload_wf original row -> payload_wf original (job_run row trace).
Proof.
  revert row. induction trace as [|[now op] t IH]; simpl; auto using payload_wf_step.
Qed.

Definition sample_row : job :=
  {| j_id := "job-0001"; j_state := Queued; j_notBefore := 10; j_expiresAt := 100; j_createdAt := 0;
     j_updatedAt := 0; j_acceptanceHash := JStr "h";
     j_envelope := JObj [("recipientKeyId", JStr "k"); ("nonce", JStr "n"); ("box", JStr "b")];
     j_bytes := 5; j_fingerprint := "f"; j_claimId := None; j_writerId := None;
     j_writerSourceKeyId := JUndef; j_resultCode := None; j_resultEnvelope := None |}.
Definition sample_token : jstr :=
  "0123456789abcdef0123456789abcdef0123456789abcdef0123456789abcdef".
Definition sample_claim (attempt : jstr) : jsv :=
  JObj [("recipientKeyId", JStr "k"); ("token", JStr sample_token); ("claimId", JStr attempt)].
Definition sample_finish (attempt : jstr) (state : jstr) : jsv :=
  JObj [("recipientKeyId", JStr "k"); ("token", JStr sample_token); ("claimId", JStr attempt);
        ("state", JStr state)].

(** C13: A job is granted to at most one receiver attempt: along every sequence
    of claims, finishes, cancellations and expiries, all the claims that the
    relay answered with 200 carry the same claim id. *)
Theorem claim_is_exclusive (row : job) (trace : list (Z * job_op)) (a b : jstr) :
  a ∈ granted row trace -> b ∈ granted row trace -> a = b.
Proof.
  cut (exists c, Forall (eq c) (granted row trace)).
  { intros [c Hc] Ha Hb. rewrite Forall_forall in Hc. by rewrite <- (Hc a Ha), <- (Hc b Hb). }
  revert row. induction trace as [|[now op] t IH]; intros row; simpl; [by exists ""|].
  destruct (IH (job_exec row now op)) as [c' Hc']. destruct op as [proof h| | |]; try by exists c'.
  unfold job_exec in *. simpl in *.
  destruct (claimJob row proof now h) as [[|st r]|] eqn:E; try by exists c'.
  apply claimJob_row in E as (_ & _ & c & [Ha _] & Hadm). exists c. rewrite Ha. simpl.
  constructor; [done|]. apply granted_after.
  - destruct Hadm as [(_ & ? & ->)|(_ & _ & ->)]; done.
  - destruct Hadm as [(Hs & _ & ->)|(_ & _ & ->)]; [congruence|done].
Qed.

Lemma claim_is_exclusive_witness :
  let trace := [(20, OpClaim (sample_claim "attempt-1") "h"); (21, OpClaim (sample_claim "attempt-2") "h");
                (22, OpClaim (sample_claim "attempt-1") "h")] in
  granted sample_row trace = ["attempt-1"; "attempt-1"]%js /\ ("attempt-1" = "attempt-1")%js.
Proof.
  split; [vm_compute; reflexivity|].
  apply (claim_is_exclusive sample_row
    [(20, OpClaim (sample_claim "attempt-1") "h"); (22, OpClaim (sample_claim "attempt-1") "h")]);
    vm_compute; left.
Defined.

(** Acceptance is exactly guarded: a claim of a queued job is answered with
    a new row if and only if the proof names the row's recipient key and a
    64-digit token whose digest is the acceptance hash, the attempt id is well
    formed and the clock is inside [notBefore, expiresAt); the stored row then
    differs only in state, attempt and update time. *)
Theorem claim_of_queued (row : job) (proof : jsv) (now : Z) (proofHash token : jstr) (st : Z) (r : job) :
  j_state row = Queued -> get "token" proof = JStr token ->
  claimJob row proof now proofHash = Ok (JobRow st r) <->
  st = 200 /\ strict_eq (get "recipientKeyId" proof) (get "recipientKeyId" (j_envelope row)) = true /\
  hex64 token = true /\ j_acceptanceHash row = JStr proofHash /\
  (exists c, get "claimId" proof = JStr c /\ re_job_id c = true /\
     r = with_state row Accepted now (Some c)) /\
  j_notBefore row <= now < j_expiresAt row.
Proof.
  intros Hq Ht. rewrite claimJob_row. unfold validProof, claim_admissible, claim_attempt. rewrite Ht, Hq.
  destruct (strict_eq _ _) eqn:Es; cbn [negb]; [|split; [naive_solver|naive_solver]].
  cbn [test_or_empty is_nullish test to_string res_bind].
  destruct (hex64 token) eqn:Eh; cbn [negb].
  2: { split; [by intros (_ & [=] & _)|by intros (_ & _ & [=] & _)]. }
  assert (Ok (constantTimeEqual (JStr proofHash) (j_acceptanceHash row)) = Ok true <->
          j_acceptanceHash row = JStr proofHash) as ->.
  { destruct (j_acceptanceHash row) eqn:Ea; try (split; [done|by intros [=]]).
    split; [intros [= H]; apply constantTimeEqual_iff in H; by subst|].
    intros [= ->]. f_equal. by apply constantTimeEqual_iff. }
  split.
  - intros (-> & Ha & c & [Hc Hv] & [(? & _)|(_ & Hw & ->)]); [done|]. split_and!; try done; try lia; eauto.
  - intros (-> & _ & _ & Ha & (c & Hc & Hv & ->) & Hw). split_and!; [done|done|]. exists c. auto.
Qed.

Lemma claim_of_queued_witness :
  claimJob sample_row (sample_claim "attempt-1") 20 "h"
  = Ok (JobRow 200 (with_state sample_row Accepted 20 (Some "attempt-1"%js))).
Proof.
  apply (claim_of_queued sample_row (sample_claim "attempt-1") 20 "h" sample_token 200);
    [reflexivity|vm_compute; reflexivity|].
  split; [reflexivity|]. split; [vm_compute; reflexivity|]. split; [vm_compute; reflexivity|].
  split; [reflexivity|]. split; [|vm_compute; split; congruence].
  exists "attempt-1"%js. split; [vm_compute; reflexivity|]. split; [vm_compute; reflexivity|reflexivity].
Defined.

(** A job's lifetime is finite and only moves forward: whatever sequence of
    requests it receives, its stored state changes at most three times
    (queued, accepted, failed, and then one of the terminal states), and a
    terminal row is never changed again. *)
Theorem job_lifetime_bounded (row : job) (trace : list (Z * job_op)) :
  changes row trace <= 3 - job_rank (j_state row) /\
  (terminal (j_state row) -> job_run row trace = row).
Proof.
  split.
  - pose proof (changes_rank row trace). destruct (j_state (job_run row trace)); simpl in *; lia.
  - revert row. induction trace as [|[now op] t IH]; intros row Ht; simpl; [done|].
    assert (job_exec row now op = row) as ->; [|by apply IH].
    destruct (job_exec_cases row now op) as [->|H]; [done|]. exfalso. destruct Ht as [?|[?|?]]; decompose [or and ex] H; congruence.
Qed.

(** Ciphertext is dropped when a job retires: along every sequence of
    requests from a queued job, the stored row is either non-terminal and holds
    the submitted envelope unchanged, or terminal and holds that envelope
    without its box and nonce, with zero accounted bytes. *)
Theorem retired_job_holds_no_ciphertext (row : job) (trace : list (Z * job_op)) :
  j_state row = Queued ->
  let final := job_run row trace in
  if decide (terminal (j_state final))
  then (forall k, k ∈ ["box"; "nonce"] -> get k (j_envelope final) = JUndef) /\ j_bytes final = 0
  else j_envelope final = j_envelope row.
Proof.
  intros Hq final.
  destruct (payload_wf_run (j_envelope row) row trace) as [Ht Hn].
  { unfold payload_wf, terminal. rewrite Hq. naive_solver. }
  case_decide as Hd; [|by apply Hn]. destruct (Ht Hd) as [He Hb]. split; [|done].
  intros k Hk. unfold final. rewrite He. by apply get_omit.
Qed.

Lemma retired_job_holds_no_ciphertext_witness :
  let final := job_run sample_row [(20, OpClaim (sample_claim "attempt-1") "h");
                 (30, OpFinish (sample_finish "attempt-1" "completed") "h")] in
  j_state final = Completed /\
  if decide (terminal (j_state final))
  then (forall k, k ∈ ["box"; "nonce"]%js -> get k (j_envelope final) = JUndef) /\ j_bytes final = 0
  else j_envelope final = j_envelope sample_row.
Proof.
  split; [vm_compute; reflexivity|].
  apply (retired_job_holds_no_ciphertext sample_row [(20, OpClaim (sample_claim "attempt-1") "h");
           (30, OpFinish (sample_finish "attempt-1" "completed") "h")]).
  reflexivity.
Defined.

Lemma validProof_ext row row' proof h :
  get "recipientKeyId" (j_envelope row') = get "recipientKeyId" (j_envelope row) ->
  j_acceptanceHash row' = j_acceptanceHash row ->
  validProof row' proof h = validProof row proof h.
Proof. intros E1 E2. unfold validProof. by rewrite E1, E2. Qed.

Lemma finish_repeat row proof now h st r now' :
  finishJob row proof now h = Ok (JobRow st r) -> finishJob r proof now' h = Ok (JobRow 200 r).
Proof.
  intros H. pose proof (finishJob_row _ _ _ _ _ _ H) as (_ & Hp & c & s & Hc & Hca & Hf & Hr).
  assert (j_state r = s /\ j_claimId r = Some c /\ validProof r proof h = Ok true) as (Hs & Hc' & Hp').
  { destruct Hr as [[? ->]|(_ & _ & code & env & ->)]; [done|].
    case_decide as Hd; simpl; (split_and!; [congruence|congruence|]);
      rewrite <- Hp; apply validProof_ext; simpl; rewrite ?get_omit_other by set_solver; done. }
  revert H. unfold finishJob. rewrite Hp, Hp', Hc, Hc'. cbn [res_bind negb].
  destruct (_ || _); [done|]. unfold finish_target in Hf. rewrite Hf.
  destruct (_ && _); [done|]. intros _. by rewrite (bool_decide_eq_true_2 _ Hs).
Qed.

(** Retries are harmless: when a claim, a finish or a cancellation was
    answered with a row, the same request repeated on that row, at any later
    clock value, is answered with 200 and the identical row. *)
Theorem retry_is_idempotent (row : job) (now now' : Z) (op : job_op) (st : Z) (r : job) :
  job_answer row now op = Ok (JobRow st r) -> op <> OpExpire ->
  job_answer r now' op = Ok (JobRow 200 r) /\ job_exec r now' op = r.
Proof.
  intros H Hop. cut (job_answer r now' op = Ok (JobRow 200 r)).
  { intros E. split; [done|]. unfold job_exec. by rewrite E. }
  destruct op as [proof h|proof h| |]; simpl in *; [| | |done].
  - apply claimJob_row in H as (_ & Hp & c & Ha & Hadm). apply claimJob_row. split; [done|].
    destruct Hadm as [(Hs & Hc & ->)|(_ & _ & ->)].
    + split; [done|]. exists c. split; [done|]. by left.
    + split; [by rewrite <- Hp; apply validProof_ext|]. exists c. split; [done|]. by left.
  - by eapply finish_repeat.
  - injection H as H. apply cancelJob_row in H as (_ & Hr). f_equal. apply cancelJob_row.
    split; [done|]. left. split; [|done]. by destruct Hr as [[? ->]|[[? ->]|(_ & _ & ->)]].
Qed.

Lemma retry_is_idempotent_witness :
  let r := with_state sample_row Accepted 20 (Some "attempt-1"%js) in
  let op := OpClaim (sample_claim "attempt-1") "h" in
  job_answer r 500 op = Ok (JobRow 200 r) /\ job_exec r 500 op = r.
Proof.
  apply (retry_is_idempotent sample_row 20 500 (OpClaim (sample_claim "attempt-1") "h") 200);
    [vm_compute; reflexivity|discriminate].
Defined.

(** ** The canonical form of a submission *)

Lemma assoc_perm k fs fs' : NoDup fs.*1 -> Permutation fs fs' -> assoc k fs = assoc k fs'.
Proof.
  intros Hnd Hp. induction Hp as [|[a v] l l' Hp IH|[a v] [b w] l|l l' l'' H1 IH1 H2 IH2]; simpl in *.
  - done.
  - apply NoDup_cons in Hnd as [_ Hnd]. by rewrite IH.
  - apply NoDup_cons in Hnd as [Hn _]. unfold jeqb. repeat case_bool_decide; try done. subst. set_solver.
  - rewrite IH1, IH2; [done| |done]. by rewrite <- (Permutation_map fst H1).
Qed.

Lemma get_perm k fs fs' : NoDup fs.*1 -> Permutation fs fs' -> get k (JObj fs) = get k (JObj fs').
Proof. intros Hnd Hp. simpl. by rewrite (assoc_perm k fs fs'). Qed.

Lemma existsb_perm {A} (f : A -> bool) l l' : Permutation l l' -> existsb f l = existsb f l'.
Proof. induction 1; simpl; try congruence. by destruct (f x), (f y). Qed.

Lemma envelopeProblem_perm fs fs' room now ttl :
  NoDup fs.*1 -> Permutation fs fs' ->
  envelopeProblem (JObj fs) room now ttl = envelopeProblem (JObj fs') room now ttl.
Proof.
  intros Hnd Hp. assert (forall k, get k (JObj fs) = get k (JObj fs')) as Hg by eauto using get_perm.
  unfold envelopeProblem, validRetainedState, ttlLimit, extendedLifetime. cbn [keys].
  rewrite !Hg, (existsb_perm _ _ _ (Permutation_map fst Hp)). done.
Qed.

Lemma insert_entry_comm p q l :
  p.1 <> q.1 -> insert_entry p (insert_entry q l) = insert_entry q (insert_entry p l).
Proof.
  intros Hpq.
  assert (units p.1 <> units q.1) as Hu by (destruct p as [[] ?], q as [[] ?]; simpl in *; congruence).
  induction l as [|x l IH]; simpl.
  - destruct (units_le (units p.1) (units q.1)) eqn:E1, (units_le (units q.1) (units p.1)) eqn:E2;
      try done; exfalso; [by eapply Hu, units_le_antisym|].
    destruct (units_le_total (units p.1) (units q.1)); congruence.
  - destruct (units_le (units q.1) (units x.1)) eqn:Eq, (units_le (units p.1) (units x.1)) eqn:Ep; simpl;
      rewrite ?Eq, ?Ep.
    + destruct (units_le (units p.1) (units q.1)) eqn:E1, (units_le (units q.1) (units p.1)) eqn:E2;
        rewrite ?Eq, ?Ep; try done; exfalso; [by eapply Hu, units_le_antisym|].
      destruct (units_le_total (units p.1) (units q.1)); congruence.
    + destruct (units_le (units p.1) (units q.1)) eqn:E1; [|by rewrite ?Ep].
      rewrite (units_le_trans _ _ _ E1 Eq) in Ep. done.
    + destruct (units_le (units q.1) (units p.1)) eqn:E2; [|by rewrite ?Eq].
      rewrite (units_le_trans _ _ _ E2 Ep) in Eq. done.
    + by rewrite IH.
Qed.

Lemma sort_entries_perm fs fs' :
  NoDup fs.*1 -> Permutation fs fs' -> sort_entries fs = sort_entries fs'.
Proof.
  intros Hnd Hp. unfold sort_entries.
  induction Hp as [|a l l' Hp IH|a b l|l l' l'' H1 IH1 H2 IH2]; simpl in *.
  - done.
  - apply NoDup_cons in Hnd as [_ Hnd]. by rewrite IH.
  - apply NoDup_cons in Hnd as [Hn _]. apply insert_entry_comm. intros E. rewrite E in Hn. set_solver.
  - rewrite IH1, IH2; [done| |done]. by rewrite <- (Permutation_map fst H1).
Qed.

Definition with_envelope (notBefore expiresAt acceptanceHash : jsv) (fs : list (jstr * jsv)) : jsv :=
  JObj [("notBefore", notBefore); ("expiresAt", expiresAt); ("acceptanceHash", acceptanceHash);
        ("envelope", JObj fs)].

(** The retry identity is canonical: two submissions of a job whose
    envelopes hold the same members in a different order are normalized to the
    same record, the same canonical text (and so the same fingerprint) and the
    same byte count, or are both refused. *)
Theorem normalization_ignores_member_order (room id : jstr) (nb ex ah : jsv)
    (fs fs' : list (jstr * jsv)) (now : Z) :
  NoDup fs.*1 -> Permutation fs fs' ->
  normalizeJob room id (with_envelope nb ex ah fs) now
  = normalizeJob room id (with_envelope nb ex ah fs') now.
Proof.
  intros Hnd Hp. assert (forall k, get k (JObj fs) = get k (JObj fs')) as Hg by eauto using get_perm.
  unfold normalizeJob, validEnvelope, with_envelope.
  change (get "envelope" (JObj [("notBefore", nb); ("expiresAt", ex); ("acceptanceHash", ah);
    ("envelope", JObj fs)])) with (JObj fs).
  change (get "envelope" (JObj [("notBefore", nb); ("expiresAt", ex); ("acceptanceHash", ah);
    ("envelope", JObj fs')])) with (JObj fs').
  rewrite (envelopeProblem_perm fs fs') by done. rewrite !Hg. cbn [ordered].
  rewrite (sort_entries_perm fs fs') by done. reflexivity.
Qed.

Definition sample_fields : list (jstr * jsv) :=
  [("v", JNum (NInt 1)); ("room", JStr "00112233445566778899"); ("from", JStr "phone");
   ("to", JStr "machine"); ("senderId", JStr "phone-1"); ("deliveryId", JStr "job-0001");
   ("expiresAt", JNum (NInt 100)); ("nonce", JStr "AAAAAAAAAAAAAAAAAAAAAAAAAAAAAAAA");
   ("box", JStr "AAAAAAAAAAAAAAAAAAAAAAAA"); ("recipientKeyId", JStr sample_token)].

Lemma normalization_ignores_member_order_witness :
  let submit fs := normalizeJob "00112233445566778899" "job-0001"
    (with_envelope (JNum (NInt 10)) (JNum (NInt 100)) (JStr sample_token) fs) 5 in
  (exists n, submit sample_fields = Ok (Some n)) /\ submit sample_fields = submit (rev sample_fields).
Proof.
  split; [eexists; vm_compute; reflexivity|].
  apply (normalization_ignores_member_order "00112233445566778899" "job-0001" (JNum (NInt 10))
    (JNum (NInt 100)) (JStr sample_token) sample_fields (rev sample_fields) 5).
  - apply (bool_decide_unpack _). vm_compute. exact I.
  - apply Permutation_rev.
Defined.

(** ** What a normalized submission satisfies *)

Record normalized_wf (now : Z) (n : normalized) : Prop := {
  nw_window : 0 <= n_notBefore n < n_expiresAt n;
  nw_future : now < n_expiresAt n <= now + JOB_TTL_MS;
  nw_bytes : 0 <= n_bytes n <= JOB_BYTES;
}.

Lemma assoc_insert_entry k p l :
  assoc k (insert_entry p l) = if k =?s p.1 then Some p.2 else assoc k l.
Proof.
  destruct p as [a v]. induction l as [|[b w] l IH]; simpl; [done|].
  destruct (units_le (units a) (units b)) eqn:E; simpl; [done|]. rewrite IH. simpl.
  unfold jeqb. case_bool_decide as E1; case_bool_decide as E2; try done. exfalso.
  assert (a = b) as Eab by congruence. rewrite Eab in E.
  destruct (units_le_total (units b) (units b)); congruence.
Qed.

(** Sorting is stable, so it changes no member. *)
Lemma get_sort_entries k fs : get k (JObj (sort_entries fs)) = get k (JObj fs).
Proof.
  simpl. f_equal. unfold sort_entries. induction fs as [|[a v] fs IH]; [done|].
  change (foldr insert_entry [] ((a, v) :: fs)) with (insert_entry (a, v) (foldr insert_entry [] fs)).
  rewrite assoc_insert_entry. cbn [assoc fst snd]. by rewrite IH.
Qed.

Lemma pass_none {A} (b : bool) (k : res (option A)) n :
  (if b then Ok None else k) = Ok (Some n) -> b = false /\ k = Ok (Some n).
Proof. destruct b; naive_solver. Qed.

Lemma pass_guard_none {A} (b : res bool) (k : res (option A)) n :
  guard_res b None k = Ok (Some n) -> b = Ok false /\ k = Ok (Some n).
Proof. destruct b as [[]|]; naive_solver. Qed.

Lemma normalizeJob_wf room id body now n :
  normalizeJob room id body now = Ok (Some n) -> normalized_wf now n.
Proof.
  unfold normalizeJob. intros H.
  apply pass_none in H as [_ H]. apply pass_none in H as [_ H].
  apply pass_guard_none in H as [_ H]. apply pass_none in H as [_ H].
  apply pass_none in H as [_ H]. apply pass_none in H as [Ht H].
  apply pass_guard_none in H as [_ H]. apply pass_none in H as [_ H].
  apply pass_guard_none in H as [Hr H]. apply pass_none in H as [_ H].
  apply pass_guard_none in H as [_ H]. apply pass_none in H as [Hb H].
  injection H as <-. split_andb. reflect_bools. constructor; cbn [n_notBefore n_expiresAt n_bytes].
  - lia.
  - lia.
  - split; [apply byte_length_nonneg|done].
Qed.

(** The members a normalized job takes from the request. *)
Lemma normalizeJob_fields room id body now n :
  normalizeJob room id body now = Ok (Some n) ->
  n_writerId n = str_opt (get "writerId" body) /\
  get "expiresAt" body = JNum (NInt (n_expiresAt n)) /\
  n_envelope n = ordered (get "envelope" body) /\
  validRoom (JStr room) = true /\ re_job_id id = true.
Proof.
  unfold normalizeJob. intros H.
  apply pass_none in H as [H0 H]. apply pass_none in H as [_ H].
  apply pass_guard_none in H as [_ H]. apply pass_none in H as [_ H].
  apply pass_none in H as [Hs H]. apply pass_none in H as [_ H].
  apply pass_guard_none in H as [_ H]. apply pass_none in H as [_ H].
  apply pass_guard_none in H as [_ H]. apply pass_none in H as [_ H].
  apply pass_guard_none in H as [_ H]. apply pass_none in H as [_ H].
  injection H as <-. cbn [n_writerId n_expiresAt n_envelope]. split_andb. split_and!; try done.
  match goal with H : is_safe_int (get "expiresAt" body) = true |- _ =>
    apply is_safe_int_iff in H as (t & -> & _) end. done.
Qed.
