(* ===== verification/TaskStore.v ===== *)
(** * Scheduled task jobs in SQLite ([src/taskDispatch/node.js])

    The table [task_jobs] with its primary key [(room, id)]; the indexed columns
    repeat members of the record, so a row is the record.  Every public method
    runs inside [transact]: a thrown exception leaves the table unchanged.
    [TaskJobs] gives the transitions of one row; this file gives the queries,
    the admission limits and their invariant, and shows that the store never
    changes a row other than by those transitions, expiry or retention. *)

From S2P Require Import Prelude Base64 Validation TaskJobs.
#[local] Open Scope bool_scope.
#[local] Open Scope Z_scope.
#[local] Open Scope js_scope.

Abbreviation task_key := (jstr * jstr)%type.
Abbreviation task_table := (list (task_key * job)).
Definition RETENTION : Z := 7 * 86400000.

Inductive task_result :=
| TaskError (status : Z) (error : jstr)
| TaskJob (status : Z) (view : public_job).

(** A value SQLite binds as a parameter; the others throw. *)
Definition bindable (v : jsv) : bool :=
  match v with JStr _ | JNum _ | JNull => true | _ => false end.

Definition in_room (room : jstr) (e : task_key * job) : bool := e.1.1 =?s room.
Definition active_row (room : jstr) (e : task_key * job) : bool := in_room room e && retainsTaskPayload e.2.
Definition row_bytes_in (room : jstr) (e : task_key * job) : Z := if active_row room e then j_bytes e.2 else 0.

Section NodeTaskDispatchStore.
(** [createHash("sha256").update(s).digest("hex")] *)
Context (sha256 : jstr -> jstr).

Definition digest (value : jsv) : res jstr := let* s := to_string value in Ok (sha256 s).

Definition transact {A} (db : task_table) (work : res (A * task_table)) : res A * task_table :=
  match work with Ok (result, db') => (Ok result, db') | Throw => (Throw, db) end.

Definition get_job (db : task_table) (room id : jstr) : option job := map_get (room, id) db.

Definition save (db : task_table) (room : jstr) (row : job) : res task_table :=
  if bindable (get "recipientKeyId" (j_envelope row)) then Ok (map_set (room, j_id row) row db) else Throw.

Fixpoint save_all (db : task_table) (room : jstr) (rows : list job) : res task_table :=
  match rows with
  | [] => Ok db
  | row :: rest => let* db' := save db room row in save_all db' room rest
  end.

Definition expirable (room : jstr) (now : Z) (e : task_key * job) : bool :=
  in_room room e && bool_decide (j_state e.2 = Queued) && (j_expiresAt e.2 <=? now).

Definition expireQueued (db : task_table) (room : jstr) (now : Z) : res task_table :=
  save_all db room ((fun e => expireJob e.2 now) <$> filter (expirable room now) db).

(** ** Reading *)

(** [rows] also saves each row it found expired. *)
Definition rows (db : task_table) (room : jstr) (now : Z) : res (list job * task_table) :=
  let* db1 := expireQueued db room now in
  Ok ((fun e => expireJob e.2 now) <$> filter (in_room room) db, db1).

Definition list_jobs (db : task_table) (room : jstr) (now : Z) : res (list public_job) * task_table :=
  transact db (let* (found, db1) := rows db room now in Ok (publicJob <$> found, db1)).

Definition getPublic (db : task_table) (room id : jstr) (now : Z) (metadataOnly : bool)
  : res (option public_job) * task_table :=
  transact db
    (let* db1 := expireQueued db room now in
     let view := if metadataOnly then fun row => taskJobMetadata (publicJob row) else publicJob in
     Ok (view <$> get_job db1 room id, db1)).

Definition listActive (db : task_table) (room : jstr) (now : Z) : res (list public_job) * task_table :=
  transact db
    (let* db1 := expireQueued db room now in
     Ok ((fun e => taskJobMetadata (publicJob e.2)) <$> filter (active_row room) db1, db1)).

(** [state='queued' AND recipient=? AND not_before<=? AND expires_at>? AND id NOT IN (...)] *)
Definition due_row (room recipientKeyId : jstr) (now : Z) (excluded : list jstr) (e : task_key * job) : bool :=
  in_room room e && bool_decide (j_state e.2 = Queued)
  && is_str (get "recipientKeyId" (j_envelope e.2)) recipientKeyId
  && (j_notBefore e.2 <=? now) && (now <? j_expiresAt e.2)
  && negb (bool_decide (e.1.2 ∈ excluded)).

(** [ORDER BY not_before, updated_at] *)
Definition due_before (a b : task_key * job) : bool :=
  (j_notBefore a.2 <? j_notBefore b.2)
  || (j_notBefore a.2 =? j_notBefore b.2) && (j_updatedAt a.2 <=? j_updatedAt b.2).

(** [LIMIT 1] of the ordered rows. *)
Fixpoint first_due (l : list (task_key * job)) : option (task_key * job) :=
  match l with
  | [] => None
  | e :: rest =>
      match first_due rest with
      | None => Some e
      | Some f => Some (if due_before e f then e else f)
      end
  end.

Definition due (db : task_table) (room recipientKeyId : jstr) (now : Z) (excluded : list jstr)
  : res (list public_job) * task_table :=
  transact db
    (let* db1 := expireQueued db room now in
     Ok (match first_due (filter (due_row room recipientKeyId now excluded) db1) with
         | Some e => [publicJob e.2] | None => [] end, db1)).

(** ** Submission *)

Definition new_job (id : jstr) (n : normalized) (fingerprint : jstr) (now : Z) : job :=
  {| j_id := id; j_state := Queued; j_notBefore := n_notBefore n; j_expiresAt := n_expiresAt n;
     j_createdAt := now; j_updatedAt := now; j_acceptanceHash := n_acceptanceHash n;
     j_envelope := n_envelope n; j_bytes := n_bytes n; j_fingerprint := fingerprint;
     j_claimId := None; j_writerId := n_writerId n; j_writerSourceKeyId := n_writerSourceKeyId n;
     j_resultCode := None; j_resultEnvelope := None |}.

Definition putInTransaction (db : task_table) (room id : jstr) (body : jsv) (now : Z)
  : res (task_result * task_table) :=
  let existing := get_job db room id in
  let* parsed := normalizeJob room id body (match existing with Some e => j_createdAt e | None => now end) in
  match parsed with
  | None => Ok (TaskError 400 "invalid encrypted task job", db)
  | Some n =>
      let fingerprint := sha256 (n_canonical n) in
      match existing with
      | Some e =>
          if j_fingerprint e =?s fingerprint then Ok (TaskJob 200 (publicJob (expireJob e now)), db)
          else Ok (TaskError 409 "job identity already exists", db)
      | None =>
          let* db1 := expireQueued db room now in
          let count := count_by (in_room room) db1 in
          let active := count_by (active_row room) db1 in
          let bytes := sum_by (row_bytes_in room) db1 in
          if (ROOM_RECEIPT_LIMIT <=? count) || (ROOM_JOB_LIMIT <=? active)
             || (ROOM_JOB_BYTES <? bytes + n_bytes n)
          then Ok (TaskError 429 "task queue capacity reached", db1)
          else
            let row := new_job id n fingerprint now in
            let* db2 := save db1 room row in Ok (TaskJob 201 (publicJob row), db2)
      end
  end.

Definition put (db : task_table) (room id : jstr) (body : jsv) (now : Z) : res task_result * task_table :=
  transact db (putInTransaction db room id body now).

(** ** Transitions *)

Definition transitionInTransaction (db : task_table) (room id action : jstr) (body : jsv) (now : Z)
  : res (task_result * task_table) :=
  match get_job db room id with
  | None => Ok (TaskError 404 "unknown task job", db)
  | Some row =>
      let token := if is_nullish (get "token" body) then JStr "" else get "token" body in
      let* result :=
        (if action =?s "claim" then let* h := digest token in claimJob row body now h
         else if action =?s "finish" then let* h := digest token in finishJob row body now h
         else Ok (cancelJob row now)) in
      match result with
      | JobError status error => Ok (TaskError status error, db)
      | JobRow status row' => let* db1 := save db room row' in Ok (TaskJob status (publicJob row'), db1)
      end
  end.

Definition transition (db : task_table) (room id action : jstr) (body : jsv) (now : Z)
  : res task_result * task_table :=
  transact db (transitionInTransaction db room id action body now).

(** ** Retention *)

Definition purgeable (now : Z) (e : task_key * job) : bool :=
  bool_decide (j_state e.2 = Queued) && (j_expiresAt e.2 <=? now)
  || negb (bool_decide (j_state e.2 = Accepted)) && (j_expiresAt e.2 <? now - RETENTION)
     && (j_updatedAt e.2 <? now - RETENTION).

Definition purge_row (db : task_table) (now : Z) (e : task_key * job) : res task_table :=
  let row := expireJob e.2 now in
  let* db1 := (if bool_decide (j_state e.2 = Queued) && (j_expiresAt e.2 <=? now)
               then save db e.1.1 row else Ok db) in
  Ok (if negb (bool_decide (j_state row = Accepted))
         && (Z.max (j_expiresAt row) (j_updatedAt row) + RETENTION <? now)
      then map_delete e.1 db1 else db1).

Fixpoint purge_rows (db : task_table) (now : Z) (rows : list (task_key * job)) : res task_table :=
  match rows with
  | [] => Ok db
  | e :: rest => let* db1 := purge_row db now e in purge_rows db1 now rest
  end.

(** [purgeInTransaction] after the maintenance of the configurations ([TaskConfigurations]). *)
Definition purgeInTransaction (db : task_table) (now : Z) : res task_table :=
  purge_rows db now (filter (purgeable now) db).

Definition purge (db : task_table) (now : Z) : res unit * task_table :=
  transact db (let* db1 := purgeInTransaction db now in Ok (tt, db1)).
End NodeTaskDispatchStore.

(** ** What a transition may do to the weight of a row *)

Record job_le (row' row : job) : Prop := {
  jl_id : j_id row' = j_id row;
  jl_recipient : get "recipientKeyId" (j_envelope row') = get "recipientKeyId" (j_envelope row);
  jl_active : retainsTaskPayload row' = true -> retainsTaskPayload row = true;
  jl_bytes : 0 <= j_bytes row -> 0 <= j_bytes row' <= j_bytes row;
}.

Lemma job_le_refl row : job_le row row.
Proof. by constructor. Qed.

Lemma job_exec_le row now op : job_le (job_exec row now op) row.
Proof.
  destruct (job_exec_cases row now op) as
    [->|[(c & Hs & ->)|[(code & env & c & Hs & _ & ->)|[(code & env & Hs & ->)|[(Hs & ->)|(Hs & ->)]]]]];
    [apply job_le_refl|..]; constructor; simpl; rewrite ?get_omit_other by set_solver; try done; try lia;
    unfold retainsTaskPayload; simpl; intros; destruct Hs as [Hs|Hs] || idtac; by rewrite ?Hs.
Qed.

Lemma expireJob_exec row now : expireJob row now = job_exec row now OpExpire.
Proof. done. Qed.

(** ** Well-formed tables *)

Definition row_ok (e : task_key * job) : Prop :=
  j_id e.2 = e.1.2 /\ bindable (get "recipientKeyId" (j_envelope e.2)) = true /\ 0 <= j_bytes e.2.

Record table_wf (db : task_table) : Prop := {
  tw_keys : NoDup db.*1;
  tw_rows : Forall row_ok db;
  tw_count : forall room, count_by (in_room room) db <= ROOM_RECEIPT_LIMIT;
  tw_active : forall room, count_by (active_row room) db <= ROOM_JOB_LIMIT;
  tw_bytes : forall room, sum_by (row_bytes_in room) db <= ROOM_JOB_BYTES;
}.

Lemma empty_wf : table_wf [].
Proof. constructor; simpl; try done; constructor. Qed.

Lemma weights_le room k row' row :
  job_le row' row -> 0 <= j_bytes row ->
  (if in_room room (k, row') then 1 else 0) = (if in_room room (k, row) then 1 else 0) /\
  (if active_row room (k, row') then 1 else 0) <= (if active_row room (k, row) then 1 else 0) /\
  row_bytes_in room (k, row') <= row_bytes_in room (k, row).
Proof.
  intros [_ _ Ha Hb] Hp. specialize (Hb Hp). unfold row_bytes_in, active_row, in_room. simpl.
  destruct (k.1 =?s room); simpl; [|lia].
  destruct (retainsTaskPayload row'), (retainsTaskPayload row); try lia; by specialize (Ha eq_refl).
Qed.

Lemma row_bytes_nonneg room e : row_ok e -> 0 <= row_bytes_in room e.
Proof. intros (_ & _ & ?). unfold row_bytes_in. case_match; lia. Qed.

Lemma row_ok_le k row' row : job_le row' row -> row_ok (k, row) -> row_ok (k, row').
Proof.
  intros [Hi Hr _ Hb] (? & ? & ?). unfold row_ok in *. simpl in *. rewrite Hi, Hr.
  split_and!; [done|done|]. by apply Hb.
Qed.

Lemma update_wf db g :
  table_wf db -> (forall k row, (k, row) ∈ db -> job_le (g k row) row) -> table_wf (map_update g db).
Proof.
  intros [Hk Hr Hc Ha Hb] Hg. assert (forall e, e ∈ db -> row_ok e) as Hr' by (by apply Forall_forall).
  constructor.
  - by rewrite map_update_keys.
  - apply Forall_fmap, Forall_forall. intros [k row] Hin. simpl.
    apply (row_ok_le k _ row); [by apply Hg|by apply Hr'].
  - intros room. etrans; [|apply (Hc room)]. unfold count_by, map_update. rewrite sum_by_map.
    apply sum_by_le, Forall_forall. intros [k row] Hin. simpl.
    destruct (weights_le room k (g k row) row) as (-> & _); [by apply Hg|apply (Hr' _ Hin)|done].
  - intros room. etrans; [|apply (Ha room)]. unfold count_by, map_update. rewrite sum_by_map.
    apply sum_by_le, Forall_forall. intros [k row] Hin. simpl.
    apply (weights_le room k (g k row) row); [by apply Hg|apply (Hr' _ Hin)].
  - intros room. etrans; [|apply (Hb room)]. unfold map_update. rewrite sum_by_map.
    apply sum_by_le, Forall_forall. intros [k row] Hin. simpl.
    apply (weights_le room k (g k row) row); [by apply Hg|apply (Hr' _ Hin)].
Qed.

Lemma set_old_wf db k row row' :
  table_wf db -> map_get k db = Some row -> job_le row' row -> table_wf (map_set k row' db).
Proof.
  intros Hwf Hk Hle. pose proof Hwf as [Hnd Hr Hc Ha Hb].
  assert (row_ok (k, row)) as Hok by (rewrite Forall_forall in Hr; by apply Hr, map_get_Some).
  pose proof (fun room => weights_le room k row' row Hle (proj2 (proj2 Hok))) as Hw.
  constructor.
  - by apply map_set_nodup.
  - apply Forall_forall. intros [k' r'] Hin. apply map_set_elem in Hin as [[-> ->]|[_ Hin]]; [| |done].
    + by eapply row_ok_le.
    + rewrite Forall_forall in Hr. by apply Hr.
  - intros room. specialize (Hc room). unfold count_by in *.
    rewrite (sum_by_set_old _ k row' row) by done. destruct (Hw room) as (E & _). lia.
  - intros room. specialize (Ha room). unfold count_by in *.
    rewrite (sum_by_set_old _ k row' row) by done. destruct (Hw room) as (_ & E & _). lia.
  - intros room. specialize (Hb room). rewrite (sum_by_set_old _ k row' row) by done.
    destruct (Hw room) as (_ & _ & E). lia.
Qed.

Lemma sublist_wf db db' : table_wf db -> db' `sublist_of` db -> table_wf db'.
Proof.
  intros [Hnd Hr Hc Ha Hb] Hs. constructor.
  - eapply sublist_NoDup; [done|]. by apply sublist_keys.
  - by eapply sublist_Forall.
  - intros room. etrans; [by apply count_by_sublist|done].
  - intros room. etrans; [by apply count_by_sublist|done].
  - intros room. etrans; [apply sum_by_sublist; [|done]|done].
    eapply Forall_impl; [done|]. intros e. apply row_bytes_nonneg.
Qed.

Lemma set_new_wf db room id row :
  table_wf db -> map_get (room, id) db = None -> row_ok ((room, id), row) ->
  count_by (in_room room) db < ROOM_RECEIPT_LIMIT -> count_by (active_row room) db < ROOM_JOB_LIMIT ->
  sum_by (row_bytes_in room) db + j_bytes row <= ROOM_JOB_BYTES ->
  table_wf (map_set (room, id) row db).
Proof.
  intros [Hnd Hr Hc Ha Hb] Hk Hok Lc La Lb.
  assert (forall room', room' <> room -> in_room room' ((room, id), row) = false) as Hother.
  { intros room' Hn. unfold in_room, jeqb. simpl. by rewrite bool_decide_eq_false_2 by congruence. }
  constructor.
  - by apply map_set_nodup.
  - rewrite map_set_new by done. by apply Forall_app, conj, Forall_singleton.
  - intros room'. specialize (Hc room'). unfold count_by in *. rewrite sum_by_set_new by done.
    destruct (decide (room' = room)) as [->|Hn]; [case_match; lia|rewrite Hother by done; lia].
  - intros room'. specialize (Ha room'). unfold count_by in *. rewrite sum_by_set_new by done.
    destruct (decide (room' = room)) as [->|Hn]; [case_match; lia|].
    unfold active_row at 2. rewrite Hother by done. simpl. lia.
  - intros room'. specialize (Hb room'). rewrite sum_by_set_new by done. unfold row_bytes_in at 2.
    destruct Hok as (_ & _ & Hp). simpl in Hp.
    destruct (decide (room' = room)) as [->|Hn]; [case_match; simpl; lia|].
    unfold active_row. rewrite Hother by done. simpl. lia.
Qed.

(** ** Expiry of a room *)

Lemma save_ok db room row : bindable (get "recipientKeyId" (j_envelope row)) = true ->
  save db room row = Ok (map_set (room, j_id row) row db).
Proof. unfold save. by intros ->. Qed.

Lemma save_all_ok db room rows :
  Forall (fun row => bindable (get "recipientKeyId" (j_envelope row)) = true) rows ->
  save_all db room rows = Ok (fold_left (fun acc row => map_set (room, j_id row) row acc) rows db).
Proof.
  intros HF. revert db. induction HF as [|row rows Hb HF IH]; intros db; simpl; [done|].
  rewrite save_ok by done. simpl. apply IH.
Qed.

Definition expire_room (room : jstr) (now : Z) (k : task_key) (row : job) : job :=
  if k.1 =?s room then expireJob row now else row.

Lemma fold_left_fmap {A B C} (f : A -> B -> A) (g : C -> B) (l : list C) a :
  fold_left f (g <$> l) a = fold_left (fun a c => f a (g c)) l a.
Proof. revert a. induction l; simpl; auto. Qed.

Lemma fold_left_ext_in {A B} (f g : A -> B -> A) (l : list B) a :
  (forall a b, b ∈ l -> f a b = g a b) -> fold_left f l a = fold_left g l a.
Proof.
  revert a. induction l as [|b l IH]; simpl; intros a H; [done|].
  rewrite H by by left. apply IH. intros a' b' Hb. apply H. by right.
Qed.

Lemma expireQueued_ok db room now :
  table_wf db -> expireQueued db room now = Ok (map_update (expire_room room now) db).
Proof.
  intros [Hnd Hr _ _ _]. rewrite Forall_forall in Hr. unfold expireQueued. rewrite save_all_ok.
  2: { apply Forall_fmap, Forall_forall. intros e He. apply list_elem_of_filter in He as [_ He]. simpl.
       rewrite expireJob_exec, (jl_recipient _ _ (job_exec_le e.2 now OpExpire)). apply (Hr e He). }
  f_equal. rewrite fold_left_fmap.
  rewrite (fold_left_ext_in _ (fun acc e => map_set e.1 (expireJob e.2 now) acc)).
  2: { intros acc e He. apply list_elem_of_filter in He as [Hp He]. f_equal.
       destruct e as [[room' id] row]. destruct (Hr _ He) as (Hid & _). unfold expirable, in_room in Hp.
       apply Is_true_true in Hp. split_andb. reflect_bools. simpl in *. subst room'. f_equal.
       rewrite expireJob_exec, (jl_id _ _ (job_exec_le row now OpExpire)). done. }
  rewrite (fold_set_update (expirable room now) (fun e => expireJob e.2 now)) by done.
  apply map_update_ext. intros [room' id] row _. unfold expirable, expire_room, in_room, expireJob. simpl.
  destruct (room' =?s room); simpl; [|done]. by destruct (_ && _).
Qed.

Lemma expire_room_le room now k row : job_le (expire_room room now k row) row.
Proof. unfold expire_room. case_match; [|apply job_le_refl]. rewrite expireJob_exec. apply job_exec_le. Qed.

Lemma expire_room_wf db room now : table_wf db -> table_wf (map_update (expire_room room now) db).
Proof. intros Hwf. apply update_wf; [done|]. intros. apply expire_room_le. Qed.

(** ** Steps of the store *)

Inductive store_op :=
| SPut (room id : jstr) (body : jsv)
| STransition (room id action : jstr) (body : jsv)
| SGet (room id : jstr) (metadataOnly : bool)
| SList (room : jstr)
| SActive (room : jstr)
| SDue (room recipientKeyId : jstr) (excluded : list jstr)
| SPurge.

Section Steps.
Context (sha256 : jstr -> jstr).

Definition store_exec (db : task_table) (now : Z) (op : store_op) : task_table :=
  match op with
  | SPut room id body => (put sha256 db room id body now).2
  | STransition room id action body => (transition sha256 db room id action body now).2
  | SGet room id m => (getPublic db room id now m).2
  | SList room => (list_jobs db room now).2
  | SActive room => (listActive db room now).2
  | SDue room r excluded => (due db room r now excluded).2
  | SPurge => (purge db now).2
  end.

Fixpoint store_run (db : task_table) (trace : list (Z * store_op)) : task_table :=
  match trace with
  | [] => db
  | (now, op) :: rest => store_run (store_exec db now op) rest
  end.

(** The request a row of the table answers. *)
Definition request_op (action : jstr) (body : jsv) (h : jstr) : job_op :=
  if action =?s "claim" then OpClaim body h else if action =?s "finish" then OpFinish body h else OpCancel.

(** Everything a write of one key may do to the table. *)
Inductive store_step (db : task_table) (now : Z) : task_table -> Prop :=
| step_none : store_step db now db
| step_expire room : store_step db now (map_update (expire_room room now) db)
| step_create room id n fingerprint body :
    map_get (room, id) db = None -> normalizeJob room id body now = Ok (Some n) ->
    bindable (get "recipientKeyId" (n_envelope n)) = true ->
    let db1 := map_update (expire_room room now) db in
    count_by (in_room room) db1 < ROOM_RECEIPT_LIMIT -> count_by (active_row room) db1 < ROOM_JOB_LIMIT ->
    sum_by (row_bytes_in room) db1 + n_bytes n <= ROOM_JOB_BYTES ->
    store_step db now (map_set (room, id) (new_job id n fingerprint now) db1)
| step_row room id row op st row' :
    map_get (room, id) db = Some row -> job_answer row now op = Ok (JobRow st row') ->
    store_step db now (map_set (room, id) row' db).

Lemma put_step db room id body now :
  table_wf db -> store_step db now (put sha256 db room id body now).2.
Proof.
  intros Hwf. unfold put, transact, putInTransaction, get_job.
  destruct (normalizeJob _ _ _ _) as [[n|]|] eqn:En; simpl; [|constructor..].
  destruct (map_get (room, id) db) as [e|] eqn:Ek.
  { destruct (_ =?s _); constructor. }
  rewrite expireQueued_ok by done. simpl.
  destruct (_ || _) eqn:E; simpl; [constructor|]. split_andb. reflect_bools.
  unfold save. cbn [j_envelope new_job j_id]. destruct (bindable _) eqn:Eb; simpl; [|constructor].
  by econstructor.
Qed.

Lemma transition_step db room id action body now :
  table_wf db -> store_step db now (transition sha256 db room id action body now).2.
Proof.
  intros [_ Hr _ _ _]. unfold transition, transact, transitionInTransaction, get_job.
  destruct (map_get (room, id) db) as [row|] eqn:Ek; [|constructor].
  assert (row_ok ((room, id), row)) as (Hid & _) by (rewrite Forall_forall in Hr; by apply Hr, map_get_Some).
  set (token := if is_nullish _ then _ else _).
  match goal with |- context[res_bind ?w _] => assert (forall st row', w = Ok (JobRow st row') ->
    exists op, job_answer row now op = Ok (JobRow st row')) as Hop end.
  { intros st row'. destruct (digest sha256 token) as [h|]; simpl.
    - destruct (action =?s "claim"); [by exists (OpClaim body h)|].
      destruct (action =?s "finish"); [by exists (OpFinish body h)|]. by exists OpCancel.
    - destruct (action =?s "claim"); [done|]. destruct (action =?s "finish"); [done|]. by exists OpCancel. }
  match goal with |- context[res_bind ?w _] => destruct w as [[status error|st row']|] end; simpl;
    [constructor| |constructor].
  destruct (Hop st row' eq_refl) as [op Ha]. unfold save. destruct (bindable _); simpl; [|constructor].
  assert (row' = job_exec row now op) as Hx by (unfold job_exec; by rewrite Ha).
  assert (j_id row' = id) as -> by (rewrite Hx, (jl_id _ _ (job_exec_le row now op)); done).
  by econstructor.
Qed.

Lemma store_step_wf db now db' : table_wf db -> store_step db now db' -> table_wf db'.
Proof.
  intros Hwf Hs. destruct Hs as [|room|room id n fp body Hk Hn Hb db1 Lc La Lb|room id row op st row' Hk Ha].
  - done.
  - by apply expire_room_wf.
  - apply set_new_wf; try done.
    + by apply expire_room_wf.
    + unfold db1. rewrite map_get_update, Hk. done.
    + split_and!; [done|done|]. simpl. apply normalizeJob_wf in Hn as [_ _ Hn]. lia.
  - eapply set_old_wf; [done|done|].
    assert (row' = job_exec row now op) as -> by (unfold job_exec; by rewrite Ha). apply job_exec_le.
Qed.

(** ** Retention *)

Definition retained_until (row : job) : Z := Z.max (j_expiresAt row) (j_updatedAt row) + RETENTION.

(** What retention does to one row. *)
Definition purge_one (now : Z) (k : task_key) (row : job) : option job :=
  let row' := expireJob row now in
  if negb (bool_decide (j_state row' = Accepted)) && (retained_until row' <? now) then None else Some row'.

Lemma expireJob_noop row now :
  bool_decide (j_state row = Queued) && (j_expiresAt row <=? now) = false -> expireJob row now = row.
Proof. unfold expireJob. by intros ->. Qed.

Lemma purge_row_ok db now k row :
  table_wf db -> map_get k db = Some row ->
  exists db', purge_row db now (k, row) = Ok db' /\ table_wf db' /\ (forall k', map_get k' db' = if decide (k' = k) then purge_one now k row else map_get k' db).
Proof.
  intros Hwf Hk. destruct k as [room id]. pose proof Hwf as [Hnd Hr _ _ _]. rewrite Forall_forall in Hr.
  assert (row_ok ((room, id), row)) as (Hid & Hb & _) by by apply Hr, map_get_Some. simpl in Hid.
  pose proof (job_exec_le row now OpExpire) as Hle. rewrite <- expireJob_exec in Hle.
  pose proof (jl_id _ _ Hle) as Hid'. pose proof (jl_recipient _ _ Hle) as Hrec.
  unfold purge_row, purge_one. simpl.
  assert (exists db1, (if bool_decide (j_state row = Queued) && (j_expiresAt row <=? now)
            then save db room (expireJob row now) else Ok db) = Ok db1 /\ table_wf db1 /\ (forall k', map_get k' db1 = if decide (k' = (room, id)) then Some (expireJob row now)
                                         else map_get k' db)) as (db1 & -> & Hwf1 & Hg).
  { destruct (_ && _) eqn:E.
    - rewrite save_ok by (by rewrite Hrec). rewrite Hid', Hid. eexists. split; [done|]. split.
      + eapply set_old_wf; done.
      + intros k'. apply map_get_set.
    - rewrite expireJob_noop by done. exists db. split; [done|]. split; [done|]. intros k'.
      by destruct (decide (k' = (room, id))) as [->|]. }
  simpl. fold (retained_until (expireJob row now)). destruct (_ && _).
  - eexists. split; [done|]. split; [eapply sublist_wf; [done|apply map_delete_sublist]|].
    intros k'. rewrite map_get_delete, Hg. by case_decide.
  - eexists. split; [done|]. split; [done|]. done.
Qed.

Lemma purge_rows_ok db now l :
  table_wf db -> NoDup l.*1 -> (forall k row, (k, row) ∈ l -> map_get k db = Some row) ->
  exists db', purge_rows db now l = Ok db' /\ table_wf db' /\ (forall k, map_get k db' =
       match map_get k l with Some row => purge_one now k row | None => map_get k db end).
Proof.
  revert db. induction l as [|[k row] l IH]; intros db Hwf Hnd Hin; simpl.
  { eexists. split; [done|]. split; done. }
  apply NoDup_cons in Hnd as [Hk Hnd].
  destruct (purge_row_ok db now k row Hwf) as (db1 & -> & Hwf1 & Hg1); [apply Hin; by left|]. simpl.
  destruct (IH db1 Hwf1 Hnd) as (db' & Hrun & Hwf' & Hg').
  { intros k' row' Hin'. rewrite Hg1. rewrite decide_False.
    - apply Hin. by right.
    - intros ->. apply Hk. apply list_elem_of_fmap. by exists (k, row'). }
  exists db'. split; [done|]. split; [done|]. intros k'. rewrite Hg'. case_decide as Hkk.
  - subst. apply map_get_None in Hk. simpl in Hk. rewrite Hk, Hg1. by rewrite decide_True.
  - rewrite Hg1, decide_False by done. done.
Qed.

(** Retention runs to the end and treats every selected row on its own. *)
Lemma purge_ok db now :
  table_wf db -> exists db', purge db now = (Ok tt, db') /\ table_wf db' /\ (forall k, map_get k db' = match map_get k db with
       | Some row => if purgeable now (k, row) then purge_one now k row else Some row
       | None => None end).
Proof.
  intros Hwf. pose proof Hwf as [Hnd _ _ _ _].
  destruct (purge_rows_ok db now (filter (purgeable now) db) Hwf) as (db' & E & Hwf' & Hg).
  - eapply sublist_NoDup; [done|]. apply sublist_keys, sublist_filter.
  - intros k row Hin. apply list_elem_of_filter in Hin as [_ Hin]. by apply map_get_In.
  - exists db'. unfold purge, transact, purgeInTransaction. rewrite E. simpl. split; [done|].
    split; [done|]. intros k. rewrite Hg, (map_get_filter k (purgeable now)) by done.
    destruct (map_get k db) as [row|] eqn:Ek; [|done]. by destruct (purgeable now (k, row)).
Qed.

(** ** Every operation *)

Lemma store_exec_cases db now op :
  table_wf db ->
  (store_step db now (store_exec db now op) /\ op <> SPurge) \/
  (op = SPurge /\ store_exec db now op = (purge db now).2).
Proof.
  intros Hwf. destruct op as [room id body|room id action body|room id m|room|room|room r ex|]; simpl;
    [left; split; [|done] ..|by right].
  - by apply put_step.
  - by apply transition_step.
  - unfold getPublic, transact. rewrite expireQueued_ok by done. simpl. constructor.
  - unfold list_jobs, rows, transact. rewrite expireQueued_ok by done. simpl. constructor.
  - unfold listActive, transact. rewrite expireQueued_ok by done. simpl. constructor.
  - unfold due, transact. rewrite expireQueued_ok by done. simpl. constructor.
Qed.

Lemma store_exec_wf db now op : table_wf db -> table_wf (store_exec db now op).
Proof.
  intros Hwf. destruct (store_exec_cases db now op Hwf) as [[Hs _]|[_ ->]].
  - by eapply store_step_wf.
  - by destruct (purge_ok db now Hwf) as (db' & -> & ? & _).
Qed.

Lemma store_run_wf db trace : table_wf db -> table_wf (store_run db trace).
Proof. revert db. induction trace as [|[now op] t IH]; simpl; auto using store_exec_wf. Qed.

Lemma step_lookup db now db' k :
  store_step db now db' ->
  match map_get k db, map_get k db' with
  | None, None => True
  | None, Some row => j_state row = Queued /\ j_claimId row = None /\ j_createdAt row = now
  | Some row, Some row' => exists jop, row' = job_exec row now jop
  | Some _, None => False
  end.
Proof.
  assert (forall row, exists jop, row = job_exec row now jop) as Hid.
  { intros row. unfold job_exec, job_answer. destruct (bool_decide (j_state row = Queued)) eqn:E; reflect_bools.
    - exists (OpClaim JUndef ""). simpl. unfold claimJob, validProof.
      destruct (strict_eq _ _); done.
    - exists OpExpire. unfold expireJob. by rewrite bool_decide_eq_false_2. }
  intros [|room|room id n fp body Hk Hn Hb db1 Lc La Lb|room id row op st row' Hk Ha].
  - destruct (map_get k db); auto.
  - rewrite map_get_update. destruct (map_get k db) as [row|]; simpl; [|done].
    unfold expire_room. case_match; [by exists OpExpire|apply Hid].
  - rewrite map_get_set. destruct (decide (k = (room, id))) as [->|Hd]; [by rewrite Hk|].
    unfold db1. rewrite map_get_update. destruct (map_get k db) as [row|]; simpl; [|done].
    unfold expire_room. case_match; [by exists OpExpire|apply Hid].
  - rewrite map_get_set. destruct (decide (k = (room, id))) as [->|Hd]; [rewrite Hk|destruct (map_get k db); auto].
    exists op. unfold job_exec. by rewrite Ha.
Qed.

Lemma purge_one_spec now k row :
  purge_one now k row = if purgeable now (k, row) then purge_one now k row else Some row.
Proof.
  unfold purge_one, purgeable, retained_until. simpl.
  destruct (bool_decide (j_state row = Queued) && (j_expiresAt row <=? now)) eqn:E; [done|]. simpl.
  rewrite expireJob_noop by done. destruct (bool_decide (j_state row = Accepted)); simpl; [done|].
  destruct (Z.ltb_spec (j_expiresAt row) (now - RETENTION)),
    (Z.ltb_spec (j_updatedAt row) (now - RETENTION)), (Z.ltb_spec
      (Z.max (j_expiresAt row) (j_updatedAt row) + RETENTION) now); simpl; done || lia.
Qed.

(** Admission limits hold on every reachable store: after any sequence of
    submissions, transitions, reads and retention runs, each room holds at most
    10,000 rows, at most 100 of them with a payload, and at most 48,000,000
    accounted bytes; row identities agree with their keys. *)
Theorem node_store_bounded (trace : list (Z * store_op)) (room : jstr) :
  let db := store_run [] trace in
  count_by (in_room room) db <= 10000 /\ count_by (active_row room) db <= 100 /\
  sum_by (row_bytes_in room) db <= 48000000 /\ NoDup db.*1 /\
  forall k row, (k, row) ∈ db -> j_id row = k.2 /\ 0 <= j_bytes row.
Proof.
  intros db. destruct (store_run_wf [] trace empty_wf) as [Hnd Hr Hc Ha Hb]. fold db in Hnd, Hr, Hc, Ha, Hb.
  split_and!; try done. intros k row Hin. rewrite Forall_forall in Hr.
  destruct (Hr (k, row) Hin) as (? & _ & ?). done.
Qed.

(** C28: The store refines the job state machine: on every reachable table each
    operation acts on every stored row as one transition of [TaskJobs], creates
    rows only as unclaimed queued jobs, and removes a row only in retention,
    when it is not accepted and its retention time passed. *)
Theorem store_refines_lifecycle (trace : list (Z * store_op)) (now : Z) (op : store_op) (k : task_key) :
  let db := store_run [] trace in
  match map_get k db, map_get k (store_exec db now op) with
  | None, None => True
  | None, Some row => j_state row = Queued /\ j_claimId row = None /\ j_createdAt row = now
  | Some row, Some row' => exists jop, row' = job_exec row now jop
  | Some row, None => op = SPurge /\ j_state row <> Accepted /\ retained_until (expireJob row now) < now
  end.
Proof.
  intros db. pose proof (store_run_wf [] trace empty_wf) as Hwf. fold db in Hwf.
  destruct (store_exec_cases db now op Hwf) as [[Hs _]|[-> ->]].
  - pose proof (step_lookup db now _ k Hs) as H. repeat case_match; done.
  - pose proof (step_lookup db now db k (step_none db now)) as Hself.
    destruct (purge_ok db now Hwf) as (db' & -> & _ & Hg). simpl. rewrite Hg.
    destruct (map_get k db) as [row|]; [|done]. rewrite <- purge_one_spec. unfold purge_one.
    destruct (_ && _) eqn:E; [|by exists OpExpire]. split_andb. reflect_bools. split_and!; [done| |done].
    intros Ha. unfold expireJob in *. rewrite Ha in *. done.
Qed.

(** Retention: maintenance always succeeds, expires every overdue queued
    job, and removes exactly the jobs that are not accepted and whose expiry and
    last change are both more than seven days past: the indexed preselection
    misses none of them. *)
Theorem purge_removes_exactly (trace : list (Z * store_op)) (now : Z) :
  let db := store_run [] trace in
  exists db', purge db now = (Ok tt, db') /\
    forall k, map_get k db' = match map_get k db with
      | Some row => purge_one now k row
      | None => None end.
Proof.
  intros db. destruct (purge_ok db now) as (db' & E & _ & Hg); [apply store_run_wf, empty_wf|].
  exists db'. split; [done|]. intros k. rewrite Hg. destruct (map_get k db); [|done].
  by rewrite <- purge_one_spec.
Qed.

(** ** Dispatch *)

Lemma first_due_None l : first_due l = None <-> l = [].
Proof. destruct l; simpl; [done|]. by destruct (first_due l). Qed.

Lemma due_before_total a b : due_before a b = true \/ due_before b a = true.
Proof.
  unfold due_before. destruct (Z.ltb_spec (j_notBefore a.2) (j_notBefore b.2)); [by left|].
  destruct (Z.ltb_spec (j_notBefore b.2) (j_notBefore a.2)); [by right|]. simpl.
  rewrite !(proj2 (Z.eqb_eq _ _)) by lia. simpl. rewrite !Z.leb_le. lia.
Qed.

Lemma due_before_trans a b c :
  due_before a b = true -> due_before b c = true -> due_before a c = true.
Proof.
  unfold due_before. rewrite !orb_true_iff, !andb_true_iff, !Z.ltb_lt, !Z.eqb_eq, !Z.leb_le. lia.
Qed.

Lemma first_due_min l e :
  first_due l = Some e -> e ∈ l /\ Forall (fun f => due_before e f = true) l.
Proof.
  revert e. induction l as [|x l IH]; simpl; [done|]. intros e.
  assert (forall y, due_before y y = true) as Hrefl by (intros y; by destruct (due_before_total y y)).
  destruct (first_due l) as [f|] eqn:E.
  - destruct (IH f eq_refl) as [Hin HF]. intros [= <-]. destruct (due_before x f) eqn:Eb.
    + split; [by left|]. constructor; [done|]. eapply Forall_impl; [done|]. intros g. by apply due_before_trans.
    + split; [by right|]. constructor; [|done]. destruct (due_before_total x f); congruence.
  - intros [= <-]. apply first_due_None in E as ->. split; [by left|]. by constructor.
Qed.

Lemma due_row_expiry room r now ex k row :
  due_row room r now ex (k, expire_room room now k row) = due_row room r now ex (k, row).
Proof.
  unfold due_row, expire_room, in_room. simpl. destruct (k.1 =?s room); simpl; [|done].
  unfold expireJob. destruct (bool_decide (j_state row = Queued)) eqn:E; simpl; [|by rewrite E].
  destruct (Z.leb_spec (j_expiresAt row) now); simpl; [|by rewrite E].
  rewrite (proj2 (Z.ltb_ge now (j_expiresAt row))) by lia. by rewrite andb_false_r.
Qed.

Lemma due_in_update room r now ex db k row' :
  (k, row') ∈ map_update (expire_room room now) db -> due_row room r now ex (k, row') = true ->
  (k, row') ∈ db.
Proof.
  intros Hin Hd. apply list_elem_of_fmap in Hin as ([k0 row] & [= -> ->] & Hin). simpl in *.
  pose proof Hd as Hd'. rewrite due_row_expiry in Hd'.
  enough (expire_room room now k0 row = row) as -> by done.
  unfold due_row in Hd'. simpl in Hd'. split_andb. reflect_bools. unfold expire_room, expireJob.
  rewrite (proj2 (Z.leb_gt _ _)) by done. rewrite andb_false_r. by case_match.
Qed.

(** Dispatch order: a poll for one recipient always succeeds, and returns
    exactly one job when any stored job of the room is queued for that
    recipient, inside its window and not excluded; that job has the earliest
    start, and among those the earliest change; otherwise nothing. *)
Theorem due_returns_earliest (trace : list (Z * store_op)) (room recipient : jstr) (now : Z)
    (excluded : list jstr) :
  let db := store_run [] trace in
  let candidate e := e ∈ db /\ due_row room recipient now excluded e = true in
  exists offers db', due db room recipient now excluded = (Ok offers, db') /\
    ((offers = [] /\ forall e, ~ candidate e) \/
     (exists e, offers = [publicJob e.2] /\ candidate e /\ forall f, candidate f -> due_before e f = true)).
Proof.
  intros db candidate. pose proof (store_run_wf [] trace empty_wf) as Hwf. fold db in Hwf.
  unfold due, transact. rewrite expireQueued_ok by done. simpl.
  set (db1 := map_update (expire_room room now) db).
  assert (forall f, candidate f -> f ∈ filter (due_row room recipient now excluded) db1) as Hcand.
  { intros [k row] [Hin Hd]. apply list_elem_of_filter. split; [by rewrite Hd|].
    apply list_elem_of_fmap. exists (k, row). split; [|done]. simpl. f_equal.
    unfold due_row in Hd. simpl in Hd. split_andb. reflect_bools. unfold expire_room, expireJob.
    rewrite (proj2 (Z.leb_gt _ _)) by done. rewrite andb_false_r. by case_match. }
  destruct (first_due (filter _ db1)) as [e|] eqn:E; (eexists _, _; split; [done|]).
  - right. exists e. split; [done|]. apply first_due_min in E as [Hin HF].
    apply list_elem_of_filter in Hin as [Hp Hin]. apply Is_true_true in Hp. destruct e as [k row'].
    split.
    + split; [|done]. by eapply due_in_update.
    + intros f Hf. rewrite Forall_forall in HF. by apply HF, Hcand.
  - left. split; [done|]. intros e He. apply first_due_None in E. apply Hcand in He. rewrite E in He.
    by apply elem_of_nil in He.
Qed.

(** ** Retried submissions *)

Lemma job_exec_identity row now op :
  j_createdAt (job_exec row now op) = j_createdAt row /\
  j_fingerprint (job_exec row now op) = j_fingerprint row.
Proof.
  destruct (job_exec_cases row now op) as
    [->|[(c & Hs & ->)|[(code & env & c & Hs & _ & ->)|[(code & env & Hs & ->)|[(Hs & ->)|(Hs & ->)]]]]];
    done.
Qed.

Lemma run_keeps_row db k row trace :
  table_wf db -> map_get k db = Some row -> Forall (fun p => p.2 <> SPurge) trace ->
  exists row', map_get k (store_run db trace) = Some row' /\
    j_createdAt row' = j_createdAt row /\ j_fingerprint row' = j_fingerprint row.
Proof.
  intros Hwf Hk HF. revert db row Hwf Hk.
  induction HF as [|[now op] t Hop _ IH]; intros db row Hwf Hk; simpl in *; [by exists row|].
  destruct (store_exec_cases db now op Hwf) as [[Hs _]|[-> _]]; [|done].
  pose proof (step_lookup _ _ _ k Hs) as H. rewrite Hk in H.
  destruct (map_get k (store_exec db now op)) as [row1|] eqn:E; [|done].
  destruct H as [jop ->]. destruct (IH _ _ (store_exec_wf db now op Hwf) E) as (row' & ? & E1 & E2).
  destruct (job_exec_identity row now jop) as [E3 E4]. exists row'. split_and!; congruence.
Qed.

Lemma put_created db room id body now v db1 :
  table_wf db -> put sha256 db room id body now = (Ok (TaskJob 201 v), db1) ->
  exists n, normalizeJob room id body now = Ok (Some n) /\
    map_get (room, id) db1 = Some (new_job id n (sha256 (n_canonical n)) now).
Proof.
  intros Hwf. unfold put, transact, putInTransaction, get_job.
  destruct (map_get (room, id) db) as [e|] eqn:Ek.
  { destruct (normalizeJob room id body (j_createdAt e)) as [[n|]|]; simpl;
      [destruct (_ =?s _)|..]; intros H; discriminate H. }
  destruct (normalizeJob _ _ _ _) as [[n|]|] eqn:En; simpl; [|done..].
  rewrite expireQueued_ok by done. simpl. destruct (_ || _); simpl; [done|].
  unfold save. destruct (bindable _); simpl; [|done]. intros [= <- <-]. exists n. split; [done|].
  rewrite map_get_set. by rewrite decide_True.
Qed.

(** A submission may be retried: once a job was stored (201), the same
    request, sent again after any number of other requests and at any clock
    value, is answered with 200 and the stored job, and changes nothing. *)
Theorem put_retry_is_idempotent (trace0 trace : list (Z * store_op)) (room id : jstr) (body : jsv)
    (now now' : Z) (v : public_job) (db1 : task_table) :
  put sha256 (store_run [] trace0) room id body now = (Ok (TaskJob 201 v), db1) ->
  Forall (fun p => p.2 <> SPurge) trace ->
  let db2 := store_run db1 trace in
  exists row, get_job db2 room id = Some row /\
    put sha256 db2 room id body now' = (Ok (TaskJob 200 (publicJob (expireJob row now'))), db2).
Proof.
  intros Hput HF db2. pose proof (store_run_wf [] trace0 empty_wf) as Hwf.
  assert (table_wf db1) as Hwf1.
  { eapply store_step_wf; [exact Hwf|].
    pose proof (put_step (store_run [] trace0) room id body now Hwf) as H. by rewrite Hput in H. }
  destruct (put_created _ _ _ _ _ _ _ Hwf Hput) as (n & Hn & Hk).
  destruct (run_keeps_row db1 (room, id) _ trace Hwf1 Hk HF) as (row & Hrow & Hc & Hf).
  exists row. split; [done|]. unfold put, putInTransaction, get_job. fold db2 in Hrow. rewrite Hrow, Hc.
  simpl. rewrite Hn. simpl. rewrite Hf. simpl. unfold jeqb. by rewrite bool_decide_eq_true_2.
Qed.
End Steps.

Lemma put_retry_is_idempotent_witness :
  let body := with_envelope (JNum (NInt 10)) (JNum (NInt 100)) (JStr sample_token) sample_fields in
  let room := "00112233445566778899"%js in
  let id := "job-0001"%js in
  let db1 := (put (fun s => s) [] room id body 5).2 in
  let db2 := store_run (fun s => s) db1 [(20, SDue room sample_token []); (21, STransition room id "cancel" JUndef)] in
  exists row, get_job db2 room id = Some row /\
    put (fun s => s) db2 room id body 300 = (Ok (TaskJob 200 (publicJob (expireJob row 300))), db2).
Proof.
  intros body room id db1 db2.
  assert (exists v, put (fun s => s) (store_run (fun s => s) [] []) room id body 5 = (Ok (TaskJob 201 v), db1))
    as [v Hv] by (eexists; vm_compute; reflexivity).
  apply (put_retry_is_idempotent (fun s => s) [] [(20, SDue room sample_token []);
    (21, STransition room id "cancel" JUndef)] room id body 5 300 v db1 Hv).
  repeat constructor; discriminate.
Defined.
