(* ===== verification/TaskWorker.v ===== *)
(** * Scheduled task jobs in Durable Object storage
    [src/taskDispatch/worker.js], [worker-ciphertext.js] and [worker-records.js].

    The row of a job is stored without its encrypted box; the box lies in chunks
    under keys of its own.  Section [Records] shows that the paged listing
    returns every record, [Ciphertext] that a written box is read back, and
    [Dispatch] that the transitions answer as those of the SQLite store do. *)

From S2P Require Import Prelude Base64 Validation Storage TaskJobs TaskStore.
#[local] Open Scope bool_scope.
#[local] Open Scope Z_scope.
#[local] Open Scope js_scope.

(** ** [worker-records.js] *)

Section Records.
Context {V : Type}.

Definition PAGE : nat := Z.to_nat 1000.
Definition HISTORY_LIMIT : Z := ROOM_RECEIPT_LIMIT + ROOM_JOB_LIMIT.

(** The loop with its page size, bound and cursor; [None] is lack of fuel. *)
Fixpoint list_pages (fuel page_size : nat) (bound : Z) (storage : list (jstr * V)) (prefix : jstr)
    (startAfter : option jstr) (records : list (jstr * V)) : option (res (list (jstr * V))) :=
  match fuel with
  | O => None
  | S fuel' =>
      let page := storage_list prefix startAfter (Some page_size) storage in
      let records' := fold_left (fun acc e => map_set e.1 e.2 acc) page records in
      if bound <? Z.of_nat (length records') then Some Throw
      else if (length page <? page_size)%nat then Some (Ok records')
      else match last page with
           | None => Some Throw
           | Some e =>
               if (e.1 =?s "")
                  || match startAfter with Some s => negb (s =?s "") && key_le e.1 s | None => false end
               then Some Throw
               else list_pages fuel' page_size bound storage prefix (Some e.1) records'
           end
  end.

(** Eleven full pages exceed the bound, so the twelfth is never full. *)
Definition listTaskJobRecords (storage : list (jstr * V)) (prefix : jstr) : option (res (list (jstr * V))) :=
  list_pages 12 PAGE HISTORY_LIMIT storage prefix None [].

Lemma fold_set_append (l m : list (jstr * V)) :
  NoDup (m ++ l).*1 -> fold_left (fun acc e => map_set e.1 e.2 acc) l m = m ++ l.
Proof.
  revert m. induction l as [|[k v] l IH]; intros m Hnd; simpl; [by rewrite app_nil_r|].
  rewrite map_set_new.
  - rewrite IH; rewrite <- app_assoc; done.
  - apply map_get_None. rewrite fmap_app, NoDup_app in Hnd. destruct Hnd as (_ & Hd & _).
    intros Hin. apply (Hd k Hin). simpl. set_solver.
Qed.

Lemma storage_list_after (st : list (jstr * V)) prefix s limit :
  storage_list prefix (Some s) (Some limit) st
  = take limit (filter (fun x => key_lt s x.1) (storage_list prefix None None st)).
Proof.
  unfold storage_list. f_equal. rewrite list_filter_filter. apply list_filter_iff.
  intros e. rewrite !andb_True. naive_solver.
Qed.

Section Pages.
Context (st : list (jstr * V)) (prefix : jstr) (page_size : nat) (bound : Z).
Hypothesis (Hst : sorted st) (Hprefix : prefix <> "") (Hsize : (0 < page_size)%nat).
Let found := storage_list prefix None None st.

Lemma found_sorted : sorted found.
Proof. unfold found, storage_list. by apply sorted_filter. Qed.

Lemma found_key e : e ∈ found -> e.1 <> "".
Proof.
  unfold found, storage_list. rewrite list_elem_of_filter. intros [Hp _] E.
  apply andb_True in Hp as [Hp _]. rewrite E in Hp. unfold starts_with in Hp.
  apply bool_decide_unpack in Hp. simpl in Hp. rewrite take_nil in Hp.
  apply Hprefix. destruct prefix as [l]. simpl in Hp. by subst.
Qed.

Definition cursor (n : nat) (startAfter : option jstr) : Prop :=
  match startAfter with
  | None => n = O
  | Some s => exists e, last (take n found) = Some e /\ length (take n found) = n /\ s = e.1 /\ (0 < n)%nat
  end.

Lemma page_at n startAfter :
  cursor n startAfter -> storage_list prefix startAfter (Some page_size) st = take page_size (drop n found).
Proof.
  destruct startAfter as [s|]; cbn [cursor]; [|by intros ->].
  intros (e & Hl & Hlen & -> & Hn). rewrite storage_list_after. fold found. f_equal.
  destruct n as [|n]; [lia|]. apply sorted_after; [apply found_sorted|done|done].
Qed.

Lemma list_pages_spec fuel n startAfter :
  cursor n startAfter -> Z.of_nat n <= bound -> bound < Z.of_nat fuel * Z.of_nat page_size + Z.of_nat n ->
  list_pages fuel page_size bound st prefix startAfter (take n found)
  = Some (if bound <? Z.of_nat (length found) then Throw else Ok found).
Proof.
  revert n startAfter. induction fuel as [|fuel IH]; intros n sa Hc Hn Hf; [lia|].
  cbn [list_pages]. rewrite (page_at n sa) by done.
  assert (take n found ++ take page_size (drop n found) = take (n + page_size) found) as Happ
    by (by rewrite take_take_drop).
  rewrite fold_set_append, Happ.
  2: { rewrite Happ. eapply sublist_NoDup; [apply (sorted_nodup found), found_sorted|].
       apply sublist_keys, sublist_take. }
  assert (length (take (n + page_size) found) = (n + page_size) `min` length found)%nat as Hlen
    by apply length_take.
  assert (length (take page_size (drop n found)) = page_size `min` (length found - n))%nat as Hlen2
    by by rewrite length_take, length_drop.
  destruct (Z.ltb_spec bound (Z.of_nat (length (take (n + page_size) found)))) as [Hb|Hb].
  { rewrite (proj2 (Z.ltb_lt _ _)); [done|lia]. }
  destruct (Nat.ltb_spec (length (take page_size (drop n found))) page_size) as [Hp|Hp].
  { rewrite take_ge in * by lia. rewrite (proj2 (Z.ltb_ge _ _)) by lia. done. }
  assert (length (take (n + page_size) found) = n + page_size)%nat as Hfull by lia.
  destruct (last (take page_size (drop n found))) as [e|] eqn:El.
  2: { apply last_None in El. rewrite El in Hp. simpl in Hp. lia. }
  assert (last (take (n + page_size) found) = Some e) as Hlast by (by rewrite <- Happ, last_app, El).
  assert (e ∈ found) as Hin.
  { apply last_Some in Hlast as [l' Hl']. eapply elem_of_sublist; [|apply sublist_take].
    rewrite Hl'. apply elem_of_app. right. by left. }
  unfold jeqb at 1. rewrite bool_decide_eq_false_2 by (by apply found_key). cbn [orb].
  assert (match sa with Some s => negb (s =?s "") && key_le e.1 s | None => false end = false) as ->.
  { destruct sa as [s|]; [|done]. destruct Hc as (e' & Hl' & Hlen' & -> & Hn').
    destruct n as [|n]; [lia|].
    assert (e ∈ drop (S n) found) as Hd.
    { apply last_Some in El as [l' Hl'']. eapply elem_of_sublist; [|apply (sublist_take _ page_size)].
      rewrite Hl''. apply elem_of_app. right. by left. }
    rewrite <- (sorted_after found n e') in Hd; [|apply found_sorted|done|done].
    apply list_elem_of_filter in Hd as [Hd _]. apply Is_true_true in Hd. unfold key_lt in Hd.
    destruct (key_le e.1 e'.1); [done|]. apply andb_false_r. }
  apply IH; simpl; [|lia|lia]. exists e. split_and!; [done|done|done|lia].
Qed.
End Pages.

Lemma listTaskJobRecords_spec (st : list (jstr * V)) prefix :
  sorted st -> prefix <> "" ->
  listTaskJobRecords st prefix
  = Some (if HISTORY_LIMIT <? Z.of_nat (length (storage_list prefix None None st)) then Throw
          else Ok (storage_list prefix None None st)).
Proof.
  intros Hs Hp. unfold listTaskJobRecords.
  apply (list_pages_spec st prefix PAGE HISTORY_LIMIT Hs Hp ltac:(unfold PAGE; lia) 12 0 None); done.
Qed.
End Records.

(** ** [worker-ciphertext.js] *)

Record cipher := { c_count : Z; c_digest : jstr; c_bytes : Z }.

Record wjob := { w_row : job; w_room : jstr; w_cipher : option cipher }.

(** The keys ["task-job:..."] hold rows, the keys ["task-box:..."] hold chunks. *)
Record wstorage := { ws_jobs : list (jstr * wjob); ws_boxes : list (jstr * jstr) }.

Definition CHUNK_BYTES : Z := 64000.

(** [String(index).padStart(4, "0")] *)
Definition pad4 (index : nat) : jstr :=
  let digits := units (Z_text (Z.of_nat index)) in
  JS (repeat 48%N (4 - length digits) ++ digits).

Definition boxKey (row : wjob) (index : nat) : jstr :=
  "task-box:" +++ w_room row +++ ":" +++ j_id (w_row row) +++ ":" +++ pad4 index.

Definition put_box (k v : jstr) (st : wstorage) : wstorage :=
  {| ws_jobs := ws_jobs st; ws_boxes := storage_put k v (ws_boxes st) |}.
Definition delete_box (k : jstr) (st : wstorage) : wstorage :=
  {| ws_jobs := ws_jobs st; ws_boxes := storage_delete k (ws_boxes st) |}.
Definition put_job (k : jstr) (row : wjob) (st : wstorage) : wstorage :=
  {| ws_jobs := storage_put k row (ws_jobs st); ws_boxes := ws_boxes st |}.
Definition delete_job (k : jstr) (st : wstorage) : wstorage :=
  {| ws_jobs := storage_delete k (ws_jobs st); ws_boxes := ws_boxes st |}.

(** [for (let index = 0; index < count; index++) ...] *)
Definition for_index {S} (count : Z) (body : S -> nat -> S) (s : S) : S :=
  fold_left body (seq 0 (Z.to_nat count)) s.

Definition deleteCiphertext (st : wstorage) (row : wjob) : wstorage :=
  match w_cipher row with
  | None => st
  | Some c => for_index (c_count c) (fun st index => delete_box (boxKey row index) st) st
  end.

Definition with_envelope_of (row : job) (envelope : jsv) : job :=
  {| j_id := j_id row; j_state := j_state row; j_notBefore := j_notBefore row;
     j_expiresAt := j_expiresAt row; j_createdAt := j_createdAt row; j_updatedAt := j_updatedAt row;
     j_acceptanceHash := j_acceptanceHash row; j_envelope := envelope; j_bytes := j_bytes row;
     j_fingerprint := j_fingerprint row; j_claimId := j_claimId row; j_writerId := j_writerId row;
     j_writerSourceKeyId := j_writerSourceKeyId row; j_resultCode := j_resultCode row;
     j_resultEnvelope := j_resultEnvelope row |}.

(** [delete row.envelope.box] *)
Definition strip (row : job) : job := with_envelope_of row (omit ["box"] (j_envelope row)).

(** [{ ...envelope, box }] *)
Definition with_box (envelope : jsv) (box : jstr) : jsv :=
  match envelope with JObj fs => JObj (map_set "box" (JStr box) fs) | _ => envelope end.

Section Ciphertext.
Context (sha256 : jstr -> jstr).

Definition chunk (box : jstr) (index : nat) : jstr :=
  sslice (index * Z.to_nat CHUNK_BYTES) ((index + 1) * Z.to_nat CHUNK_BYTES) box.

Definition writeTaskJob (st : wstorage) (key : jstr) (input : wjob) : wstorage * wjob :=
  let row := strip (w_row input) in
  if negb (retainsTaskPayload (w_row input)) then
    let st1 := deleteCiphertext st input in
    let saved := {| w_row := row; w_room := w_room input; w_cipher := None |} in
    (put_job key saved st1, saved)
  else
    match w_cipher input, get "box" (j_envelope (w_row input)) with
    | None, JStr box =>
        let c := {| c_count := (slen box + CHUNK_BYTES - 1) / CHUNK_BYTES; c_digest := sha256 box;
                    c_bytes := slen box |} in
        let st1 := for_index (c_count c) (fun st index => put_box (boxKey input index) (chunk box index) st) st in
        let saved := {| w_row := row; w_room := w_room input; w_cipher := Some c |} in
        (put_job key saved st1, saved)
    | _, _ =>
        let saved := {| w_row := row; w_room := w_room input; w_cipher := w_cipher input |} in
        (put_job key saved st, saved)
    end.

Fixpoint read_chunks (st : wstorage) (input : wjob) (indices : list nat) : res (list N) :=
  match indices with
  | [] => Ok []
  | index :: rest =>
      match storage_get (boxKey input index) (ws_boxes st) with
      | Some value => if CHUNK_BYTES <? slen value then Throw
                      else let* more := read_chunks st input rest in Ok (units value ++ more)
      | None => Throw
      end
  end.

Definition hydrateTaskJob (st : wstorage) (input : wjob) : res wjob :=
  match w_cipher input with
  | None => Ok input
  | Some c =>
      if (c_count c <? 1) || (350 <? c_count c) || (c_bytes c <? 24) || (22000000 <? c_bytes c) then Throw
      else
        let* box := read_chunks st input (seq 0 (Z.to_nat (c_count c))) in
        if negb (slen (JS box) =? c_bytes c) || negb (sha256 (JS box) =?s c_digest c) then Throw
        else Ok {| w_row := with_envelope_of (w_row input) (with_box (j_envelope (w_row input)) (JS box));
                   w_room := w_room input; w_cipher := w_cipher input |}
  end.

(** *** Chunk keys *)

Lemma pad4_inj i j : (i < 350)%nat -> (j < 350)%nat -> pad4 i = pad4 j -> i = j.
Proof.
  assert (NoDup (pad4 <$> seq 0 350)) as Hnd by (apply (bool_decide_unpack _); vm_compute; exact I).
  intros Hi Hj E. eapply NoDup_lookup; [exact Hnd| |]; rewrite list_lookup_fmap, lookup_seq_lt by lia;
    simpl; [done|]. by rewrite E.
Qed.

Record boxed (row : wjob) : Prop := { bx_room : no_colon (w_room row); bx_id : no_colon (j_id (w_row row)) }.

Lemma boxKey_inj row row' i j :
  boxed row -> boxed row' -> boxKey row i = boxKey row' j ->
  w_room row = w_room row' /\ j_id (w_row row) = j_id (w_row row') /\ pad4 i = pad4 j.
Proof.
  intros [Hr Hi] [Hr' Hi'] E. unfold boxKey, sapp in E. injection E as E.
  apply colon_split in E as [E1 E]; [|done|done]. apply colon_split in E as [E2 E3]; [|done|done].
  split_and!; [by apply units_inj|by apply units_inj|]. unfold pad4. by rewrite E3.
Qed.

(** *** Reading back *)

Lemma put_boxes_get (row : wjob) (f : nat -> jstr) (indices : list nat) st k :
  storage_get k (ws_boxes (fold_left (fun st index => put_box (boxKey row index) (f index) st) indices st))
  = match List.find (fun i => bool_decide (k = boxKey row i)) (rev indices) with
    | Some i => Some (f i) | None => storage_get k (ws_boxes st) end.
Proof.
  induction indices as [|i l IH] using rev_ind; [done|].
  rewrite fold_left_app, rev_app_distr. simpl. rewrite storage_get_put. case_decide; [by rewrite bool_decide_eq_true_2|].
  rewrite bool_decide_eq_false_2 by done. exact IH.
Qed.

Lemma put_boxes_own (row row' : wjob) (f : nat -> jstr) (n : nat) st i :
  boxed row -> w_room row' = w_room row -> j_id (w_row row') = j_id (w_row row) ->
  (n <= 350)%nat -> (i < n)%nat ->
  storage_get (boxKey row' i)
    (ws_boxes (fold_left (fun st index => put_box (boxKey row index) (f index) st) (seq 0 n) st)) = Some (f i).
Proof.
  intros Hb Hr Hi Hn Hin. rewrite put_boxes_get.
  assert (boxKey row' i = boxKey row i) as -> by (unfold boxKey; by rewrite Hr, Hi).
  destruct (List.find _ _) as [j|] eqn:E.
  - apply find_some in E as [Hj E]. apply bool_decide_eq_true in E.
    rewrite <- in_rev, in_seq in Hj. apply boxKey_inj in E as (_ & _ & E); [|done|done].
    apply pad4_inj in E; [by subst|lia|lia].
  - pose proof (find_none _ _ E i ltac:(rewrite <- in_rev, in_seq; lia)) as Hf. simpl in Hf.
    by apply bool_decide_eq_false in Hf.
Qed.

Lemma read_chunks_ok st row f indices :
  (forall i, i ∈ indices -> storage_get (boxKey row i) (ws_boxes st) = Some (f i)) ->
  (forall i, slen (f i) <= CHUNK_BYTES) ->
  read_chunks st row indices = Ok (concat (map (fun i => units (f i)) indices)).
Proof.
  intros Hg Hl. induction indices as [|i l IH]; [done|]. simpl.
  rewrite Hg by by left. rewrite (proj2 (Z.ltb_ge _ _)) by auto. rewrite IH; [done|].
  intros j Hj. apply Hg. by right.
Qed.

Lemma chunk_short box i : slen (chunk box i) <= CHUNK_BYTES.
Proof.
  unfold chunk, sslice, slen. simpl. rewrite length_take.
  pose proof (Z2Nat.id CHUNK_BYTES ltac:(done)). lia.
Qed.

Lemma slen_nonneg s : 0 <= slen s.
Proof. unfold slen. lia. Qed.

(** The number of chunks covers the text and stays within the readable bound. *)
Lemma chunk_count_bounds len :
  24 <= len <= 22000000 ->
  1 <= (len + CHUNK_BYTES - 1) / CHUNK_BYTES <= 350 /\
  len <= (len + CHUNK_BYTES - 1) / CHUNK_BYTES * CHUNK_BYTES.
Proof.
  intros H. unfold CHUNK_BYTES. pose proof (Z.div_mod (len + 64000 - 1) 64000 ltac:(lia)).
  pose proof (Z.mod_pos_bound (len + 64000 - 1) 64000 ltac:(lia)). lia.
Qed.

Lemma all_chunks box n :
  slen box <= Z.of_nat n * CHUNK_BYTES ->
  concat (map (fun i => units (chunk box i)) (seq 0 n)) = units box.
Proof.
  intros H. unfold chunk, sslice. simpl. rewrite chunks_concat. apply take_ge.
  unfold slen in H. pose proof (Z2Nat.id CHUNK_BYTES ltac:(done)). lia.
Qed.

(** C31: The ciphertext of a stored job is read back exactly: a job that holds a
    payload and a box of 24 to 22,000,000 characters is written as a row
    without its box and at most 350 chunks, and reading that row, also after
    any other rows were written, returns the job with the identical box. *)
Theorem ciphertext_roundtrip (st : wstorage) (key : jstr) (input : wjob) (box : jstr)
    (others : list (jstr * wjob)) :
  boxed input -> w_cipher input = None -> retainsTaskPayload (w_row input) = true ->
  get "box" (j_envelope (w_row input)) = JStr box -> 24 <= slen box <= 22000000 ->
  let '(st1, saved) := writeTaskJob st key input in
  get "box" (j_envelope (w_row saved)) = JUndef /\
  hydrateTaskJob (fold_left (fun st e => put_job e.1 e.2 st) others st1) saved
  = Ok {| w_row := with_envelope_of (w_row input) (with_box (omit ["box"] (j_envelope (w_row input))) box);
          w_room := w_room input; w_cipher := w_cipher saved |}.
Proof.
  intros Hb Hc Hr Hbox Hlen. unfold writeTaskJob. rewrite Hr, Hc, Hbox. simpl.
  destruct (chunk_count_bounds (slen box) Hlen) as [Hcount Hcover].
  set (count := (slen box + CHUNK_BYTES - 1) / CHUNK_BYTES) in *.
  split; [by apply get_omit; left|]. unfold hydrateTaskJob. simpl.
  rewrite (proj2 (Z.ltb_ge count 1)), (proj2 (Z.ltb_ge 350 count)), (proj2 (Z.ltb_ge (slen box) 24)),
    (proj2 (Z.ltb_ge 22000000 (slen box))) by lia. simpl.
  set (saved := {| w_row := strip (w_row input); w_room := w_room input; w_cipher := _ |}).
  assert (forall s, ws_boxes (fold_left (fun st e => put_job e.1 e.2 st) others s) = ws_boxes s) as Hother.
  { induction others as [|e l IH]; simpl; [done|]. intros s. by rewrite IH. }
  rewrite (read_chunks_ok _ saved (chunk box)).
  - rewrite all_chunks by (rewrite Z2Nat.id by lia; done). simpl.
    destruct box as [l]. simpl. rewrite Z.eqb_refl. unfold jeqb. by rewrite bool_decide_eq_true_2.
  - intros i Hi. rewrite Hother. simpl. apply list_elem_of_In, in_seq in Hi.
    apply (put_boxes_own input saved); [done|done|done|lia|lia].
  - apply chunk_short.
Qed.
End Ciphertext.

Lemma ciphertext_roundtrip_witness :
  let row := with_envelope_of sample_row
    (JObj [("recipientKeyId", JStr "k"); ("box", JStr "AAAAAAAAAAAAAAAAAAAAAAAAAAAA")])%js in
  let input := {| w_row := row; w_room := "00ff"%js; w_cipher := None |} in
  let '(st1, saved) := writeTaskJob (fun s => s) {| ws_jobs := []; ws_boxes := [] |} "k"%js input in
  get "box" (j_envelope (w_row saved)) = JUndef /\
  hydrateTaskJob (fun s => s) (fold_left (fun st e => put_job e.1 e.2 st) [] st1) saved
  = Ok {| w_row := with_envelope_of row (with_box (omit ["box"%js] (j_envelope row)) "AAAAAAAAAAAAAAAAAAAAAAAAAAAA"%js);
          w_room := "00ff"%js; w_cipher := w_cipher saved |}.
Proof.
  intros row input.
  apply (ciphertext_roundtrip (fun s => s) {| ws_jobs := []; ws_boxes := [] |} "k" input
    "AAAAAAAAAAAAAAAAAAAAAAAAAAAA" []); try reflexivity.
  - constructor; apply (bool_decide_unpack _); vm_compute; exact I.
  - vm_compute. split; discriminate.
Defined.

(** ** [worker.js] *)

Definition task_prefix (room : jstr) : jstr := "task-job:" +++ room +++ ":".
Definition job_key (room id : jstr) : jstr := task_prefix room +++ id.

(** [{ ...saved, ...row }]: the transitions spread the stored row, which keeps [room] and [cipher]. *)
Definition with_row (w : wjob) (row : job) : wjob := {| w_row := row; w_room := w_room w; w_cipher := w_cipher w |}.

Definition overdue (row : job) (now : Z) : bool :=
  bool_decide (j_state row = Queued) && (j_expiresAt row <=? now).

Definition task_records (storage : list (jstr * wjob)) (prefix : jstr) : res (list (jstr * wjob)) :=
  match listTaskJobRecords storage prefix with Some found => found | None => Throw end.

Section WorkerTaskDispatchStore.
Context (sha256 : jstr -> jstr).

(** [storage.transaction(work)]: an exception discards the writes. *)
Definition transaction {A} (st : wstorage) (work : res (A * wstorage)) : res A * wstorage :=
  match work with Ok (result, st') => (Ok result, st') | Throw => (Throw, st) end.

Definition expire_one (room : jstr) (now : Z) (st : wstorage) (saved : wjob) : wstorage :=
  if overdue (w_row saved) now
  then (writeTaskJob sha256 st (job_key room (j_id (w_row saved))) (with_row saved (expireJob (w_row saved) now))).1
  else st.

Definition worker_rows (st : wstorage) (room : jstr) (now : Z) : res (list wjob * wstorage) :=
  let* found := task_records (ws_jobs st) (task_prefix room) in
  Ok ((fun e => with_row e.2 (expireJob (w_row e.2) now)) <$> found,
      fold_left (expire_one room now) found.*2 st).

Definition worker_listActive (st : wstorage) (room : jstr) (now : Z) : res (list public_job * wstorage) :=
  let* (found, st1) := worker_rows st room now in
  Ok ((fun w => publicJob (w_row w)) <$> filter (fun w => retainsTaskPayload (w_row w)) found, st1).

Definition worker_getPublic (st : wstorage) (room id : jstr) (now : Z) (metadataOnly : bool)
  : res (option public_job) * wstorage :=
  match storage_get (job_key room id) (ws_jobs st) with
  | None => (Ok None, st)
  | Some saved =>
      let row := with_row saved (expireJob (w_row saved) now) in
      let st1 := (if overdue (w_row saved) now then (writeTaskJob sha256 st (job_key room id) row).1 else st) in
      (let* shown := (if metadataOnly then Ok row else hydrateTaskJob sha256 st1 row) in
       Ok (Some (publicJob (w_row shown))), st1)
  end.

Definition worker_due_row (recipientKeyId : jsv) (now : Z) (excluded : list jstr) (w : wjob) : bool :=
  bool_decide (j_state (w_row w) = Queued) && (j_notBefore (w_row w) <=? now)
  && strict_eq (get "recipientKeyId" (j_envelope (w_row w))) recipientKeyId
  && negb (bool_decide (j_id (w_row w) ∈ excluded)).

(** [a.notBefore - b.notBefore || a.createdAt - b.createdAt], the head of the stable sort. *)
Definition worker_due_before (a b : wjob) : bool :=
  (j_notBefore (w_row a) <? j_notBefore (w_row b))
  || (j_notBefore (w_row a) =? j_notBefore (w_row b)) && (j_createdAt (w_row a) <=? j_createdAt (w_row b)).

Fixpoint worker_first (l : list wjob) : option wjob :=
  match l with
  | [] => None
  | w :: rest =>
      match worker_first rest with
      | None => Some w
      | Some v => Some (if worker_due_before w v then w else v)
      end
  end.

Definition worker_due (st : wstorage) (room : jstr) (recipientKeyId : jsv) (now : Z) (excluded : list jstr)
  : res (list public_job * wstorage) :=
  let* (found, st1) := worker_rows st room now in
  match worker_first (filter (worker_due_row recipientKeyId now excluded) found) with
  | None => Ok ([], st1)
  | Some next => let* shown := hydrateTaskJob sha256 st1 next in Ok ([publicJob (w_row shown)], st1)
  end.

Definition worker_put (st : wstorage) (room id : jstr) (body : jsv) (now : Z) : res task_result * wstorage :=
  transaction st
    (let existing := storage_get (job_key room id) (ws_jobs st) in
     let* parsed := normalizeJob room id body
                      (match existing with Some e => j_createdAt (w_row e) | None => now end) in
     match parsed with
     | None => Ok (TaskError 400 "invalid encrypted task job", st)
     | Some n =>
         let fingerprint := sha256 (n_canonical n) in
         match existing with
         | Some e =>
             if j_fingerprint (w_row e) =?s fingerprint
             then Ok (TaskJob 200 (publicJob (expireJob (w_row e) now)), st)
             else Ok (TaskError 409 "job identity already exists", st)
         | None =>
             let* (found, st1) := worker_rows st room now in
             let active := filter (fun w => retainsTaskPayload (w_row w)) found in
             if (ROOM_RECEIPT_LIMIT <=? Z.of_nat (length found)) || (ROOM_JOB_LIMIT <=? Z.of_nat (length active))
                || (ROOM_JOB_BYTES <? sum_by (fun w => j_bytes (w_row w)) active + n_bytes n)
             then Ok (TaskError 429 "task queue capacity reached", st1)
             else
               let row := new_job id n fingerprint now in
               Ok (TaskJob 201 (publicJob row),
                   (writeTaskJob sha256 st1 (job_key room id) {| w_row := row; w_room := room; w_cipher := None |}).1)
         end
     end).

Definition worker_transition (st : wstorage) (room id action : jstr) (body : jsv) (now : Z)
  : res task_result * wstorage :=
  let proofHash := sha256 (match get "token" body with JStr token => token | _ => "" end) in
  transaction st
    (match storage_get (job_key room id) (ws_jobs st) with
     | None => Ok (TaskError 404 "unknown task job", st)
     | Some w =>
         let* result := (if action =?s "claim" then claimJob (w_row w) body now proofHash
                         else if action =?s "finish" then finishJob (w_row w) body now proofHash
                         else Ok (cancelJob (w_row w) now)) in
         match result with
         | JobError status error => Ok (TaskError status error, st)
         | JobRow status row =>
             Ok (TaskJob status (publicJob row),
                 (writeTaskJob sha256 st (job_key room id) (with_row w row)).1)
         end
     end).

(** ** Maintenance and the next alarm *)

(** [next = Math.min(next ?? Infinity, deadline)] *)
Definition earlier (next : option Z) (deadline : Z) : option Z :=
  Some (match next with Some t => Z.min t deadline | None => deadline end).

(** When the alarm must look at a row again; an accepted job needs no alarm.
    [connected] holds the recipients with an open dispatch socket. *)
Definition deadline (row : job) (now : Z) (connected : option (list jsv)) : option Z :=
  match j_state row with
  | Queued =>
      if match connected with
         | Some recipients => negb (existsb (strict_eq (get "recipientKeyId" (j_envelope row))) recipients)
         | None => false end
      then Some (j_expiresAt row)
      else Some (Z.min (j_expiresAt row) (if now <? j_notBefore row then j_notBefore row else now + 15000))
  | Accepted => None
  | _ => Some (retained_until row)
  end.

Definition maintain_row (now : Z) (connected : option (list jsv)) (acc : wstorage * option Z)
    (e : jstr * wjob) : wstorage * option Z :=
  let '(st, next) := acc in
  let '(name, saved) := e in
  let row := expireJob (w_row saved) now in
  if negb (bool_decide (j_state row = Accepted)) && (retained_until row <? now)
  then (delete_job name (deleteCiphertext st saved), next)
  else
    let st1 := (if overdue (w_row saved) now then (writeTaskJob sha256 st name (with_row saved row)).1 else st) in
    (st1, match deadline row now connected with Some t => earlier next t | None => next end).

(** [configured] is what the maintenance of the configurations returned. *)
Definition maintain (st : wstorage) (now : Z) (connected : option (list jsv)) (configured : option Z)
  : res (wstorage * option Z) :=
  let* found := task_records (ws_jobs st) "task-job:" in
  Ok (fold_left (maintain_row now connected) found (st, configured)).
End WorkerTaskDispatchStore.

(** ** The transitions do not look at the box *)

Definition strip_result (r : job_result) : job_result :=
  match r with JobError status error => JobError status error | JobRow status row => JobRow status (strip row) end.

Definition res_map {A B} (f : A -> B) (r : res A) : res B := let* a := r in Ok (f a).

Lemma omit_omit a b v : omit a (omit b v) = omit (a ++ b) v.
Proof.
  destruct v as [| | | | | |fs]; simpl; try done. f_equal. rewrite list_filter_filter.
  apply list_filter_iff. intros e. rewrite not_elem_of_app. done.
Qed.

Lemma omit_ext a b v : (forall k, k ∈ a <-> k ∈ b) -> omit a v = omit b v.
Proof.
  intros H. destruct v as [| | | | | |fs]; simpl; try done. f_equal.
  apply list_filter_iff. intros e. by rewrite H.
Qed.

Lemma strip_strip row : strip (strip row) = strip row.
Proof. unfold strip. simpl. rewrite omit_omit. unfold with_envelope_of. simpl. f_equal. apply omit_ext. set_solver. Qed.

Lemma retire_strip row s t : retireJob (strip row) s t = strip (retireJob row s t).
Proof.
  unfold retireJob, strip, with_envelope_of. simpl. f_equal. rewrite !omit_omit. apply omit_ext. set_solver.
Qed.

Lemma expire_strip row now : expireJob (strip row) now = strip (expireJob row now).
Proof. unfold expireJob. simpl. case_match; [apply retire_strip|done]. Qed.

Lemma validProof_strip row proof h : validProof (strip row) proof h = validProof row proof h.
Proof. apply validProof_ext; [|done]. simpl. by rewrite get_omit_other by set_solver. Qed.

Lemma strip_state row : j_state (strip row) = j_state row.
Proof. done. Qed.

Lemma claim_strip row proof now h :
  claimJob (strip row) proof now h = res_map strip_result (claimJob row proof now h).
Proof.
  unfold claimJob. rewrite validProof_strip, expire_strip. cbn [strip with_envelope_of j_state j_claimId j_notBefore].
  destruct (validProof row proof h) as [[]|]; cbn [res_bind negb]; [|done..].
  destruct (negb (validJobId _)); [done|]. destruct (bool_decide (j_state _ = Accepted)).
  - by case_bool_decide.
  - by destruct (_ || _).
Qed.

Lemma cancel_strip row now : cancelJob (strip row) now = strip_result (cancelJob row now).
Proof.
  unfold cancelJob. rewrite expire_strip. cbn [strip with_envelope_of j_state].
  case_bool_decide; [done|]. case_bool_decide; simpl; [|done]. f_equal. apply retire_strip.
Qed.

Lemma finish_strip row proof now h :
  finishJob (strip row) proof now h = res_map strip_result (finishJob row proof now h).
Proof.
  unfold finishJob. rewrite validProof_strip. cbn [strip with_envelope_of j_state j_claimId].
  destruct (validProof row proof h) as [[]|]; cbn [res_bind negb]; [|done..].
  destruct (j_claimId row) as [c|]; [|done]. destruct (_ || _); [done|].
  destruct (final_state _) as [s|]; [|done]. destruct (_ && _); [done|].
  case_bool_decide; [done|]. destruct (negb _); [done|].
  assert (forall v, validResultEnvelope (strip row) v now = validResultEnvelope row v now) as Hv.
  { intros v. unfold validResultEnvelope. cbn [strip with_envelope_of j_writerId j_writerSourceKeyId j_envelope].
    by rewrite get_omit_other by set_solver. }
  unfold strip in Hv. unfold with_envelope_of in Hv at 1. rewrite Hv.
  destruct (if is_undef _ then _ else _) as [[]|]; simpl; [done| |done].
  destruct s; simpl; f_equal; f_equal;
    unfold strip, with_result, with_envelope_of, retireJob; simpl; f_equal;
    rewrite ?omit_omit; apply omit_ext; set_solver.
Qed.

Lemma answer_strip row now op : job_answer (strip row) now op = res_map strip_result (job_answer row now op).
Proof.
  destruct op; simpl; [apply claim_strip|apply finish_strip|by rewrite cancel_strip|by rewrite expire_strip].
Qed.

Lemma metadata_strip row : taskJobMetadata (publicJob (strip row)) = taskJobMetadata (publicJob row).
Proof. unfold taskJobMetadata. simpl. rewrite omit_omit. f_equal. apply omit_ext. set_solver. Qed.

(** ** Both stores answer transitions alike *)

Definition job_at (st : wstorage) (room id : jstr) : option wjob := storage_get (job_key room id) (ws_jobs st).

(** The Worker holds the row of the SQLite table without its box. *)
Definition same_job (r : option job) (w : option wjob) : Prop :=
  match r, w with
  | None, None => True
  | Some row, Some saved => w_row saved = strip row
  | _, _ => False
  end.

Definition same_answer (a b : res task_result) : Prop :=
  match a, b with
  | Ok (TaskError s e), Ok (TaskError s' e') => s = s' /\ e = e'
  | Ok (TaskJob s v), Ok (TaskJob s' v') => s = s' /\ taskJobMetadata v = taskJobMetadata v'
  | Throw, Throw => True
  | _, _ => False
  end.

Section Refinement.
Context (sha256 : jstr -> jstr).

Lemma writeTaskJob_saved st key w :
  storage_get key (ws_jobs (writeTaskJob sha256 st key w).1) = Some (writeTaskJob sha256 st key w).2 /\
  w_row (writeTaskJob sha256 st key w).2 = strip (w_row w) /\
  w_room (writeTaskJob sha256 st key w).2 = w_room w.
Proof.
  unfold writeTaskJob. repeat case_match; simpl; rewrite storage_get_put, decide_True by done; done.
Qed.

Lemma for_index_jobs count (f : wstorage -> nat -> wstorage) st :
  (forall s i, ws_jobs (f s i) = ws_jobs s) -> ws_jobs (for_index count f st) = ws_jobs st.
Proof.
  intros H. unfold for_index. revert st. induction (seq 0 _) as [|i l IH]; intros st; simpl; [done|].
  by rewrite IH, H.
Qed.

Lemma writeTaskJob_other st key w key' :
  key' <> key -> storage_get key' (ws_jobs (writeTaskJob sha256 st key w).1) = storage_get key' (ws_jobs st).
Proof.
  intros Hn. unfold writeTaskJob. repeat case_match; simpl; rewrite storage_get_put, decide_False by done;
    unfold deleteCiphertext; try case_match; rewrite ?for_index_jobs; done.
Qed.

(** C29: The Durable Object store implements the SQLite store: on a job both hold
    (the Worker without its box), a claim, finish or cancellation with a string
    token or none gets the same status and error or the same job metadata from
    both, and they hold the same job afterwards; other jobs are untouched. *)
Theorem worker_transition_refines_node (db : task_table) (st : wstorage) (room id action : jstr)
    (body : jsv) (now : Z) (row : job) :
  map_get (room, id) db = Some row -> j_id row = id ->
  bindable (get "recipientKeyId" (j_envelope row)) = true ->
  same_job (map_get (room, id) db) (job_at st room id) ->
  (is_nullish (get "token" body) || is_string (get "token" body) = true) ->
  let node := transition sha256 db room id action body now in
  let worker := worker_transition sha256 st room id action body now in
  same_answer node.1 worker.1 /\ same_job (map_get (room, id) node.2) (job_at worker.2 room id) /\
  forall id', id' <> id -> map_get (room, id') node.2 = map_get (room, id') db /\
                           job_at worker.2 room id' = job_at st room id'.
Proof.
  intros Hk Hid Hb Hsame Htok node worker. rewrite Hk in Hsame. unfold job_at in Hsame.
  destruct (storage_get (job_key room id) (ws_jobs st)) as [w|] eqn:Ew; [|done]. simpl in Hsame.
  set (h := sha256 (match get "token" body with JStr token => token | _ => "" end)).
  set (op := request_op action body h).
  assert (worker = transaction st (let* result := job_answer (strip row) now op in
    match result with
    | JobError status error => Ok (TaskError status error, st)
    | JobRow status row => Ok (TaskJob status (publicJob row),
        (writeTaskJob sha256 st (job_key room id) (with_row w row)).1) end)) as ->.
  { unfold worker, worker_transition. rewrite Ew, Hsame. fold h. unfold op, request_op.
    by repeat (case_match; simpl). }
  assert (node = transact db (let* result := job_answer row now op in
    match result with
    | JobError status error => Ok (TaskError status error, db)
    | JobRow status row' => let* db1 := save db room row' in Ok (TaskJob status (publicJob row'), db1) end)) as ->.
  { unfold node, transition, transitionInTransaction, get_job. rewrite Hk.
    assert (digest sha256 (if is_nullish (get "token" body) then JStr "" else get "token" body) = Ok h) as ->.
    { unfold h. by destruct (get "token" body). }
    unfold op, request_op. by repeat (case_match; simpl). }
  rewrite answer_strip. unfold res_map, job_at. destruct (job_answer row now op) as [[s e|s row']|] eqn:Er;
    cbn [res_bind strip_result transact transaction fst snd];
    [rewrite Hk, Ew; split_and!; try done; by intros|..|rewrite Hk, Ew; split_and!; try done; by intros].
  assert (row' = job_exec row now op) as Hx by (unfold job_exec; by rewrite Er).
  pose proof (job_exec_le row now op) as [Hi Hr _ _]. rewrite <- Hx in Hi, Hr.
  rewrite save_ok by (by rewrite Hr). rewrite Hi, Hid.
  cbn [res_bind strip_result transact transaction fst snd].
  destruct (writeTaskJob_saved st (job_key room id) (with_row w (strip row'))) as (Hg & Hs & _).
  rewrite map_get_set, decide_True, Hg by done. split; [split; [done|symmetry; apply metadata_strip]|split].
  - simpl. rewrite Hs. apply strip_strip.
  - intros id' Hn. rewrite map_get_set, decide_False by congruence. split; [done|].
    apply writeTaskJob_other. intros E. apply Hn. unfold job_key, sapp in E. injection E as E.
    apply app_inv_head in E. by apply units_inj.
Qed.
End Refinement.

Lemma worker_transition_refines_node_witness :
  let db := [(("r", "job-0001"), sample_row)]%js in
  let st := {| ws_jobs := [(job_key "r" "job-0001", {| w_row := strip sample_row; w_room := "r"; w_cipher := None |})];
               ws_boxes := [] |}%js in
  let node := transition (fun s => s) db "r" "job-0001" "claim" (sample_claim "attempt-1") 20 in
  let worker := worker_transition (fun s => s) st "r" "job-0001" "claim" (sample_claim "attempt-1") 20 in
  same_answer node.1 worker.1 /\ same_job (map_get ("r", "job-0001")%js node.2) (job_at worker.2 "r" "job-0001") /\
  forall id', id' <> "job-0001"%js -> map_get ("r"%js, id') node.2 = map_get ("r"%js, id') db /\
                           job_at worker.2 "r" id' = job_at st "r" id'.
Proof.
  intros db st. apply (worker_transition_refines_node (fun s => s) db st "r" "job-0001" "claim"
    (sample_claim "attempt-1") 20 sample_row); vm_compute; reflexivity.
Defined.

(** ** The alarm *)

(** What [maintain] waits for on account of one record: removed records need no alarm. *)
Definition awaited (now : Z) (connected : option (list jsv)) (e : jstr * wjob) : option Z :=
  let row := expireJob (w_row e.2) now in
  if negb (bool_decide (j_state row = Accepted)) && (retained_until row <? now) then None
  else deadline row now connected.

Lemma awaited_not_past now connected e t : awaited now connected e = Some t -> now <= t.
Proof.
  unfold awaited. set (row := expireJob (w_row e.2) now).
  destruct (negb _ && _) eqn:E; [done|]. unfold deadline.
  assert (j_state row = Queued -> now < j_expiresAt row) as Hq.
  { unfold row. destruct (expireJob_cases (w_row e.2) now) as [[-> Hn]|(_ & _ & ->)]; [|done].
    intros Hs. destruct (Z.le_gt_cases (j_expiresAt (w_row e.2)) now); [exfalso; by apply Hn|lia]. }
  assert (j_state row <> Accepted -> now <= retained_until row) as Hr.
  { intros Hs. rewrite bool_decide_eq_false_2 in E by done. simpl in E. reflect_bools. done. }
  destruct (j_state row) eqn:Es; try (intros [= <-]; apply Hr; congruence).
  specialize (Hq eq_refl).
  assert (now <= Z.min (j_expiresAt row) (if now <? j_notBefore row then j_notBefore row else now + 15000))
    by (destruct (Z.ltb_spec now (j_notBefore row)); lia).
  destruct connected as [rs|]; [destruct (existsb _ _); cbn [negb]|]; intros [= <-]; lia.
Qed.

(** The earliest of the awaited times and a starting value. *)
Definition earliest (start : option Z) (times : list Z) : option Z := fold_left earlier times start.

Lemma earliest_spec start times :
  (forall t, t ∈ times \/ start = Some t -> exists n, earliest start times = Some n /\ n <= t) /\
  (forall n, earliest start times = Some n -> n ∈ times \/ start = Some n).
Proof.
  unfold earliest. revert start. induction times as [|t times IH]; intros start; simpl.
  - split; [|by right]. intros t [Hin| ->]; [by apply elem_of_nil in Hin|by exists t].
  - destruct (IH (earlier start t)) as [IH1 IH2]. split.
    + intros u [Hu|Hu].
      * apply elem_of_cons in Hu as [->|Hu]; [|apply IH1; by left].
        unfold earlier in *. destruct start as [s|].
        -- destruct (IH1 (Z.min s t)) as (n & ? & ?); [by right|]. exists n. split; [done|lia].
        -- apply IH1. by right.
      * subst start. destruct (IH1 (Z.min u t)) as (n & ? & ?); [by right|]. exists n. split; [done|lia].
    + intros n Hn. destruct (IH2 n Hn) as [Hin|E]; [left; by right|]. unfold earlier in E.
      destruct start as [s|]; injection E as <-; [|left; by left].
      destruct (Z.min_spec s t) as [[_ ->]|[_ ->]]; [by right|left; by left].
Qed.

Lemma maintain_next sha256 now connected found st next :
  (fold_left (maintain_row sha256 now connected) found (st, next)).2
  = earliest next (omap (awaited now connected) found).
Proof.
  revert st next. induction found as [|[name saved] found IH]; intros st next; simpl; [done|].
  unfold awaited. simpl. destruct (negb _ && _).
  - apply IH.
  - destruct (deadline _ now connected) as [t|]; simpl; apply IH.
Qed.

(** The alarm misses nothing and does not spin: when the history is within
    its bound, maintenance succeeds, and the time it returns is not later than
    any expiry, start, offer retry or retention end it has to act on, is one of
    those times (or the one of the configurations), and is never in the past. *)
Theorem alarm_covers_every_deadline (sha256 : jstr -> jstr) (st : wstorage) (now : Z)
    (connected : option (list jsv)) (configured : option Z) :
  sorted (ws_jobs st) ->
  let found := storage_list "task-job:" None None (ws_jobs st) in
  Z.of_nat (length found) <= HISTORY_LIMIT ->
  (forall t, configured = Some t -> now <= t) ->
  exists st' next, maintain sha256 st now connected configured = Ok (st', next) /\
    (forall e t, e ∈ found -> awaited now connected e = Some t -> exists n, next = Some n /\ n <= t) /\
    (forall n, next = Some n -> now <= n /\
       (configured = Some n \/ exists e, e ∈ found /\ awaited now connected e = Some n)).
Proof.
  intros Hs found Hlen Hconf. unfold maintain, task_records. rewrite listTaskJobRecords_spec by done.
  fold found. rewrite (proj2 (Z.ltb_ge _ _)) by done. simpl.
  pose proof (maintain_next sha256 now connected found st configured) as Hn.
  destruct (fold_left _ found (st, configured)) as [st' next]. simpl in Hn.
  exists st', next. split; [done|].
  destruct (earliest_spec configured (omap (awaited now connected) found)) as [H1 H2]. rewrite <- Hn in H1, H2.
  split.
  - intros e t He Ht. apply H1. left. apply list_elem_of_omap. by exists e.
  - intros n E. destruct (H2 n E) as [Hin|Hc]; [|by split; [apply Hconf|left]].
    apply list_elem_of_omap in Hin as (e & He & Ha). split; [by eapply awaited_not_past|right; by exists e].
Qed.

Lemma alarm_covers_every_deadline_witness :
  let st := {| ws_jobs := [(job_key "r" "job-0001", {| w_row := sample_row; w_room := "r"; w_cipher := None |})];
               ws_boxes := [] |}%js in
  exists st' next, maintain (fun s => s) st 5 None (Some 90) = Ok (st', next) /\ next = Some 10.
Proof.
  intros st.
  destruct (alarm_covers_every_deadline (fun s => s) st 5 None (Some 90)) as (st' & next & E & _).
  - repeat constructor.
  - vm_compute. discriminate.
  - intros t [= <-]. lia.
  - exists st', next. split; [exact E|]. vm_compute in E. injection E as _ <-. reflexivity.
Defined.
