(* ===== verification/Migration.v ===== *)
(** * Migrations of the SQLite tables
    [src/taskDispatch/node-schema.js] ([initializeTaskJobSchema]) and the constructor of
    [NodeRetainedState] ([src/retainedState/node.js]).

    Older relays stored jobs without the columns that route them; a start fills them in
    from the records.  [JSON.parse] is an argument; a column's type affinity is left out
    (the values are of its type already). *)

From S2P Require Import Prelude RetainedState RetainedStores TaskJobs TaskStore.
#[local] Open Scope bool_scope.
#[local] Open Scope Z_scope.
#[local] Open Scope js_scope.

(** ** [task_jobs] *)

(** A row: its key, the record, and the other columns by name; [JNull] is [NULL]. *)
Record sql_row := { mr_room : jstr; mr_id : jstr; mr_record : jstr; mr_columns : list (jstr * jsv) }.
Record sql_jobs := { mt_columns : list jstr; mt_rows : list sql_row }.

Definition routing_columns : list jstr := ["state"; "recipient"; "not_before"; "expires_at"; "updated_at"; "payload_bytes"]%js.
Definition column_of (name : jstr) (row : sql_row) : jsv := default JNull (map_get name (mr_columns row)).

(** [ALTER TABLE ... ADD COLUMN]: [NULL] in every row. *)
Definition add_column (table : sql_jobs) (name : jstr) : sql_jobs :=
  if bool_decide (name ∈ mt_columns table) then table else
  {| mt_columns := mt_columns table ++ [name];
     mt_rows := map (fun row => {| mr_room := mr_room row; mr_id := mr_id row; mr_record := mr_record row; mr_columns := mr_columns row ++ [(name, JNull)] |})
                  (mt_rows table) |}.

(** The values of the [UPDATE]. *)
Definition routing_values (row : jsv) : list jsv :=
  [get "state" row; (let k := get "recipientKeyId" (get "envelope" row) in if is_nullish k then JStr "" else k);
   get "notBefore" row; get "expiresAt" row; get "updatedAt" row; get "bytes" row].
(** A value that SQLite has no type for makes the [UPDATE] throw, and the row is left. *)
Definition route_row (parse : jstr -> res jsv) (item : sql_row) : sql_row :=
  match column_of "state" item with
  | JNull =>
      match parse (mr_record item) with
      | Ok row =>
          if is_nullish row || negb (is_string (get "state" row)) || negb (truthy (get "envelope" row)) || negb (forallb bindable (routing_values row)) then item else
          {| mr_room := mr_room item; mr_id := mr_id item; mr_record := mr_record item;
             mr_columns := fold_left (fun cols e => map_set e.1 e.2 cols) (zip routing_columns (routing_values row)) (mr_columns item) |}
      | Throw => item
      end
  | _ => item
  end.

(** [None]: there is no table yet.  [committed]: whether SQLite carried out every statement; otherwise the transaction is
    rolled back and the start fails. *)
Definition initializeTaskJobSchema (parse : jstr -> res jsv) (committed : bool) (table : option sql_jobs) : res sql_jobs :=
  if negb committed then Throw else
  let table := default {| mt_columns := ["room"; "id"; "record"]%js ++ routing_columns; mt_rows := [] |} table in
  let table := fold_left add_column routing_columns table in
  Ok {| mt_columns := mt_columns table; mt_rows := map (route_row parse) (mt_rows table) |}.

(** ** [retained_state] *)

Record retained_table := { rt_state_group : bool; rt_rows : state_table }.

(** The rows of a relay without groups: only the essential ones are kept. *)
Definition initializeRetainedState (table : option retained_table) : retained_table :=
  match table with
  | None => {| rt_state_group := true; rt_rows := [] |}
  | Some t => if rt_state_group t then t else {| rt_state_group := true; rt_rows := filter (fun e => (sr_priority e.2 =? 1) = true) (rt_rows t) |}
  end.

(** ** The migration of the jobs *)

(** The tests of [due] on the columns. *)
Definition sql_due (recipient : jstr) (now : Z) (row : sql_row) : bool :=
  is_str (column_of "state" row) "queued" && is_str (column_of "recipient" row) recipient &&
  match column_of "not_before" row, column_of "expires_at" row with
  | JNum (NInt notBefore), JNum (NInt expiresAt) => (notBefore <=? now) && (now <? expiresAt)
  | _, _ => false
  end.

(** The parsed record of a job. *)
Record records (j : job) (v : jsv) : Prop := {
  rec_state : get "state" v = JStr (state_text (j_state j));
  rec_envelope : get "envelope" v = j_envelope j /\ truthy (j_envelope j) = true;
  rec_recipient : exists k, get "recipientKeyId" (j_envelope j) = JStr k;
  rec_times : get "notBefore" v = JNum (NInt (j_notBefore j)) /\ get "expiresAt" v = JNum (NInt (j_expiresAt j)) /\ get "updatedAt" v = JNum (NInt (j_updatedAt j));
  rec_bytes : get "bytes" v = JNum (NInt (j_bytes j));
}.

Definition key_of (row : sql_row) : jstr * jstr * jstr := (mr_room row, mr_id row, mr_record row).

Lemma add_column_keys table name : map key_of (mt_rows (add_column table name)) = map key_of (mt_rows table).
Proof. unfold add_column. case_bool_decide; [done|]. cbn [mt_rows]. by rewrite map_map. Qed.

Lemma add_column_has table name : name ∈ mt_columns (add_column table name).
Proof. unfold add_column. case_bool_decide; [done|]. cbn [mt_columns]. apply elem_of_app. right. by apply list_elem_of_singleton. Qed.

Lemma add_column_grows table name other : other ∈ mt_columns table -> other ∈ mt_columns (add_column table name).
Proof. intros H. unfold add_column. case_bool_decide; [done|]. cbn [mt_columns]. apply elem_of_app. by left. Qed.

Lemma add_columns_spec names table :
  let t := fold_left add_column names table in
  map key_of (mt_rows t) = map key_of (mt_rows table) /\ (forall name, name ∈ names \/ name ∈ mt_columns table -> name ∈ mt_columns t).
Proof.
  revert table. induction names as [|n names IH]; intros table; cbn [fold_left]; [split; [done|]; intros name [H|H]; [by apply elem_of_nil in H|done]|].
  destruct (IH (add_column table n)) as [H1 H2]. split; [by rewrite H1, add_column_keys|]. intros name [[->|H]%elem_of_cons|H]; apply H2.
  - right. apply add_column_has.
  - by left.
  - right. by apply add_column_grows.
Qed.

Lemma add_columns_done names table : (forall name, name ∈ names -> name ∈ mt_columns table) -> fold_left add_column names table = table.
Proof.
  revert table. induction names as [|n names IH]; intros table H; [done|]. cbn [fold_left].
  assert (add_column table n = table) as -> by (unfold add_column; rewrite bool_decide_eq_true_2; [done|]; apply H; by left). apply IH. intros name Hn. apply H. by right.
Qed.

(** A column that is added is [NULL] in every row; the others stay. *)
Lemma column_added row name other : column_of other {| mr_room := mr_room row; mr_id := mr_id row; mr_record := mr_record row; mr_columns := mr_columns row ++ [(name, JNull)] |} = column_of other row.
Proof. unfold column_of. cbn [mr_columns]. rewrite map_get_app. destruct (map_get other (mr_columns row)); [done|]. cbn. by case_decide. Qed.

Lemma add_columns_rows names table row :
  row ∈ mt_rows (fold_left add_column names table) ->
  exists row0, row0 ∈ mt_rows table /\ key_of row = key_of row0 /\ forall name, column_of name row = column_of name row0.
Proof.
  revert table. induction names as [|n names IH]; intros table H; cbn [fold_left] in H; [by exists row|].
  destruct (IH _ H) as (row1 & H1 & E1 & C1). unfold add_column in H1. case_bool_decide as Hcol; [by exists row1|]. cbn [mt_rows] in H1.
  apply list_elem_of_fmap in H1 as (row0 & -> & H0). exists row0. split; [done|]. split; [by rewrite E1|]. intros name. rewrite C1. apply column_added.
Qed.

Lemma route_key parse row : key_of (route_row parse row) = key_of row.
Proof. unfold route_row. destruct (column_of _ _); try done. destruct (parse _); [|done]. by destruct (_ || _). Qed.

Lemma route_values row v name :
  is_nullish v || negb (is_string (get "state" v)) || negb (truthy (get "envelope" v)) || negb (forallb bindable (routing_values v)) = false ->
  column_of name {| mr_room := mr_room row; mr_id := mr_id row; mr_record := mr_record row;
                    mr_columns := fold_left (fun cols e => map_set e.1 e.2 cols) (zip routing_columns (routing_values v)) (mr_columns row) |} =
    match map_get name (zip routing_columns (routing_values v)) with Some x => x | None => column_of name row end.
Proof.
  intros _. unfold column_of. cbn [mr_columns routing_columns routing_values zip zip_with fold_left fst snd]. rewrite !map_get_set. cbn [map_get].
  repeat (case_decide; subst; try done).
Qed.

(** What the migration makes of a row that was not routed. *)
Lemma route_cases parse row :
  route_row parse row = row \/
  exists v, column_of "state" row = JNull /\ parse (mr_record row) = Ok v /\ is_string (get "state" v) = true /\ truthy (get "envelope" v) = true /\
    forall name, column_of name (route_row parse row) = match map_get name (zip routing_columns (routing_values v)) with Some x => x | None => column_of name row end.
Proof.
  unfold route_row. destruct (column_of "state" row) eqn:Es; try by left. destruct (parse (mr_record row)) as [v|] eqn:Ep; [|by left].
  destruct (_ || _) eqn:Eb; [by left|right]. exists v. pose proof (fun name => route_values row v name Eb) as Hv. split_andb. by split_and!.
Qed.

Lemma route_idempotent parse row : route_row parse (route_row parse row) = route_row parse row.
Proof.
  destruct (route_cases parse row) as [E|(v & _ & _ & Hs & _ & Hc)]; [by rewrite E|]. unfold route_row at 1. rewrite Hc. cbn [routing_columns routing_values zip zip_with map_get].
  rewrite decide_True by done. by destruct (get "state" v).
Qed.

(** C20: The migration of the jobs is safe to run at every start: it either fails as a whole or
    keeps every row's key and record, and a second run changes nothing; a row that was
    routed keeps its columns; one that was not gets exactly the values of its record, or
    stays unrouted when the record does not parse, so that it is never due; and a job's
    row that was migrated is due exactly when the store of [TaskStore] says so. *)
Theorem job_migration_is_safe (parse : jstr -> res jsv) (committed : bool) (table : sql_jobs) (t : sql_jobs) :
  initializeTaskJobSchema parse committed (Some table) = Ok t ->
  map key_of (mt_rows t) = map key_of (mt_rows table) /\ initializeTaskJobSchema parse true (Some t) = Ok t /\
  forall row, row ∈ mt_rows t -> exists row0, row0 ∈ mt_rows table /\ key_of row = key_of row0 /\
    (column_of "state" row0 <> JNull -> forall name, column_of name row = column_of name row0) /\
    (column_of "state" row0 = JNull -> parse (mr_record row) = Throw -> forall recipient now, sql_due recipient now row = false) /\
    (forall j v recipient now, column_of "state" row0 = JNull -> parse (mr_record row) = Ok v -> records j v ->
       sql_due recipient now row = due_row (mr_room row) recipient now [] ((mr_room row, j_id j), j)).
Proof.
  unfold initializeTaskJobSchema. destruct committed; cbn [negb]; [|done]. cbn [default from_option]. unfold id.
  destruct (add_columns_spec routing_columns table) as [Hk Hc]. pose proof (add_columns_rows routing_columns table) as Hrows.
  set (t1 := fold_left add_column routing_columns table) in *. intros [= <-]. split; [|split].
  - cbn [mt_rows]. rewrite map_map, <- Hk. apply map_ext. apply route_key.
  - rewrite add_columns_done by (intros name Hn; apply Hc; by left). cbn [mt_columns mt_rows]. rewrite map_map.
    do 2 f_equal. apply map_ext. intros row. apply route_idempotent.
  - cbn [mt_rows]. intros row (row1 & -> & H1)%list_elem_of_fmap. destruct (Hrows row1 H1) as (row0 & H0 & E0 & C0). exists row0. split; [done|].
    split; [by rewrite route_key|]. pose proof (route_key parse row1) as Ek. injection Ek as Er Ei Erec. rewrite Er, Erec.
    destruct (route_cases parse row1) as [E|(v & Hnull & Hp & Hs & He & Hv)].
    + rewrite E. split; [by intros _|]. split; [intros Hn _ recipient now; unfold sql_due; by rewrite C0, Hn|].
      intros j v recipient now Hn Hp [R1 [R2 R3] [k R4] (R5 & R6 & R7) R8]. exfalso. unfold route_row in E. rewrite C0, Hn, Hp in E.
      assert (is_nullish v || negb (is_string (get "state" v)) || negb (truthy (get "envelope" v)) || negb (forallb bindable (routing_values v)) = false) as Eb.
      { unfold routing_values. rewrite R1, R2, R3, R4, R5, R6, R7, R8. cbn. destruct v; cbn in R1; try done. }
      rewrite Eb in E. apply (f_equal (column_of "state")) in E. rewrite route_values in E by done. cbn in E. rewrite C0, Hn, R1 in E. discriminate E.
    + rewrite <- C0. split; [done|]. split; [by rewrite Hp|]. intros j v' recipient now _ Hp' [R1 [R2 R3] [k R4] (R5 & R6 & R7) R8]. rewrite Hp in Hp'. injection Hp' as <-.
      unfold sql_due. rewrite !Hv. unfold routing_values. rewrite R1, R2, R4, R5, R6. cbn. unfold due_row, in_room. cbn. unfold jeqb. rewrite R4. cbn.
      rewrite !(bool_decide_eq_true_2 (mr_room row1 = mr_room row1)) by done. cbn. rewrite andb_true_r.
      destruct (j_state j); cbn; try done; by rewrite <- ?andb_assoc.
Qed.

(** ** The migration of the retained state *)

(** Rows written before groups existed are kept only if they are essential; the table stays
    within its bounds and a second start changes nothing. *)
Theorem retained_migration_is_safe (t : retained_table) :
  let t' := initializeRetainedState (Some t) in
  (RetainedStores.table_wf (rt_rows t) -> RetainedStores.table_wf (rt_rows t')) /\ rt_rows t' `sublist_of` rt_rows t /\
  (rt_state_group t = false -> Forall (fun e => sr_priority e.2 = 1) (rt_rows t')) /\ initializeRetainedState (Some t') = t'.
Proof.
  cbv zeta. unfold initializeRetainedState. destruct (rt_state_group t) eqn:E; cbn [rt_rows rt_state_group]; [by rewrite E|].
  split_and!; [by apply wf_filter|apply sublist_filter| |done]. intros _. apply Forall_forall. intros e [H _]%list_elem_of_filter. by apply Z.eqb_eq.
Qed.

(** ** Examples *)

Module Examples.
Definition record_text : jstr := "job".
Definition record_value : jsv :=
  JObj [("state", JStr "queued"); ("notBefore", JNum (NInt 10)); ("expiresAt", JNum (NInt 90)); ("updatedAt", JNum (NInt 5)); ("bytes", JNum (NInt 7));
        ("envelope", JObj [("recipientKeyId", JStr "k")])]%js.
Definition parse (s : jstr) : res jsv := if s =?s record_text then Ok record_value else Throw.
Definition old_row (id record : jstr) : sql_row := {| mr_room := "r"; mr_id := id; mr_record := record; mr_columns := [] |}.
(** A table of the first relays, with a job and a corrupt record. *)
Definition old_table : sql_jobs := {| mt_columns := ["room"; "id"; "record"]%js; mt_rows := [old_row "a" record_text; old_row "b" "{"] |}.
Definition migrated : sql_jobs := match initializeTaskJobSchema parse true (Some old_table) with Ok t => t | Throw => old_table end.

Example job_is_routed : map (sql_due "k" 20) (mt_rows migrated) = [true; false] /\ map (column_of "payload_bytes") (mt_rows migrated) = [JNum (NInt 7); JNull].
Proof. vm_compute. split; reflexivity. Qed.

Lemma job_migration_is_safe_witness : initializeTaskJobSchema parse true (Some old_table) = Ok migrated /\ initializeTaskJobSchema parse true (Some migrated) = Ok migrated.
Proof.
  split; [vm_compute; reflexivity|]. apply (job_migration_is_safe parse true old_table migrated). vm_compute. reflexivity.
Defined.
End Examples.
