(* ===== verification/RoomTable.v ===== *)
(** * Tables of rows per room

    The task components keep small tables addressed by room and identity
    ([task_configurations], [task_job_writers]) through an adapter object with
    [get], [list], [put] and [delete].  [RoomTable] is that interface,
    [RoomTableLaws] what the clients rely on; [sql_table] (a SQLite table with
    primary key [(room, id)]) and [do_table] (Durable Object storage, keys
    ["space:room:id"]) are its two implementations. *)

From S2P Require Import Prelude Validation Storage.
From Stdlib Require Import Permutation.
#[local] Open Scope bool_scope.
#[local] Open Scope Z_scope.
#[local] Open Scope js_scope.

Class RoomTable (S V : Type) := {
  rt_id : V -> jstr;
  rt_get : S -> jstr -> jstr -> option V;
  rt_list : S -> jstr -> list V;
  rt_put : S -> jstr -> V -> S;
  rt_delete : S -> jstr -> jstr -> S;
}.

(** [LIMIT 129], [limit: 129] *)
Definition LIST_LIMIT : nat := Z.to_nat 129.

Definition valid_room (room : jstr) : Prop := validRoom (JStr room) = true.

Class RoomTableLaws (S V : Type) `{RoomTable S V} := {
  rt_rows : S -> jstr -> list V;
  rt_wf : S -> Prop;
  rl_list : forall s room, rt_wf s -> rt_list s room = take LIST_LIMIT (rt_rows s room);
  rl_nodup : forall s room, rt_wf s -> valid_room room -> NoDup (rt_id <$> rt_rows s room);
  rl_get : forall s room id row, rt_wf s -> valid_room room ->
    rt_get s room id = Some row <-> row ∈ rt_rows s room /\ rt_id row = id;
  rl_put : forall s room row, rt_wf s -> valid_room room ->
    rt_wf (rt_put s room row) /\
    Permutation (rt_rows (rt_put s room row) room)
      (row :: filter (fun r => rt_id r <> rt_id row) (rt_rows s room)) /\
    (forall room', room' <> room -> valid_room room' ->
       Permutation (rt_rows (rt_put s room row) room') (rt_rows s room'));
  rl_delete : forall s room id, rt_wf s -> valid_room room ->
    rt_wf (rt_delete s room id) /\
    rt_rows (rt_delete s room id) room = filter (fun r => rt_id r <> id) (rt_rows s room) /\
    (forall room', room' <> room -> valid_room room' -> rt_rows (rt_delete s room id) room' = rt_rows s room');
}.

Lemma room_no_colon room : valid_room room -> no_colon room.
Proof. by apply class_no_colon. Qed.

Section Derived.
Context {S V : Type} `{RoomTableLaws S V}.

Lemma rt_get_put s room row id :
  rt_wf s -> valid_room room ->
  rt_get (rt_put s room row) room id = if decide (id = rt_id row) then Some row else rt_get s room id.
Proof.
  intros Hwf Hr. destruct (rl_put s room row Hwf Hr) as (Hwf' & Hp & _).
  assert (forall r, rt_get (rt_put s room row) room id = Some r <->
    (if decide (id = rt_id row) then Some row else rt_get s room id) = Some r) as Hiff.
  { intros r. rewrite rl_get, Hp, elem_of_cons, list_elem_of_filter by done.
    destruct (decide (id = rt_id row)) as [->|Hn].
    - naive_solver.
    - rewrite rl_get by done. naive_solver. }
  destruct (rt_get (rt_put s room row) room id) as [r|].
  - symmetry. by apply Hiff.
  - destruct (if decide _ then _ else _) as [r|]; [|done]. by apply Hiff.
Qed.

Lemma rt_get_delete s room id id' :
  rt_wf s -> valid_room room ->
  rt_get (rt_delete s room id) room id' = if decide (id' = id) then None else rt_get s room id'.
Proof.
  intros Hwf Hr. destruct (rl_delete s room id Hwf Hr) as (Hwf' & Hp & _).
  assert (forall r, rt_get (rt_delete s room id) room id' = Some r <->
    (if decide (id' = id) then None else rt_get s room id') = Some r) as Hiff.
  { intros r. rewrite rl_get, Hp, list_elem_of_filter by done.
    destruct (decide (id' = id)) as [->|Hn]; [naive_solver|]. rewrite rl_get by done. naive_solver. }
  destruct (rt_get (rt_delete s room id) room id') as [r|].
  - symmetry. by apply Hiff.
  - destruct (if decide _ then _ else _) as [r|]; [|done]. by apply Hiff.
Qed.

(** Other rooms are not affected by a write. *)
Lemma rt_get_other s s' room' id :
  rt_wf s -> rt_wf s' -> valid_room room' -> (forall r, r ∈ rt_rows s' room' <-> r ∈ rt_rows s room') ->
  rt_get s' room' id = rt_get s room' id.
Proof.
  intros Hwf Hwf' Hr Heq.
  assert (forall r, rt_get s' room' id = Some r <-> rt_get s room' id = Some r) as Hiff
    by (intros r; rewrite !rl_get by done; by rewrite Heq).
  destruct (rt_get s' room' id) as [r|]; [symmetry; by apply Hiff|].
  destruct (rt_get s room' id) as [r|]; [|done]. by apply Hiff.
Qed.

Lemma find_by_id (l : list V) (id : jstr) :
  NoDup (rt_id <$> l) ->
  Permutation l (match List.find (fun r => rt_id r =?s id) l with Some p => [p] | None => [] end
                 ++ filter (fun r => rt_id r <> id) l).
Proof.
  induction l as [|r l IH]; simpl; intros Hnd; [done|]. apply NoDup_cons in Hnd as [Hn Hnd].
  rewrite filter_cons. unfold jeqb at 1. case_bool_decide as E.
  - rewrite decide_False by (by intros Hx). simpl. constructor.
    assert (filter (fun r => rt_id r <> id) l = l) as ->; [|done]. subst id. clear -Hn.
    induction l as [|r' l IH]; [done|]. rewrite filter_cons, decide_True by set_solver.
    f_equal. apply IH. set_solver.
  - rewrite decide_True by done. rewrite (IH Hnd) at 1. by rewrite Permutation_middle.
Qed.

(** Deleting every row of a list that satisfies a test, as the adapters' clean-up loops do. *)
Definition drop_rows (drop : V -> bool) (room : jstr) (l : list V) (s : S) : S :=
  fold_left (fun s old => if drop old then rt_delete s room (rt_id old) else s) l s.

Lemma drop_rows_spec (drop : V -> bool) room l s :
  rt_wf s -> valid_room room ->
  let s1 := drop_rows drop room l s in
  rt_wf s1 /\
  rt_rows s1 room = filter (fun r => Forall (fun old => drop old = true -> rt_id r <> rt_id old) l) (rt_rows s room) /\
  (forall room', room' <> room -> valid_room room' -> rt_rows s1 room' = rt_rows s room').
Proof.
  intros Hwf Hr. unfold drop_rows. revert s Hwf. induction l as [|old l IH]; intros s Hwf; simpl.
  - split; [done|]. split; [|done]. rewrite filter_always; [done|]. constructor.
  - destruct (drop old) eqn:Hx.
    + destruct (rl_delete s room (rt_id old) Hwf Hr) as (Hwf1 & Hown & Hother).
      destruct (IH _ Hwf1) as (Hwf2 & Hown2 & Hother2). split; [done|]. split.
      * rewrite Hown2, Hown, list_filter_filter. apply list_filter_iff. intros r.
        rewrite Forall_cons, Hx. split; intros [H1 H2]; split; auto.
      * intros room' Hn Hr'. by rewrite Hother2, Hother.
    + destruct (IH _ Hwf) as (Hwf2 & Hown2 & Hother2). split; [done|]. split; [|done].
      rewrite Hown2. apply list_filter_iff. intros r. rewrite Forall_cons, Hx.
      split; [intros H1; by split|by intros [_ H1]].
Qed.

(** Dropping from the whole room leaves the rows that do not satisfy the test. *)
Lemma drop_all_rows (drop : V -> bool) room s :
  rt_wf s -> valid_room room ->
  rt_rows (drop_rows drop room (rt_rows s room) s) room = filter (fun r => negb (drop r)) (rt_rows s room).
Proof.
  intros Hwf Hr. destruct (drop_rows_spec drop room (rt_rows s room) s Hwf Hr) as (_ & -> & _).
  pose proof (rl_nodup s room Hwf Hr) as Hnd. apply filter_ext_in. intros r Hin.
  rewrite Is_true_true, negb_true_iff, Forall_forall. split.
  - intros HF. destruct (drop r) eqn:Hx; [|done]. by destruct (HF r Hin Hx).
  - intros Hx old Hold Hdrop E. assert (r = old) as ->; [|congruence].
    apply list_elem_of_lookup in Hin as [i Hi], Hold as [j Hj].
    assert (i = j) as ->; [|congruence].
    eapply NoDup_lookup; [exact Hnd| |]; rewrite list_lookup_fmap; [by rewrite Hi|by rewrite Hj, E].
Qed.
End Derived.

(** ** SQLite *)

Section SqlTable.
Context {V : Type} (idof : V -> jstr).
Implicit Types (s : list ((jstr * jstr) * V)).

Definition sql_rows s (room : jstr) : list V := snd <$> filter (fun e => e.1.1 = room) s.

Definition sql_table : RoomTable (list ((jstr * jstr) * V)) V := {|
  rt_id := idof;
  rt_get s room id := map_get (room, id) s;
  rt_list s room := take LIST_LIMIT (sql_rows s room);
  rt_put s room row := map_set (room, idof row) row s;
  rt_delete s room id := map_delete (room, id) s;
|}.

Record sql_wf s : Prop := { sql_keys : NoDup s.*1; sql_ids : Forall (fun e => e.1.2 = idof e.2) s }.

Lemma sql_sublist s s' : s' `sublist_of` s -> sql_wf s -> sql_wf s'.
Proof.
  intros Hs [Hk Hr]. constructor; [|by eapply sublist_Forall].
  eapply sublist_NoDup; [done|]. by apply (sublist_keys s' s).
Qed.

Lemma sql_rows_nodup s room : sql_wf s -> NoDup (idof <$> sql_rows s room).
Proof.
  intros [Hk Hr]. unfold sql_rows. induction s as [|[[r i] row] s IH]; [constructor|].
  apply NoDup_cons in Hk as [Hn Hk]. apply Forall_cons in Hr as [Hi Hr]. simpl in *.
  rewrite filter_cons. case_decide as Hroom; simpl in *; [|auto]. constructor; [|auto].
  intros Hin. apply Hn. apply list_elem_of_fmap in Hin as (row' & E & Hin).
  apply list_elem_of_fmap in Hin as ([[r' i'] row''] & -> & Hin). simpl in E.
  apply list_elem_of_filter in Hin as [E' Hin]. simpl in E'. subst r' r.
  rewrite Forall_forall in Hr. pose proof (Hr _ Hin) as Hi'. simpl in Hi'. subst i'.
  apply list_elem_of_fmap. exists ((room, idof row''), row''). split; [|done]. simpl. by rewrite Hi, E.
Qed.

Lemma sql_delete_rows s room id room' :
  sql_wf s ->
  sql_rows (map_delete (room, id) s) room' = filter (fun r => room' = room -> idof r <> id) (sql_rows s room').
Proof.
  intros [_ Hr]. unfold sql_rows, map_delete. induction s as [|[[r i] row] s IH]; [done|].
  apply Forall_cons in Hr as [Hi Hr]. specialize (IH Hr). simpl in Hi. subst i.
  rewrite !filter_cons. simpl. destruct (decide (r = room')) as [->|Hn].
  - rewrite fmap_cons, filter_cons. simpl. destruct (decide (room' = room -> idof row <> id)) as [H1|H1].
    + rewrite decide_True by naive_solver. rewrite filter_cons. simpl. rewrite decide_True by done. simpl.
      f_equal. exact IH.
    + rewrite decide_False by naive_solver. exact IH.
  - destruct (decide ((r, idof row) <> (room, id))); [|exact IH].
    rewrite filter_cons. simpl. rewrite decide_False by done. exact IH.
Qed.

Lemma sql_put_laws s room row :
  sql_wf s ->
  sql_wf (map_set (room, idof row) row s) /\
  Permutation (sql_rows (map_set (room, idof row) row s) room)
    (row :: filter (fun r => idof r <> idof row) (sql_rows s room)) /\
  (forall room', room' <> room -> Permutation (sql_rows (map_set (room, idof row) row s) room') (sql_rows s room')).
Proof.
  intros Hwf. pose proof Hwf as [Hk Hr]. pose proof (map_set_perm (room, idof row) row s Hk) as Hp.
  split; [|split].
  - constructor; [by apply map_set_nodup|]. rewrite Hp. constructor; [done|].
    eapply sublist_Forall; [apply map_delete_sublist|done].
  - unfold sql_rows at 1. rewrite Hp, filter_cons, decide_True by done. rewrite fmap_cons. constructor.
    fold (sql_rows (map_delete (room, idof row) s) room). rewrite sql_delete_rows by done.
    erewrite filter_ext_in; [done|]. intros r _. naive_solver.
  - intros room' Hn. unfold sql_rows at 1. rewrite Hp, filter_cons, decide_False by (simpl; congruence).
    fold (sql_rows (map_delete (room, idof row) s) room'). rewrite sql_delete_rows by done.
    by rewrite filter_always by (intros r ?; congruence).
Qed.

Lemma sql_delete_laws s room id :
  sql_wf s ->
  sql_wf (map_delete (room, id) s) /\
  sql_rows (map_delete (room, id) s) room = filter (fun r => idof r <> id) (sql_rows s room) /\
  (forall room', room' <> room -> sql_rows (map_delete (room, id) s) room' = sql_rows s room').
Proof.
  intros Hwf. split; [|split].
  - eapply sql_sublist; [apply map_delete_sublist|done].
  - rewrite sql_delete_rows by done. apply filter_ext_in. intros r _. naive_solver.
  - intros room' Hn. rewrite sql_delete_rows by done. by rewrite filter_always by (intros r ?; congruence).
Qed.

Lemma sql_get_iff s room id row :
  sql_wf s -> map_get (room, id) s = Some row <-> row ∈ sql_rows s room /\ idof row = id.
Proof.
  intros [Hk Hr]. rewrite Forall_forall in Hr. split.
  - intros Hg%map_get_Some. pose proof (Hr _ Hg) as Hi. simpl in Hi. split; [|done].
    apply list_elem_of_fmap. exists ((room, id), row). split; [done|]. by apply list_elem_of_filter.
  - intros [Hin <-]. apply list_elem_of_fmap in Hin as ([[r i] row'] & -> & Hin).
    apply list_elem_of_filter in Hin as [E Hin]. simpl in *. subst r. pose proof (Hr _ Hin) as Hi.
    simpl in Hi. subst i. by apply map_get_In.
Qed.

Definition sql_laws : @RoomTableLaws (list ((jstr * jstr) * V)) V sql_table.
Proof.
  refine (Build_RoomTableLaws _ _ sql_table sql_rows sql_wf _ _ _ _ _); simpl.
  - done.
  - intros s room Hwf _. by apply sql_rows_nodup.
  - intros s room id row Hwf _. by apply sql_get_iff.
  - intros s room row Hwf _. destruct (sql_put_laws s room row Hwf) as (H1 & H2 & H3). auto.
  - intros s room id Hwf _. destruct (sql_delete_laws s room id Hwf) as (H1 & H2 & H3). auto.
Defined.
End SqlTable.

(** ** Durable Object storage *)

Section DoTable.
Context {V : Type} (idof : V -> jstr) (space : jstr).
Implicit Types (s : list (jstr * V)).

Definition do_prefix (room : jstr) : jstr := space +++ room +++ ":".
Definition do_key (room id : jstr) : jstr := space +++ room +++ ":" +++ id.

Definition do_rows s (room : jstr) : list V := snd <$> filter (fun e => starts_with (do_prefix room) e.1) s.

Definition do_table : RoomTable (list (jstr * V)) V := {|
  rt_id := idof;
  rt_get s room id := storage_get (do_key room id) s;
  rt_list s room := snd <$> storage_list (do_prefix room) None (Some LIST_LIMIT) s;
  rt_put s room row := storage_put (do_key room (idof row)) row s;
  rt_delete s room id := storage_delete (do_key room id) s;
|}.

Definition do_entry (e : jstr * V) : Prop := exists room, valid_room room /\ e.1 = do_key room (idof e.2).

Record do_wf s : Prop := { do_sorted : sorted s; do_entries : Forall do_entry s }.

Lemma entry_room e room :
  do_entry e -> valid_room room ->
  Is_true (starts_with (do_prefix room) e.1) <-> e.1 = do_key room (idof e.2).
Proof.
  intros (room0 & Hr0 & ->) Hr. rewrite Is_true_true. unfold do_prefix, do_key.
  rewrite key_prefix, key_inj by auto using room_no_colon. naive_solver.
Qed.

Lemma do_rows_nodup s room : do_wf s -> valid_room room -> NoDup (idof <$> do_rows s room).
Proof.
  intros [Hs Hr] Hroom. apply sorted_nodup in Hs. unfold do_rows.
  induction Hr as [|e s He Hr IH]; [constructor|]. apply NoDup_cons in Hs as [Hn Hs].
  rewrite filter_cons. case_decide as Hp; [|auto]. simpl. constructor; [|auto].
  intros Hin. apply Hn. apply list_elem_of_fmap in Hin as (row & E & Hin).
  apply list_elem_of_fmap in Hin as (e' & -> & Hin). apply list_elem_of_filter in Hin as [Hp' Hin].
  rewrite Forall_forall in Hr. apply (entry_room e room He Hroom) in Hp.
  apply (entry_room e' room (Hr e' Hin) Hroom) in Hp'.
  apply list_elem_of_fmap. exists e'. split; [congruence|done].
Qed.

Lemma do_delete_rows s room id room' :
  Forall do_entry s -> valid_room room -> valid_room room' ->
  do_rows (storage_delete (do_key room id) s) room'
  = filter (fun r => room' = room -> idof r <> id) (do_rows s room').
Proof.
  intros Hr Hroom Hroom'. unfold do_rows, storage_delete, map_delete.
  induction Hr as [|e s He Hr IH]; [done|]. rewrite !filter_cons.
  pose proof (entry_room e room' He Hroom') as Hiff.
  destruct (decide (Is_true (starts_with (do_prefix room') e.1))) as [Hp|Hp].
  - apply Hiff in Hp as Ek. rewrite fmap_cons, filter_cons.
    destruct (decide (e.1 <> do_key room id)) as [H1|H1].
    + rewrite filter_cons, decide_True by done. rewrite decide_True; [rewrite fmap_cons; f_equal; exact IH|].
      intros -> E. apply H1. congruence.
    + rewrite decide_False; [exact IH|]. intros Hx. apply H1. intros Ek'. rewrite Ek in Ek'.
      unfold do_key in Ek'. apply key_inj in Ek' as [-> Ei]; [|by apply room_no_colon..]. by apply Hx.
  - destruct (decide (e.1 <> do_key room id)); [|exact IH]. rewrite filter_cons, decide_False by done. exact IH.
Qed.

Lemma do_delete_wf k s : do_wf s -> do_wf (storage_delete k s).
Proof.
  intros [Hs Hr]. constructor; simpl; [by apply storage_delete_sorted|].
  eapply sublist_Forall; [apply map_delete_sublist|done].
Qed.

Lemma do_put_laws s room row :
  do_wf s -> valid_room room ->
  do_wf (storage_put (do_key room (idof row)) row s) /\
  Permutation (do_rows (storage_put (do_key room (idof row)) row s) room)
    (row :: filter (fun r => idof r <> idof row) (do_rows s room)) /\
  (forall room', room' <> room -> valid_room room' ->
     Permutation (do_rows (storage_put (do_key room (idof row)) row s) room') (do_rows s room')).
Proof.
  intros [Hs Hr] Hroom. pose proof (storage_put_perm (do_key room (idof row)) row s Hs) as Hp.
  assert (forall room', valid_room room' ->
    Is_true (starts_with (do_prefix room') (do_key room (idof row))) <-> room' = room) as Hiff
    by (intros room' Hroom'; rewrite Is_true_true; apply key_prefix; by apply room_no_colon).
  split; [|split].
  - constructor; simpl; [by apply storage_put_sorted|]. apply storage_put_Forall; [by exists room|done].
  - unfold do_rows at 1. rewrite Hp, filter_cons, decide_True by by apply Hiff.
    rewrite fmap_cons. constructor. fold (do_rows (storage_delete (do_key room (idof row)) s) room).
    rewrite do_delete_rows by done. erewrite filter_ext_in; [done|]. intros r _. naive_solver.
  - intros room' Hn Hroom'. unfold do_rows at 1. rewrite Hp, filter_cons, decide_False by by rewrite Hiff.
    fold (do_rows (storage_delete (do_key room (idof row)) s) room').
    rewrite do_delete_rows by done. by rewrite filter_always by (intros r ?; congruence).
Qed.

Lemma do_get_iff s room id row :
  do_wf s -> valid_room room ->
  storage_get (do_key room id) s = Some row <-> row ∈ do_rows s room /\ idof row = id.
Proof.
  intros [Hs Hr] Hroom. rewrite Forall_forall in Hr. unfold storage_get. split.
  - intros Hg%map_get_Some. pose proof (Hr _ Hg) as (room0 & Hr0 & E). simpl in E. pose proof E as E'.
    unfold do_key in E'. apply key_inj in E' as [<- Ei]; [|by apply room_no_colon..]. split; [|done].
    apply list_elem_of_fmap. exists (do_key room id, row). split; [done|]. apply list_elem_of_filter.
    split; [|done]. by apply (entry_room _ room (Hr _ Hg)).
  - intros [Hin <-]. apply list_elem_of_fmap in Hin as (e & -> & Hin).
    apply list_elem_of_filter in Hin as [Hp Hin].
    apply (entry_room e room (Hr e Hin) Hroom) in Hp. apply map_get_In; [by apply sorted_nodup|].
    rewrite <- Hp. by destruct e.
Qed.

Definition do_laws : @RoomTableLaws (list (jstr * V)) V do_table.
Proof.
  refine (Build_RoomTableLaws _ _ do_table do_rows do_wf _ _ _ _ _); simpl.
  - intros s room Hwf. unfold storage_list, do_rows. rewrite <- fmap_take.
    f_equal. f_equal. apply filter_ext_in. intros e _. by rewrite andb_true_r.
  - apply do_rows_nodup.
  - apply do_get_iff.
  - apply do_put_laws.
  - intros s room id Hwf Hroom. split; [by apply do_delete_wf|]. destruct Hwf as [_ Hr]. split.
    + rewrite do_delete_rows by done. apply filter_ext_in. intros r _. naive_solver.
    + intros room' Hn Hroom'. rewrite do_delete_rows by done. by rewrite filter_always by (intros r ?; congruence).
Defined.
End DoTable.
