(* ===== verification/Configurations.v ===== *)
(** * Encrypted Project configurations
    [src/taskDispatch/configurations/index.js], [node.js] and [worker.js].

    [TaskConfigurations] validates and works through an adapter: a [RoomTable]
    with a [maintain] operation ([ConfigAdapter], [ConfigLaws]).  The SQLite table
    and the Durable Object storage implement it, so the capacity theorem is
    proved once and holds for both. *)

From S2P Require Import Prelude Base64 Validation Storage RoomTable TaskJobs.
From Stdlib Require Import Permutation.
#[local] Open Scope bool_scope.
#[local] Open Scope Z_scope.
#[local] Open Scope js_scope.

Definition CONFIGURATION_BYTES : Z := 96000.
Definition configuration_ttl : Z := 30 * 86400000.
Definition CONFIGURATION_LIMIT : Z := 128.
Definition ROOM_CONFIGURATION_BYTES : Z := 8000000.

Record configuration := {
  cf_id : jstr; cf_issuerKeyId : jstr; cf_expiresAt : Z; cf_envelope : jsv; cf_bytes : Z; cf_updatedAt : Z;
}.

Definition validId (id : jsv) : bool := match id with JStr s => hex64 s | _ => false end.

Record visible_configuration := {
  vc_id : jstr; vc_issuerKeyId : jstr; vc_expiresAt : Z; vc_envelope : jsv; vc_updatedAt : Z;
}.
Definition visible (row : configuration) : visible_configuration :=
  {| vc_id := cf_id row; vc_issuerKeyId := cf_issuerKeyId row; vc_expiresAt := cf_expiresAt row;
     vc_envelope := cf_envelope row; vc_updatedAt := cf_updatedAt row |}.

Inductive config_result :=
| ConfigError (status : Z) (error : jstr)
| ConfigOk (status : Z).

Definition configurationCapacity (rows : list configuration) (next : configuration) (now : Z) : config_result :=
  let active := filter (fun row => now <? cf_expiresAt row) rows in
  let previous := List.find (fun row => cf_id row =?s cf_id next) active in
  if negb (bool_decide (is_Some previous)) && (CONFIGURATION_LIMIT <=? Z.of_nat (length active))
     || (ROOM_CONFIGURATION_BYTES <?
         sum_by cf_bytes active - match previous with Some p => cf_bytes p | None => 0 end + cf_bytes next)
  then ConfigError 429 "configuration capacity reached"
  else ConfigOk (match previous with Some _ => 200 | None => 201 end).

(** ** The adapter interface *)

Class ConfigAdapter (S : Type) := {
  #[global] config_rows :: RoomTable S configuration;
  ca_maintain : S -> Z -> S * option Z;
}.

Section TaskConfigurations.
Context {S : Type} `{ConfigAdapter S}.

(** [current] and [commit] read the same in both adapters, each in a transaction. *)
Definition current (s : S) (room id : jstr) (now : Z) : option configuration * S :=
  match rt_get s room id with
  | Some row => if cf_expiresAt row <=? now then (None, rt_delete s room id) else (Some row, s)
  | None => (None, s)
  end.

Definition expired (now : Z) (row : configuration) : bool := cf_expiresAt row <=? now.

Definition commit (s : S) (room : jstr) (row : configuration) (now : Z) : config_result * S :=
  let rows := rt_list s room in
  let s1 := drop_rows (expired now) room rows s in
  match configurationCapacity rows row now with
  | ConfigOk status => (ConfigOk status, rt_put s1 room row)
  | ConfigError status error => (ConfigError status error, s1)
  end.

Definition validConfiguration (room : jstr) (id body : jsv) (now : Z) : res bool :=
  let envelope := get "envelope" body in
  let expiresAt := get "expiresAt" body in
  if negb (validId id) || negb (truthy body)
     || existsb (fun key => negb (bool_decide (key ∈ ["issuerKeyId"; "expiresAt"; "envelope"]%js))) (keys body)
     || negb (validId (get "issuerKeyId" body)) || negb (is_safe_int expiresAt) || (int_of expiresAt <=? now)
     || (now + configuration_ttl <? int_of expiresAt) || negb (is_int (get "expiresAt" envelope) (int_of expiresAt))
     || negb (is_str (get "deliveryId" envelope) (str_of id)) || negb (is_str (get "to" envelope) "machine")
     || negb (validId (get "recipientKeyId" envelope))
  then Ok false
  else validEnvelope envelope room now (Some configuration_ttl).

Definition put (s : S) (room : jstr) (id body : jsv) (now : Z)
  : res (config_result * option visible_configuration * S) :=
  let* valid := validConfiguration room id body now in
  if negb valid then Ok (ConfigError 400 "invalid encrypted Project configuration", None, s) else
  let bytes := json_bytes body in
  if CONFIGURATION_BYTES <? bytes then Ok (ConfigError 400 "configuration exceeds its bound", None, s) else
  let row := {| cf_id := str_of id; cf_issuerKeyId := str_of (get "issuerKeyId" body);
                cf_expiresAt := int_of (get "expiresAt" body); cf_envelope := get "envelope" body;
                cf_bytes := bytes; cf_updatedAt := now |} in
  match commit s room row now with
  | (ConfigOk status, s1) => Ok (ConfigOk status, Some (visible row), s1)
  | (ConfigError status error, s1) => Ok (ConfigError status error, None, s1)
  end.

Definition get_configuration (s : S) (room : jstr) (id : jsv) (now : Z) : option visible_configuration * S :=
  if negb (validId id) then (None, s) else
  let '(row, s1) := current s room (str_of id) now in (visible <$> row, s1).
End TaskConfigurations.

(** What the theorems need of an adapter. *)
Class ConfigLaws (S : Type) `{!ConfigAdapter S} := {
  #[global] config_laws :: RoomTableLaws S configuration;
  cl_id : forall row : configuration, rt_id row = cf_id row;
  cl_maintain : forall s now room, rt_wf s -> rt_wf (ca_maintain s now).1 /\
    rt_rows (ca_maintain s now).1 room `sublist_of` rt_rows s room;
}.

Section Capacity.
Context {S : Type} `{ConfigLaws S}.

Definition room_bounded (s : S) (room : jstr) : Prop :=
  Z.of_nat (length (rt_rows s room)) <= CONFIGURATION_LIMIT /\
  Forall (fun row => 0 <= cf_bytes row) (rt_rows s room) /\
  sum_by cf_bytes (rt_rows s room) <= ROOM_CONFIGURATION_BYTES.

Definition configs_bounded (s : S) : Prop :=
  rt_wf s /\ forall room, valid_room room -> room_bounded s room.

Lemma room_bounded_sublist s s' room :
  rt_rows s' room `sublist_of` rt_rows s room -> room_bounded s room -> room_bounded s' room.
Proof.
  intros Hs (Hl & Hp & Hb). split_and!.
  - apply sublist_length in Hs. lia.
  - by eapply sublist_Forall.
  - etrans; [by apply sum_by_sublist|done].
Qed.

Lemma delete_bounded s room id :
  configs_bounded s -> valid_room room -> configs_bounded (rt_delete s room id).
Proof.
  intros [Hwf Hb] Hr. destruct (rl_delete s room id Hwf Hr) as (Hwf' & Hown & Hother).
  split; [done|]. intros room' Hr'. eapply room_bounded_sublist; [|by apply Hb].
  destruct (decide (room' = room)) as [->|Hn]; [rewrite Hown; apply sublist_filter|].
  by rewrite Hother.
Qed.

Lemma list_complete s room : configs_bounded s -> valid_room room -> rt_list s room = rt_rows s room.
Proof.
  intros [Hwf Hb] Hr. rewrite rl_list by done. destruct (Hb room Hr) as (Hl & _).
  apply take_ge. unfold CONFIGURATION_LIMIT, LIST_LIMIT in *. lia.
Qed.

Lemma active_expired now (l : list configuration) :
  filter (fun r => negb (expired now r)) l = filter (fun row => now <? cf_expiresAt row) l.
Proof.
  apply filter_ext_in. intros r _. unfold expired.
  destruct (Z.leb_spec (cf_expiresAt r) now), (Z.ltb_spec now (cf_expiresAt r)); simpl; lia || done.
Qed.

Lemma commit_bounded s room row now :
  configs_bounded s -> valid_room room -> 0 <= cf_bytes row ->
  configs_bounded (commit s room row now).2.
Proof.
  intros Hbd Hr Hpos. pose proof Hbd as [Hwf Hb]. unfold commit. rewrite list_complete by done.
  destruct (drop_rows_spec (expired now) room (rt_rows s room) s Hwf Hr) as (Hwf1 & _ & Hother).
  pose proof (drop_all_rows (expired now) room s Hwf Hr) as Hrows. rewrite active_expired in Hrows.
  set (s1 := drop_rows _ _ _ s) in *.
  assert (configs_bounded s1) as Hbd1.
  { split; [done|]. intros room' Hr'. eapply room_bounded_sublist; [|by apply Hb].
    destruct (decide (room' = room)) as [->|Hn]; [rewrite Hrows; apply sublist_filter|by rewrite Hother]. }
  unfold configurationCapacity. set (active := filter _ (rt_rows s room)) in *.
  set (previous := List.find _ active). destruct (_ || _) eqn:Ecap; simpl; [done|].
  destruct (rl_put s1 room row Hwf1 Hr) as (Hwf2 & Hp & Hp').
  split; [done|]. intros room' Hr'. destruct Hbd1 as [_ Hb1].
  destruct (decide (room' = room)) as [->|Hn].
  2: { specialize (Hp' room' Hn Hr'). destruct (Hb1 room' Hr') as (Hl & HF & Hs). split_and!.
       - by rewrite Hp'.
       - by rewrite Hp'.
       - by rewrite (sum_by_perm _ _ _ Hp'). }
  destruct (Hb1 room Hr) as (Hl & HF & Hs). rewrite Hrows in Hp, Hl, HF, Hs.
  pose proof (find_by_id active (cf_id row)) as Hfind.
  assert (List.find (fun r => rt_id r =?s cf_id row) active = previous) as Epre
    by (unfold previous; clear; induction active as [|r l IH]; simpl; [done|by rewrite cl_id, IH]).
  rewrite Epre, cl_id in *.
  specialize (Hfind ltac:(unfold active; eapply sublist_NoDup; [by apply (rl_nodup s room)|];
    apply sublist_fmap, sublist_filter)).
  set (rest := filter _ active) in *.
  pose proof (Permutation_length Hp) as Hlen. pose proof (sum_by_perm cf_bytes _ _ Hp) as Hsum.
  pose proof (Permutation_length Hfind) as Hlen'. pose proof (sum_by_perm cf_bytes _ _ Hfind) as Hsum'.
  rewrite length_app in Hlen'. rewrite sum_by_app in Hsum'. simpl in *. split_andb. reflect_bools.
  split_and!.
  - rewrite Hlen. destruct previous as [p|]; simpl in *; [lia|]. reflect_bools. lia.
  - rewrite Hp. constructor; [done|]. eapply sublist_Forall; [apply sublist_filter|exact HF].
  - rewrite Hsum. destruct previous as [p|]; simpl in *; lia.
Qed.

Lemma put_bounded s room id body now result view s' :
  configs_bounded s -> valid_room room -> put s room id body now = Ok (result, view, s') ->
  configs_bounded s'.
Proof.
  intros Hbd Hr. unfold put. destruct (validConfiguration room id body now) as [[]|]; simpl; [|by intros [= _ _ <-]|done].
  destruct (_ <? _); [by intros [= _ _ <-]|]. set (row := {| cf_id := _ |}).
  pose proof (commit_bounded s room row now Hbd Hr (byte_length_nonneg _)) as Hc.
  destruct (commit s room row now) as [[st e|st] s1]; by intros [= _ _ <-].
Qed.

Lemma current_bounded s room id now :
  configs_bounded s -> valid_room room -> configs_bounded (current s room id now).2.
Proof.
  intros Hb Hr. unfold current. destruct (rt_get s room id); [|done].
  destruct (_ <=? _); simpl; [by apply delete_bounded|done].
Qed.

(** Requests of the room's owner and the periodic maintenance. *)
Inductive config_op :=
| CPut (room : jstr) (id body : jsv)
| CGet (room : jstr) (id : jsv)
| CMaintain.

Definition config_room (op : config_op) : Prop :=
  match op with CPut room _ _ | CGet room _ => valid_room room | CMaintain => True end.

Definition config_exec (s : S) (now : Z) (op : config_op) : S :=
  match op with
  | CPut room id body => match put s room id body now with Ok (_, _, s') => s' | Throw => s end
  | CGet room id => (get_configuration s room id now).2
  | CMaintain => (ca_maintain s now).1
  end.

Fixpoint config_run (s : S) (trace : list (Z * config_op)) : S :=
  match trace with [] => s | (now, op) :: rest => config_run (config_exec s now op) rest end.

Lemma config_run_bounded s trace :
  configs_bounded s -> Forall (fun p => config_room p.2) trace -> configs_bounded (config_run s trace).
Proof.
  intros Hb HF. revert s Hb. induction HF as [|[now op] t Hop _ IH]; intros s Hb; simpl in *; [done|].
  apply IH. destruct op as [room id body|room id|]; simpl in *.
  - destruct (put s room id body now) as [[[r v] s']|] eqn:E; [|done]. by eapply put_bounded.
  - unfold get_configuration. destruct (negb (validId id)); [done|].
    pose proof (current_bounded s room (str_of id) now Hb Hop) as Hc.
    by destruct (current s room (str_of id) now).
  - destruct Hb as [Hwf Hb]. split; [apply (cl_maintain s now ""); done|].
    intros room Hr. eapply room_bounded_sublist; [|by apply Hb]. by apply cl_maintain.
Qed.

(** What is read is live: an expired configuration is never returned, and is removed. *)
Lemma current_live s room id now row : (current s room id now).1 = Some row -> now < cf_expiresAt row.
Proof.
  unfold current. destruct (rt_get s room id) as [r|]; [|done].
  destruct (Z.leb_spec (cf_expiresAt r) now); simpl; [done|]. by intros [= <-].
Qed.
End Capacity.

(** ** SQLite: the table [task_configurations] *)

(** [Math.min(next ?? Infinity, t)] *)
Definition least (next : option Z) (t : Z) : option Z :=
  Some (match next with Some u => Z.min u t | None => t end).

Abbreviation config_table := (list ((jstr * jstr) * configuration)).

Definition sql_maintain (s : config_table) (now : Z) : config_table * option Z :=
  let kept := filter (fun e => negb (expired now e.2)) s in
  (kept, fold_left (fun next e => least next (cf_expiresAt e.2)) kept None).

#[export] Instance node_configs : ConfigAdapter config_table :=
  {| config_rows := sql_table cf_id; ca_maintain := sql_maintain |}.

#[export] Program Instance node_config_laws : ConfigLaws config_table := {| config_laws := sql_laws cf_id |}.
Next Obligation. done. Qed.
Next Obligation.
  intros s now room Hwf. simpl. split.
  - eapply sql_sublist; [apply sublist_filter|done].
  - unfold sql_rows. apply sublist_fmap. rewrite list_filter_filter.
    rewrite (list_filter_iff _ (fun e => negb (expired now e.2) /\ e.1.1 = room)) by naive_solver.
    rewrite <- list_filter_filter. apply sublist_filter.
Qed.

(** ** Durable Object storage: the keys ["task-configuration:room:id"] *)

Abbreviation config_storage := (list (jstr * configuration)).

Definition config_space : jstr := "task-configuration:".

Definition config_maintain_step (now : Z) (acc : config_storage * option Z) (e : jstr * configuration)
  : config_storage * option Z :=
  if expired now e.2 then (storage_delete e.1 acc.1, acc.2) else (acc.1, least acc.2 (cf_expiresAt e.2)).

Definition do_maintain (s : config_storage) (now : Z) : config_storage * option Z :=
  fold_left (config_maintain_step now) (storage_list config_space None (Some LIST_LIMIT) s) (s, None).

#[export] Instance worker_configs : ConfigAdapter config_storage :=
  {| config_rows := do_table cf_id config_space; ca_maintain := do_maintain |}.

Lemma do_maintain_sublist now l entries next :
  let entries' := (fold_left (config_maintain_step now) l (entries, next)).1 in
  entries' `sublist_of` entries /\ (do_wf cf_id config_space entries -> do_wf cf_id config_space entries').
Proof.
  revert entries next. induction l as [|e l IH]; intros entries next; simpl; [done|].
  unfold config_maintain_step at 2 4. simpl. case_match; [|apply IH].
  destruct (IH (storage_delete e.1 entries) next) as [H1 H2]. split.
  - etrans; [exact H1|apply map_delete_sublist].
  - intros Hwf. apply H2. by apply do_delete_wf.
Qed.

Lemma filter_sublist {A} (P : A -> Prop) `{!forall x, Decision (P x)} (l1 l2 : list A) :
  l1 `sublist_of` l2 -> filter P l1 `sublist_of` filter P l2.
Proof.
  induction 1 as [|x l1 l2 Hs IH|x l1 l2 Hs IH]; [done|..]; rewrite !filter_cons; case_decide;
    first [exact IH|by constructor].
Qed.

#[export] Program Instance worker_config_laws : ConfigLaws config_storage :=
  {| config_laws := do_laws cf_id config_space |}.
Next Obligation. done. Qed.
Next Obligation.
  intros s now room Hwf. simpl.
  destruct (do_maintain_sublist now (storage_list config_space None (Some LIST_LIMIT) s) s None) as [Hs Hw].
  fold (do_maintain s now) in Hs, Hw. split; [by apply Hw|]. unfold do_rows. by apply sublist_fmap, filter_sublist.
Qed.

(** ** The capacity holds in both runtimes *)

Lemma empty_table_bounded : configs_bounded (S := config_table) [].
Proof. split; [constructor; constructor|]. intros room _. split_and!; simpl; done. Qed.

Lemma empty_storage_bounded : configs_bounded (S := config_storage) [].
Proof. split; [constructor; constructor|]. intros room _. split_and!; simpl; done. Qed.

(** Configurations are bounded in both runtimes: after any sequence of
    writes, reads and maintenance for valid rooms, each room holds at most 128
    configurations of at most 8,000,000 bytes in total, in the SQLite table and
    in the Durable Object storage alike. *)
Theorem configurations_bounded (trace : list (Z * config_op)) (room : jstr) :
  Forall (fun p => config_room p.2) trace -> valid_room room ->
  let table := config_run (S := config_table) [] trace in
  let storage := config_run (S := config_storage) [] trace in
  Z.of_nat (length (rt_rows table room)) <= 128 /\ sum_by cf_bytes (rt_rows table room) <= 8000000 /\
  Z.of_nat (length (rt_rows storage room)) <= 128 /\ sum_by cf_bytes (rt_rows storage room) <= 8000000.
Proof.
  intros HF Hr table storage.
  destruct (config_run_bounded (S := config_table) [] trace empty_table_bounded HF) as [_ Ht].
  destruct (config_run_bounded (S := config_storage) [] trace empty_storage_bounded HF) as [_ Hs].
  destruct (Ht room Hr) as (H1 & _ & H2), (Hs room Hr) as (H3 & _ & H4).
  exact (conj H1 (conj H2 (conj H3 H4))).
Qed.

Definition sample_configuration (id : jstr) : jsv :=
  JObj [("issuerKeyId", JStr sample_token); ("expiresAt", JNum (NInt 100)); ("envelope",
    JObj [("v", JNum (NInt 1)); ("room", JStr "00112233445566778899"); ("from", JStr "phone");
     ("to", JStr "machine"); ("senderId", JStr "phone-1"); ("deliveryId", JStr id);
     ("expiresAt", JNum (NInt 100)); ("nonce", JStr "AAAAAAAAAAAAAAAAAAAAAAAAAAAAAAAA");
     ("box", JStr "AAAAAAAAAAAAAAAAAAAAAAAA"); ("recipientKeyId", JStr sample_token)])].

Lemma configurations_bounded_witness :
  let trace := [(5, CPut "00112233445566778899" (JStr sample_token) (sample_configuration sample_token));
                (7, CGet "00112233445566778899" (JStr sample_token)); (8, CMaintain)]%js in
  length (rt_rows (config_run (S := config_storage) [] trace) "00112233445566778899"%js) = 1%nat /\
  Z.of_nat (length (rt_rows (config_run (S := config_storage) [] trace) "00112233445566778899"%js)) <= 128.
Proof.
  intros trace. split; [vm_compute; reflexivity|].
  apply (configurations_bounded trace "00112233445566778899"); [|vm_compute; reflexivity].
  repeat constructor.
Defined.
