(* ===== verification/Writers.v ===== *)
(** * Delegated task writers
    [src/taskDispatch/writers/index.js], [node.js] and [worker.js].

    A writer grant names one recipient and a token digest; the room owner
    creates and revokes it.  Grants and resource reports are two [RoomTable]s;
    the SQLite adapter and the shared [commitWriterGrant] of the Worker are both
    given and shown to agree. *)

From S2P Require Import Prelude Base64 Validation Storage RoomTable TaskJobs.
From Stdlib Require Import Permutation.
#[local] Open Scope bool_scope.
#[local] Open Scope Z_scope.
#[local] Open Scope js_scope.

Record writer := {
  wt_id : jstr; wt_sourceKeyId : jstr; wt_recipientKeyId : jstr; wt_scopeHash : jstr; wt_tokenHash : jstr;
  wt_expiresAt : Z; wt_revokedAt : option Z;
}.
#[export] Instance writer_eq_dec : EqDecision writer.
Proof. solve_decision. Defined.

Record report := { rp_id : jstr; rp_envelope : jsv; rp_updatedAt : Z }.

Definition writer_lifetime : Z := 30 * 86400000.
Definition WRITER_LIMIT : Z := 128.

(** [typeof value === "string" && /^[a-f0-9]{64}$/.test(value)] *)
Definition is_digest (v : jsv) : bool := match v with JStr s => hex64 s | _ => false end.

(** [Math.min(row.expiresAt, row.revokedAt ?? Infinity) + 7 days] *)
Definition writerRetainedUntil (row : writer) : Z :=
  match wt_revokedAt row with Some t => Z.min (wt_expiresAt row) t | None => wt_expiresAt row end + 7 * 86400000.

Record public_writer := {
  pw_id : jstr; pw_sourceKeyId : jstr; pw_recipientKeyId : jstr; pw_scopeHash : jstr;
  pw_expiresAt : Z; pw_revokedAt : option Z;
}.
Definition publicWriter (row : writer) : public_writer :=
  {| pw_id := wt_id row; pw_sourceKeyId := wt_sourceKeyId row; pw_recipientKeyId := wt_recipientKeyId row;
     pw_scopeHash := wt_scopeHash row; pw_expiresAt := wt_expiresAt row; pw_revokedAt := wt_revokedAt row |}.

Inductive writer_result :=
| WriterError (status : Z) (error : jstr)
| WriterOk (status : Z) (view : public_writer)
| WriterRevoked
| ReportOk
| ReportFound (envelope : jsv) (updatedAt : Z).

(** [JSON.stringify(row) === JSON.stringify(previous)]: the members have a fixed order. *)
Definition existingWriter (previous row : writer) : writer_result :=
  if bool_decide (row = previous) then WriterOk 200 (publicWriter previous)
  else WriterError 409 "writer identity already exists".

(** [/^writer:(id):([a-f0-9]{64})$/.exec(credential)]: neither part contains a colon. *)
Fixpoint split_colon (l : list N) : option (list N * list N) :=
  match l with
  | [] => None
  | u :: rest =>
      if (u =? 58)%N then Some ([], rest)
      else match split_colon rest with Some (a, b) => Some (u :: a, b) | None => None end
  end.

Definition parse_writer (credential : jstr) : option (jstr * jstr) :=
  if starts_with "writer:" credential then
    match split_colon (drop 7 (units credential)) with
    | Some (id, token) => if re_job_id (JS id) && hex64 (JS token) then Some (JS id, JS token) else None
    | None => None
    end
  else None.

Definition GRANT_FIELDS : list jstr := ["sourceKeyId"; "recipientKeyId"; "scopeHash"; "tokenHash"; "expiresAt"].

Record grants (G R : Type) := Grants { gr_writers : G; gr_reports : R }.
Arguments Grants {G R} _ _.
Arguments gr_writers {G R} _.
Arguments gr_reports {G R} _.

Section TaskWriterGrants.
Context (sha256 : jstr -> jstr).
Context {G R : Type} `{!RoomTable G writer, !RoomTable R report}.
Implicit Types (s : grants G R).

Definition get_writer s room id : option writer := rt_get (gr_writers s) room id.

Definition retired (now : Z) (row : writer) : bool := writerRetainedUntil row <=? now.

(** [adapter.delete(room, item.id); adapter.deleteResources(room, item.id)] *)
Definition delete_retired (room : jstr) (now : Z) (rows : list writer) s : grants G R :=
  fold_left (fun s old => if retired now old
    then Grants (rt_delete (gr_writers s) room (wt_id old)) (rt_delete (gr_reports s) room (wt_id old)) else s) rows s.

Definition put_writer s room row : grants G R := Grants (rt_put (gr_writers s) room row) (gr_reports s).

(** The transaction of the SQLite adapter reads the list again after the deletions. *)
Definition node_commit s (room : jstr) (row : writer) (now : Z) : writer_result * grants G R :=
  match get_writer s room (wt_id row) with
  | Some previous => (existingWriter previous row, s)
  | None =>
      let s1 := delete_retired room now (rt_list (gr_writers s) room) s in
      if WRITER_LIMIT <=? Z.of_nat (length (rt_list (gr_writers s1) room))
      then (WriterError 429 "writer grant capacity reached", s1)
      else (WriterOk 201 (publicWriter row), put_writer s1 room row)
  end.

(** The shared function counts the rows it read before. *)
Definition commitWriterGrant s (room : jstr) (row : writer) (now : Z) : writer_result * grants G R :=
  match get_writer s room (wt_id row) with
  | Some previous => (existingWriter previous row, s)
  | None =>
      let rows := rt_list (gr_writers s) room in
      let s1 := delete_retired room now rows s in
      if WRITER_LIMIT <=? Z.of_nat (length (filter (fun item => negb (retired now item)) rows))
      then (WriterError 429 "writer grant capacity reached", s1)
      else (WriterOk 201 (publicWriter row), put_writer s1 room row)
  end.

Definition grant_row (id : jstr) (body : jsv) : writer :=
  {| wt_id := id; wt_sourceKeyId := str_of (get "sourceKeyId" body);
     wt_recipientKeyId := str_of (get "recipientKeyId" body); wt_scopeHash := str_of (get "scopeHash" body);
     wt_tokenHash := str_of (get "tokenHash" body); wt_expiresAt := int_of (get "expiresAt" body);
     wt_revokedAt := None |}.

Definition validGrant (id : jstr) (body : jsv) (now : Z) : bool :=
  validJobId (JStr id) && truthy body
  && negb (existsb (fun key => negb (bool_decide (key ∈ GRANT_FIELDS))) (keys body))
  && forallb (fun key => is_digest (get key body)) ["sourceKeyId"; "recipientKeyId"; "scopeHash"; "tokenHash"]
  && is_safe_int (get "expiresAt" body) && (now <? int_of (get "expiresAt" body))
  && (int_of (get "expiresAt" body) <=? now + writer_lifetime).

(** [commit] is the adapter's. *)
Definition put (commit : grants G R -> jstr -> writer -> Z -> writer_result * grants G R)
    s (room id : jstr) (body : jsv) (now : Z) : writer_result * grants G R :=
  if validGrant id body now then commit s room (grant_row id body) now
  else (WriterError 400 "invalid writer grant", s).

Definition with_revokedAt (row : writer) (now : Z) : writer :=
  {| wt_id := wt_id row; wt_sourceKeyId := wt_sourceKeyId row; wt_recipientKeyId := wt_recipientKeyId row;
     wt_scopeHash := wt_scopeHash row; wt_tokenHash := wt_tokenHash row; wt_expiresAt := wt_expiresAt row;
     wt_revokedAt := Some now |}.

Definition revoke s (room id : jstr) (now : Z) : writer_result * grants G R :=
  let s1 := match get_writer s room id with
            | Some row => match wt_revokedAt row with
                          | None => put_writer s room (with_revokedAt row now) | Some _ => s end
            | None => s end in
  (WriterRevoked, Grants (gr_writers s1) (rt_delete (gr_reports s1) room id)).

(** Not revoked and not expired; for a retained read, within the retention. *)
Definition writer_live (row : writer) (now : Z) (retainedRead : bool) : bool :=
  if retainedRead then negb (retired now row)
  else negb (bool_decide (is_Some (wt_revokedAt row))) && (now <? wt_expiresAt row).

Definition authorize s (room : jstr) (credential : option jstr) (now : Z) (retainedRead : bool) : option writer :=
  match parse_writer (default "" credential) with
  | None => None
  | Some (id, token) =>
      match get_writer s room id with
      | None => None
      | Some row =>
          if writer_live row now retainedRead
             && constantTimeEqual (JStr (sha256 token)) (JStr (wt_tokenHash row))
          then Some row else None
      end
  end.

(** [body] is [None] for a read. *)
Definition resources s (room id : jstr) (body : option jsv) (now : Z) : res (writer_result * grants G R) :=
  match get_writer s room id with
  | None => Ok (WriterError 404 "unknown writer", s)
  | Some grant =>
      if negb (writer_live grant now false) then Ok (WriterError 404 "unknown writer", s) else
      match body with
      | Some b =>
          let envelope := get "envelope" b in
          if negb (truthy b) || negb (length (keys b) =? 1)%nat || negb (truthy envelope)
             || negb (is_str (get "from" envelope) "machine") || negb (is_str (get "to" envelope) "machine")
             || negb (is_str (get "recipientKeyId" envelope) (wt_sourceKeyId grant))
             || negb (is_safe_int (get "expiresAt" envelope))
             || (now + 90000 <? int_of (get "expiresAt" envelope))
          then Ok (WriterError 400 "invalid encrypted resource report", s)
          else
            let* valid := validEnvelope envelope room now (Some 90000) in
            if negb valid || (32000 <? json_bytes b)
            then Ok (WriterError 400 "invalid encrypted resource report", s)
            else Ok (ReportOk, Grants (gr_writers s)
                       (rt_put (gr_reports s) room {| rp_id := id; rp_envelope := envelope; rp_updatedAt := now |}))
      | None =>
          match rt_get (gr_reports s) room id with
          | Some r => if match get "expiresAt" (rp_envelope r) with JNum n => num_gt n now | _ => false end
                      then Ok (ReportFound (rp_envelope r) (rp_updatedAt r), s)
                      else Ok (WriterError 404 "no fresh resource report", s)
          | None => Ok (WriterError 404 "no fresh resource report", s)
          end
      end
  end.
End TaskWriterGrants.

(** ** Invariant *)

Class GrantLaws (G R : Type) := {
  #[global] gl_writers :: RoomTable G writer;
  #[global] gl_reports :: RoomTable R report;
  #[global] gl_writer_laws :: RoomTableLaws G writer;
  #[global] gl_report_laws :: RoomTableLaws R report;
  gl_writer_id : forall row : writer, rt_id row = wt_id row;
}.

Section Invariant.
Context {G R : Type} `{!GrantLaws G R}.
Implicit Types (s : grants G R).

Record grants_wf s : Prop := {
  gw_writers : rt_wf (gr_writers s);
  gw_reports : rt_wf (gr_reports s);
  gw_bound : forall room, valid_room room -> Z.of_nat (length (rt_rows (gr_writers s) room)) <= WRITER_LIMIT;
}.

Lemma delete_retired_eq room now rows s :
  delete_retired room now rows s
  = Grants (drop_rows (retired now) room rows (gr_writers s))
      (fold_left (fun r old => if retired now old then rt_delete r room (wt_id old) else r) rows (gr_reports s)).
Proof.
  unfold delete_retired, drop_rows. revert s. induction rows as [|old rows IH]; intros s; simpl; [by destruct s|].
  rewrite IH. case_match; simpl; by rewrite ?gl_writer_id.
Qed.

Lemma delete_reports_wf room now rows (r : R) :
  rt_wf r -> valid_room room ->
  rt_wf (fold_left (fun r old => if retired now old then rt_delete r room (wt_id old) else r) rows r).
Proof.
  intros Hwf Hr. revert r Hwf. induction rows as [|old rows IH]; intros r Hwf; simpl; [done|].
  apply IH. case_match; [|done]. by apply rl_delete.
Qed.

Lemma rows_complete s room : grants_wf s -> valid_room room -> rt_list (gr_writers s) room = rt_rows (gr_writers s) room.
Proof.
  intros [Hw _ Hb] Hr. rewrite rl_list by done. specialize (Hb room Hr).
  apply take_ge. unfold WRITER_LIMIT, LIST_LIMIT in *. lia.
Qed.

Lemma delete_retired_wf s room now :
  grants_wf s -> valid_room room ->
  let s1 := delete_retired room now (rt_list (gr_writers s) room) s in
  grants_wf s1 /\
  rt_rows (gr_writers s1) room = filter (fun item => negb (retired now item)) (rt_rows (gr_writers s) room).
Proof.
  intros Hwf Hr. rewrite delete_retired_eq, rows_complete by done. pose proof Hwf as [Hw Hp Hb]. simpl.
  destruct (drop_rows_spec (retired now) room (rt_rows (gr_writers s) room) _ Hw Hr) as (Hw1 & _ & Hother).
  pose proof (drop_all_rows (retired now) room _ Hw Hr) as Hrows. split; [|done].
  constructor; simpl; [done|by apply delete_reports_wf|]. intros room' Hr'.
  destruct (decide (room' = room)) as [->|Hn]; [|rewrite Hother by done; by apply Hb].
  rewrite Hrows. etrans; [|by apply (Hb room)].
  pose proof (sublist_length _ _ (sublist_filter (fun item => negb (retired now item)) (rt_rows (gr_writers s) room))).
  lia.
Qed.

Lemma put_writer_wf s room row :
  grants_wf s -> valid_room room ->
  Z.of_nat (length (rt_rows (gr_writers s) room)) < WRITER_LIMIT \/ is_Some (get_writer s room (wt_id row)) ->
  grants_wf (put_writer s room row).
Proof.
  intros [Hw Hp Hb] Hr Hroom. destruct (rl_put (gr_writers s) room row Hw Hr) as (Hw' & Hown & Hother).
  constructor; simpl; [done|done|]. intros room' Hr'. specialize (Hb room' Hr').
  destruct (decide (room' = room)) as [->|Hn]; [|by rewrite Hother].
  rewrite Hown, gl_writer_id. simpl.
  pose proof (find_by_id _ (wt_id row) (rl_nodup (gr_writers s) room Hw Hr)) as Hf.
  apply Permutation_length in Hf. rewrite length_app in Hf.
  destruct (List.find _ _) as [p|] eqn:E; simpl in Hf; [lia|].
  destruct Hroom as [Hroom|[r Hget]]; [lia|].
  apply rl_get in Hget as [Hin Hid]; [|done|done].
  apply list_elem_of_In in Hin. pose proof (find_none _ _ E r Hin) as Hf'. simpl in Hf'.
  unfold jeqb in Hf'. rewrite gl_writer_id in Hid. rewrite gl_writer_id in Hf'.
  by rewrite bool_decide_eq_true_2 in Hf'.
Qed.

(** The two commits agree on every well-formed store. *)
Lemma commits_agree s room row now :
  grants_wf s -> valid_room room -> node_commit s room row now = commitWriterGrant s room row now.
Proof.
  intros Hwf Hr. unfold node_commit, commitWriterGrant. destruct (get_writer s room (wt_id row)); [done|].
  destruct (delete_retired_wf s room now Hwf Hr) as [Hwf1 Hrows]. simpl in *.
  rewrite (rows_complete _ room Hwf1 Hr), Hrows, (rows_complete s room Hwf Hr). done.
Qed.

Lemma node_commit_wf s room row now :
  grants_wf s -> valid_room room -> grants_wf (node_commit s room row now).2.
Proof.
  intros Hwf Hr. unfold node_commit. destruct (get_writer s room (wt_id row)); [done|].
  destruct (delete_retired_wf s room now Hwf Hr) as [Hwf1 Hrows]. simpl in *.
  set (s1 := delete_retired _ _ _ s) in *. destruct (_ <=? _) eqn:E; simpl; [done|]. reflect_bools.
  apply put_writer_wf; [done|done|]. left. by rewrite <- (rows_complete s1 room Hwf1 Hr).
Qed.

Lemma revoke_wf s room id now : grants_wf s -> valid_room room -> grants_wf (revoke s room id now).2.
Proof.
  intros Hwf Hr. unfold revoke. simpl.
  set (s1 := match get_writer s room id with Some _ => _ | None => s end).
  assert (grants_wf s1) as [Hw Hp Hb].
  { unfold s1. destruct (get_writer s room id) as [row|] eqn:E; [|done].
    destruct (wt_revokedAt row); [done|]. apply put_writer_wf; [done|done|]. right. simpl.
    pose proof E as E'. destruct Hwf as [Hw _ _]. apply rl_get in E' as [_ Hid]; [|done|done].
    rewrite gl_writer_id in Hid. rewrite Hid. by exists row. }
  constructor; simpl; [done|by apply rl_delete|done].
Qed.

Lemma resources_wf s room id body now r s' :
  grants_wf s -> valid_room room -> resources s room id body now = Ok (r, s') -> grants_wf s' /\ gr_writers s' = gr_writers s.
Proof.
  intros Hwf Hr. unfold resources. destruct (get_writer s room id) as [grant|]; [|by intros [= _ <-]].
  destruct (negb _); [by intros [= _ <-]|]. destruct body as [b|].
  - destruct (_ || _); [by intros [= _ <-]|]. destruct (validEnvelope _ _ _ _) as [v|]; simpl; [|done].
    destruct (_ || _); [by intros [= _ <-]|]. intros [= _ <-]. split; [|done].
    destruct Hwf as [Hw Hp Hb]. constructor; simpl; [done|by apply rl_put|done].
  - destruct (rt_get _ _ _) as [rep|]; [|by intros [= _ <-]]. case_match; by intros [= _ <-].
Qed.

(** ** Requests *)

Inductive writer_op :=
| WPut (id : jstr) (body : jsv)
| WRevoke (id : jstr)
| WResources (id : jstr) (body : option jsv).

(** A request for one room. *)
Definition writer_exec s (room : jstr) (now : Z) (op : writer_op) : grants G R :=
  match op with
  | WPut id body => (put node_commit s room id body now).2
  | WRevoke id => (revoke s room id now).2
  | WResources id body => match resources s room id body now with Ok (_, s') => s' | Throw => s end
  end.

Fixpoint writer_run s (room : jstr) (trace : list (Z * writer_op)) : grants G R :=
  match trace with [] => s | (now, op) :: rest => writer_run (writer_exec s room now op) room rest end.

Lemma writer_exec_wf s room now op : grants_wf s -> valid_room room -> grants_wf (writer_exec s room now op).
Proof.
  intros Hwf Hr. destruct op as [id body|id|id body]; simpl.
  - unfold put. destruct (validGrant _ _ _); [by apply node_commit_wf|done].
  - by apply revoke_wf.
  - destruct (resources s room id body now) as [[r s']|] eqn:E; [|done]. by eapply resources_wf.
Qed.

Lemma writer_run_wf s room trace : grants_wf s -> valid_room room -> grants_wf (writer_run s room trace).
Proof. intros Hwf Hr. revert s Hwf. induction trace as [|[now op] t IH]; simpl; auto using writer_exec_wf. Qed.

(** *** A revoked grant *)

Lemma get_put_writer s room row id :
  grants_wf s -> valid_room room ->
  get_writer (put_writer s room row) room id = if decide (id = wt_id row) then Some row else get_writer s room id.
Proof.
  intros [Hw _ _] Hr. unfold get_writer, put_writer. simpl. rewrite rt_get_put by done. by rewrite gl_writer_id.
Qed.

Lemma get_after_drop room now s id row :
  grants_wf s -> valid_room room -> get_writer s room id = Some row -> retired now row = false ->
  get_writer (delete_retired room now (rt_list (gr_writers s) room) s) room id = Some row.
Proof.
  intros Hwf Hr Hget Hlive. destruct (delete_retired_wf s room now Hwf Hr) as [[Hw1 _ _] Hrows]. simpl in *.
  destruct Hwf as [Hw _ _]. unfold get_writer in *. apply rl_get; [done|done|].
  apply rl_get in Hget as [Hin Hid]; [|done|done]. rewrite Hrows, list_elem_of_filter. by rewrite Hlive.
Qed.

Lemma exec_keeps_revoked s room now op id row :
  grants_wf s -> valid_room room -> get_writer s room id = Some row -> is_Some (wt_revokedAt row) ->
  retired now row = false -> get_writer (writer_exec s room now op) room id = Some row.
Proof.
  intros Hwf Hr Hget Hrev Hlive. pose proof Hwf as [Hw Hp Hb].
  assert (wt_id row = id) as Hid.
  { pose proof Hget as Hg. apply rl_get in Hg as [_ Hid]; [|done|done]. by rewrite gl_writer_id in Hid. }
  destruct op as [id' body|id'|id' body]; simpl.
  - unfold put. destruct (validGrant _ _ _); [|done]. unfold node_commit.
    destruct (get_writer s room (wt_id (grant_row id' body))) as [prev|] eqn:E; [done|].
    pose proof (get_after_drop room now s id row Hwf Hr Hget Hlive) as Hkeep. destruct (_ <=? _); simpl; [done|].
    rewrite get_put_writer; [|by apply delete_retired_wf|done].
    rewrite decide_False; [done|]. intros ->. congruence.
  - unfold revoke. simpl. destruct (get_writer s room id') as [row'|] eqn:E; [|done].
    destruct (wt_revokedAt row') eqn:Er; [done|].
    change (get_writer (put_writer s room (with_revokedAt row' now)) room id = Some row).
    rewrite get_put_writer by done. simpl. rewrite decide_False; [done|]. intros Heq.
    assert (wt_id row' = id') as Hid'.
    { pose proof E as Hg. apply rl_get in Hg as [_ Hg]; [|done|done]. by rewrite gl_writer_id in Hg. }
    rewrite Heq, Hid', E in Hget. destruct Hrev as [t Ht]. congruence.
  - destruct (resources s room id' body now) as [[r s']|] eqn:E; [|done].
    destruct (resources_wf _ _ _ _ _ _ _ Hwf Hr E) as [_ Hs]. unfold get_writer. by rewrite Hs.
Qed.

Lemma run_keeps_revoked s room trace id row :
  grants_wf s -> valid_room room -> get_writer s room id = Some row -> is_Some (wt_revokedAt row) ->
  Forall (fun p => p.1 < writerRetainedUntil row) trace -> get_writer (writer_run s room trace) room id = Some row.
Proof.
  intros Hwf Hr Hget Hrev HF. revert s Hwf Hget. induction HF as [|[now op] t Hn _ IH]; intros s Hwf Hget; simpl in *; [done|].
  apply IH; [by apply writer_exec_wf|]. apply exec_keeps_revoked; try done.
  unfold retired. by apply Z.leb_gt.
Qed.

Lemma parse_writer_spec credential id token :
  parse_writer credential = Some (id, token) <->
  credential = "writer:" +++ id +++ ":" +++ token /\ re_job_id id = true /\ hex64 token = true.
Proof.
  assert (forall l a b, split_colon l = Some (a, b) <-> l = a ++ 58%N :: b /\ 58%N ∉ a) as Hsplit.
  { induction l as [|u l IH]; intros a b; simpl.
    - split; [done|]. intros [E _]. by destruct a.
    - destruct (N.eqb_spec u 58) as [->|Hn].
      + split; [intros [= <- <-]; split; [done|apply not_elem_of_nil]|]. intros [E Ha].
        destruct a as [|x a]; simpl in E; [by injection E as ->|]. injection E as <- _. exfalso. apply Ha. by left.
      + destruct (split_colon l) as [[a' b']|] eqn:E; split.
        * intros [= <- <-]. destruct (proj1 (IH a' b') eq_refl) as [-> Ha]. split; [done|].
          apply not_elem_of_cons. split; [congruence|done].
        * intros [El Ha]. destruct a as [|x a]; simpl in El; [congruence|]. injection El as <- El.
          apply not_elem_of_cons in Ha as [_ Ha]. pose proof (proj2 (IH a b) (conj El Ha)) as Hx. by injection Hx as <- <-.
        * done.
        * intros [El Ha]. destruct a as [|x a]; simpl in El; [congruence|]. injection El as <- El.
          apply not_elem_of_cons in Ha as [_ Ha]. by pose proof (proj2 (IH a b) (conj El Ha)). }
  assert (re_job_id id = true -> 58%N ∉ units id) as Hid.
  { unfold re_job_id. destruct (units id) as [|c rest] eqn:E; [done|]. intros H Hin. split_andb.
    apply elem_of_cons in Hin as [<-|Hin]; [done|]. eapply (class_no_colon cls_word 7 119 (JS rest)); done. }
  unfold parse_writer. split.
  - destruct (starts_with "writer:" credential) eqn:Es; [|done].
    apply starts_with_iff in Es as [rest Er]. rewrite Er.
    change (drop 7 (units "writer:" ++ rest)) with rest.
    destruct (split_colon rest) as [[a b]|] eqn:E; [|done]. apply Hsplit in E as [-> Ha].
    destruct (_ && _) eqn:Ev; [|done]. intros [= <- <-]. split_andb. split_and!; [|done|done].
    apply units_inj. rewrite Er. simpl. done.
  - intros (-> & H1 & H2).
    assert (starts_with "writer:" ("writer:" +++ id +++ ":" +++ token) = true) as ->
      by (apply starts_with_iff; eexists; reflexivity).
    change (drop 7 (units ("writer:" +++ id +++ ":" +++ token))) with (units id ++ 58%N :: units token).
    rewrite (proj2 (Hsplit _ (units id) (units token))) by (split; [done|by apply Hid]).
    destruct id, token. simpl. by rewrite H1, H2.
Qed.

(** The identity a credential names is unique. *)
Lemma parse_unique (id id' token token' : jstr) :
  re_job_id id = true -> re_job_id id' = true ->
  "writer:" +++ id +++ ":" +++ token = "writer:" +++ id' +++ ":" +++ token' -> id = id' /\ token = token'.
Proof.
  intros H1 H2 E. apply (key_inj "writer:") in E; auto using job_id_no_colon.
Qed.

Lemma writer_live_iff (row : writer) (now : Z) (retainedRead : bool) :
  writer_live row now retainedRead = true <->
  if retainedRead then now < writerRetainedUntil row else wt_revokedAt row = None /\ now < wt_expiresAt row.
Proof.
  unfold writer_live, retired. destruct retainedRead.
  - by rewrite negb_true_iff, Z.leb_gt.
  - rewrite andb_true_iff, negb_true_iff, bool_decide_eq_false, Z.ltb_lt, <- eq_None_not_Some. done.
Qed.

(** What an accepted credential names. *)
Lemma authorized_grant (sha256 : jstr -> jstr) (s : grants G R) (room : jstr) (credential : option jstr) (now : Z) (retainedRead : bool) (row : writer) :
  authorize sha256 s room credential now retainedRead = Some row ->
  exists id token,
    credential = Some ("writer:" +++ id +++ ":" +++ token) /\ re_job_id id = true /\ hex64 token = true /\
    get_writer s room id = Some row /\ sha256 token = wt_tokenHash row /\ writer_live row now retainedRead = true.
Proof.
  unfold authorize. destruct (parse_writer (default "" credential)) as [[id token]|] eqn:E; [|done].
  apply parse_writer_spec in E as (Ec & Hid & Htok).
  destruct (get_writer s room id) as [row'|] eqn:Eg; [|done].
  destruct (_ && _) eqn:Ev; [|done]. intros [= ->]. apply andb_true_iff in Ev as [Hl Hh].
  apply constantTimeEqual_iff in Hh. exists id, token. split_and!; try done.
  destruct credential as [c|]; simpl in Ec; [by rewrite Ec|]. exfalso. by destruct id.
Qed.

(** C40: Delegated access is exact: a credential opens a room for a writer if and
    only if it is ["writer:<id>:<64 hex digits>"], the room holds a grant of that
    id whose token digest is the digest of the digits, and the grant is neither
    revoked nor expired (a retained read only needs it to be within its
    retention of seven days). *)
Theorem writer_authorization_exact (sha256 : jstr -> jstr) (s : grants G R) (room : jstr) (credential : option jstr) (now : Z)
    (retainedRead : bool) (row : writer) :
  authorize sha256 s room credential now retainedRead = Some row <->
  exists id token,
    credential = Some ("writer:" +++ id +++ ":" +++ token) /\ re_job_id id = true /\ hex64 token = true /\
    get_writer s room id = Some row /\ sha256 token = wt_tokenHash row /\
    (if retainedRead then now < writerRetainedUntil row
     else wt_revokedAt row = None /\ now < wt_expiresAt row).
Proof.
  setoid_rewrite <- writer_live_iff. split; [apply authorized_grant|].
  intros (id & token & -> & Hid & Htok & Hget & Hh & Hl). unfold authorize.
  change (default "" (Some ("writer:" +++ id +++ ":" +++ token))) with ("writer:" +++ id +++ ":" +++ token).
  rewrite (proj2 (parse_writer_spec _ id token)) by done. rewrite Hget, Hl. cbn [andb].
  by rewrite (proj2 (constantTimeEqual_iff _ _) Hh).
Qed.
End Invariant.

(** ** The two runtimes *)

Abbreviation sql_grants := (grants (list ((jstr * jstr) * writer)) (list ((jstr * jstr) * report))).
Abbreviation do_grants := (grants (list (jstr * writer)) (list (jstr * report))).

#[export] Program Instance node_grants : GrantLaws (list ((jstr * jstr) * writer)) (list ((jstr * jstr) * report)) := {|
  gl_writers := sql_table wt_id; gl_reports := sql_table rp_id;
  gl_writer_laws := sql_laws wt_id; gl_report_laws := sql_laws rp_id |}.
Next Obligation. done. Qed.

#[export] Program Instance worker_grants : GrantLaws (list (jstr * writer)) (list (jstr * report)) := {|
  gl_writers := do_table wt_id "task-writer:"; gl_reports := do_table rp_id "task-resources:";
  gl_writer_laws := do_laws wt_id "task-writer:"; gl_report_laws := do_laws rp_id "task-resources:" |}.
Next Obligation. done. Qed.

Lemma empty_grants_wf : grants_wf (Grants (G := list ((jstr * jstr) * writer)) (R := list ((jstr * jstr) * report)) [] []).
Proof. constructor; simpl; [constructor; constructor|constructor; constructor|done]. Qed.

Lemma empty_do_grants_wf : grants_wf (Grants (G := list (jstr * writer)) (R := list (jstr * report)) [] []).
Proof. constructor; simpl; [constructor; constructor|constructor; constructor|done]. Qed.

(** Revocation is final: once a grant of the room was revoked, no sequence of
    new grants, revocations and reports before the end of its retention brings
    it back: no credential that names it is authorized, and a new grant under
    its identity is refused. *)
Theorem revoked_writer_stays_out (sha256 : jstr -> jstr) (s : sql_grants) (room id token : jstr) (row : writer)
    (revoked now : Z) (trace : list (Z * writer_op)) (body : jsv) :
  grants_wf s -> valid_room room -> re_job_id id = true ->
  get_writer s room id = Some row -> wt_revokedAt row = None ->
  let until := Z.min (wt_expiresAt row) revoked + 7 * 86400000 in
  Forall (fun p => p.1 < until) trace -> now < until ->
  let s' := writer_run (revoke s room id revoked).2 room trace in
  authorize sha256 s' room (Some ("writer:" +++ id +++ ":" +++ token)) now false = None /\
  exists e, (put node_commit s' room id body now).1 = WriterError e "writer identity already exists" \/
            (put node_commit s' room id body now).1 = WriterError e "invalid writer grant".
Proof.
  intros Hwf Hr Hjob Hget Hrev until HF Hnow s'.
  assert (wt_id row = id) as Hid
    by (destruct Hwf as [Hw _ _]; apply rl_get in Hget as [_ Hid]; done).
  set (row' := with_revokedAt row revoked).
  assert (get_writer s' room id = Some row') as Hget'.
  { apply run_keeps_revoked; [by apply revoke_wf|done| |by exists revoked|exact HF].
    unfold revoke. rewrite Hget, Hrev. simpl.
    change (get_writer (put_writer s room row') room id = Some row').
    rewrite get_put_writer by done. rewrite decide_True; [done|]. simpl. done. }
  split.
  - destruct (authorize _ _ _ _ _ _) as [r|] eqn:E; [|done]. exfalso.
    apply authorized_grant in E as (id' & token' & Ec & Hv & Htok & Hg & _ & [Hn _]%(writer_live_iff _ _ false)).
    assert ("writer:" +++ id +++ ":" +++ token = "writer:" +++ id' +++ ":" +++ token') as Ek by congruence.
    destruct (parse_unique id id' token token' Hjob Hv Ek) as [-> _].
    rewrite Hget' in Hg. injection Hg as <-. done.
  - unfold put. destruct (validGrant id body now); [|exists 400; by right]. exists 409. left.
    unfold node_commit. change (wt_id (grant_row id body)) with id. rewrite Hget'. unfold existingWriter. rewrite bool_decide_eq_false_2; [done|].
    intros E. apply (f_equal wt_revokedAt) in E. done.
Qed.

Definition sample_grant : writer :=
  {| wt_id := "writer-0001"; wt_sourceKeyId := sample_token; wt_recipientKeyId := sample_token;
     wt_scopeHash := sample_token; wt_tokenHash := sample_token; wt_expiresAt := 1000; wt_revokedAt := None |}.
Definition sample_grants : sql_grants := Grants [(("00112233445566778899", "writer-0001"), sample_grant)]%js [].

Lemma sample_grants_wf : grants_wf sample_grants.
Proof.
  constructor; simpl; [|constructor; constructor|].
  - constructor; [apply NoDup_singleton|by apply Forall_singleton].
  - intros room _. unfold sql_rows. rewrite filter_cons. case_decide; vm_compute; discriminate.
Qed.

Lemma writer_authorization_exact_witness :
  authorize (fun s => s) sample_grants "00112233445566778899"
    (Some ("writer:" +++ "writer-0001" +++ ":" +++ sample_token)%js) 20 false = Some sample_grant.
Proof.
  apply (writer_authorization_exact (fun s => s) sample_grants "00112233445566778899"
    (Some ("writer:" +++ "writer-0001" +++ ":" +++ sample_token)%js) 20 false sample_grant).
  exists "writer-0001"%js, sample_token.
  split_and!; vm_compute; reflexivity.
Defined.

Lemma revoked_writer_stays_out_witness :
  let s' := writer_run (revoke sample_grants "00112233445566778899" "writer-0001" 30).2 "00112233445566778899"
    [(40, WRevoke "writer-0001"); (50, WResources "writer-0001" None)]%js in
  authorize (fun s => s) s' "00112233445566778899"
    (Some ("writer:" +++ "writer-0001" +++ ":" +++ sample_token)%js) 60 false = None /\
  exists e, (put node_commit s' "00112233445566778899" "writer-0001" JNull 60).1
              = WriterError e "writer identity already exists" \/
            (put node_commit s' "00112233445566778899" "writer-0001" JNull 60).1
              = WriterError e "invalid writer grant".
Proof.
  apply (revoked_writer_stays_out (fun s => s) sample_grants "00112233445566778899" "writer-0001" sample_token
    sample_grant 30 60 [(40, WRevoke "writer-0001"); (50, WResources "writer-0001" None)]%js JNull).
  - exact sample_grants_wf.
  - vm_compute. reflexivity.
  - vm_compute. reflexivity.
  - vm_compute. reflexivity.
  - reflexivity.
  - repeat constructor.
  - reflexivity.
Defined.

(** Both runtimes admit the same grants: after any sequence of grants,
    revocations and reports for a room, on either storage, the SQLite
    transaction and the shared [commitWriterGrant] give the same answer and the
    same new store, and the room holds at most 128 retained grants. *)
Theorem writer_commits_agree (room : jstr) (trace : list (Z * writer_op)) (row : writer) (now : Z) :
  valid_room room ->
  let table : sql_grants := writer_run (Grants [] []) room trace in
  let storage : do_grants := writer_run (Grants [] []) room trace in
  node_commit table room row now = commitWriterGrant table room row now /\
  node_commit storage room row now = commitWriterGrant storage room row now /\
  Z.of_nat (length (rt_rows (gr_writers table) room)) <= 128 /\
  Z.of_nat (length (rt_rows (gr_writers storage) room)) <= 128.
Proof.
  intros Hr table storage.
  pose proof (writer_run_wf _ room trace empty_grants_wf Hr) as Ht. fold table in Ht.
  pose proof (writer_run_wf _ room trace empty_do_grants_wf Hr) as Hs. fold storage in Hs.
  split; [by apply commits_agree|]. split; [by apply commits_agree|].
  split; [by apply (gw_bound _ Ht)|by apply (gw_bound _ Hs)].
Qed.

Lemma writer_commits_agree_witness :
  let room := "00112233445566778899"%js in
  let trace := [(5, WPut "writer-0001" (JObj [("sourceKeyId", JStr sample_token); ("recipientKeyId", JStr sample_token);
     ("scopeHash", JStr sample_token); ("tokenHash", JStr sample_token); ("expiresAt", JNum (NInt 1000))]))]%js in
  let storage : do_grants := writer_run (Grants [] []) room trace in
  length (gr_writers storage) = 1%nat /\
  node_commit storage room sample_grant 9 = commitWriterGrant storage room sample_grant 9.
Proof.
  intros room trace storage. split; [vm_compute; reflexivity|].
  apply (writer_commits_agree room trace sample_grant 9). vm_compute. reflexivity.
Defined.
