(* ===== verification/TaskHttp.v ===== *)
(** * The HTTP interface of scheduled tasks ([src/taskDispatch/index.js])

    [taskDispatchResponse] authenticates the caller as the room's owner or as a
    delegated writer and routes the request to the job store, the writer grants
    and the configurations.  It is written against [TaskBackend]; [node_backend]
    is the SQLite store.  The main theorem confines a delegated writer. *)

From S2P Require Import Prelude Base64 Validation Storage RoomTable TaskJobs TaskStore.
From S2P Require Configurations Writers.
#[local] Existing Instances Writers.node_grants Configurations.node_configs.
#[local] Open Scope bool_scope.
#[local] Open Scope Z_scope.
#[local] Open Scope js_scope.

(** The store object: each operation may throw and returns the new store. *)
Class TaskBackend (S : Type) := {
  tb_authorize : S -> jstr -> option jstr -> Z -> bool -> option Writers.writer;
  tb_getPublic : S -> jstr -> jstr -> Z -> bool -> res (option public_job) * S;
  tb_listActive : S -> jstr -> Z -> res (list public_job) * S;
  tb_put : S -> jstr -> jstr -> jsv -> Z -> res task_result * S;
  tb_transition : S -> jstr -> jstr -> jstr -> jsv -> Z -> res task_result * S;
  tb_putWriter : S -> jstr -> jstr -> jsv -> Z -> Writers.writer_result * S;
  tb_revokeWriter : S -> jstr -> jstr -> Z -> Writers.writer_result * S;
  tb_resources : S -> jstr -> jstr -> option jsv -> Z -> res (Writers.writer_result) * S;
  tb_getConfiguration : S -> jstr -> jstr -> Z -> option Configurations.visible_configuration * S;
  tb_putConfiguration : S -> jstr -> jstr -> jsv -> Z ->
    res (Configurations.config_result * option Configurations.visible_configuration) * S;
}.

Inductive response_body :=
| BError (error : jstr)
| BConfiguration (configuration : option Configurations.visible_configuration)
| BConfigResult (result : Configurations.config_result) (view : option Configurations.visible_configuration)
| BWriter (result : Writers.writer_result)
| BJobs (jobs : list public_job)
| BJob (job : public_job).

Record response := Response { rs_status : Z; rs_body : response_body }.

Record request := {
  rq_method : jstr; rq_pathname : jstr; rq_room : option jstr;
  rq_owner : bool;                  (** what [authorize()] answers *)
  rq_credential : option jstr;
  rq_read : Z -> res jsv;           (** the parsed body, under a byte limit *)
  rq_metadataOnly : bool;
}.

(** ** Paths *)

(** [/^prefix(class)$/.exec(pathname)?.[1]] *)
Definition path_id (prefix : jstr) (ok : jstr -> bool) (pathname : jstr) : option jstr :=
  if starts_with prefix pathname then
    let rest := JS (drop (length (units prefix)) (units pathname)) in
    if ok rest then Some rest else None
  else None.

(** The text up to the first slash, and what follows it. *)
Fixpoint split_slash (l : list N) : list N * option (list N) :=
  match l with
  | [] => ([], None)
  | u :: rest => if (u =? 47)%N then ([], Some rest)
                 else let '(a, b) := split_slash rest in (u :: a, b)
  end.

(** [/^\/task-jobs(?:\/([^/]+)(?:\/(claim|finish))?)?$/] *)
Definition job_path (pathname : jstr) : option (option jstr * option jstr) :=
  if pathname =?s "/task-jobs" then Some (None, None)
  else if starts_with "/task-jobs/" pathname then
    match split_slash (drop 11 (units pathname)) with
    | ([], _) => None
    | (seg, None) => Some (Some (JS seg), None)
    | (seg, Some action) =>
        if (JS action =?s "claim") || (JS action =?s "finish") then Some (Some (JS seg), Some (JS action)) else None
    end
  else None.

Section TaskDispatchResponse.
(** [Number(s)] of a string; it only decides between two refusals. *)
Context (number_of_string : jstr -> option jsnum).
Context {S : Type} `{TaskBackend S}.

(** [v > k] *)
Definition js_gt (v : jsv) (k : Z) : res bool :=
  match v with
  | JNum n => Ok (num_gt n k)
  | JUndef => Ok false
  | JNull => Ok (k <? 0)
  | JBool b => Ok (k <? (if b then 1 else 0))
  | _ => let* s := to_string v in
         Ok (match number_of_string s with Some n => num_gt n k | None => false end)
  end.

(** [{ ...body, key: value }] *)
Definition set_field (key : jstr) (value : jsv) (body : jsv) : jsv :=
  match body with JObj fs => JObj (map_set key value fs) | _ => JObj [(key, value)] end.

Definition job_response (result : res task_result) : res response :=
  match result with
  | Throw => Throw
  | Ok (TaskError status error) => Ok (Response status (BError error))
  | Ok (TaskJob status job) => Ok (Response status (BJob (taskJobMetadata job)))
  end.

Definition writer_response (result : Writers.writer_result) : response :=
  match result with
  | Writers.WriterError status error => Response status (BError error)
  | Writers.WriterOk status _ => Response status (BWriter result)
  | _ => Response 200 (BWriter result)
  end.

Definition configuration_request (s : S) (rq : request) (room id : jstr) (now : Z) : res response * S :=
  if negb (rq_owner rq) then (Ok (Response 403 (BError "room owner required")), s)
  else if rq_method rq =?s "GET" then
    let '(found, s1) := tb_getConfiguration s room id now in (Ok (Response 200 (BConfiguration found)), s1)
  else if negb (rq_method rq =?s "PUT") then (Ok (Response 405 (BError "method not allowed")), s)
  else match rq_read rq Configurations.CONFIGURATION_BYTES with
       | Throw => (Throw, s)
       | Ok body =>
           match tb_putConfiguration s room id body now with
           | (Throw, s1) => (Throw, s1)
           | (Ok (result, view), s1) =>
               (Ok (Response (match result with Configurations.ConfigOk st => st | Configurations.ConfigError st _ => st end)
                      (BConfigResult result view)), s1)
           end
       end.

Definition resource_request (s : S) (rq : request) (writer : option Writers.writer) (room id : jstr) (now : Z)
  : res response * S :=
  if negb (rq_owner rq)
     && (negb (bool_decide (Some id = Writers.wt_id <$> writer)) || negb (rq_method rq =?s "GET"))
  then (Ok (Response 403 (BError "resource report scope refused")), s)
  else if negb ((rq_method rq =?s "GET") || (rq_method rq =?s "PUT"))
  then (Ok (Response 405 (BError "method not allowed")), s)
  else match (if rq_method rq =?s "PUT"
              then let* b := rq_read rq 32000 in Ok (Some (if is_nullish b then JNull else b)) else Ok None) with
       | Throw => (Throw, s)
       | Ok body => let '(result, s1) := tb_resources s room id body now in
                    (let* r := result in Ok (writer_response r), s1)
       end.

Definition grant_request (s : S) (rq : request) (room id : jstr) (now : Z) : res response * S :=
  if negb (rq_owner rq) then (Ok (Response 403 (BError "room owner required")), s)
  else if rq_method rq =?s "PUT" then
    match rq_read rq 4096 with
    | Throw => (Throw, s)
    | Ok body => let '(result, s1) := tb_putWriter s room id body now in (Ok (writer_response result), s1)
    end
  else if rq_method rq =?s "DELETE" then
    let '(result, s1) := tb_revokeWriter s room id now in (Ok (writer_response result), s1)
  else (Ok (Response 405 (BError "method not allowed")), s).

(** The refusals that confine a writer to its own jobs; [None] lets the request pass. *)
Definition writer_scope (s : S) (rq : request) (writer : option Writers.writer) (room : jstr)
    (id action : option jstr) (now : Z) : res (option response) * S :=
  match writer with
  | None => (Ok None, s)
  | Some w =>
      match id, action with
      | Some id, None =>
          if negb (existsb (fun m => rq_method rq =?s m) ["GET"; "PUT"; "DELETE"]%js)
          then (Ok (Some (Response 403 (BError "writer scope refused"))), s)
          else match tb_getPublic s room id now true with
               | (Throw, s1) => (Throw, s1)
               | (Ok existing, s1) =>
                   if (negb (rq_method rq =?s "PUT") || bool_decide (is_Some existing))
                      && negb (bool_decide ((existing ≫= p_writerId) = Some (Writers.wt_id w)))
                   then (Ok (Some (Response 404 (BError "unknown task job"))), s1)
                   else (Ok None, s1)
               end
      | _, _ => (Ok (Some (Response 403 (BError "writer scope refused"))), s)
      end
  end.

(** The body a writer may submit: its recipient, its lifetime, its name. *)
Definition writer_body (writer : option Writers.writer) (body : jsv) : res (option jsv) :=
  match writer with
  | None => Ok (Some body)
  | Some w =>
      if negb (is_str (get "recipientKeyId" (get "envelope" body)) (Writers.wt_recipientKeyId w)) then Ok None
      else let* late := js_gt (get "expiresAt" body) (Writers.wt_expiresAt w) in
           if late then Ok None
           else Ok (Some (set_field "writerSourceKeyId" (JStr (Writers.wt_sourceKeyId w))
                           (set_field "writerId" (JStr (Writers.wt_id w)) body)))
  end.

Definition job_request (s : S) (rq : request) (writer : option Writers.writer) (room : jstr)
    (id action : option jstr) (now : Z) : res response * S :=
  let method m := rq_method rq =?s m in
  match id, action with
  | None, _ =>
      if method "GET" then
        let '(jobs, s1) := tb_listActive s room now in
        (let* l := jobs in Ok (Response 200 (BJobs (map taskJobMetadata l))), s1)
      else (Ok (Response 405 (BError "method not allowed")), s)
  | Some id, None =>
      if method "GET" then
        let '(job, s1) := tb_getPublic s room id now (rq_metadataOnly rq) in
        (let* j := job in Ok (match j with Some job => Response 200 (BJob job)
                                         | None => Response 404 (BError "unknown task job") end), s1)
      else if method "PUT" then
        match (let* body := rq_read rq JOB_BYTES in writer_body writer body) with
        | Throw => (Throw, s)
        | Ok None => (Ok (Response 403 (BError "writer recipient or lifetime refused")), s)
        | Ok (Some body) => let '(result, s1) := tb_put s room id body now in (job_response result, s1)
        end
      else if method "DELETE" then
        let '(result, s1) := tb_transition s room id "cancel" JUndef now in (job_response result, s1)
      else (Ok (Response 405 (BError "method not allowed")), s)
  | Some id, Some action =>
      if method "POST" then
        match rq_read rq (if action =?s "finish" then 34000 else 1024) with
        | Throw => (Throw, s)
        | Ok body => let '(result, s1) := tb_transition s room id action body now in (job_response result, s1)
        end
      else (Ok (Response 405 (BError "method not allowed")), s)
  end.

Definition taskDispatchResponse (s : S) (rq : request) (now : Z) : res response * S :=
  match rq_room rq with
  | None => (Ok (Response 400 (BError "invalid room")), s)
  | Some room =>
      if negb (validRoom (JStr room)) then (Ok (Response 400 (BError "invalid room")), s) else
      let path := rq_pathname rq in
      let retainedRead := (rq_method rq =?s "GET") && rq_metadataOnly rq
                          && bool_decide (is_Some (path_id "/task-jobs/" re_job_id path)) in
      let writer := if rq_owner rq then None else tb_authorize s room (rq_credential rq) now retainedRead in
      if negb (rq_owner rq) && bool_decide (writer = None)
      then (Ok (Response 401 (BError "invalid room credential")), s) else
      match path_id "/task-job-configurations/" hex64 path with
      | Some id => configuration_request s rq room id now
      | None =>
      match path_id "/task-resources/" re_job_id path with
      | Some id => resource_request s rq writer room id now
      | None =>
      match path_id "/task-job-writers/" re_job_id path with
      | Some id => grant_request s rq room id now
      | None =>
      match job_path path with
      | None => (Ok (Response 400 (BError "invalid job path")), s)
      | Some (id, action) =>
          if match id with Some i => negb (validJobId (JStr i)) | None => false end
          then (Ok (Response 400 (BError "invalid job path")), s) else
          match writer_scope s rq writer room id action now with
          | (Throw, s1) => (Throw, s1)
          | (Ok (Some refused), s1) => (Ok refused, s1)
          | (Ok None, s1) => job_request s1 rq writer room id action now
          end
      end end end end
  end.
End TaskDispatchResponse.

(** ** What the task interface preserves *)

Section Dispatch.
Context (number_of_string : jstr -> option jsnum) {S : Type} `{TaskBackend S}.

(** Every operation of a backend on a room keeps a property of the store. *)
Record backend_keeps (room : jstr) (P : S -> Prop) : Prop := {
  bk_getPublic : forall s id now m, P s -> P (tb_getPublic s room id now m).2;
  bk_listActive : forall s now, P s -> P (tb_listActive s room now).2;
  bk_put : forall s id body now, P s -> P (tb_put s room id body now).2;
  bk_transition : forall s id action body now, P s -> P (tb_transition s room id action body now).2;
  bk_putWriter : forall s id body now, P s -> P (tb_putWriter s room id body now).2;
  bk_revokeWriter : forall s id now, P s -> P (tb_revokeWriter s room id now).2;
  bk_resources : forall s id body now, P s -> P (tb_resources s room id body now).2;
  bk_getConfiguration : forall s id now, P s -> P (tb_getConfiguration s room id now).2;
  bk_putConfiguration : forall s id body now, P s -> P (tb_putConfiguration s room id body now).2;
}.

Context (room : jstr) (P : S -> Prop) (Hkeeps : backend_keeps room P).

Lemma configuration_keeps s rq id now : P s -> P (configuration_request s rq room id now).2.
Proof.
  intros Hs. unfold configuration_request. destruct (negb _); [done|]. destruct (rq_method rq =?s "GET").
  { pose proof (bk_getConfiguration _ _ Hkeeps s id now Hs) as Hk. by destruct (tb_getConfiguration s room id now). }
  destruct (negb _); [done|]. destruct (rq_read rq _) as [body|]; [|done].
  pose proof (bk_putConfiguration _ _ Hkeeps s id body now Hs) as Hk. by destruct (tb_putConfiguration s room id body now) as [[[]|] s1].
Qed.

Lemma resource_keeps s rq writer id now : P s -> P (resource_request s rq writer room id now).2.
Proof.
  intros Hs. unfold resource_request. destruct (_ && _); [done|]. destruct (negb _); [done|].
  destruct (if rq_method rq =?s "PUT" then _ else _) as [body|]; [|done].
  pose proof (bk_resources _ _ Hkeeps s id body now Hs) as Hk. by destruct (tb_resources s room id body now).
Qed.

Lemma grant_keeps s rq id now : P s -> P (grant_request s rq room id now).2.
Proof.
  intros Hs. unfold grant_request. destruct (negb _); [done|]. destruct (rq_method rq =?s "PUT").
  { destruct (rq_read rq _) as [body|]; [|done].
    pose proof (bk_putWriter _ _ Hkeeps s id body now Hs) as Hk. by destruct (tb_putWriter s room id body now). }
  destruct (_ =?s "DELETE"); [|done].
  pose proof (bk_revokeWriter _ _ Hkeeps s id now Hs) as Hk. by destruct (tb_revokeWriter s room id now).
Qed.

Lemma scope_keeps s rq writer id action now : P s -> P (writer_scope s rq writer room id action now).2.
Proof.
  intros Hs. unfold writer_scope. destruct writer as [w|]; [|done]. destruct id as [id|]; [|done]. destruct action; [done|].
  destruct (negb _); [done|]. pose proof (bk_getPublic _ _ Hkeeps s id now true Hs) as Hk.
  destruct (tb_getPublic s room id now true) as [[existing|] s1]; [|done]. by destruct (_ && _).
Qed.

Lemma job_keeps s rq writer id action now : P s -> P (job_request number_of_string s rq writer room id action now).2.
Proof.
  intros Hs. unfold job_request. destruct id as [id|].
  2: { destruct (_ =?s "GET"); [|done]. pose proof (bk_listActive _ _ Hkeeps s now Hs) as Hk. by destruct (tb_listActive s room now). }
  destruct action as [action|].
  { destruct (_ =?s "POST"); [|done]. destruct (rq_read rq _) as [body|]; [|done].
    pose proof (bk_transition _ _ Hkeeps s id action body now Hs) as Hk. by destruct (tb_transition s room id action body now). }
  destruct (_ =?s "GET").
  { pose proof (bk_getPublic _ _ Hkeeps s id now (rq_metadataOnly rq) Hs) as Hk. by destruct (tb_getPublic s room id now _). }
  destruct (_ =?s "PUT").
  { destruct (let* body := _ in _) as [[body|]|]; [|done..].
    pose proof (bk_put _ _ Hkeeps s id body now Hs) as Hk. by destruct (tb_put s room id body now). }
  destruct (_ =?s "DELETE"); [|done].
  pose proof (bk_transition _ _ Hkeeps s id "cancel" JUndef now Hs) as Hk. by destruct (tb_transition s room id "cancel" JUndef now).
Qed.

Lemma dispatch_keeps s rq now :
  rq_room rq = Some room -> P s -> P (taskDispatchResponse number_of_string s rq now).2.
Proof.
  intros Hroom Hs. unfold taskDispatchResponse. rewrite Hroom. destruct (negb (validRoom _)); [done|]. cbv zeta.
  match goal with |- context[if ?b then _ else _] => destruct b end; [done|].
  destruct (path_id "/task-job-configurations/" hex64 _); [by apply configuration_keeps|].
  destruct (path_id "/task-resources/" re_job_id _); [by apply resource_keeps|].
  destruct (path_id "/task-job-writers/" re_job_id _); [by apply grant_keeps|].
  destruct (job_path _) as [[id action]|]; [|done]. destruct (match id with Some _ => _ | None => _ end); [done|].
  match goal with |- context[writer_scope _ _ ?w _ _ _ _] => pose proof (scope_keeps s rq w id action now Hs) as Hk end.
  destruct (writer_scope _ _ _ _ _ _ _) as [[[refused|]|] s1]; [done| |done]. by apply job_keeps.
Qed.
End Dispatch.

(** ** The SQLite store as backend *)

Record node_tasks := {
  nt_jobs : task_table; nt_grants : Writers.sql_grants; nt_configs : Configurations.config_table;
}.

Definition with_jobs (s : node_tasks) (jobs : task_table) : node_tasks :=
  {| nt_jobs := jobs; nt_grants := nt_grants s; nt_configs := nt_configs s |}.
Definition with_grants (s : node_tasks) (g : Writers.sql_grants) : node_tasks :=
  {| nt_jobs := nt_jobs s; nt_grants := g; nt_configs := nt_configs s |}.
Definition with_configs (s : node_tasks) (c : Configurations.config_table) : node_tasks :=
  {| nt_jobs := nt_jobs s; nt_grants := nt_grants s; nt_configs := c |}.

Section NodeBackend.
Context (sha256 : jstr -> jstr) (number_of_string : jstr -> option jsnum).

#[local] Instance node_backend : TaskBackend node_tasks := {|
  tb_authorize s := Writers.authorize sha256 (nt_grants s);
  tb_getPublic s room id now m :=
    let '(r, jobs) := getPublic (nt_jobs s) room id now m in (r, with_jobs s jobs);
  tb_listActive s room now := let '(r, jobs) := listActive (nt_jobs s) room now in (r, with_jobs s jobs);
  tb_put s room id body now := let '(r, jobs) := put sha256 (nt_jobs s) room id body now in (r, with_jobs s jobs);
  tb_transition s room id action body now :=
    let '(r, jobs) := transition sha256 (nt_jobs s) room id action body now in (r, with_jobs s jobs);
  tb_putWriter s room id body now :=
    let '(r, g) := Writers.put Writers.node_commit (nt_grants s) room id body now in (r, with_grants s g);
  tb_revokeWriter s room id now :=
    let '(r, g) := Writers.revoke (nt_grants s) room id now in (r, with_grants s g);
  tb_resources s room id body now :=
    match Writers.resources (nt_grants s) room id body now with
    | Ok (r, g) => (Ok r, with_grants s g) | Throw => (Throw, s) end;
  tb_getConfiguration s room id now :=
    let '(r, c) := Configurations.get_configuration (nt_configs s) room (JStr id) now in (r, with_configs s c);
  tb_putConfiguration s room id body now :=
    match Configurations.put (nt_configs s) room (JStr id) body now with
    | Ok (r, v, c) => (Ok (r, v), with_configs s c) | Throw => (Throw, s) end;
|}.

Definition node_response (s : node_tasks) (rq : request) (now : Z) : res response * node_tasks :=
  taskDispatchResponse number_of_string s rq now.

(** ** Confinement of a delegated writer *)

(** What a writer's request may do to the row of one key. *)
Definition confined (w : Writers.writer) (room : jstr) (now : Z) (k : task_key) (before after : option job) : Prop :=
  match before, after with
  | None, None => True
  | Some row, Some row' =>
      row' = row \/ row' = expireJob row now \/
      (k.1 = room /\ j_writerId row = Some (Writers.wt_id w) /\ j_state row' = Cancelled)
  | None, Some row =>
      k.1 = room /\ j_state row = Queued /\ j_writerId row = Some (Writers.wt_id w) /\
      get "recipientKeyId" (j_envelope row) = JStr (Writers.wt_recipientKeyId w) /\
      j_expiresAt row <= Writers.wt_expiresAt w
  | Some _, None => False
  end.

Lemma confined_same w room now k r : confined w room now k r r.
Proof. destruct r; simpl; auto. Qed.

Lemma get_expired db room now k :
  map_get k (map_update (expire_room room now) db) = expire_room room now k <$> map_get k db.
Proof. apply map_get_update. Qed.

Lemma confined_expired w room now k db :
  confined w room now k (map_get k db) (map_get k (map_update (expire_room room now) db)).
Proof.
  rewrite get_expired. destruct (map_get k db) as [row|]; simpl; [|done].
  unfold expire_room. case_match; auto.
Qed.

(** Confinement composes with an expiry done before. *)
Lemma confined_after w room now k db r :
  confined w room now k (map_get k (map_update (expire_room room now) db)) r ->
  confined w room now k (map_get k db) r.
Proof.
  rewrite get_expired. destruct (map_get k db) as [row|]; simpl; [|done].
  destruct r as [row'|]; [|done]. unfold expire_room. destruct (k.1 =?s room); [|done].
  rewrite expire_expire. intros [->|[->|(Hk & Hw & Hs)]]; auto. right. right. split_and!; try done.
  destruct (expireJob_cases row now) as [[E _]|(_ & _ & E)]; by rewrite E in Hw.
Qed.

Lemma assoc_map_set k k' v fs : assoc k (map_set k' v fs) = if k =?s k' then Some v else assoc k fs.
Proof.
  assert (forall l : list (jstr * jsv), assoc k l = map_get k l) as E.
  { induction l as [|[a b] l IH]; simpl; [done|]. unfold jeqb. rewrite IH. by repeat case_bool_decide; case_decide. }
  rewrite !E, map_get_set. unfold jeqb. by case_bool_decide; case_decide.
Qed.

Lemma get_set_field k k' v body :
  (exists fs, body = JObj fs) -> get k (set_field k' v body) = if k =?s k' then v else get k body.
Proof. intros [fs ->]. simpl. rewrite assoc_map_set. by case_match. Qed.

(** A submission that passed [writer_body] creates only a row of that writer. *)
Lemma put_confined db room id body body' now w k :
  table_wf db -> writer_body number_of_string (Some w) body = Ok (Some body') ->
  confined w room now k (map_get k db) (map_get k (put sha256 db room id body' now).2).
Proof.
  intros Hwf Hb. unfold writer_body in Hb. destruct (negb (is_str _ _)) eqn:Er; [done|].
  apply negb_false_iff, is_str_eq in Er.
  destruct (js_gt number_of_string (get "expiresAt" body) (Writers.wt_expiresAt w)) as [[]|] eqn:El; simpl in Hb; [done| |done].
  injection Hb as <-.
  assert (exists fs, body = JObj fs) as Hobj by (destruct body; try done; by eexists).
  assert (exists fs, set_field "writerId" (JStr (Writers.wt_id w)) body = JObj fs) as Hobj'
    by (destruct Hobj as [fs ->]; by eexists).
  set (body' := set_field "writerSourceKeyId" _ _).
  assert (forall k, get k body' = if k =?s "writerSourceKeyId" then JStr (Writers.wt_sourceKeyId w)
            else if k =?s "writerId" then JStr (Writers.wt_id w) else get k body) as Hget.
  { intros key. unfold body'. rewrite get_set_field by done. by rewrite get_set_field by done. }
  unfold put, transact, putInTransaction, get_job.
  destruct (map_get (room, id) db) as [e|] eqn:Ek.
  { destruct (normalizeJob room id body' (j_createdAt e)) as [[n|]|]; simpl; [destruct (_ =?s _)|..]; apply confined_same. }
  destruct (normalizeJob room id body' now) as [[n|]|] eqn:En; simpl; [|apply confined_same..].
  rewrite expireQueued_ok by done. simpl. destruct (_ || _); simpl; [apply confined_expired|].
  unfold save. destruct (bindable _); simpl; [|apply confined_same].
  rewrite map_get_set. destruct (decide (k = (room, id))) as [->|Hn]; [|apply confined_expired].
  rewrite Ek. apply normalizeJob_fields in En as (Hw & Hx & He & _ & _). rewrite Hget in Hw, Hx, He.
  change (n_writerId n = Some (Writers.wt_id w)) in Hw.
  change (get "expiresAt" body = JNum (NInt (n_expiresAt n))) in Hx.
  change (n_envelope n = ordered (get "envelope" body)) in He.
  simpl. split_and!; [done|done|exact Hw| |].
  - rewrite He. simpl. destruct (get "envelope" body) as [| | | | | |fs]; try done. simpl.
    pose proof (get_sort_entries "recipientKeyId" fs) as Hs. simpl in Hs. by rewrite Hs.
  - rewrite Hx in El. simpl in El. injection El as El. by apply Z.ltb_ge in El.
Qed.

Lemma transition_cancel_confined db room id now w k :
  table_wf db -> (exists row, map_get (room, id) db = Some row /\ j_writerId row = Some (Writers.wt_id w)) ->
  confined w room now k (map_get k db) (map_get k (transition sha256 db room id "cancel" JUndef now).2).
Proof.
  intros Hwf (row & Hk & Hw). unfold transition, transact, transitionInTransaction, get_job. rewrite Hk. simpl.
  destruct (cancelJob row now) as [st e|st row'] eqn:Ec; simpl; [apply confined_same|].
  unfold save. destruct (bindable _); simpl; [|apply confined_same].
  assert (row' = job_exec row now OpCancel) as Hx by (unfold job_exec; simpl; by rewrite Ec).
  assert (j_id row' = id) as ->.
  { rewrite Hx, (jl_id _ _ (job_exec_le row now OpCancel)). destruct Hwf as [_ Hr _ _ _].
    rewrite Forall_forall in Hr. destruct (Hr _ (map_get_Some _ _ _ Hk)) as (Hid & _). done. }
  rewrite map_get_set. destruct (decide (k = (room, id))) as [->|Hn]; [|apply confined_same].
  rewrite Hk. simpl. right. right. split_and!; [done|done|].
  apply cancelJob_row in Ec as (_ & [[? ->]|[[? ->]|(_ & _ & ->)]]); done.
Qed.

Lemma getPublic_ok db room id now m :
  table_wf db ->
  getPublic db room id now m
  = (Ok ((fun row => if m then taskJobMetadata (publicJob row) else publicJob row)
           <$> get_job (map_update (expire_room room now) db) room id), map_update (expire_room room now) db).
Proof. intros Hwf. unfold getPublic, transact. rewrite expireQueued_ok by done. simpl. by destruct m. Qed.

(** The state a confined request may leave. *)
Definition confined_state (w : Writers.writer) (room : jstr) (now : Z) (s s' : node_tasks) : Prop :=
  nt_grants s' = nt_grants s /\ nt_configs s' = nt_configs s /\
  forall k, confined w room now k (map_get k (nt_jobs s)) (map_get k (nt_jobs s')).

Lemma confined_refl w room now s : confined_state w room now s s.
Proof. split_and!; [done|done|]. intros k. apply confined_same. Qed.

Lemma confined_expiry w room now s :
  confined_state w room now s (with_jobs s (map_update (expire_room room now) (nt_jobs s))).
Proof. split_and!; [done|done|]. intros k. apply confined_expired. Qed.

Lemma scope_passes s rq w room id action now :
  table_wf (nt_jobs s) ->
  let '(r, s1) := writer_scope s rq (Some w) room id action now in
  confined_state w room now s s1 /\
  (r = Ok None -> exists i, id = Some i /\ action = None /\
     s1 = with_jobs s (map_update (expire_room room now) (nt_jobs s)) /\
     ((rq_method rq =?s "PUT") = true \/
      exists row, map_get (room, i) (nt_jobs s1) = Some row /\ j_writerId row = Some (Writers.wt_id w))).
Proof.
  intros Hwf. unfold writer_scope. destruct id as [i|]; [|split; [apply confined_refl|done]].
  destruct action as [a|]; [split; [apply confined_refl|done]|].
  destruct (negb (existsb _ _)); [split; [apply confined_refl|done]|].
  simpl. rewrite getPublic_ok by done. unfold get_job.
  destruct (_ && _) eqn:E; (split; [apply confined_expiry|]); [done|]. intros _.
  exists i. split_and!; try done. destruct (rq_method rq =?s "PUT"); [by left|right].
  simpl in E. apply negb_false_iff, bool_decide_eq_true in E. simpl.
  destruct (map_get (room, i) _) as [row|]; [|done]. exists row. split; [done|]. by destruct row.
Qed.

Lemma job_request_confined s rq w room i now :
  table_wf (nt_jobs s) ->
  (rq_method rq =?s "PUT") = true \/
    (exists row, map_get (room, i) (nt_jobs s) = Some row /\ j_writerId row = Some (Writers.wt_id w)) ->
  confined_state w room now s (job_request number_of_string s rq (Some w) room (Some i) None now).2.
Proof.
  intros Hwf Hcan. unfold job_request. destruct (rq_method rq =?s "GET").
  { simpl. rewrite getPublic_ok by done. simpl. apply confined_expiry. }
  destruct (rq_method rq =?s "PUT") eqn:Eput.
  - destruct (rq_read rq JOB_BYTES) as [body|]; simpl; [|apply confined_refl].
    change (if negb (is_str (get "recipientKeyId" (get "envelope" body)) (Writers.wt_recipientKeyId w)) then Ok None
      else _) with (writer_body number_of_string (Some w) body).
    destruct (writer_body number_of_string (Some w) body) as [[body'|]|] eqn:Eb; [|apply confined_refl..].
    destruct (put sha256 (nt_jobs s) room i body' now) as [r jobs] eqn:Ep. simpl.
    split_and!; [done|done|]. intros k. pose proof (put_confined (nt_jobs s) room i body body' now w k Hwf Eb) as Hc.
    by rewrite Ep in Hc.
  - destruct Hcan as [?|Hrow]; [done|]. destruct (rq_method rq =?s "DELETE"); [|apply confined_refl]. simpl.
    pose proof (fun k => transition_cancel_confined (nt_jobs s) room i now w k Hwf Hrow) as Hc.
    destruct (transition sha256 (nt_jobs s) room i "cancel" JUndef now) as [r jobs]. simpl in *.
    by split_and!.
Qed.

Lemma resources_read_only s room id now r s' :
  Writers.resources (nt_grants s) room id None now = Ok (r, s') -> s' = nt_grants s.
Proof.
  unfold Writers.resources. destruct (Writers.get_writer _ _ _); [|by intros [= _ <-]].
  destruct (negb _); [by intros [= _ <-]|]. destruct (rt_get _ _ _); [|by intros [= _ <-]].
  case_match; by intros [= _ <-].
Qed.

(** C12: A delegated writer is confined to its own jobs: whatever request a caller
    who is not the room's owner sends to any reachable store, grants, reports
    and configurations stay as they are, and every job is unchanged (or expired
    on schedule), or is a job of the authorized writer that the request
    cancelled, or is a new queued job of that room that carries the writer's id,
    the writer's recipient and an expiry within the writer's lifetime. *)
Theorem writer_is_confined (trace : list (Z * store_op)) (s : node_tasks) (rq : request) (room : jstr) (now : Z) :
  nt_jobs s = store_run sha256 [] trace -> rq_owner rq = false -> rq_room rq = Some room ->
  (node_response s rq now).2 = s \/
  exists w retained, Writers.authorize sha256 (nt_grants s) room (rq_credential rq) now retained = Some w /\
    confined_state w room now s (node_response s rq now).2.
Proof.
  intros Hs Howner Hroom. pose proof (store_run_wf sha256 [] trace empty_wf) as Hwf. rewrite <- Hs in Hwf. clear Hs.
  unfold node_response, taskDispatchResponse. rewrite Hroom, Howner.
  destruct (negb (validRoom (JStr room))); [by left|]. cbn [negb andb].
  set (retained := (rq_method rq =?s "GET") && _ && _).
  destruct (tb_authorize s room (rq_credential rq) now retained) as [w|] eqn:Ew.
  2: { rewrite bool_decide_eq_true_2 by done. by left. }
  rewrite bool_decide_eq_false_2 by done. simpl in Ew.
  destruct (path_id "/task-job-configurations/" hex64 (rq_pathname rq)).
  { left. unfold configuration_request. by rewrite Howner. }
  destruct (path_id "/task-resources/" re_job_id (rq_pathname rq)) as [id|].
  { left. unfold resource_request. rewrite Howner. simpl. destruct (_ || _) eqn:Er; [done|].
    split_andb. destruct (rq_method rq =?s "GET") eqn:Eg; [|done]. simpl.
    assert ((rq_method rq =?s "PUT") = false) as ->.
    { unfold jeqb in *. apply bool_decide_eq_true in Eg. rewrite Eg. done. }
    simpl. destruct (Writers.resources (nt_grants s) room id None now) as [[r g]|] eqn:E; [|done].
    apply resources_read_only in E as ->. by destruct s. }
  destruct (path_id "/task-job-writers/" re_job_id (rq_pathname rq)).
  { left. unfold grant_request. by rewrite Howner. }
  destruct (job_path (rq_pathname rq)) as [[id action]|]; [|by left].
  destruct (match id with Some i => _ | None => false end); [by left|].
  right. exists w, retained. split; [done|].
  pose proof (scope_passes s rq w room id action now Hwf) as Hscope.
  destruct (writer_scope s rq (Some w) room id action now) as [[[refused|]|] s1]; [by destruct Hscope| |by destruct Hscope].
  destruct Hscope as [_ Hpass]. destruct (Hpass eq_refl) as (i & -> & -> & Es1 & Hcan).
  destruct (job_request_confined s1 rq w room i now) as (Hg & Hc & Hj); [|done|].
  { rewrite Es1. by apply expire_room_wf. }
  split_and!; [rewrite Hg, Es1; done|rewrite Hc, Es1; done|]. intros k. specialize (Hj k).
  rewrite Es1 in Hj at 1. by apply confined_after.
Qed.
End NodeBackend.

Definition sample_request (method path : jstr) (body : jsv) : request :=
  {| rq_method := method; rq_pathname := path; rq_room := Some "00112233445566778899"; rq_owner := false;
     rq_credential := Some ("writer:" +++ "writer-0001" +++ ":" +++ sample_token);
     rq_read := fun _ => Ok body; rq_metadataOnly := false |}.

Lemma writer_is_confined_witness :
  let s := {| nt_jobs := []; nt_grants := Writers.sample_grants; nt_configs := [] |} in
  let rq := sample_request "PUT" "/task-jobs/job-0001"
    (with_envelope (JNum (NInt 10)) (JNum (NInt 100)) (JStr sample_token) sample_fields) in
  let s' := (node_response (fun x => x) (fun _ => None) s rq 20).2 in
  length (nt_jobs s') = 1%nat /\
  (s' = s \/ exists w retained,
     Writers.authorize (fun x => x) (nt_grants s) "00112233445566778899" (rq_credential rq) 20 retained = Some w /\
     confined_state w "00112233445566778899"%js 20 s s').
Proof.
  intros s rq s'. split; [vm_compute; reflexivity|].
  apply (writer_is_confined (fun x => x) (fun _ => None) [] s rq "00112233445566778899" 20); reflexivity.
Defined.
