(* ===== verification/TaskOffers.v ===== *)
(** * Offering scheduled jobs to connected machines
    [src/taskDispatch/socket-offers.js] and [offerRoomTaskJobs] of
    [src/taskDispatch/worker-room.js].

    An offer is advisory: only a claim lets a machine run a job.  The pump asks the
    store for one due job per socket and remembers, per socket, what it offered in the
    last 15 seconds.  [DueStore] is what it asks of a store; the SQLite store and the
    Durable Object store are its instances. *)

From S2P Require Import Prelude Validation Storage TaskJobs TaskStore TaskWorker Delivery.
From Stdlib Require Import Sorted.
#[local] Open Scope bool_scope.
#[local] Open Scope Z_scope.
#[local] Open Scope js_scope.

Definition OFFER_INTERVAL_MS : Z := 15000.

(** [offered]: the jobs offered to one socket and when. *)
Abbreviation offers := (list (jstr * Z)).

Definition recent_offers (now : Z) (offered : offers) : offers := filter (fun e => negb (OFFER_INTERVAL_MS <=? now - e.2)) offered.
Definition offered_recently (now : Z) (id : jstr) (offered : offers) : bool :=
  match map_get id offered with Some t => now - t <? OFFER_INTERVAL_MS | None => false end.

(** [sends]: whether [send] returned anything but [false]. *)
Fixpoint offer_loop (sends : public_job -> bool) (now : Z) (jobs : list public_job) (offered : offers) : offers * list public_job :=
  match jobs with
  | [] => (offered, [])
  | job :: rest =>
      if offered_recently now (p_id job) offered then offer_loop sends now rest offered
      else if negb (sends job) then offer_loop sends now rest offered
      else let '(offered', out) := offer_loop sends now rest (map_set (p_id job) now offered) in (offered', job :: out)
  end.

(** ** What the pump asks of a store *)

Class DueStore (T : Type) := {
  due_ok : T -> Prop;
  due_jobs : T -> jstr -> jstr -> Z -> list jstr -> res (list public_job) * T;
}.

(** A job that may be offered to a recipient now. *)
Record offerable (recipient : jstr) (now : Z) (excluded : list jstr) (j : public_job) : Prop := {
  of_state : p_state j = Queued; of_start : p_notBefore j <= now; of_expiry : now < p_expiresAt j;
  of_recipient : get "recipientKeyId" (p_envelope j) = JStr recipient; of_new : p_id j ∉ excluded;
}.

Class DueLaws (T : Type) `{DueStore T} := {
  due_keeps : forall st room recipient now excluded, due_ok st -> due_ok (due_jobs st room recipient now excluded).2;
  due_sound : forall st room recipient now excluded jobs st',
    due_ok st -> due_jobs st room recipient now excluded = (Ok jobs, st') -> (length jobs <= 1)%nat /\ Forall (offerable recipient now excluded) jobs;
}.

(** ** The SQLite store *)

#[export] Instance node_due : DueStore task_table := {| due_ok := table_wf; due_jobs := due |}.

Lemma first_due_in l e : first_due l = Some e -> e ∈ l.
Proof.
  revert e. induction l as [|x l IH]; simpl; intros e H; [done|]. destruct (first_due l) as [f|]; [|injection H as <-; by left].
  injection H as <-. destruct (due_before x f); [by left|right; by apply IH].
Qed.

#[export] Instance node_due_laws : DueLaws task_table.
Proof.
  split; [intros db room r now ex Hwf; exact (store_exec_wf (fun s => s) db now (SDue room r ex) Hwf)|].
  intros db room r now ex jobs db' Hwf H. pose proof (store_exec_wf (fun s => s) db now (SDue room r ex) Hwf) as Hwf'.
  cbn [store_exec due_jobs node_due due_ok] in *. unfold due, transact in H, Hwf'. rewrite expireQueued_ok in H, Hwf' by done.
  set (db1 := map_update (expire_room room now) db) in *. cbn [res_bind snd] in H, Hwf'. destruct (first_due _) as [e|] eqn:E; injection H as <- _; [|by split; [simpl; lia|constructor]].
  apply first_due_in, list_elem_of_filter in E as [Hd Hin]. destruct Hwf' as [_ Hrows _ _ _]. rewrite Forall_forall in Hrows.
  specialize (Hrows e Hin). apply Is_true_true in Hd. unfold due_row in Hd. split_andb. reflect_bools.
  split; [simpl; lia|]. constructor; [|constructor].
  split; simpl; [done|done|done|by apply is_str_eq|by rewrite (proj1 Hrows)].
Qed.

(** ** The Durable Object store *)

(** An exception of the reading leaves the rows that expired before it. *)
#[export] Instance worker_due_store (sha256 : jstr -> jstr) : DueStore wstorage := {|
  due_ok := fun _ => True;
  due_jobs := fun st room recipient now excluded =>
    match worker_due sha256 st room (JStr recipient) now excluded with
    | Ok (jobs, st') => (Ok jobs, st')
    | Throw => (Throw, match worker_rows sha256 st room now with Ok (_, st') => st' | Throw => st end)
    end;
|}.

Lemma worker_first_in l w : worker_first l = Some w -> w ∈ l.
Proof.
  revert w. induction l as [|x l IH]; simpl; intros w H; [done|]. destruct (worker_first l) as [f|]; [|injection H as <-; by left].
  injection H as <-. destruct (worker_due_before x f); [by left|right; by apply IH].
Qed.

Lemma strict_eq_text v s : strict_eq v (JStr s) = true -> v = JStr s.
Proof. destruct v as [| | |[]| | |]; simpl; intros H; try done. by apply bool_decide_eq_true in H as ->. Qed.

(** Reading the box back changes only the box. *)
Lemma hydrate_keeps sha256 st w w' :
  hydrateTaskJob sha256 st w = Ok w' -> j_id (w_row w') = j_id (w_row w) /\ j_state (w_row w') = j_state (w_row w) /\
  j_notBefore (w_row w') = j_notBefore (w_row w) /\ j_expiresAt (w_row w') = j_expiresAt (w_row w) /\
  get "recipientKeyId" (j_envelope (w_row w')) = get "recipientKeyId" (j_envelope (w_row w)).
Proof.
  unfold hydrateTaskJob. destruct (w_cipher w) as [c|]; [|by intros [= <-]]. destruct (_ || _); [done|].
  destruct (read_chunks _ _ _) as [box|]; [|done]. cbn [res_bind]. destruct (_ || _); [done|]. intros [= <-]. simpl. split_and!; try done.
  unfold with_box. destruct (j_envelope (w_row w)) as [| | | | | |fs]; try done. simpl.
  assert (forall (m : list (jstr * jsv)), assoc "recipientKeyId" (map_set ("box" : jstr) (JStr (JS box)) m) = assoc "recipientKeyId" m) as H; [|by rewrite H].
  induction m as [|[k v] m IH]; [done|]. simpl. case_decide; simpl; subst; [done|]. by rewrite IH.
Qed.

#[export] Instance worker_due_laws sha256 : @DueLaws wstorage (worker_due_store sha256).
Proof.
  split; [done|]. intros st room r now ex jobs st' _ H. cbn [due_jobs worker_due_store] in H. unfold worker_due in H.
  destruct (worker_rows sha256 st room now) as [[found st1]|] eqn:Er; [|done]. cbn [res_bind] in H.
  assert (Forall (fun w => j_state (w_row w) = Queued -> now < j_expiresAt (w_row w)) found) as Hlive.
  { unfold worker_rows in Er. destruct (task_records _ _); [|done]. cbn [res_bind] in Er. injection Er as <- _. apply Forall_forall.
    intros w (e & -> & _)%list_elem_of_fmap. simpl. destruct (expireJob_cases (w_row e.2) now) as [[-> Hn]|(_ & _ & ->)]; [|done].
    intros Hs. destruct (Z.le_gt_cases (j_expiresAt (w_row e.2)) now); [exfalso; by apply Hn|lia]. }
  destruct (worker_first _) as [w|] eqn:E; [|injection H as <- _; by split; [simpl; lia|constructor]].
  apply worker_first_in, list_elem_of_filter in E as [Hd Hin]. apply Is_true_true in Hd.
  destruct (hydrateTaskJob sha256 st1 w) as [w'|] eqn:Eh; [|done]. cbn [res_bind] in H. injection H as <- _.
  apply hydrate_keeps in Eh as (H1 & H2 & H3 & H4 & H5). unfold worker_due_row in Hd. split_andb. reflect_bools.
  rewrite Forall_forall in Hlive. split; [simpl; lia|]. constructor; [|constructor].
  split; simpl; rewrite ?H1, ?H2, ?H3, ?H4, ?H5; try done; [by apply Hlive|].
  by apply strict_eq_text.
Qed.

(** ** One call and the pumps *)

Section Pump.
Context {T : Type} `{DueStore T}.

(** [offerTaskJobs]: the offers of a socket, the jobs given to [send] ([Throw] when the store threw) and the store. *)
Definition offerTaskJobs (st : T) (room : jstr) (recipientKeyId : option jstr) (sends : public_job -> bool) (offered : offers) (now : Z)
  : offers * res (list public_job) * T :=
  match recipientKeyId with
  | None => (offered, Ok [], st)
  | Some recipient =>
      if recipient =?s "" then (offered, Ok [], st) else
      let offered := recent_offers now offered in
      match due_jobs st room recipient now (map fst offered) with
      | (Ok jobs, st') => let '(offered', out) := offer_loop sends now jobs offered in (offered', Ok out, st')
      | (Throw, st') => (offered, Throw, st')
      end
  end.

(** A connected socket as the pumps see it. *)
Record machine_peer := { mp_id : nat; mp_room : jstr; mp_open : bool; mp_role : option role; mp_taskDispatch : bool; mp_recipient : option jstr }.

(** [offered]: the [WeakMap] of the pump. *)
Abbreviation offer_cache := (list (nat * offers)).
Definition cached (caches : offer_cache) (id : nat) : offers := default [] (map_get id caches).

(** The loop over the sockets; an exception of the store ends it and makes the flag [false]. *)
Fixpoint offer_peers (wants : machine_peer -> bool) (sends : machine_peer -> public_job -> bool) (now : Z) (peers : list machine_peer)
    (caches : offer_cache) (st : T) : offer_cache * T * bool * list (nat * public_job) :=
  match peers with
  | [] => (caches, st, true, [])
  | peer :: rest =>
      if negb (wants peer) then offer_peers wants sends now rest caches st else
      let '(offered, result, st') := offerTaskJobs st (mp_room peer) (mp_recipient peer) (sends peer) (cached caches (mp_id peer)) now in
      let caches' := map_set (mp_id peer) offered caches in
      match result with
      | Throw => (caches', st', false, [])
      | Ok jobs =>
          let '(caches'', st'', ok, out) := offer_peers wants sends now rest caches' st' in
          (caches'', st'', ok, map (fun j => (mp_id peer, j)) jobs ++ out)
      end
  end.

Definition is_machine (peer : machine_peer) : bool := bool_decide (mp_role peer = Some Machine) && mp_taskDispatch peer.
(** Node sends only to open sockets and counts an offer either way; a throw of [send] is not modelled there. *)
Definition node_wants (peer : machine_peer) : bool := mp_open peer && is_machine peer.
Definition nodeTaskDispatchPump := offer_peers node_wants (fun _ _ => true).
(** A Worker socket that throws has not been offered the job. *)
Definition offerRoomTaskJobs (throws : nat -> bool) := offer_peers is_machine (fun peer _ => negb (throws (mp_id peer))).

(** ** Where an offer goes *)

Lemma offer_loop_jobs sends now jobs offered j : j ∈ (offer_loop sends now jobs offered).2 -> j ∈ jobs /\ sends j = true.
Proof.
  revert offered. induction jobs as [|x jobs IH]; intros offered; simpl; [by intros ?%elem_of_nil|].
  destruct (offered_recently _ _ _); [intros [? ?]%IH; split; [by right|done]|].
  destruct (sends x) eqn:E; cbn [negb]; [|intros [? ?]%IH; split; [by right|done]].
  specialize (IH (map_set (p_id x) now offered)). destruct (offer_loop _ _ _ _). intros [->|Hin]%elem_of_cons; [by split; [left|]|].
  destruct (IH Hin). split; [by right|done].
Qed.

Lemma offerTaskJobs_ok `{!DueLaws T} st room recipient sends offered now :
  due_ok st -> let '(_, result, st') := offerTaskJobs st room recipient sends offered now in
  due_ok st' /\ forall jobs, result = Ok jobs -> (length jobs <= 1)%nat /\
    forall j, j ∈ jobs -> exists r, recipient = Some r /\ offerable r now (map fst (recent_offers now offered)) j /\ sends j = true.
Proof.
  intros Hst. unfold offerTaskJobs. destruct recipient as [r|]; [|split; [done|]; intros jobs [= <-]; split; [simpl; lia|by intros j ?%elem_of_nil]].
  destruct (r =?s ""); [split; [done|]; intros jobs [= <-]; split; [simpl; lia|by intros j ?%elem_of_nil]|].
  pose proof (due_keeps st room r now (map fst (recent_offers now offered)) Hst) as Hk.
  pose proof (due_sound st room r now (map fst (recent_offers now offered))) as Hs.
  destruct (due_jobs _ _ _ _ _) as [[jobs|] st']; [|by split]. destruct (Hs jobs st' Hst eq_refl) as [Hl HF].
  pose proof (offer_loop_jobs sends now jobs (recent_offers now offered)) as Hj.
  assert (length (offer_loop sends now jobs (recent_offers now offered)).2 <= length jobs)%nat as Hlen.
  { generalize (recent_offers now offered). induction jobs as [|x jobs IH] in Hl |- *; intros o; simpl in *; [lia|].
    destruct (offered_recently _ _ _); [etransitivity; [apply IH; lia|lia]|]. destruct (negb _); [etransitivity; [apply IH; lia|lia]|].
    specialize (IH ltac:(lia) (map_set (p_id x) now o)). destruct (offer_loop _ _ _ _). simpl in *. lia. }
  destruct (offer_loop _ _ _ _) as [o out]. split; [done|]. intros jobs' [= <-]. split; [simpl in Hlen; lia|].
  intros j Hin. destruct (Hj j Hin) as [H1 H2]. rewrite Forall_forall in HF. exists r. auto.
Qed.

(** A socket gets at most one job of a pump, in the order of the sockets. *)
Lemma offer_peers_once `{!DueLaws T} wants sends now peers caches st :
  due_ok st -> map fst (offer_peers wants sends now peers caches st).2 `sublist_of` map mp_id peers.
Proof.
  revert caches st. induction peers as [|peer peers IH]; intros caches st Hst; cbn [offer_peers map]; [constructor|].
  destruct (negb (wants peer)); [by apply sublist_cons, IH|].
  pose proof (offerTaskJobs_ok st (mp_room peer) (mp_recipient peer) (sends peer) (cached caches (mp_id peer)) now Hst) as Ho.
  destruct (offerTaskJobs _ _ _ _ _ _) as [[offered result] st']. destruct Ho as [Hst' Ho].
  destruct result as [jobs|]; [|apply sublist_nil_l]. destruct (Ho jobs eq_refl) as [Hl _].
  specialize (IH (map_set (mp_id peer) offered caches) st' Hst'). destruct (offer_peers _ _ _ _ _ _) as [[[c' s'] ok] out]. cbn [snd] in *.
  rewrite map_app, map_map. destruct jobs as [|j [|]]; simpl in *; [by apply sublist_cons|by apply sublist_skip|lia].
Qed.

(** C32: Jobs are offered to their machine and to nobody else: whatever the pump sends to
    a socket is one queued job of its store that may start now, has not expired, is
    addressed to the recipient key of that socket and was not offered to it in the last
    15 seconds; the socket is a registered machine that asked for dispatch, and gets at
    most one job of a pump. *)
Theorem offers_reach_their_machine `{!DueLaws T} wants sends now peers caches st :
  due_ok st -> NoDup (map mp_id peers) ->
  let out := (offer_peers wants sends now peers caches st).2 in
  (forall id j, (id, j) ∈ out -> exists peer recipient, peer ∈ peers /\ mp_id peer = id /\ wants peer = true /\ sends peer j = true /\
     mp_recipient peer = Some recipient /\ offerable recipient now (map fst (recent_offers now (cached caches id))) j) /\
  NoDup (map fst out).
Proof.
  intros Hst Hn. split; [|eapply sublist_NoDup; [exact Hn|by apply offer_peers_once]].
  revert caches st Hst. induction peers as [|peer peers IH]; intros caches st Hst; cbn [offer_peers]; [by intros id j ?%elem_of_nil|].
  simpl in Hn. apply NoDup_cons in Hn as [Hnew Hn]. specialize (IH Hn). destruct (wants peer) eqn:Ew; cbn [negb].
  2: { intros id j Hin. destruct (IH caches st Hst id j Hin) as (p & r & Hp & ?). exists p, r. split; [by right|done]. }
  pose proof (offerTaskJobs_ok st (mp_room peer) (mp_recipient peer) (sends peer) (cached caches (mp_id peer)) now Hst) as Ho.
  destruct (offerTaskJobs _ _ _ _ _ _) as [[offered result] st']. destruct Ho as [Hst' Ho].
  destruct result as [jobs|]; [|by intros id j ?%elem_of_nil]. destruct (Ho jobs eq_refl) as [_ Hj].
  set (caches' := map_set (mp_id peer) offered caches). specialize (IH caches' st' Hst').
  destruct (offer_peers _ _ _ _ caches' st') as [[[c' s'] ok] out]. cbn [snd] in *. intros id j [Hin|Hin]%elem_of_app.
  - apply list_elem_of_fmap in Hin as (j' & [= -> ->] & Hin). destruct (Hj j' Hin) as (r & Hr & Hoff & Hs). exists peer, r. split_and!; try done. by left.
  - destruct (IH id j Hin) as (p & r & Hp & Hid & Hw & Hs & Hr & Hoff). exists p, r. split_and!; try done; [by right|].
    assert (cached caches' id = cached caches id) as <-; [|done]. unfold cached, caches'. rewrite map_get_set, decide_False; [done|].
    intros ->. apply Hnew. rewrite <- Hid. apply (list_elem_of_fmap_2 mp_id). exact Hp.
Qed.

(** ** Offers of one job are spaced *)

(** The calls of the pumps for one socket, each with the store it found. *)
Record offer_call := { oc_store : T; oc_room : jstr; oc_recipient : option jstr; oc_sends : public_job -> bool; oc_now : Z }.

Fixpoint offer_run (calls : list offer_call) (offered : offers) : list (Z * jstr) :=
  match calls with
  | [] => []
  | c :: rest =>
      let '(offered', result, _) := offerTaskJobs (oc_store c) (oc_room c) (oc_recipient c) (oc_sends c) offered (oc_now c) in
      map (fun j => (oc_now c, p_id j)) (match result with Ok jobs => jobs | Throw => [] end) ++ offer_run rest offered'
  end.

Lemma map_get_filter_keep {V} (k : jstr) (v : V) (P : jstr * V -> bool) m : map_get k m = Some v -> P (k, v) = true -> map_get k (filter P m) = Some v.
Proof.
  induction m as [|[k' v'] m IH]; [done|]. intros Hm HP. rewrite filter_cons. cbn [map_get] in Hm. case_decide.
  - injection Hm as ->. subst. rewrite decide_True by (by rewrite HP). cbn [map_get]. by rewrite decide_True.
  - case_decide; [|by apply IH]. cbn [map_get]. rewrite decide_False by done. by apply IH.
Qed.

(** A job offered less than 15 seconds ago is kept and not offered again. *)
Lemma offer_loop_blocks sends now jobs offered id t :
  map_get id offered = Some t -> now - t < OFFER_INTERVAL_MS ->
  map_get id (offer_loop sends now jobs offered).1 = Some t /\ Forall (fun j => p_id j <> id) (offer_loop sends now jobs offered).2.
Proof.
  intros Hg Ht. revert offered Hg. induction jobs as [|j jobs IH]; intros offered Hg; simpl; [by split|].
  unfold offered_recently. destruct (decide (p_id j = id)) as [->|Hne].
  { rewrite Hg, (proj2 (Z.ltb_lt _ _)) by done. by apply IH. }
  destruct (match map_get (p_id j) offered with Some _ => _ | None => false end); [by apply IH|]. destruct (negb (sends j)); [by apply IH|].
  specialize (IH (map_set (p_id j) now offered)). rewrite map_get_set, decide_False in IH by congruence. specialize (IH Hg).
  destruct (offer_loop _ _ _ _). simpl in *. destruct IH. split; [done|by constructor].
Qed.

Lemma offerTaskJobs_blocks st room recipient sends offered now id t :
  map_get id offered = Some t -> now - t < OFFER_INTERVAL_MS ->
  let '(offered', result, _) := offerTaskJobs st room recipient sends offered now in
  map_get id offered' = Some t /\ Forall (fun j => p_id j <> id) (match result with Ok jobs => jobs | Throw => [] end).
Proof.
  intros Hg Ht. unfold offerTaskJobs. destruct recipient as [r|]; [|by split]. destruct (r =?s ""); [by split|].
  assert (map_get id (recent_offers now offered) = Some t) as Hr.
  { apply map_get_filter_keep; [done|]. simpl. apply negb_true_iff, Z.leb_gt. lia. }
  destruct (due_jobs _ _ _ _ _) as [[jobs|] st']; [|by split].
  pose proof (offer_loop_blocks sends now jobs (recent_offers now offered) id t Hr Ht) as H'. by destruct (offer_loop _ _ _ _).
Qed.

(** Inside one call the second offer of a job meets the first. *)
Lemma offer_loop_once sends now jobs offered l1 j l2 :
  (offer_loop sends now jobs offered).2 = l1 ++ j :: l2 ->
  map_get (p_id j) (offer_loop sends now jobs offered).1 = Some now /\ Forall (fun x => p_id x <> p_id j) l2.
Proof.
  revert offered l1. induction jobs as [|x jobs IH]; intros offered l1; simpl; [by destruct l1|].
  destruct (offered_recently _ _ _); [by apply IH|]. destruct (negb (sends x)); [by apply IH|].
  pose proof (offer_loop_blocks sends now jobs (map_set (p_id x) now offered) (p_id x) now) as Hb. rewrite map_get_set, decide_True in Hb by done.
  specialize (Hb eq_refl ltac:(unfold OFFER_INTERVAL_MS; lia)). specialize (IH (map_set (p_id x) now offered)).
  destruct (offer_loop _ _ _ _) as [o out]. simpl in *. destruct l1 as [|y l1]; simpl; intros [= -> ->]; [done|by apply (IH l1)].
Qed.

Lemma offerTaskJobs_once st room recipient sends offered now l1 j l2 :
  let '(offered', result, _) := offerTaskJobs st room recipient sends offered now in
  (match result with Ok jobs => jobs | Throw => [] end) = l1 ++ j :: l2 ->
  map_get (p_id j) offered' = Some now /\ Forall (fun x => p_id x <> p_id j) l2.
Proof.
  unfold offerTaskJobs. destruct recipient as [r|]; [|by destruct l1]. destruct (r =?s ""); [by destruct l1|].
  destruct (due_jobs _ _ _ _ _) as [[jobs|] st']; [|by destruct l1].
  pose proof (offer_loop_once sends now jobs (recent_offers now offered) l1 j l2) as H'. by destruct (offer_loop _ _ _ _).
Qed.

Lemma offer_run_later calls offered start t id :
  Forall (fun c => start <= oc_now c) calls -> (t, id) ∈ offer_run calls offered -> start <= t.
Proof.
  intros HF. revert offered. induction HF as [|c calls Hc _ IH]; intros offered; cbn [offer_run]; [by intros ?%elem_of_nil|].
  destruct (offerTaskJobs _ _ _ _ _ _) as [[o result] st']. intros [Hin|Hin]%elem_of_app; [|by eapply IH].
  apply list_elem_of_fmap in Hin as (j & [= -> ->] & _). done.
Qed.

Lemma offer_run_blocks calls offered id t u :
  StronglySorted (fun a b => oc_now a <= oc_now b) calls -> map_get id offered = Some t -> (u, id) ∈ offer_run calls offered -> OFFER_INTERVAL_MS <= u - t.
Proof.
  intros Hs. revert offered. induction Hs as [|c calls Hs IH HF]; intros offered Hg Hin; [by apply elem_of_nil in Hin|].
  destruct (Z.le_gt_cases OFFER_INTERVAL_MS (oc_now c - t)) as [Hlate|Hearly].
  { apply (offer_run_later (c :: calls) offered (oc_now c)) in Hin; [lia|]. constructor; [lia|]. exact HF. }
  cbn [offer_run] in Hin. pose proof (offerTaskJobs_blocks (oc_store c) (oc_room c) (oc_recipient c) (oc_sends c) offered (oc_now c) id t Hg ltac:(lia)) as Hb.
  destruct (offerTaskJobs _ _ _ _ _ _) as [[o result] st']. destruct Hb as [Hg' Hn]. apply elem_of_app in Hin as [Hin|Hin]; [|by eapply IH].
  apply list_elem_of_fmap in Hin as (j & [= -> ->] & Hj). rewrite Forall_forall in Hn. by apply Hn in Hj.
Qed.

(** Offers are spaced: whatever the store answers, whichever sends fail and whatever
    happens to the job in between, two offers of the same job on the same socket are at
    least 15 seconds apart. *)
Theorem offers_are_spaced calls offered l1 t1 id l2 t2 l3 :
  StronglySorted (fun a b => oc_now a <= oc_now b) calls ->
  offer_run calls offered = l1 ++ (t1, id) :: l2 ++ (t2, id) :: l3 -> OFFER_INTERVAL_MS <= t2 - t1.
Proof.
  intros Hs. revert offered l1. induction Hs as [|c calls Hs IH HF]; intros offered l1; cbn [offer_run]; [by destruct l1|].
  pose proof (offerTaskJobs_once (oc_store c) (oc_room c) (oc_recipient c) (oc_sends c) offered (oc_now c)) as Ho.
  destruct (offerTaskJobs _ _ _ _ _ _) as [[o result] st']. set (jobs := match result with Ok _ => _ | Throw => _ end) in *.
  intros E. apply app_eq_app in E as (l & [[E1 E2]|[E1 E2]]).
  - destruct l as [|e l]; [apply (IH o []); simpl in *; congruence|]. simpl in E2. injection E2 as <- E2.
    apply map_eq_app in E1 as (js1 & js2 & Ej & _ & E1). destruct js2 as [|j js2]; [done|]. injection E1 as <- <- El.
    destruct (Ho js1 j js2 Ej) as [Hg Hn]. assert ((t2, p_id j) ∈ l ++ offer_run calls o) as Hin by (rewrite <- E2; set_solver).
    apply elem_of_app in Hin as [Hin|Hin]; [|by eapply offer_run_blocks]. rewrite <- El in Hin.
    apply list_elem_of_fmap in Hin as (x & [= _ Hx] & Hin). rewrite Forall_forall in Hn. specialize (Hn x Hin). congruence.
  - by apply (IH o l).
Qed.
End Pump.

Module Examples.
Definition key : jstr := JS (repeat 97%N 64).
Definition queued_job : job :=
  {| j_id := "job-0001"; j_state := Queued; j_notBefore := 10; j_expiresAt := 90000; j_createdAt := 1; j_updatedAt := 1; j_acceptanceHash := JNull;
     j_envelope := JObj [("recipientKeyId", JStr key)]; j_bytes := 5; j_fingerprint := "f"; j_claimId := None; j_writerId := None;
     j_writerSourceKeyId := JNull; j_resultCode := None; j_resultEnvelope := None |}.
Definition jobs : task_table := [(("room", "job-0001"), queued_job)].
Definition call (now : Z) : @offer_call task_table :=
  {| oc_store := jobs; oc_room := "room"; oc_recipient := Some key; oc_sends := fun _ => true; oc_now := now |}.

Lemma offers_are_spaced_witness :
  offer_run [call 20; call 15019; call 15020] [] = [(20, "job-0001" : jstr); (15020, "job-0001" : jstr)] /\ OFFER_INTERVAL_MS <= 15020 - 20.
Proof.
  assert (offer_run [call 20; call 15019; call 15020] [] = [(20, "job-0001" : jstr); (15020, "job-0001" : jstr)]) as E by (vm_compute; reflexivity).
  split; [exact E|]. apply (offers_are_spaced [call 20; call 15019; call 15020] [] [] 20 "job-0001" [] 15020 []); [|exact E].
  repeat constructor; simpl; lia.
Defined.

Definition peers : list machine_peer :=
  [{| mp_id := 1; mp_room := "room"; mp_open := true; mp_role := Some Phone; mp_taskDispatch := true; mp_recipient := Some key |};
   {| mp_id := 2; mp_room := "room"; mp_open := true; mp_role := Some Machine; mp_taskDispatch := true; mp_recipient := Some key |}].

Lemma jobs_wf : table_wf jobs.
Proof.
  split.
  - apply NoDup_singleton.
  - constructor; [|constructor]. split; [reflexivity|]. split; [reflexivity|]. vm_compute. discriminate.
  - intros r. unfold count_by, jobs. simpl. destruct (in_room _ _); vm_compute; discriminate.
  - intros r. unfold count_by, jobs. simpl. destruct (active_row _ _); vm_compute; discriminate.
  - intros r. unfold jobs. simpl. unfold row_bytes_in. destruct (active_row _ _); vm_compute; discriminate.
Qed.

Lemma offers_reach_their_machine_witness :
  let out := (nodeTaskDispatchPump 20 peers [] jobs).2 in
  map fst out = [2%nat] /\ forall id j, (id, j) ∈ out -> exists peer recipient, peer ∈ peers /\ mp_id peer = id /\ node_wants peer = true /\ true = true /\
    mp_recipient peer = Some recipient /\ offerable recipient 20 (map fst (recent_offers 20 (cached [] id))) j.
Proof.
  split; [vm_compute; reflexivity|].
  apply (@offers_reach_their_machine task_table node_due node_due_laws node_wants (fun _ _ => true) 20 peers [] jobs jobs_wf).
  apply (bool_decide_unpack _). vm_compute. exact I.
Defined.
End Examples.
