(* ===== verification/WorkerJobs.v ===== *)
(** * The bounds of a room object's scheduled jobs
    The invariant of [src/taskDispatch/worker.js] over the storage of one room: every
    record lies under its own key, and requests, offers and maintenance keep the history,
    the active jobs and their bytes within the limits of [policy.js], so that the paged
    listing never throws. *)

From S2P Require Import Prelude Validation Storage RoomTable TaskJobs TaskStore TaskWorker Delivery TaskOffers.
From Stdlib Require Import Sorted Permutation.
#[local] Open Scope bool_scope.
#[local] Open Scope Z_scope.
#[local] Open Scope js_scope.

(** ** The invariant *)

Definition job_active (e : jstr * wjob) : bool := retainsTaskPayload (w_row e.2).
Definition job_bytes_in (e : jstr * wjob) : Z := if job_active e then j_bytes (w_row e.2) else 0.

Record job_entry_ok (room : jstr) (e : jstr * wjob) : Prop := {
  je_key : e.1 = job_key room (j_id (w_row e.2));
  je_room : w_room e.2 = room;
  je_id : no_colon (j_id (w_row e.2));
  je_bytes : 0 <= j_bytes (w_row e.2);
}.

Record jobs_wf (room : jstr) (st : wstorage) : Prop := {
  jw_sorted : sorted (ws_jobs st);
  jw_rows : Forall (job_entry_ok room) (ws_jobs st);
  jw_count : Z.of_nat (length (ws_jobs st)) <= ROOM_RECEIPT_LIMIT;
  jw_active : count_by job_active (ws_jobs st) <= ROOM_JOB_LIMIT;
  jw_bytes : sum_by job_bytes_in (ws_jobs st) <= ROOM_JOB_BYTES;
}.

Lemma empty_jobs_wf room : jobs_wf room {| ws_jobs := []; ws_boxes := [] |}.
Proof. split; simpl; try done; constructor. Qed.

Lemma same_jobs_wf room st st' : ws_jobs st' = ws_jobs st -> jobs_wf room st -> jobs_wf room st'.
Proof. intros E [H1 H2 H3 H4 H5]. split; by rewrite E. Qed.

(** ** Listing *)

Lemma entry_prefix room e : job_entry_ok room e -> starts_with "task-job:" e.1 = true.
Proof. intros [-> _ _ _]. apply starts_with_iff. eexists. unfold job_key, task_prefix. simpl. reflexivity. Qed.

Lemma record_room room room' e : no_colon room -> job_entry_ok room e -> starts_with (task_prefix room') e.1 = true -> room' = room.
Proof.
  intros Hr [-> _ Hid _] H. apply starts_with_iff in H as [rest H]. unfold job_key, task_prefix in H.
  assert (forall a b : jstr, units (a +++ b) = units a ++ units b) as Hu by done. rewrite !Hu, <- !app_assoc in H. apply app_inv_head in H.
  change (units ":") with [58%N] in H. cbn [app] in H.
  assert (no_colon room') as Hr'.
  { intros Hin. apply list_elem_of_split_l in Hin as (l1 & l2 & E & Hl). rewrite E, <- app_assoc in H. cbn [app] in H.
    apply colon_split in H as [_ H]; [|done|done]. apply Hid. rewrite H. apply elem_of_app. right. by left. }
  apply colon_split in H as [H _]; [by symmetry; apply units_inj|done|done].
Qed.

Section Listing.
Context (room : jstr) (st : wstorage) (Hroom : no_colon room) (Hwf : jobs_wf room st).

Lemma list_everything : storage_list "task-job:" None None (ws_jobs st) = ws_jobs st.
Proof.
  pose proof (jw_rows _ _ Hwf) as Hr. rewrite Forall_forall in Hr. apply filter_all_in. intros e He.
  rewrite (entry_prefix room e (Hr e He)). exact I.
Qed.

Lemma list_own : storage_list (task_prefix room) None None (ws_jobs st) = ws_jobs st.
Proof.
  pose proof (jw_rows _ _ Hwf) as Hr. rewrite Forall_forall in Hr. apply filter_all_in. intros e He.
  assert (starts_with (task_prefix room) e.1 = true) as ->; [|exact I].
  rewrite (je_key _ _ (Hr e He)). apply starts_with_iff. by eexists.
Qed.

Lemma list_other room' : room' <> room -> storage_list (task_prefix room') None None (ws_jobs st) = [].
Proof.
  intros Hne. pose proof (jw_rows _ _ Hwf) as Hr. unfold storage_list. destruct (filter _ _) as [|e l] eqn:E; [done|exfalso].
  assert (e ∈ e :: l) as He by left. rewrite <- E in He. apply list_elem_of_filter in He as [Hs Hin]. rewrite andb_true_r in Hs. apply Is_true_true in Hs.
  rewrite Forall_forall in Hr. apply Hne. by eapply record_room; [|apply Hr|].
Qed.

(** The paged listing does not throw. *)
Lemma records_own : task_records (ws_jobs st) (task_prefix room) = Ok (ws_jobs st).
Proof.
  unfold task_records. rewrite listTaskJobRecords_spec by (apply Hwf || done). rewrite list_own. pose proof (jw_count _ _ Hwf) as Hc.
  rewrite (proj2 (Z.ltb_ge _ _)); [done|]. unfold HISTORY_LIMIT, ROOM_JOB_LIMIT. lia.
Qed.

Lemma records_other room' : room' <> room -> task_records (ws_jobs st) (task_prefix room') = Ok [].
Proof.
  intros Hne. unfold task_records. rewrite listTaskJobRecords_spec by (apply Hwf || done). by rewrite list_other.
Qed.

Lemma records_all : task_records (ws_jobs st) "task-job:" = Ok (ws_jobs st).
Proof.
  unfold task_records. rewrite listTaskJobRecords_spec by (apply Hwf || done). rewrite list_everything. pose proof (jw_count _ _ Hwf) as Hc.
  rewrite (proj2 (Z.ltb_ge _ _)); [done|]. unfold HISTORY_LIMIT, ROOM_JOB_LIMIT. lia.
Qed.

Lemma history_bounded : Z.of_nat (length (storage_list "task-job:" None None (ws_jobs st))) <= HISTORY_LIMIT.
Proof. rewrite list_everything. pose proof (jw_count _ _ Hwf). unfold HISTORY_LIMIT, ROOM_JOB_LIMIT. lia. Qed.
End Listing.

(** ** Writing *)

Section Writes.
Context (sha256 : jstr -> jstr).

(** The record that is written: the row without its box. *)
Lemma write_jobs st key w :
  exists c, ws_jobs (writeTaskJob sha256 st key w).1
    = storage_put key {| w_row := strip (w_row w); w_room := w_room w; w_cipher := c |} (ws_jobs st).
Proof.
  unfold writeTaskJob. repeat case_match; cbn [fst put_job ws_jobs]; eexists; f_equal;
    unfold deleteCiphertext; try case_match; rewrite ?for_index_jobs; done.
Qed.

Lemma put_same k v (st : list (jstr * wjob)) : sorted st -> storage_get k st = Some v -> storage_put k v st = st.
Proof.
  intros Hs. induction Hs as [|[k' v'] st Hs IH HF]; [done|]. unfold storage_get in *. cbn [storage_put map_get].
  destruct (decide (k = k')) as [->|Hne]; [by intros [= ->]|]. intros Hg. rewrite (IH Hg).
  rewrite Forall_forall in HF. specialize (HF _ (map_get_Some _ _ _ Hg)). simpl in HF. unfold key_lt in HF. apply negb_true_iff in HF. by rewrite HF.
Qed.

Lemma put_measure (f : jstr * wjob -> Z) k v v0 st :
  sorted st -> storage_get k st = Some v0 -> sum_by f (storage_put k v st) = sum_by f st - f (k, v0) + f (k, v).
Proof.
  intros Hs Hg. pose proof (storage_put_perm k v0 st Hs) as Hp. rewrite (put_same k v0 st Hs Hg) in Hp.
  rewrite (sum_by_perm f _ _ (storage_put_perm k v st Hs)), (sum_by_perm f _ _ Hp). simpl. lia.
Qed.

Lemma put_measure_new (f : jstr * wjob -> Z) k v st :
  sorted st -> storage_get k st = None -> sum_by f (storage_put k v st) = sum_by f st + f (k, v).
Proof.
  intros Hs Hg. rewrite (sum_by_perm f _ _ (storage_put_perm k v st Hs)). simpl.
  rewrite storage_delete_absent by (by apply map_get_None). lia.
Qed.

Lemma length_sum {A} (l : list A) : Z.of_nat (length l) = sum_by (fun _ => 1) l.
Proof. induction l as [|x l IH]; [done|]. simpl. lia. Qed.

(** What a write may make of a record: it gets no heavier and does not become active. *)
Record lighter (w' w : wjob) : Prop := {
  li_id : j_id (w_row w') = j_id (w_row w);
  li_room : w_room w' = w_room w;
  li_active : retainsTaskPayload (w_row w') = true -> retainsTaskPayload (w_row w) = true;
  li_bytes : 0 <= j_bytes (w_row w) -> 0 <= j_bytes (w_row w') <= j_bytes (w_row w);
}.

Lemma lighter_row w row : job_le row (w_row w) -> lighter (with_row w row) w.
Proof. intros [Hi _ Ha Hb]. by split. Qed.

Lemma write_old room st key w' w : jobs_wf room st -> storage_get key (ws_jobs st) = Some w -> lighter w' w -> jobs_wf room (writeTaskJob sha256 st key w').1.
Proof.
  intros [Hs Hr Hc Ha Hb] Hg [Hi Hro Hac Hby]. destruct (write_jobs st key w') as [c E].
  set (saved := {| w_row := strip (w_row w'); w_room := w_room w'; w_cipher := c |}) in E.
  assert (job_entry_ok room (key, w)) as [Hk Hwr Hid Hw] by (rewrite Forall_forall in Hr; by apply Hr, map_get_Some). specialize (Hby Hw). simpl in *.
  assert (job_entry_ok room (key, saved)) as Hok by (split; simpl; [by rewrite Hi|by rewrite Hro|by rewrite Hi|lia]).
  assert (retainsTaskPayload (strip (w_row w')) = retainsTaskPayload (w_row w')) as Hstrip by done.
  split; rewrite E.
  - by apply storage_put_sorted.
  - by apply storage_put_Forall.
  - rewrite length_sum in *. rewrite (put_measure _ key saved w) by done. lia.
  - unfold count_by in *. rewrite (put_measure _ key saved w) by done. unfold job_active at 3, saved. cbn [snd w_row]. rewrite Hstrip.
    unfold job_active at 2. cbn [snd]. destruct (retainsTaskPayload (w_row w')), (retainsTaskPayload (w_row w)); lia.
  - rewrite (put_measure _ key saved w) by done. unfold job_bytes_in at 2 3, job_active, saved. cbn [snd w_row strip]. rewrite Hstrip. simpl.
    destruct (retainsTaskPayload (w_row w')), (retainsTaskPayload (w_row w)); lia.
Qed.

Lemma write_new room st key w : jobs_wf room st -> storage_get key (ws_jobs st) = None -> job_entry_ok room (key, w) ->
  Z.of_nat (length (ws_jobs st)) < ROOM_RECEIPT_LIMIT -> count_by job_active (ws_jobs st) < ROOM_JOB_LIMIT ->
  sum_by job_bytes_in (ws_jobs st) + j_bytes (w_row w) <= ROOM_JOB_BYTES -> jobs_wf room (writeTaskJob sha256 st key w).1.
Proof.
  intros [Hs Hr Hc Ha Hb] Hg [Hk Hro Hid Hw] Lc La Lb. destruct (write_jobs st key w) as [c E].
  set (saved := {| w_row := strip (w_row w); w_room := w_room w; w_cipher := c |}) in E. simpl in *.
  split; rewrite E.
  - by apply storage_put_sorted.
  - by apply storage_put_Forall.
  - rewrite length_sum in *. rewrite put_measure_new by done. lia.
  - unfold count_by in *. rewrite put_measure_new by done. destruct (job_active (key, saved)); lia.
  - rewrite put_measure_new by done. unfold job_bytes_in at 2. destruct (job_active (key, saved)); simpl; lia.
Qed.

(** Records that are still as they were listed. *)
Definition listed (l : list (jstr * wjob)) (st : wstorage) : Prop := forall e, e ∈ l -> storage_get e.1 (ws_jobs st) = Some e.2.

Lemma listed_all room st : jobs_wf room st -> listed (ws_jobs st) st.
Proof. intros Hwf [k w] He. apply map_get_In; [|done]. apply sorted_nodup, Hwf. Qed.

Lemma expire_one_wf room now st e : jobs_wf room st -> storage_get e.1 (ws_jobs st) = Some e.2 -> jobs_wf room (expire_one sha256 room now st e.2).
Proof.
  intros Hwf Hg. unfold expire_one. destruct (overdue _ _); [|done].
  assert (job_entry_ok room e) as Hok by (pose proof (jw_rows _ _ Hwf) as Hr; rewrite Forall_forall in Hr; destruct e; by apply Hr, map_get_Some).
  rewrite <- (je_key _ _ Hok). eapply write_old; [done|done|]. apply lighter_row. rewrite expireJob_exec. apply job_exec_le.
Qed.

Lemma expire_one_other room now st e key : job_entry_ok room e -> key <> e.1 ->
  storage_get key (ws_jobs (expire_one sha256 room now st e.2)) = storage_get key (ws_jobs st).
Proof.
  intros Hok Hne. unfold expire_one. destruct (overdue _ _); [|done]. rewrite <- (je_key _ _ Hok). by apply writeTaskJob_other.
Qed.

Lemma expire_all_wf room now l st : jobs_wf room st -> NoDup l.*1 -> Forall (job_entry_ok room) l -> listed l st ->
  jobs_wf room (fold_left (expire_one sha256 room now) l.*2 st).
Proof.
  revert st. induction l as [|e l IH]; intros st Hwf Hnd Hok Hl; [done|]. cbn [fmap list_fmap fold_left] in *.
  apply NoDup_cons in Hnd as [Hn Hnd]. apply Forall_cons in Hok as [Hoke Hok]. apply IH; [by apply expire_one_wf; [|apply Hl; left]|done|done|].
  intros e' He'. rewrite expire_one_other; [apply Hl; by right|done|]. intros E. apply Hn. rewrite <- E. by apply list_elem_of_fmap_2.
Qed.

Lemma worker_rows_wf room room' st now found st' :
  no_colon room -> jobs_wf room st -> worker_rows sha256 st room' now = Ok (found, st') -> jobs_wf room st' /\ (room' = room -> length found = length (ws_jobs st)).
Proof.
  intros Hroom Hwf. unfold worker_rows. destruct (decide (room' = room)) as [->|Hne].
  - rewrite (records_own room st Hwf). cbn [res_bind]. intros [= <- <-]. split; [|intros _; by rewrite length_fmap].
    apply expire_all_wf; [done|apply sorted_nodup, Hwf|apply Hwf|by eapply listed_all].
  - rewrite (records_other room st Hroom Hwf room' Hne). cbn [res_bind]. intros [= _ <-]. by split.
Qed.

(** ** Every operation *)

Lemma worker_getPublic_wf room st room' id now m : jobs_wf room st -> jobs_wf room (worker_getPublic sha256 st room' id now m).2.
Proof.
  intros Hwf. unfold worker_getPublic. destruct (storage_get _ _) as [saved|] eqn:E; [|done]. cbn [snd]. destruct (overdue _ _); [|done].
  eapply write_old; [done|exact E|]. apply lighter_row. rewrite expireJob_exec. apply job_exec_le.
Qed.

Lemma worker_listActive_wf room st room' now r st' :
  no_colon room -> jobs_wf room st -> worker_listActive sha256 st room' now = Ok (r, st') -> jobs_wf room st'.
Proof.
  intros Hroom Hwf. unfold worker_listActive. destruct (worker_rows sha256 st room' now) as [[found st1]|] eqn:E; [|done]. cbn [res_bind].
  intros [= _ <-]. by eapply worker_rows_wf.
Qed.

Lemma worker_due_wf room st room' recipient now excluded :
  no_colon room -> jobs_wf room st -> jobs_wf room (@due_jobs _ (worker_due_store sha256) st room' recipient now excluded).2.
Proof.
  intros Hroom Hwf. cbn [due_jobs worker_due_store]. unfold worker_due.
  destruct (worker_rows sha256 st room' now) as [[found st1]|] eqn:E; [|done]. cbn [res_bind].
  assert (jobs_wf room st1) as H1 by (by eapply worker_rows_wf). destruct (worker_first _) as [next|]; [|done].
  by destruct (hydrateTaskJob sha256 st1 next).
Qed.

Lemma worker_transition_wf room st room' id action body now :
  jobs_wf room st -> jobs_wf room (worker_transition sha256 st room' id action body now).2.
Proof.
  intros Hwf. unfold worker_transition, transaction. destruct (storage_get _ _) as [w|] eqn:E; [|done]. cbv zeta.
  set (h := sha256 _).
  match goal with |- context[res_bind ?r _] => destruct r as [[status error|status row]|] eqn:Er end; cbn [res_bind snd]; [done| |done].
  eapply write_old; [done|exact E|]. apply lighter_row.
  assert (exists op, row = job_exec (w_row w) now op) as [op ->]; [|apply job_exec_le].
  destruct (action =?s "claim"); [exists (OpClaim body h)|destruct (action =?s "finish"); [exists (OpFinish body h)|exists OpCancel]];
    unfold job_exec; simpl; [by rewrite Er..|]. injection Er as Er. by rewrite Er.
Qed.

Lemma expire_all_other room now l st key : Forall (job_entry_ok room) l -> key ∉ l.*1 ->
  storage_get key (ws_jobs (fold_left (expire_one sha256 room now) l.*2 st)) = storage_get key (ws_jobs st).
Proof.
  revert st. induction l as [|e l IH]; intros st Hok Hn; [done|]. cbn [fmap list_fmap fold_left] in *. apply Forall_cons in Hok as [Hoke Hok].
  apply not_elem_of_cons in Hn as [Hne Hn]. rewrite IH by done. by apply (expire_one_other room).
Qed.

(** A measure of rows that does not look at the box. *)
Section Measures.
Context (g : job -> Z) (Hg : forall row, g (strip row) = g row).

Definition measure (l : list (jstr * wjob)) : Z := sum_by (fun e => g (w_row e.2)) l.

Lemma expire_measure room now st e : sorted (ws_jobs st) -> job_entry_ok room e -> storage_get e.1 (ws_jobs st) = Some e.2 ->
  measure (ws_jobs (expire_one sha256 room now st e.2)) = measure (ws_jobs st) - g (w_row e.2) + g (expireJob (w_row e.2) now).
Proof.
  intros Hs Hok Hget. unfold expire_one. destruct (overdue _ _) eqn:Eo.
  - rewrite <- (je_key _ _ Hok). destruct (write_jobs st e.1 (with_row e.2 (expireJob (w_row e.2) now))) as [c ->]. unfold measure.
    rewrite (put_measure _ _ _ e.2) by done. cbn [snd w_row with_row]. by rewrite Hg.
  - unfold overdue in Eo. assert (expireJob (w_row e.2) now = w_row e.2) as ->; [|lia].
    destruct (expireJob_cases (w_row e.2) now) as [[E _]|(H1 & H2 & _)]; [exact E|]. apply andb_false_iff in Eo as [Eo|Eo]; reflect_bools; [done|lia].
Qed.

Lemma expire_all_measure room now l st : jobs_wf room st -> NoDup l.*1 -> Forall (job_entry_ok room) l -> listed l st ->
  measure (ws_jobs (fold_left (expire_one sha256 room now) l.*2 st)) = measure (ws_jobs st) - measure l + sum_by (fun e => g (expireJob (w_row e.2) now)) l.
Proof.
  revert st. induction l as [|e l IH]; intros st Hwf Hnd Hok Hl; [unfold measure; simpl; lia|]. cbn [fmap list_fmap fold_left] in *.
  apply NoDup_cons in Hnd as [Hn Hnd]. apply Forall_cons in Hok as [Hoke Hok]. pose proof (Hl e ltac:(by left)) as He.
  rewrite IH; [|by apply expire_one_wf|done|done|].
  - rewrite expire_measure by (done || apply Hwf). unfold measure. simpl. lia.
  - intros e' He'. rewrite (expire_one_other room); [apply Hl; by right|done|]. intros E. apply Hn. rewrite <- E. by apply list_elem_of_fmap_2.
Qed.

Lemma rows_measure room st now found st' : jobs_wf room st -> worker_rows sha256 st room now = Ok (found, st') ->
  measure (ws_jobs st') = sum_by (fun w => g (w_row w)) found.
Proof.
  intros Hwf. unfold worker_rows. rewrite (records_own room st Hwf). cbn [res_bind]. intros [= <- <-].
  rewrite expire_all_measure; [|done|apply sorted_nodup, Hwf|apply Hwf|by eapply listed_all]. rewrite sum_by_map. cbn [w_row with_row]. lia.
Qed.
End Measures.

(** The rows of the capacity test weigh what is stored after the expiry. *)
Lemma rows_weights room st now found st' : jobs_wf room st -> worker_rows sha256 st room now = Ok (found, st') ->
  length (ws_jobs st') = length found /\
  count_by job_active (ws_jobs st') = Z.of_nat (length (filter (fun w => retainsTaskPayload (w_row w)) found)) /\
  sum_by job_bytes_in (ws_jobs st') = sum_by (fun w => j_bytes (w_row w)) (filter (fun w => retainsTaskPayload (w_row w)) found).
Proof.
  intros Hwf E. pose proof (rows_measure (fun _ => 1) ltac:(done) room st now found st' Hwf E) as H1.
  pose proof (rows_measure (fun row => if retainsTaskPayload row then 1 else 0) ltac:(done) room st now found st' Hwf E) as H2.
  pose proof (rows_measure (fun row => if retainsTaskPayload row then j_bytes row else 0) ltac:(done) room st now found st' Hwf E) as H3.
  unfold measure in *. split_and!.
  - rewrite <- !length_sum in H1. lia.
  - rewrite (count_by_length (fun w => retainsTaskPayload (w_row w))). exact H2.
  - rewrite (sum_by_filter _ (fun w => retainsTaskPayload (w_row w))). exact H3.
Qed.

Lemma worker_put_wf room st id body now : valid_room room -> jobs_wf room st -> jobs_wf room (worker_put sha256 st room id body now).2.
Proof.
  intros Hv Hwf. pose proof (room_no_colon room Hv) as Hroom. unfold worker_put, transaction.
  destruct (normalizeJob room id body _) as [[n|]|] eqn:En; cbn [res_bind snd]; [|done|done].
  destruct (storage_get (job_key room id) (ws_jobs st)) as [e|] eqn:Ek; [destruct (_ =?s _); done|].
  destruct (worker_rows sha256 st room now) as [[found st1]|] eqn:E; cbn [res_bind snd]; [|done].
  destruct (worker_rows_wf room room st now found st1 Hroom Hwf E) as [H1 _]. destruct (rows_weights room st now found st1 Hwf E) as (W1 & W2 & W3).
  destruct (_ || _) eqn:Ec; cbn [snd]; [done|]. split_andb. reflect_bools.
  apply write_new; [done| |split; cbn [fst snd w_row w_room j_id new_job j_bytes]; [done|done| |]|lia|lia|cbn; lia].
  - unfold worker_rows in E. rewrite (records_own room st Hwf) in E. cbn [res_bind] in E. injection E as _ <-.
    rewrite expire_all_other; [done|apply Hwf|]. by apply map_get_None.
  - apply job_id_no_colon. by apply normalizeJob_fields in En as (_ & _ & _ & _ & ?).
  - apply (nw_bytes _ _ (normalizeJob_wf _ _ _ _ _ En)).
Qed.

(** *** Maintenance *)

Lemma delete_wf room st k : jobs_wf room st -> jobs_wf room (delete_job k st).
Proof.
  intros [Hs Hr Hc Ha Hb]. assert (storage_delete k (ws_jobs st) `sublist_of` ws_jobs st) as Hsub by apply map_delete_sublist.
  split; cbn [ws_jobs delete_job].
  - by apply storage_delete_sorted.
  - by eapply sublist_Forall.
  - apply sublist_length in Hsub. lia.
  - etrans; [by apply count_by_sublist|done].
  - etrans; [apply sum_by_sublist; [|done]|done]. eapply Forall_impl; [exact Hr|]. intros e [_ _ _ H]. unfold job_bytes_in. by case_match.
Qed.

Lemma deleteCiphertext_jobs st row : ws_jobs (deleteCiphertext st row) = ws_jobs st.
Proof. unfold deleteCiphertext. case_match; [|done]. by rewrite for_index_jobs. Qed.

Lemma maintain_row_wf room now connected acc e : jobs_wf room acc.1 -> storage_get e.1 (ws_jobs acc.1) = Some e.2 ->
  jobs_wf room (maintain_row sha256 now connected acc e).1 /\
  forall key, key <> e.1 -> storage_get key (ws_jobs (maintain_row sha256 now connected acc e).1) = storage_get key (ws_jobs acc.1).
Proof.
  destruct acc as [st next], e as [name saved]. cbn [fst snd]. intros Hwf Hg. unfold maintain_row. destruct (_ && _); cbn [fst].
  - split; [apply delete_wf; eapply same_jobs_wf; [apply deleteCiphertext_jobs|done]|]. intros key Hk. cbn [ws_jobs delete_job].
    rewrite deleteCiphertext_jobs, storage_get_delete. by rewrite decide_False.
  - destruct (overdue _ _); [|done]. split; [|intros key Hk; by apply writeTaskJob_other].
    eapply write_old; [done|exact Hg|]. apply lighter_row. rewrite expireJob_exec. apply job_exec_le.
Qed.

Lemma maintain_wf room st now connected configured :
  jobs_wf room st -> exists st' next, maintain sha256 st now connected configured = Ok (st', next) /\ jobs_wf room st'.
Proof.
  intros Hwf. unfold maintain. rewrite (records_all room st Hwf). cbn [res_bind].
  assert (forall l acc, jobs_wf room acc.1 -> NoDup l.*1 -> listed l acc.1 -> jobs_wf room (fold_left (maintain_row sha256 now connected) l acc).1) as H.
  { induction l as [|e l IH]; intros acc Hacc Hnd Hl; [done|]. cbn [fmap list_fmap fold_left] in *. apply NoDup_cons in Hnd as [Hn Hnd].
    destruct (maintain_row_wf room now connected acc e Hacc (Hl e ltac:(by left))) as [H1 H2]. apply IH; [done|done|].
    intros e' He'. rewrite H2; [apply Hl; by right|]. intros E. apply Hn. rewrite <- E. by apply list_elem_of_fmap_2. }
  specialize (H (ws_jobs st) (st, configured) Hwf ltac:(apply sorted_nodup, Hwf) ltac:(by eapply listed_all)).
  destruct (fold_left _ _ _) as [st' next]. by exists st', next.
Qed.

(** A maintenance adds nothing to wait for: a record it leaves is awaited as one it found. *)
Lemma awaited_row now connected name row w (saved : wjob) :
  w_row w = strip row -> row = w_row saved \/ row = expireJob (w_row saved) now -> awaited now connected (name, w) = awaited now connected (name, saved).
Proof.
  intros Hw Hrow. unfold awaited. cbn [snd]. rewrite Hw, expire_strip. assert (expireJob row now = expireJob (w_row saved) now) as -> by (destruct Hrow as [->| ->]; [done|apply expire_expire]).
  set (r := expireJob _ _). assert (deadline (strip r) now connected = deadline r now connected) as Hd; [|by rewrite Hd].
  unfold deadline. cbn [strip with_envelope_of j_state j_envelope j_expiresAt j_notBefore]. by rewrite get_omit_other by set_solver.
Qed.

Lemma maintain_awaited st now connected configured st' next :
  maintain sha256 st now connected configured = Ok (st', next) -> sorted (ws_jobs st) ->
  forall e', e' ∈ ws_jobs st' -> exists e, e ∈ ws_jobs st /\ e.1 = e'.1 /\ awaited now connected e' = awaited now connected e.
Proof.
  unfold maintain. destruct (task_records _ _) as [found|] eqn:Ef; cbn [res_bind]; [|done]. intros [= E] Hs.
  set (known := fun e' : jstr * wjob => exists e, e ∈ ws_jobs st /\ e.1 = e'.1 /\ awaited now connected e' = awaited now connected e).
  assert (forall l acc, (forall e, e ∈ l -> e ∈ ws_jobs st) -> Forall known (ws_jobs acc.1) -> Forall known (ws_jobs (fold_left (maintain_row sha256 now connected) l acc).1)) as H.
  { induction l as [|[name saved] l IH]; intros [st1 n1] Hl Hk; [done|]. cbn [fold_left]. apply IH; [intros; apply Hl; by right|].
    cbn [maintain_row]. destruct (_ && _); cbn [fst].
    - cbn [ws_jobs delete_job]. rewrite deleteCiphertext_jobs. eapply sublist_Forall; [apply map_delete_sublist|exact Hk].
    - destruct (overdue _ _); [|exact Hk]. destruct (write_jobs st1 name (with_row saved (expireJob (w_row saved) now))) as [c ->]. apply storage_put_Forall; [|exact Hk].
      exists (name, saved). split_and!; [apply Hl; by left|done|]. eapply awaited_row; [done|by right]. }
  specialize (H found (st, configured)). rewrite E in H. intros e' He'. cbn [fst] in H. revert e' He'. apply Forall_forall, H.
  - intros e He. unfold task_records in Ef. rewrite listTaskJobRecords_spec in Ef by done. destruct (_ <? _); [done|]. injection Ef as <-.
    by apply list_elem_of_filter in He as [_ ?].
  - apply Forall_forall. intros e He. by exists e.
Qed.

(** *** Offers *)

Lemma offers_keep (P : wstorage -> Prop) throws now peers caches st :
  (forall st room recipient excluded, P st -> P (@due_jobs _ (worker_due_store sha256) st room recipient now excluded).2) -> P st ->
  P (@offerRoomTaskJobs _ (worker_due_store sha256) throws now peers caches st).1.1.2.
Proof.
  intros Hdue. unfold offerRoomTaskJobs. revert caches st. induction peers as [|peer peers IH]; intros caches st Hst; [done|]. cbn [offer_peers].
  destruct (negb _); [by apply IH|]. unfold offerTaskJobs. destruct (mp_recipient peer) as [recipient|].
  2: { specialize (IH (map_set (mp_id peer) (cached caches (mp_id peer)) caches) st Hst). by destruct (offer_peers _ _ _ _ _ _) as [[[c s] ok] out]. }
  destruct (recipient =?s "").
  { specialize (IH (map_set (mp_id peer) (cached caches (mp_id peer)) caches) st Hst). by destruct (offer_peers _ _ _ _ _ _) as [[[c s] ok] out]. }
  pose proof (Hdue st (mp_room peer) recipient (map fst (recent_offers now (cached caches (mp_id peer)))) Hst) as H1.
  destruct (due_jobs _ _ _ _ _) as [[jobs|] st1]; [|done]. cbn [snd] in H1. destruct (offer_loop _ _ _ _) as [offered out].
  specialize (IH (map_set (mp_id peer) offered caches) st1 H1). by destruct (offer_peers _ _ _ _ _ _) as [[[c s] ok] out'].
Qed.

Lemma offers_wf room throws now peers caches st : no_colon room -> jobs_wf room st ->
  jobs_wf room (@offerRoomTaskJobs _ (worker_due_store sha256) throws now peers caches st).1.1.2.
Proof. intros Hroom. apply offers_keep. intros st1 room' recipient excluded. by apply worker_due_wf. Qed.

(** ** Requests *)

(** What a room object does with its jobs. *)
Inductive job_request :=
| JrPut (id : jstr) (body : jsv) | JrTransition (id action : jstr) (body : jsv) | JrGet (id : jstr) (metadataOnly : bool) | JrActive
| JrOffer (throws : nat -> bool) (peers : list machine_peer) (caches : list (nat * offers))
| JrMaintain (connected : option (list jsv)) (configured : option Z).

Definition worker_exec (room : jstr) (st : wstorage) (now : Z) (op : job_request) : wstorage :=
  match op with
  | JrPut id body => (worker_put sha256 st room id body now).2
  | JrTransition id action body => (worker_transition sha256 st room id action body now).2
  | JrGet id m => (worker_getPublic sha256 st room id now m).2
  | JrActive => match worker_listActive sha256 st room now with Ok (_, st') => st' | Throw => st end
  | JrOffer throws peers caches => (@offerRoomTaskJobs _ (worker_due_store sha256) throws now peers caches st).1.1.2
  | JrMaintain connected configured => match maintain sha256 st now connected configured with Ok (st', _) => st' | Throw => st end
  end.

Fixpoint worker_run (room : jstr) (st : wstorage) (trace : list (Z * job_request)) : wstorage :=
  match trace with [] => st | (now, op) :: rest => worker_run room (worker_exec room st now op) rest end.

Lemma worker_exec_wf room st now op : valid_room room -> jobs_wf room st -> jobs_wf room (worker_exec room st now op).
Proof.
  intros Hv Hwf. pose proof (room_no_colon room Hv) as Hroom. destruct op; cbn [worker_exec].
  - by apply worker_put_wf.
  - by apply worker_transition_wf.
  - by apply worker_getPublic_wf.
  - destruct (worker_listActive sha256 st room now) as [[r st']|] eqn:E; [by eapply worker_listActive_wf|done].
  - by apply offers_wf.
  - destruct (maintain_wf room st now connected configured Hwf) as (st' & next & -> & H). done.
Qed.

(** C17: The jobs of a room object are bounded whatever requests, offers and maintenance
    do: at most 10,000 records, of which at most 100 are active with at most 48,000,000
    bytes together, each under its own key; so the paged listing behind every request
    and every alarm never throws, and a maintenance succeeds. *)
Theorem worker_jobs_bounded (room : jstr) (trace : list (Z * job_request)) :
  valid_room room -> let st := worker_run room {| ws_jobs := []; ws_boxes := [] |} trace in
  jobs_wf room st /\ task_records (ws_jobs st) (task_prefix room) = Ok (ws_jobs st) /\
  forall now connected configured, exists st' next, maintain sha256 st now connected configured = Ok (st', next).
Proof.
  intros Hv. assert (forall st, jobs_wf room st -> jobs_wf room (worker_run room st trace)) as H.
  { induction trace as [|[now op] trace IH]; intros st Hwf; [done|]. by apply IH, worker_exec_wf. }
  specialize (H _ (empty_jobs_wf room)). cbv zeta. split; [done|]. split; [by apply records_own|].
  intros now connected configured. destruct (maintain_wf room _ now connected configured H) as (st' & next & E & _). by exists st', next.
Qed.
End Writes.

Module Examples.
Definition room : jstr := "00112233445566778899".
(** A job is put and its room's alarm runs. *)
Definition trace : list (Z * job_request) :=
  [(20, JrPut "job-0001" (with_envelope (JNum (NInt 10)) (JNum (NInt 100)) (JStr sample_token) sample_fields)); (30, JrMaintain None None)].

Lemma worker_jobs_bounded_witness :
  let st := worker_run (fun x => x) room {| ws_jobs := []; ws_boxes := [] |} trace in
  length (ws_jobs st) = 1%nat /\ jobs_wf room st /\ exists st' next, maintain (fun x => x) st 200 None None = Ok (st', next).
Proof.
  split; [vm_compute; reflexivity|]. destruct (worker_jobs_bounded (fun x => x) room trace ltac:(reflexivity)) as (H1 & _ & H2).
  split; [exact H1|exact (H2 200 None None)].
Defined.
End Examples.
