(* ===== verification/RoomAlarm.v ===== *)
(** * The alarm of a Durable Object room
    [scheduleRoomTaskAlarm] of [src/taskDispatch/worker-room.js] and [alarm] of
    [src/relay/room.js].

    A Durable Object has one alarm; the endpoint directory, the scheduled jobs, their
    configurations and the pending wake share it.  The storage of a room is kept here as
    one record of its key spaces; the alarm lies in the directory, whose purge sets it. *)

From S2P Require Import Prelude Validation Storage TaskJobs TaskWorker RoomTable Configurations Wake Endpoints Delivery TaskOffers WorkerJobs.
#[local] Existing Instances Configurations.worker_configs Configurations.worker_config_laws.
#[local] Open Scope bool_scope.
#[local] Open Scope Z_scope.
#[local] Open Scope js_scope.

Record room_store := {
  rs_directory : directory; rs_tasks : wstorage; rs_configs : config_storage; rs_wake : option wake;
}.
Definition alarm_of (rs : room_store) : option Z := di_alarm (rs_directory rs).

Definition with_alarm (alarm : option Z) (d : directory) : directory := {| di_rows := di_rows d; di_alarm := alarm |}.

(** [Math.min(a ?? Infinity, b ?? Infinity)] *)
Definition sooner (a b : option Z) : option Z :=
  match a, b with Some x, Some y => Some (Z.min x y) | Some x, None => Some x | None, y => y end.

(** The recipient keys of the machines that asked for dispatch. *)
Definition connected_recipients (peers : list machine_peer) : list jsv :=
  map (fun p => match mp_recipient p with Some r => JStr r | None => JUndef end) (filter (fun p => is_machine p) peers).

Section Alarm.
Context (sha256 : jstr -> jstr).

(** The flag is [false] when the listing of the jobs threw: the alarm is then the directory's. *)
Definition scheduleRoomTaskAlarm (peers : list machine_peer) (now : Z) (rs : room_store) : room_store * bool :=
  let '(d, endpointAlarm) := purgeEndpointDirectory (rs_directory rs) now in
  let '(configs, configured) := do_maintain (rs_configs rs) now in
  match maintain sha256 (rs_tasks rs) now (Some (connected_recipients peers)) configured with
  | Throw => ({| rs_directory := d; rs_tasks := rs_tasks rs; rs_configs := rs_configs rs; rs_wake := rs_wake rs |}, false)
  | Ok (tasks, taskAlarm) =>
      let next := sooner (sooner endpointAlarm taskAlarm) (nextAt (rs_wake rs)) in
      ({| rs_directory := with_alarm next d; rs_tasks := tasks; rs_configs := configs; rs_wake := rs_wake rs |}, true)
  end.

(** [alarm]; [ok] is the outcome of the push of the drain, [throws] the failing sends of the offers. *)
Definition room_alarm (peers : list machine_peer) (caches : list (nat * offers)) (ok : bool) (throws : nat -> bool) (now : Z) (rs : room_store)
  : room_store * list (nat * offers) * bool * list (nat * public_job) :=
  let wake := fst (sendDue (rs_wake rs) now ok) in
  let '(caches, tasks, offered, out) := @offerRoomTaskJobs _ (worker_due_store sha256) throws now peers caches (rs_tasks rs) in
  let rs := {| rs_directory := rs_directory rs; rs_tasks := tasks; rs_configs := rs_configs rs; rs_wake := wake |} in
  if negb offered then (rs, caches, false, out) else
  let '(rs, scheduled) := scheduleRoomTaskAlarm peers now rs in (rs, caches, scheduled, out).
End Alarm.

(** ** The earliest of all deadlines *)

Lemma sooner_spec a b :
  (forall t, a = Some t \/ b = Some t -> exists n, sooner a b = Some n /\ n <= t) /\ (forall n, sooner a b = Some n -> a = Some n \/ b = Some n).
Proof.
  split.
  - intros t H. destruct a as [x|], b as [y|]; simpl; destruct H as [H|H]; try discriminate H; injection H as <-; (eexists; split; [done|lia]).
  - intros n. destruct a as [x|], b as [y|]; simpl; intros [= <-]; auto. destruct (Z.min_spec x y) as [[_ ->]|[_ ->]]; auto.
Qed.

Lemma endpoints_earliest (rows : list (jstr * jsv)) :
  (forall e, e ∈ rows -> exists n, Endpoints.earliest rows = Some n /\ n <= row_expiry e.2) /\
  (forall n, Endpoints.earliest rows = Some n -> exists e, e ∈ rows /\ row_expiry e.2 = n).
Proof.
  induction rows as [|[k row] rows [IH1 IH2]]; simpl; [split; [by intros e ?%elem_of_nil|done]|]. destruct (Endpoints.earliest rows) as [t|].
  - split.
    + intros e [->|Hin]%elem_of_cons; (eexists; split; [done|]); simpl; [lia|]. destruct (IH1 e Hin) as (n & [= <-] & ?). lia.
    + intros n [= <-]. destruct (Z.min_spec (row_expiry row) t) as [[_ ->]|[_ ->]]; [exists (k, row); split; [by left|done]|].
      destruct (IH2 t eq_refl) as (e & ? & ?). exists e. split; [by right|done].
  - split.
    + intros e [->|Hin]%elem_of_cons; [eexists; split; [done|simpl; lia]|]. by destruct (IH1 e Hin) as (? & ? & _).
    + intros n [= <-]. exists (k, row). split; [by left|done].
Qed.

Lemma config_next now l s next :
  (fold_left (config_maintain_step now) l (s, next)).2 = fold_left (fun n e => least n (cf_expiresAt e.2)) (filter (fun e => negb (expired now e.2)) l) next.
Proof.
  revert s next. induction l as [|e l IH]; intros s next; [done|]. cbn [fold_left]. rewrite filter_cons. unfold config_maintain_step at 2. cbn [fst snd].
  destruct (expired now e.2); cbn [negb]; [rewrite decide_False by (by intros []); apply IH|rewrite decide_True by done; apply IH].
Qed.

Lemma least_earliest next l :
  fold_left (fun n e => least n (cf_expiresAt (snd e))) l next = TaskWorker.earliest next (map (fun e : jstr * configuration => cf_expiresAt e.2) l).
Proof. revert next. induction l as [|e l IH]; intros next; [done|]. cbn [fold_left map]. by rewrite IH. Qed.

(** Nothing of the sources of the alarm is later than the listing bound allows to see. *)
Record room_store_ok (rs : room_store) : Prop := {
  ok_directory : directory_wf (rs_directory rs);
  ok_sorted : sorted (ws_jobs (rs_tasks rs));
  ok_history : Z.of_nat (length (storage_list "task-job:" None None (ws_jobs (rs_tasks rs)))) <= HISTORY_LIMIT;
  ok_configs : (length (storage_list config_space None None (rs_configs rs)) <= LIST_LIMIT)%nat;
}.

(** The times at which the room has something to do, as of [now]. *)
Inductive pending_at (peers : list machine_peer) (now : Z) (rs : room_store) (t : Z) : Prop :=
| pa_endpoint e : e ∈ di_rows (rs_directory rs) -> now < row_expiry e.2 -> t = row_expiry e.2 -> pending_at peers now rs t
| pa_task e : e ∈ storage_list "task-job:" None None (ws_jobs (rs_tasks rs)) ->
    awaited now (Some (connected_recipients peers)) e = Some t -> pending_at peers now rs t
| pa_configuration e : e ∈ storage_list config_space None None (rs_configs rs) -> expired now e.2 = false -> t = cf_expiresAt e.2 ->
    pending_at peers now rs t
| pa_wake : nextAt (rs_wake rs) = Some t -> pending_at peers now rs t.

Section Schedule.
Context (sha256 : jstr -> jstr).

Lemma maintain_ok rs peers now configured :
  room_store_ok rs -> exists tasks,
    maintain sha256 (rs_tasks rs) now (Some (connected_recipients peers)) configured
    = Ok (tasks, TaskWorker.earliest configured (omap (awaited now (Some (connected_recipients peers))) (storage_list "task-job:" None None (ws_jobs (rs_tasks rs))))).
Proof.
  intros [_ Hs Hl _]. unfold maintain, task_records. rewrite listTaskJobRecords_spec, (proj2 (Z.ltb_ge _ _)) by done. cbn [res_bind].
  pose proof (maintain_next sha256 now (Some (connected_recipients peers)) (storage_list "task-job:" None None (ws_jobs (rs_tasks rs))) (rs_tasks rs) configured) as H.
  destruct (fold_left _ _ _) as [tasks next]. cbn [snd] in H. subst next. by exists tasks.
Qed.

Lemma configured_spec rs now :
  room_store_ok rs -> (do_maintain (rs_configs rs) now).2
  = TaskWorker.earliest None (map (fun e => cf_expiresAt e.2) (filter (fun e => negb (expired now e.2)) (storage_list config_space None None (rs_configs rs)))).
Proof.
  intros [_ _ _ Hc]. unfold do_maintain. rewrite config_next, least_earliest. f_equal. f_equal. f_equal. unfold storage_list in *. by rewrite take_ge.
Qed.

Lemma schedule_alarm rs peers now :
  room_store_ok rs -> let '(rs', ok) := scheduleRoomTaskAlarm sha256 peers now rs in
  ok = true /\ alarm_of rs' = sooner (sooner (Endpoints.earliest (filter (fun e => now < row_expiry e.2) (di_rows (rs_directory rs))))
    (TaskWorker.earliest (do_maintain (rs_configs rs) now).2 (omap (awaited now (Some (connected_recipients peers))) (storage_list "task-job:" None None (ws_jobs (rs_tasks rs))))))
    (nextAt (rs_wake rs)).
Proof.
  intros Hok. unfold scheduleRoomTaskAlarm. pose proof (purge_rows (rs_directory rs) now (ok_directory _ Hok)) as (_ & _ & Hp).
  destruct (purgeEndpointDirectory _ _) as [d endpointAlarm]. cbn [snd] in Hp. subst endpointAlarm.
  destruct (do_maintain _ _) as [configs configured] eqn:Ec. cbn [snd].
  destruct (maintain_ok rs peers now configured Hok) as (tasks & ->). done.
Qed.

Lemma schedule_covers (peers : list machine_peer) (now : Z) (rs : room_store) :
  room_store_ok rs -> let '(rs', ok) := scheduleRoomTaskAlarm sha256 peers now rs in
  ok = true /\ (forall t, pending_at peers now rs t -> exists n, alarm_of rs' = Some n /\ n <= t) /\
  (forall n, alarm_of rs' = Some n -> pending_at peers now rs n).
Proof.
  intros Hok. pose proof (schedule_alarm rs peers now Hok) as H. destruct (scheduleRoomTaskAlarm _ _ _ _) as [rs' ok]. destruct H as [-> ->].
  split; [done|]. rewrite (configured_spec rs now Hok).
  set (endpoints := filter (fun e => now < row_expiry e.2) (di_rows (rs_directory rs))). set (tasks := omap _ _). set (configs := map _ _).
  destruct (endpoints_earliest endpoints) as [E1 E2]. destruct (TaskWorker.earliest_spec None configs) as [C1 C2].
  destruct (TaskWorker.earliest_spec (TaskWorker.earliest None configs) tasks) as [T1 T2].
  destruct (sooner_spec (Endpoints.earliest endpoints) (TaskWorker.earliest (TaskWorker.earliest None configs) tasks)) as [S1 S2].
  set (both := sooner (Endpoints.earliest endpoints) (TaskWorker.earliest (TaskWorker.earliest None configs) tasks)) in *.
  destruct (sooner_spec both (nextAt (rs_wake rs))) as [W1 W2].
  assert (forall n, both = Some n -> exists m, sooner both (nextAt (rs_wake rs)) = Some m /\ m <= n) as Hboth by (intros n Hn; apply W1; by left).
  split.
  - intros t Hp. assert ((exists n, both = Some n /\ n <= t) \/ nextAt (rs_wake rs) = Some t) as [(n & Hn & Hle)|Hw]; [|destruct (Hboth n Hn) as (m & ? & ?); exists m; split; [done|lia]|by apply W1; right].
    destruct Hp as [e Hin Hlt ->|e Hin Ha|e Hin Hx ->|Hw]; [left|left|left|by right].
    + destruct (E1 e) as (n & Hn & Hle); [by apply list_elem_of_filter|]. destruct (S1 n) as (m & ? & ?); [by left|]. exists m. split; [done|lia].
    + destruct (T1 t) as (n & Hn & Hle); [left; apply list_elem_of_omap; by exists e|]. destruct (S1 n) as (m & ? & ?); [by right|]. exists m. split; [done|lia].
    + destruct (C1 (cf_expiresAt e.2)) as (n & Hn & Hle); [left; apply list_elem_of_fmap; exists e; split; [done|]; apply list_elem_of_filter; by rewrite Hx|].
      destruct (T1 n) as (m & Hm & ?); [by right|]. destruct (S1 m) as (k & ? & ?); [by right|]. exists k. split; [done|lia].
  - intros n Hn. destruct (W2 n Hn) as [Hb|Hw]; [|by apply pa_wake]. destruct (S2 n Hb) as [He|Ht].
    + destruct (E2 n He) as (e & [Hlt Hin]%list_elem_of_filter & <-). by eapply pa_endpoint.
    + destruct (T2 n Ht) as [Hin|Hc]; [apply list_elem_of_omap in Hin as (e & Hin & Ha); by eapply pa_task|].
      destruct (C2 n Hc) as [Hin|Hx]; [|done]. apply list_elem_of_fmap in Hin as (e & -> & [Hx Hin]%list_elem_of_filter).
      eapply pa_configuration; [exact Hin| |done]. apply Is_true_true in Hx. by apply negb_true_iff in Hx.
Qed.

(** C33: One alarm serves the whole room: after scheduling, the alarm of the object is not
    later than anything the room waits for (the expiry of an endpoint record or of a
    configuration, the start, retry, expiry or retention end of a job, the next push or
    expiry of the pending wake), it is one of those times, and it is deleted exactly
    when there is none. *)
Theorem room_alarm_is_earliest (peers : list machine_peer) (now : Z) (rs : room_store) :
  room_store_ok rs -> let '(rs', ok) := scheduleRoomTaskAlarm sha256 peers now rs in
  ok = true /\ (forall t, pending_at peers now rs t -> exists n, alarm_of rs' = Some n /\ n <= t) /\
  (forall n, alarm_of rs' = Some n -> pending_at peers now rs n).
Proof. apply schedule_covers. Qed.

(** The alarm covers all the room waits for. *)
Definition alarm_current (peers : list machine_peer) (now : Z) (rs : room_store) : Prop :=
  forall t, pending_at peers now rs t -> exists n, alarm_of rs = Some n /\ n <= t.

(** Scheduling adds nothing to wait for. *)
Lemma schedule_pending rs peers now t :
  room_store_ok rs -> pending_at peers now (scheduleRoomTaskAlarm sha256 peers now rs).1 t -> pending_at peers now rs t.
Proof.
  intros Hok. unfold scheduleRoomTaskAlarm. pose proof (purge_rows (rs_directory rs) now (ok_directory _ Hok)) as (Hp & _ & _).
  destruct (purgeEndpointDirectory _ _) as [d a]. cbn [fst] in Hp.
  pose proof (proj1 (do_maintain_sublist now (storage_list config_space None (Some LIST_LIMIT) (rs_configs rs)) (rs_configs rs) None)) as Hc.
  change (fold_left _ _ _) with (do_maintain (rs_configs rs) now) in Hc. destruct (do_maintain _ _) as [configs configured]. cbn [fst] in Hc.
  destruct (maintain_ok rs peers now configured Hok) as (tasks & E). rewrite E. cbn [fst].
  intros [e Hin Hlt ->|e Hin Ha|e Hin Hx ->|Hw]; cbn [rs_directory rs_tasks rs_configs rs_wake with_alarm di_rows] in *.
  - rewrite Hp in Hin. apply list_elem_of_filter in Hin as [_ Hin]. by apply (pa_endpoint _ _ _ _ e).
  - apply list_elem_of_filter in Hin as [Hs Hin].
    destruct (maintain_awaited sha256 (rs_tasks rs) now _ configured tasks _ E (ok_sorted _ Hok) e Hin) as (e0 & Hin0 & Ek & E0).
    apply (pa_task _ _ _ _ e0); [|by rewrite <- E0]. apply list_elem_of_filter. by rewrite Ek.
  - apply list_elem_of_filter in Hin as [Hs Hin]. apply (pa_configuration _ _ _ _ e); [|done|done]. apply list_elem_of_filter. split; [done|]. by eapply elem_of_sublist.
  - by apply pa_wake.
Qed.

Lemma schedule_current rs peers now : room_store_ok rs -> alarm_current peers now (scheduleRoomTaskAlarm sha256 peers now rs).1.
Proof.
  intros Hok t Ht. apply (schedule_pending rs peers now t Hok) in Ht. pose proof (schedule_covers peers now rs Hok) as H.
  destruct (scheduleRoomTaskAlarm _ _ _ _) as [rs' ok]. destruct H as (_ & H & _). by apply H.
Qed.

(** ** The bounds of the storage *)

(** The storage of the room [room]: its directory, its jobs and its configurations. *)
Record store_wf (room : jstr) (rs : room_store) : Prop := {
  so_directory : directory_wf (rs_directory rs);
  so_few : Z.of_nat (length (di_rows (rs_directory rs))) <= ENDPOINT_RECIPIENT_LIMIT;
  so_jobs : jobs_wf room (rs_tasks rs);
  so_configs : configs_bounded (rs_configs rs);
  so_own : Forall (fun e => starts_with (do_prefix config_space room) e.1 = true) (rs_configs rs);
}.

(** What the room keeps, whatever its name. *)
Definition store_kept (rs rs' : room_store) : Prop := forall room, valid_room room -> store_wf room rs -> store_wf room rs'.

#[export] Instance store_kept_preorder : PreOrder store_kept.
Proof. split; [by intros rs room|]. intros a b c H1 H2 room Hr Hw. auto. Qed.

Lemma store_wf_ok room rs : valid_room room -> store_wf room rs -> room_store_ok rs.
Proof.
  intros Hr [Hd Hf Hj [Hwf Hb] Ho]. split; [done|apply Hj|by eapply history_bounded|].
  destruct (Hb room Hr) as (Hl & _ & _). change (rt_rows (rs_configs rs) room) with (do_rows config_space (rs_configs rs) room) in Hl.
  unfold do_rows in Hl. rewrite length_fmap, filter_all_in in Hl.
  2: { intros e He. rewrite Forall_forall in Ho. by rewrite (Ho e He). }
  pose proof (sublist_length _ _ (sublist_filter (fun e => starts_with config_space e.1 && match @None jstr with Some k => key_lt k e.1 | None => true end) (rs_configs rs))) as Hs.
  change (length (storage_list config_space None None (rs_configs rs)) <= length (rs_configs rs))%nat in Hs. unfold CONFIGURATION_LIMIT, LIST_LIMIT in *. lia.
Qed.

Lemma purge_few d now : directory_wf d -> (length (di_rows (purgeEndpointDirectory d now).1) <= length (di_rows d))%nat.
Proof. intros Hd. rewrite (proj1 (purge_rows d now Hd)). apply sublist_length, sublist_filter. Qed.

Lemma maintained_wf room configs now :
  configs_bounded configs -> Forall (fun e => starts_with (do_prefix config_space room) e.1 = true) configs ->
  configs_bounded (do_maintain configs now).1 /\ Forall (fun e => starts_with (do_prefix config_space room) e.1 = true) (do_maintain configs now).1.
Proof.
  intros Hb Ho. split; [apply (config_run_bounded configs [(now, CMaintain)] Hb); by repeat constructor|].
  eapply sublist_Forall; [|exact Ho]. apply (do_maintain_sublist now _ configs None).
Qed.

Lemma schedule_wf room rs peers now :
  valid_room room -> store_wf room rs -> let '(rs', ok) := scheduleRoomTaskAlarm sha256 peers now rs in ok = true /\ store_wf room rs'.
Proof.
  intros Hr [Hd Hf Hj Hb Ho]. unfold scheduleRoomTaskAlarm. pose proof (purge_wf (rs_directory rs) now Hd) as Hpw. pose proof (purge_few (rs_directory rs) now Hd) as Hpf.
  destruct (purgeEndpointDirectory _ _) as [d a]. cbn [fst] in Hpw, Hpf. destruct (maintained_wf room (rs_configs rs) now Hb Ho) as [Hmb Hmo].
  destruct (do_maintain _ _) as [configs configured]. cbn [fst] in Hmb, Hmo.
  destruct (maintain_wf sha256 room (rs_tasks rs) now (Some (connected_recipients peers)) configured Hj) as (tasks & next & -> & Ht).
  split; [done|]. split; cbn; [by destruct Hpw; split|lia|done|done|done].
Qed.

Lemma schedule_kept rs peers now : store_kept rs (scheduleRoomTaskAlarm sha256 peers now rs).1.
Proof. intros room Hr Hw. pose proof (schedule_wf room rs peers now Hr Hw) as H. destruct (scheduleRoomTaskAlarm _ _ _ _). by destruct H. Qed.

Lemma schedule_directory rs peers now :
  directory_wf (rs_directory rs) -> directory_wf (rs_directory (scheduleRoomTaskAlarm sha256 peers now rs).1).
Proof.
  intros Hd. unfold scheduleRoomTaskAlarm. pose proof (purge_wf (rs_directory rs) now Hd) as Hpw. destruct (purgeEndpointDirectory _ _) as [d a]. cbn [fst] in Hpw.
  destruct (do_maintain _ _) as [configs configured]. destruct (maintain _ _ _ _ _) as [[tasks t]|]; [|done]. destruct Hpw. by split.
Qed.

(** Jobs and the wake are rewritten. *)
Lemma tasks_kept rs tasks w :
  (forall room, valid_room room -> jobs_wf room (rs_tasks rs) -> jobs_wf room tasks) ->
  store_kept rs {| rs_directory := rs_directory rs; rs_tasks := tasks; rs_configs := rs_configs rs; rs_wake := w |}.
Proof. intros H room Hr [Hd Hf Hj Hb Ho]. split; cbn; auto. Qed.

Lemma offers_kept throws now peers caches rs w :
  store_kept rs {| rs_directory := rs_directory rs; rs_tasks := (@offerRoomTaskJobs _ (worker_due_store sha256) throws now peers caches (rs_tasks rs)).1.1.2;
                   rs_configs := rs_configs rs; rs_wake := w |}.
Proof. apply tasks_kept. intros room Hr. apply offers_wf. by apply room_no_colon. Qed.

Lemma room_alarm_kept peers caches ok throws now rs : store_kept rs (room_alarm sha256 peers caches ok throws now rs).1.1.1.
Proof.
  unfold room_alarm. set (w := fst (sendDue _ _ _)). pose proof (offers_kept throws now peers caches rs w) as Ho.
  destruct (offerRoomTaskJobs _ _ _ _ _) as [[[c tasks] offered] out]. cbn [fst snd] in Ho. destruct (negb offered); [exact Ho|].
  match goal with |- context[scheduleRoomTaskAlarm sha256 peers now ?x] => pose proof (schedule_kept x peers now) as Hs; destruct (scheduleRoomTaskAlarm sha256 peers now x) as [rs2 ok2] end.
  cbn [fst] in *. by etransitivity.
Qed.
End Schedule.

Module Examples.
Definition sample_store : room_store :=
  {| rs_directory := {| di_rows := [("endpoint:a", JObj [("expiresAt", JNum (NInt 900))])]; di_alarm := None |};
     rs_tasks := {| ws_jobs := [(job_key "r" "job-0001", {| w_row := sample_row; w_room := "r"; w_cipher := None |})]; ws_boxes := [] |};
     rs_configs := [];
     rs_wake := Some {| wk_recent := []; wk_pending := Some (400, 1); wk_nextAt := Some 60; wk_lastSentAt := Some 0 |} |}.

Lemma sample_store_ok : room_store_ok sample_store.
Proof.
  split.
  - split; [repeat constructor|]. constructor; [|constructor]. split; vm_compute; reflexivity.
  - repeat constructor.
  - vm_compute. discriminate.
  - simpl. unfold LIST_LIMIT. lia.
Qed.

(** No machine of the job's recipient is connected, so the job is only awaited for its expiry. *)
Lemma room_alarm_is_earliest_witness :
  let rs' := (scheduleRoomTaskAlarm (fun s => s) [] 5 sample_store).1 in
  alarm_of rs' = Some 60 /\ pending_at [] 5 sample_store 60.
Proof.
  pose proof (room_alarm_is_earliest (fun s => s) [] 5 sample_store sample_store_ok) as H. cbv zeta.
  destruct (scheduleRoomTaskAlarm (fun s => s) [] 5 sample_store) as [rs' ok] eqn:E. destruct H as (_ & _ & H).
  assert (alarm_of rs' = Some 60) as Ha.
  { change rs' with (rs', ok).1. rewrite <- E. vm_compute. reflexivity. }
  split; [exact Ha|exact (H 60 Ha)].
Defined.
End Examples.
