(* ===== verification/RoomSocket.v ===== *)
(** * The sockets of a Durable Object room
    [webSocketMessage], [targetsFor] and [acceptWebSocket] of [src/relay/room.js] with
    [src/relay/roomSockets.js].

    A turn of the object is one step: its input gate delivers no other event while a
    storage operation runs.  [throws] tells which sockets fail to [send] during the turn.
    A turn yields the new room, its effects and whether it ran to its end; an exception
    that no code catches ends it early and keeps what was done.  The push of a wake
    request, which waits for the network, is the effect [RWake] and is modelled in
    [Wake]. *)

From S2P Require Import Prelude Validation CoolDown ConnectionPolicy Delivery NodeRooms Storage RetainedState RetainedStores Presence SocketDelivery Endpoints TaskWorker Configurations TaskOffers RoomAlarm WorkerMailbox PushDevices.
#[local] Open Scope bool_scope.
#[local] Open Scope Z_scope.
#[local] Open Scope js_scope.

Definition MAX_WEBSOCKET_MESSAGE_BYTES : Z := 32 * 1024 * 1024.
Definition ROOM_COOL_DOWN_ENTRIES : Z := 256.

(** The attachment of a socket, which survives hibernation, and its in-memory policy
    state ([socketState]). *)
Record wsock := {
  ws_id : nat; ws_room : jstr; ws_role : option role; ws_recipientKeyId : option jstr; ws_relayControl : bool;
  ws_presenceEnabled : bool; ws_taskDispatch : bool; ws_ingress : ingress;
  ws_window : frame_window; ws_identity : option jstr;
}.

Definition fresh_window : frame_window := {| windowStartedAt := None; windowMessages := 0 |}.

Record room_obj := {
  rb_mail : mailbox; rb_retained : state_storage; rb_presence : list device; rb_store : room_store;
  rb_caches : list (nat * offers); rb_sockets : list wsock; rb_coolDowns : CoolDownRegistry;
}.

Inductive room_effect :=
| RSent (id : nat) (raw : jstr)                            (* a stored or forwarded frame *)
| RNotice (id : nat) (frame : jsv)                         (* a frame of the relay's own *)
| RPresence (id : nat) (raw : jstr)
| ROffered (id : nat) (job : TaskJobs.public_job)
| RForwarded (id : nat) (raw : jstr)
| RClosed (id : nat) (code : Z) (reason : jstr)
| RDropped (id : nat) (reason : jstr)
| RWake (envelope : jsv).

(** ** Turns *)

Definition turn_result : Type := room_obj * list room_effect * bool.
Definition done_turn (r : room_obj) : turn_result := (r, [], true).
Definition and_then (x : turn_result) (f : room_obj -> turn_result) : turn_result :=
  let '(r, out, ok) := x in if ok then let '(r', out', ok') := f r in (r', out ++ out', ok') else x.
#[local] Notation "'turn' r <- x ;; f" := (and_then x (fun r => f)) (at level 100, r name, x at level 99, right associativity).

Definition with_mail (m : mailbox) (r : room_obj) : room_obj :=
  {| rb_mail := m; rb_retained := rb_retained r; rb_presence := rb_presence r; rb_store := rb_store r; rb_caches := rb_caches r;
     rb_sockets := rb_sockets r; rb_coolDowns := rb_coolDowns r |}.
Definition with_retained (s : state_storage) (r : room_obj) : room_obj :=
  {| rb_mail := rb_mail r; rb_retained := s; rb_presence := rb_presence r; rb_store := rb_store r; rb_caches := rb_caches r;
     rb_sockets := rb_sockets r; rb_coolDowns := rb_coolDowns r |}.
Definition with_presence (p : list device) (r : room_obj) : room_obj :=
  {| rb_mail := rb_mail r; rb_retained := rb_retained r; rb_presence := p; rb_store := rb_store r; rb_caches := rb_caches r;
     rb_sockets := rb_sockets r; rb_coolDowns := rb_coolDowns r |}.
Definition with_store (s : room_store) (caches : list (nat * offers)) (r : room_obj) : room_obj :=
  {| rb_mail := rb_mail r; rb_retained := rb_retained r; rb_presence := rb_presence r; rb_store := s; rb_caches := caches;
     rb_sockets := rb_sockets r; rb_coolDowns := rb_coolDowns r |}.
Definition with_sockets (l : list wsock) (r : room_obj) : room_obj :=
  {| rb_mail := rb_mail r; rb_retained := rb_retained r; rb_presence := rb_presence r; rb_store := rb_store r; rb_caches := rb_caches r;
     rb_sockets := l; rb_coolDowns := rb_coolDowns r |}.
Definition with_coolDowns (c : CoolDownRegistry) (r : room_obj) : room_obj :=
  {| rb_mail := rb_mail r; rb_retained := rb_retained r; rb_presence := rb_presence r; rb_store := rb_store r; rb_caches := rb_caches r;
     rb_sockets := rb_sockets r; rb_coolDowns := c |}.

Definition set_attachment (role : option role) (flow : ingress) (window : frame_window) (identity : option jstr) (s : wsock) : wsock :=
  {| ws_id := ws_id s; ws_room := ws_room s; ws_role := role; ws_recipientKeyId := ws_recipientKeyId s; ws_relayControl := ws_relayControl s;
     ws_presenceEnabled := ws_presenceEnabled s; ws_taskDispatch := ws_taskDispatch s; ws_ingress := flow; ws_window := window; ws_identity := identity |}.
Definition update_socket (id : nat) (f : wsock -> wsock) (r : room_obj) : room_obj :=
  with_sockets (map (fun s => if Nat.eqb (ws_id s) id then f s else s) (rb_sockets r)) r.
Definition find_ws (id : nat) (r : room_obj) : option wsock := List.find (fun s => Nat.eqb (ws_id s) id) (rb_sockets r).

Definition ws_role_text (s : wsock) : option jstr := Delivery.role_text <$> ws_role s.
Definition ws_peer (s : wsock) : nat * option peer :=
  (ws_id s, Some {| pr_id := ws_id s; pr_open := true;
     pr_state := {| ps_room := ws_room s; ps_role := ws_role_text s; ps_recipient := ws_recipientKeyId s |};
     pr_presenceEnabled := ws_presenceEnabled s |}).
Definition ws_machine (s : wsock) : machine_peer :=
  {| mp_id := ws_id s; mp_room := ws_room s; mp_open := true; mp_role := ws_role s; mp_taskDispatch := ws_taskDispatch s; mp_recipient := ws_recipientKeyId s |}.

(** ** [roomSockets.js] *)

(** [known.role ?? envelope?.from]; [JUndef] when there is no envelope. *)
Definition frameIdentity (known : wsock) (envelope : jsv) : option jstr :=
  socketIdentity (Some (ws_room known)) (ws_recipientKeyId known)
    (match ws_role_text known with Some r => Some r | None => str_opt (get "from" envelope) end) (get "senderId" envelope).

Definition closeRoomSocket (known : wsock) (token : close_token) (envelope : jsv) (now : Z) (r : room_obj) : room_obj * list room_effect :=
  let identity := match ws_identity known with Some i => Some i | None => frameIdentity known envelope end in
  let '(close, coolDowns) := applyPolicyClose token identity (rb_coolDowns r) now in
  (with_coolDowns coolDowns r, [RClosed (ws_id known) (pc_code close) (pc_reason close)]).

(** [None]: not refused. *)
Definition refuseCoolingRoomSocket (known : wsock) (envelope : jsv) (now : Z) (r : room_obj) : room_obj * option (list room_effect) :=
  let '(remainingMs, coolDowns) := remaining (rb_coolDowns r) now (frameIdentity known envelope) false in
  let r := with_coolDowns coolDowns r in
  if remainingMs <=? 0 then (r, None) else
  let close := refuseCoolingFrame remainingMs in (r, Some [RClosed (ws_id known) (pc_code close) (pc_reason close)]).

(** The 429 of an upgrade under a cool-down: the seconds to wait. *)
Definition coolingUpgradeResponse (room : jstr) (recipientKeyId : option jstr) (now : Z) (r : room_obj) : room_obj * option Z :=
  let '(waitMs, coolDowns) := remaining (rb_coolDowns r) now (upgradeIdentity (Some room) recipientKeyId) false in
  (with_coolDowns coolDowns r, if waitMs <=? 0 then None else Some (Z.max 1 (ceil_seconds waitMs))).

Section Turns.
Context (parse : jstr -> option jsv) (sha256 : jstr -> jstr).
Context (throws : nat -> bool).

(** A notice to a socket that throws is lost. *)
Definition dropRoomMessage (known : wsock) (envelope : jsv) (reason : jstr) : list room_effect :=
  RDropped (ws_id known) reason
  :: (if ws_relayControl known && truthy (get "deliveryId" envelope) && negb (throws (ws_id known))
      then [RNotice (ws_id known) (droppedNotice (get "deliveryId" envelope) reason)] else []).

(** ** The first frame of a socket *)

(** [for (const item of list) ws.send(item.raw)]: a throw ends the turn. *)
Definition send_saved (s : wsock) (raws : list jstr) (r : room_obj) : turn_result :=
  if throws (ws_id s) && negb (bool_decide (raws = [])) then (r, [], false) else (r, map (RSent (ws_id s)) raws, true).

Definition flush_socket (s : wsock) (from : role) (now : Z) (r : room_obj) : turn_result :=
  let visitor := {| vs_matches := fun raw => matchesQueuedRecipient (parse raw) (ws_recipientKeyId s); vs_throws := fun _ => throws (ws_id s) |} in
  let '(sent, m) := flushTo (rb_mail r) from visitor now in (with_mail m r, map (RSent (ws_id s)) sent, true).

Definition note_presence (s : wsock) (now : Z) (r : room_obj) : turn_result :=
  let '(rows, frames) := noteWorkerPresence (rb_presence r) (map ws_peer (rb_sockets r)) (ws_id s) false now in
  (with_presence rows r, map (fun f => RPresence f.1 f.2) (filter (fun f => negb (throws f.1)) frames), true).

Definition offer_jobs (now : Z) (r : room_obj) : turn_result :=
  let '(caches, tasks, ok, out) := @offerRoomTaskJobs _ (worker_due_store sha256) throws now (map ws_machine (rb_sockets r)) (rb_caches r) (rs_tasks (rb_store r)) in
  let store := {| rs_directory := rs_directory (rb_store r); rs_tasks := tasks; rs_configs := rs_configs (rb_store r); rs_wake := rs_wake (rb_store r) |} in
  (with_store store caches r, map (fun e => ROffered e.1 e.2) out, ok).

Definition schedule (now : Z) (r : room_obj) : turn_result :=
  let '(store, ok) := scheduleRoomTaskAlarm sha256 (map ws_machine (rb_sockets r)) now (rb_store r) in
  (with_store store (rb_caches r) r, [], ok).

(** The branch of a socket without a role, past its cool-down. *)
Definition register_socket (known : wsock) (from : role) (envelope : jsv) (now : Z) (r : room_obj) : turn_result :=
  let register s := set_attachment (Some from) (ws_ingress s) (ws_window s) (frameIdentity known envelope) s in
  turn r <- note_presence known now (update_socket (ws_id known) register r);;
  turn r <- match from with Phone => send_saved known (map sr_raw (list_worker_state (rb_retained r) (ws_recipientKeyId known) now)) r | Machine => done_turn r end;;
  turn r <- flush_socket known from now r;;
  match from with
  | Machine => if ws_taskDispatch known then (turn r <- offer_jobs now r;; schedule now r) else done_turn r
  | Phone => done_turn r
  end.

(** ** Routing *)

Definition targetsFor (s : wsock) (envelope : jsv) (r : room_obj) : list wsock :=
  filter (fun t => negb (Nat.eqb (ws_id t) (ws_id s))
      && (is_str (get "to" envelope) "all" || match ws_role_text t with Some x => x =?s str_of (get "to" envelope) | None => false end)
      && matchesRecipient envelope (ws_recipientKeyId t)) (rb_sockets r).

(** [if (envelope.stateKey) await this.retainedState.put(envelope, raw)]: an exception ends the turn. *)
Definition retain_state (envelope : jsv) (raw : jstr) (now : Z) (r : room_obj) : turn_result :=
  if truthy (get "stateKey" envelope) then
    match put_worker_state (rb_retained r) envelope raw now (rb_presence r) with
    | Ok s => done_turn (with_retained s r)
    | Throw => (r, [], false)
    end
  else done_turn r.

(** The targets, and the wake. *)
Definition deliver (targets : list wsock) (envelope : jsv) (raw : jstr) (r : room_obj) : turn_result :=
  (r, map (fun t => RForwarded (ws_id t) raw) (filter (fun t => negb (throws (ws_id t))) targets)
      ++ (if is_str (get "to" envelope) "phone" && bool_decide (get "wake" envelope = JBool true) then [RWake envelope] else []), true).

(** A reliable frame: [false] when the frame ends here. *)
Definition store_reliable (known : wsock) (envelope : jsv) (raw : jstr) (now : Z) (r : room_obj) : turn_result :=
  match role_of (str_of (get "to" envelope)) with
  | Some to =>
      if negb (truthy (get "deliveryId" envelope)) then done_turn r else
      let deliveryId := str_of (get "deliveryId" envelope) in
      let '(stored, m) := room_queue (rb_mail r) to raw deliveryId (int_opt (get "expiresAt" envelope)) now in
      let r := with_mail m r in
      match queueOutcome stored (Some deliveryId) with
      | Close token => let '(r, out) := closeRoomSocket known token envelope now r in (r, out, false)
      | Drop reason => (r, dropRoomMessage known envelope reason, false)
      | Forward =>
          if ws_relayControl known && is_str (get "from" envelope) "phone" && is_str (get "to" envelope) "machine" && isDurableSubmission (Some deliveryId)
          then if throws (ws_id known) then (r, [], false) else (r, [RNotice (ws_id known) (storedSubmissionNotice (get "deliveryId" envelope))], true)
          else done_turn r
      end
  | None => done_turn r
  end.

(** The frame of a socket whose role is settled; [known] is the socket of the closes, with
    the role of the envelope. *)
Definition route_frame (known : wsock) (envelope : jsv) (raw : jstr) (now : Z) (r : room_obj) : turn_result :=
  turn r <- retain_state envelope raw now r;;
  let targets := targetsFor known envelope r in
  turn r <- store_reliable known envelope raw now r;;
  deliver targets envelope raw r.

(** ** [webSocketMessage] *)

Definition room_envelope (known : wsock) (envelope : jsv) (raw : jstr) (now : Z) (r : room_obj) : res turn_result :=
  if is_str (get "type" envelope) "relay.ack" && validIdentifier (get "deliveryId" envelope) 180 then
    Ok (done_turn (match ws_role known with
                   | Some role => with_mail (room_acknowledge (rb_mail r) role (str_of (get "deliveryId" envelope))) r
                   | None => r
                   end))
  else
    let* problem := envelopeProblem envelope (ws_room known) now None in
    match problem with
    | Some Expired => Ok (r, dropRoomMessage known envelope "expired", true)
    | Some Invalid => Ok (done_turn r)
    | None =>
        match role_of (str_of (get "from" envelope)) with
        | None => Ok (done_turn r)
        | Some from =>
            match ws_role known with
            | Some role => if bool_decide (role = from) then Ok (route_frame known envelope raw now r) else Ok (done_turn r)
            | None =>
                let '(r, refused) := refuseCoolingRoomSocket known envelope now r in
                match refused with
                | Some out => Ok (r, out, true)
                | None =>
                    let named := set_attachment (Some from) (ws_ingress known) (ws_window known) (frameIdentity known envelope) known in
                    Ok (turn r <- register_socket known from envelope now r;; route_frame named envelope raw now r)
                end
            end
        end
    end.

(** An exception of the validation ends the turn after the receipt. *)
Definition webSocketMessage (id : nat) (raw : jstr) (now : Z) (r : room_obj) : turn_result :=
  match find_ws id r with
  | None => done_turn r
  | Some known =>
      if MAX_WEBSOCKET_MESSAGE_BYTES <? byte_length raw then
        let '(r, out) := closeRoomSocket known Oversize JUndef now r in (r, out, true)
      else
      let '(accepted, window) := acceptSocketFrame (ws_window known) now MAX_SOCKET_MESSAGES_PER_SECOND in
      let r := update_socket id (fun s => set_attachment (ws_role s) (ws_ingress s) window (ws_identity s) s) r in
      let known := set_attachment (ws_role known) (ws_ingress known) window (ws_identity known) known in
      if negb accepted then let '(r, out) := closeRoomSocket known RateLimit JUndef now r in (r, out, true) else
      match parse raw with
      | None => done_turn r
      | Some envelope =>
          let '(flow, receipt) := if is_str (get "type" envelope) "relay.admission" then (ws_ingress known, None) else noteIngressFrame (ws_ingress known) in
          let r := update_socket id (fun s => set_attachment (ws_role s) flow (ws_window s) (ws_identity s) s) r in
          let known := set_attachment (ws_role known) flow (ws_window known) (ws_identity known) known in
          let out := match receipt with Some frame => if throws id then [] else [RNotice id frame] | None => [] end in
          match room_envelope known envelope raw now r with
          | Ok (r, more, ok) => (r, out ++ more, ok)
          | Throw => (r, out, false)
          end
      end
  end.
End Turns.

(** ** [acceptWebSocket] *)

Record upgrade_request := {
  up_upgrade : option jstr; up_room : option jstr; up_credential : jstr; up_recipient : option jstr;
  up_routing : option jstr; up_ingress : option jstr; up_presence : option jstr; up_dispatch : option jstr;
}.
Inductive upgrade_reply := UpgradeError (status : Z) (error : jstr) | UpgradeCooling (retryAfter : Z) | UpgradeAccepted (frames : list jsv).

Definition header_on (h : option jstr) : bool := match h with Some s => s =?s "1" | None => false end.

Definition room_capabilities (ingressFlow : bool) : jsv :=
  JObj ([("type", JStr "relay.capabilities"); ("recipientRouting", JBool true); ("taskDispatch", JBool true); ("retainedState", JBool true);
         ("retainedStateGroups", JBool true)] ++ ingressCapabilities ingressFlow).

(** [id] is the handle of the new socket; header values are byte strings, whose lower case is that of ASCII here. *)
Definition acceptWebSocket (sha256 : jstr -> jstr) (u : upgrade_request) (id : nat) (now : Z) (st : push_storage) (r : room_obj)
  : upgrade_reply * push_storage * room_obj :=
  if negb (lower (default "" (up_upgrade u)) =?s "websocket") then (UpgradeError 426 "expected websocket", st, r) else
  match up_room u with
  | None => (UpgradeError 400 "valid room query parameter required", st, r)
  | Some room =>
      if negb (validRoom (JStr room)) then (UpgradeError 400 "valid room query parameter required", st, r) else
      let '(error, st) := requireRoomAuth sha256 st (up_credential u) in
      match error with
      | Some (status, text) => (UpgradeError status text, st, r)
      | None =>
          if match up_recipient u with Some k => negb (validRecipientKeyId (JStr k)) | None => false end
          then (UpgradeError 400 "invalid recipient", st, r) else
          let '(r, cooling) := coolingUpgradeResponse room (up_recipient u) now r in
          match cooling with
          | Some retryAfter => (UpgradeCooling retryAfter, st, r)
          | None =>
              let relayControl := header_on (up_routing u) in
              let ingressFlow := relayControl && header_on (up_ingress u) in
              let s := {| ws_id := id; ws_room := room; ws_role := None; ws_recipientKeyId := up_recipient u; ws_relayControl := relayControl;
                          ws_presenceEnabled := header_on (up_presence u); ws_taskDispatch := header_on (up_dispatch u);
                          ws_ingress := {| in_flow := ingressFlow; in_received := None |}; ws_window := fresh_window; ws_identity := None |} in
              (UpgradeAccepted (if relayControl then [room_capabilities ingressFlow] else []), st, with_sockets (rb_sockets r ++ [s]) r)
          end
      end
  end.

(** [webSocketClose] and [webSocketError]; the platform then forgets the socket. *)
Definition webSocketClose (throws : nat -> bool) (id : nat) (now : Z) (r : room_obj) : room_obj * list room_effect :=
  let '(rows, frames) := noteWorkerPresence (rb_presence r) (map ws_peer (rb_sockets r)) id true now in
  (with_sockets (filter (fun s => ws_id s <> id) (rb_sockets r)) (with_presence rows r),
   map (fun f => RPresence f.1 f.2) (filter (fun f => negb (throws f.1)) frames)).

(** Hibernation: the object is built anew, the attachments and the storage stay. *)
Definition hibernate (r : room_obj) : room_obj :=
  {| rb_mail := rb_mail r; rb_retained := rb_retained r; rb_presence := rb_presence r; rb_store := rb_store r; rb_caches := [];
     rb_sockets := map (fun s => set_attachment (ws_role s) (ws_ingress s) fresh_window None s) (rb_sockets r);
     rb_coolDowns := newRegistry ROOM_COOL_DOWN_ENTRIES |}.

(** [alarm] *)
Definition room_alarm_turn (sha256 : jstr -> jstr) (throws : nat -> bool) (ok : bool) (now : Z) (r : room_obj) : turn_result :=
  let '(store, caches, finished, out) := room_alarm sha256 (map ws_machine (rb_sockets r)) (rb_caches r) ok throws now (rb_store r) in
  (with_store store caches r, map (fun e => ROffered e.1 e.2) out, finished).

(** ** The invariant of a room *)

Record room_wf (now : Z) (r : room_obj) : Prop := {
  wf_mail : mailbox_wf (rb_mail r);
  wf_presence : presence_ok now (rb_presence r);
  wf_coolDowns : registry_wf (rb_coolDowns r);
  wf_directory : directory_wf (rs_directory (rb_store r));
  wf_sockets : NoDup (map ws_id (rb_sockets r));
}.

(** What a turn of socket [id] leaves of a socket. *)
Record socket_kept (id : nat) (s s' : wsock) : Prop := {
  sk_same_id : ws_id s' = ws_id s; sk_same_room : ws_room s' = ws_room s; sk_same_recipient : ws_recipientKeyId s' = ws_recipientKeyId s;
  sk_same_role : is_Some (ws_role s) \/ ws_id s <> id -> ws_role s' = ws_role s;
}.

Definition turn_ok (id : nat) (now : Z) (r r' : room_obj) : Prop :=
  room_wf now r -> Forall2 (socket_kept id) (rb_sockets r) (rb_sockets r') /\ room_wf now r' /\ store_kept (rb_store r) (rb_store r').

Lemma socket_kept_refl id s : socket_kept id s s.
Proof. by split. Qed.
Lemma socket_kept_trans id a b c : socket_kept id a b -> socket_kept id b c -> socket_kept id a c.
Proof.
  intros [I1 R1 K1 O1] [I2 R2 K2 O2]. split; try congruence. intros H. specialize (O1 H). rewrite <- O1. apply O2. by rewrite O1, I1.
Qed.
Lemma sockets_kept_refl id l : Forall2 (socket_kept id) l l.
Proof. induction l; constructor; auto using socket_kept_refl. Qed.
Lemma sockets_kept_trans id l l1 l2 : Forall2 (socket_kept id) l l1 -> Forall2 (socket_kept id) l1 l2 -> Forall2 (socket_kept id) l l2.
Proof. intros S1. revert l2. induction S1 as [|x y l l1 Hxy _ IH]; intros l2 S2; inversion S2; subst; constructor; [by eapply socket_kept_trans|auto]. Qed.

#[export] Instance turn_ok_preorder id now : PreOrder (turn_ok id now).
Proof.
  split; [intros r Hw; split_and!; [apply sockets_kept_refl|done|reflexivity]|]. intros a b c H1 H2 Hw. destruct (H1 Hw) as (S1 & W1 & K1). destruct (H2 W1) as (S2 & W2 & K2).
  split_and!; [by eapply sockets_kept_trans|done|by etransitivity].
Qed.

Lemma kept_ids id l l' : Forall2 (socket_kept id) l l' -> map ws_id l' = map ws_id l.
Proof. induction 1 as [|x y l l' Hxy _ IH]; [done|]. simpl. by rewrite IH, (sk_same_id _ _ _ Hxy). Qed.

Lemma update_socket_ok id now i f r :
  (forall s, s ∈ rb_sockets r -> room_wf now r -> ws_id s = i -> socket_kept id s (f s)) -> turn_ok id now r (update_socket i f r).
Proof.
  intros Hf Hw. assert (Forall2 (socket_kept id) (rb_sockets r) (rb_sockets (update_socket i f r))) as Hs.
  { unfold update_socket. cbn [rb_sockets with_sockets]. assert (forall l, (forall s, s ∈ l -> s ∈ rb_sockets r) ->
      Forall2 (socket_kept id) l (map (fun s => if Nat.eqb (ws_id s) i then f s else s) l)) as H; [|by apply H].
    induction l as [|s l IH]; intros Hl; simpl; constructor; [|apply IH; intros; apply Hl; by right].
    destruct (Nat.eqb_spec (ws_id s) i); [apply Hf; auto; apply Hl; by left|apply socket_kept_refl]. }
  split_and!; [exact Hs| |reflexivity]. destruct Hw. split; try done. by rewrite (kept_ids _ _ _ Hs).
Qed.

Lemma same_sockets_turn id now r r' :
  rb_sockets r' = rb_sockets r -> (room_wf now r -> room_wf now r') -> store_kept (rb_store r) (rb_store r') -> turn_ok id now r r'.
Proof. intros Hs Hw Hk Hr. split_and!; [rewrite Hs; apply sockets_kept_refl|auto|done]. Qed.

Lemma with_mail_ok id now m r : (mailbox_wf (rb_mail r) -> mailbox_wf m) -> turn_ok id now r (with_mail m r).
Proof. intros H. apply same_sockets_turn; [done| |reflexivity]. intros []. split; auto. Qed.
Lemma with_retained_turn id now s r : turn_ok id now r (with_retained s r).
Proof. apply same_sockets_turn; [done| |reflexivity]. intros []. by split. Qed.
Lemma with_presence_turn id now p r : (presence_ok now (rb_presence r) -> presence_ok now p) -> turn_ok id now r (with_presence p r).
Proof. intros H. apply same_sockets_turn; [done| |reflexivity]. intros []. split; auto. Qed.
Lemma with_store_turn id now s c r :
  (directory_wf (rs_directory (rb_store r)) -> directory_wf (rs_directory s)) -> store_kept (rb_store r) s -> turn_ok id now r (with_store s c r).
Proof. intros H Hk. apply same_sockets_turn; [done| |exact Hk]. intros []. split; auto. Qed.
Lemma with_coolDowns_turn id now c r : (registry_wf (rb_coolDowns r) -> registry_wf c) -> turn_ok id now r (with_coolDowns c r).
Proof. intros H. apply same_sockets_turn; [done| |reflexivity]. intros []. split; auto. Qed.

(** A later clock only widens the invariant. *)
Lemma room_wf_later now now' r : now <= now' -> room_wf now r -> room_wf now' r.
Proof. intros Hle [Hm Hp Hc Hd Hs]. split; try done. by eapply presence_later. Qed.

(** ** Every part of a turn keeps it *)

Lemma closeRoomSocket_ok id s token env now r : turn_ok id now r (closeRoomSocket s token env now r).1.
Proof.
  unfold closeRoomSocket. set (identity := match ws_identity s with Some _ => _ | None => _ end).
  pose proof (applyPolicyClose_wf token identity (rb_coolDowns r) now) as H. destruct (applyPolicyClose _ _ _ _). by apply with_coolDowns_turn.
Qed.

Lemma refuseCooling_ok id s env now r : turn_ok id now r (refuseCoolingRoomSocket s env now r).1.
Proof.
  unfold refuseCoolingRoomSocket. pose proof (remaining_wf (rb_coolDowns r) now (frameIdentity s env) false) as H.
  destruct (remaining _ _ _ _) as [ms c]. destruct (ms <=? 0); by apply with_coolDowns_turn.
Qed.

(** Composition of turns. *)
Lemma and_then_ok (R : room_obj -> room_obj -> Prop) `{!Transitive R} r x f :
  R r x.1.1 -> (x.2 = true -> forall r1, x.1.1 = r1 -> R r1 (f r1).1.1) -> R r (and_then x f).1.1.
Proof.
  destruct x as [[r1 out] ok]. simpl. intros H1 H2. destruct ok; [|done]. specialize (H2 eq_refl r1 eq_refl).
  destruct (f r1) as [[r2 out2] ok2]. simpl in *. by etransitivity.
Qed.

Lemma and_then_out x f e : e ∈ (and_then x f).1.2 -> e ∈ x.1.2 \/ x.2 = true /\ e ∈ (f x.1.1).1.2.
Proof.
  destruct x as [[r1 out] ok]. simpl. destruct ok; [|by left]. destruct (f r1) as [[r2 out2] ok2]. simpl. intros [?|?]%elem_of_app; auto.
Qed.

Section Steps.
Context (parse : jstr -> option jsv) (sha256 : jstr -> jstr) (throws : nat -> bool).

Lemma flush_socket_ok id s from now r : turn_ok id now r (flush_socket parse throws s from now r).1.1.
Proof.
  unfold flush_socket. set (v := {| vs_matches := _ |}). pose proof (flush_wf (rb_mail r) from v now) as H.
  destruct (flushTo _ _ _ _). by apply with_mail_ok.
Qed.

Lemma note_presence_ok id s now r : turn_ok id now r (note_presence throws s now r).1.1.
Proof.
  unfold note_presence, noteWorkerPresence. destruct (map_get _ _) as [[p|]|]; [|by apply with_presence_turn|by apply with_presence_turn].
  destruct (_ =?s ""); [by apply with_presence_turn|]. apply with_presence_turn. intros H. apply (updatePresence_ok _ _ _ now now H). lia.
Qed.

Lemma offer_jobs_ok id now r : turn_ok id now r (offer_jobs sha256 throws now r).1.1.
Proof.
  unfold offer_jobs. pose proof (offers_kept sha256 throws now (map ws_machine (rb_sockets r)) (rb_caches r) (rb_store r) (rs_wake (rb_store r))) as Hk.
  destruct (offerRoomTaskJobs _ _ _ _ _) as [[[c tasks] ok] out]. by apply with_store_turn.
Qed.

Lemma schedule_ok id now r : turn_ok id now r (schedule sha256 now r).1.1.
Proof.
  unfold schedule. pose proof (schedule_kept sha256 (rb_store r) (map ws_machine (rb_sockets r)) now) as Hk.
  pose proof (schedule_directory sha256 (rb_store r) (map ws_machine (rb_sockets r)) now) as Hd.
  destruct (scheduleRoomTaskAlarm _ _ _ _) as [store ok]. by apply with_store_turn.
Qed.

Lemma register_socket_ok s from env now r :
  ws_role s = None -> find_ws (ws_id s) r = Some s -> turn_ok (ws_id s) now r (register_socket parse sha256 throws s from env now r).1.1.
Proof.
  intros Hn Hf. unfold register_socket. apply and_then_ok; [apply _| |].
  - etransitivity; [|apply note_presence_ok]. apply update_socket_ok. intros s1 Hin [_ _ _ _ Hnd] Hid.
    assert (s1 = s) as ->.
    { apply find_some in Hf as [Hs _]. apply list_elem_of_In in Hs. apply list_elem_of_lookup in Hin as [i Hi]. apply list_elem_of_lookup in Hs as [j Hj].
      assert (i = j) as ->; [|congruence]. eapply NoDup_lookup; [exact Hnd| |]; change (@map wsock nat) with (@fmap list _ wsock nat);
        rewrite list_lookup_fmap; [rewrite Hi|rewrite Hj]; simpl; [by rewrite Hid|done]. }
    split; try done. intros [H|H]; [rewrite Hn in H; by destruct H|done].
  - intros _ r1 _. apply and_then_ok; [apply _|destruct from; [reflexivity|]; unfold send_saved; by destruct (_ && _)|].
    intros _ r2 _. apply and_then_ok; [apply _|apply flush_socket_ok|]. intros _ r3 _. destruct from; [|reflexivity].
    destruct (ws_taskDispatch s); [|reflexivity]. apply and_then_ok; [apply _|apply offer_jobs_ok|]. intros _ r4 _. apply schedule_ok.
Qed.

(** The delivery id of a valid envelope. *)
Definition valid_delivery (env : jsv) : Prop :=
  is_nullish (get "deliveryId" env) = true \/ exists d, get "deliveryId" env = JStr d /\ 1 <= slen d <= 180.

Lemma queue_turn id to env raw now r :
  raw <> "" -> valid_delivery env -> truthy (get "deliveryId" env) = true ->
  turn_ok id now r (with_mail (room_queue (rb_mail r) to raw (str_of (get "deliveryId" env)) (int_opt (get "expiresAt" env)) now).2 r).
Proof.
  intros Hraw [Hv|(d & Hd & Hl)] Ht; [destruct (get "deliveryId" env); done|]. apply with_mail_ok. apply room_queue_mailbox_wf; [|done].
  rewrite Hd. simpl. intros ->. vm_compute in Hl. by destruct Hl.
Qed.

Lemma store_reliable_turn id s env raw now r : raw <> "" -> valid_delivery env -> turn_ok id now r (store_reliable throws s env raw now r).1.1.
Proof.
  intros Hraw Hv. unfold store_reliable. destruct (role_of _) as [to|]; [|reflexivity]. destruct (truthy (get "deliveryId" env)) eqn:Ed; cbn [negb]; [|reflexivity].
  pose proof (queue_turn id to env raw now r Hraw Hv Ed) as H. destruct (room_queue _ _ _ _ _ _) as [stored m]. cbn [snd] in H.
  destruct (queueOutcome _ _) as [|token|reason]; [|etransitivity; [exact H|]|exact H].
  - destruct (_ && _); [by destruct (throws _)|exact H].
  - pose proof (closeRoomSocket_ok id s token env now (with_mail m r)) as H2. by destruct (closeRoomSocket _ _ _ _ _).
Qed.

Lemma retain_state_ok id env raw now r : turn_ok id now r (retain_state env raw now r).1.1.
Proof.
  unfold retain_state. destruct (truthy _); [|reflexivity]. destruct (put_worker_state _ _ _ _ _); [apply with_retained_turn|reflexivity].
Qed.

Lemma route_frame_ok id s env raw now r : raw <> "" -> valid_delivery env -> turn_ok id now r (route_frame throws s env raw now r).1.1.
Proof.
  intros Hraw Hv. unfold route_frame. apply and_then_ok; [apply _|apply retain_state_ok|]. intros _ r1 _. apply and_then_ok; [apply _|by apply store_reliable_turn|].
  intros _ r2 _. reflexivity.
Qed.

Lemma room_envelope_ok s env raw now r t :
  raw <> "" -> find_ws (ws_id s) r = Some s -> room_envelope parse sha256 throws s env raw now r = Ok t -> turn_ok (ws_id s) now r t.1.1.
Proof.
  intros Hraw Hf. unfold room_envelope. destruct (_ && validIdentifier _ _).
  { intros [= <-]. cbn [fst]. destruct (ws_role s) as [role|]; [|reflexivity]. apply with_mail_ok.
    intros Hm. apply (law_wf (MailboxLaws := worker_mailbox_laws (fun _ _ => {| vs_matches := fun _ => true; vs_throws := fun _ => true |})) _ now (OpAcknowledge role _) Hm). }
  destruct (envelopeProblem _ _ _ _) as [[[]|]|] eqn:Ep; cbn [res_bind]; [by intros [= <-]|by intros [= <-]| |done].
  assert (valid_delivery env) as Hv by (apply envelopeProblem_shape in Ep as [[] _]; [|done]; assumption).
  destruct (role_of _) as [from|]; [|by intros [= <-]]. destruct (ws_role s) as [role|] eqn:Er.
  { case_bool_decide; intros [= <-]; [by apply route_frame_ok|reflexivity]. }
  pose proof (refuseCooling_ok (ws_id s) s env now r) as Hc. assert (find_ws (ws_id s) (refuseCoolingRoomSocket s env now r).1 = Some s) as Hf1.
  { unfold refuseCoolingRoomSocket. destruct (remaining _ _ _ _) as [ms c]. by destruct (ms <=? 0). }
  destruct (refuseCoolingRoomSocket _ _ _ _) as [r1 [out|]]; cbn [fst] in Hc, Hf1; intros [= <-]; [exact Hc|].
  etransitivity; [exact Hc|]. apply and_then_ok; [apply _|by apply register_socket_ok|]. intros _ r2 _. by apply route_frame_ok.
Qed.

Lemma find_update id f r s : (forall s, ws_id (f s) = ws_id s) -> find_ws id r = Some s -> find_ws id (update_socket id f r) = Some (f s).
Proof.
  intros Hf. unfold find_ws, update_socket. cbn [rb_sockets with_sockets]. induction (rb_sockets r) as [|x l IH]; simpl; [done|].
  destruct (Nat.eqb (ws_id x) id) eqn:E; [intros [= <-]; by rewrite Hf, E|]. rewrite E. exact IH.
Qed.

Lemma attachment_ok id now i f r :
  (forall s, exists flow w identity, f s = set_attachment (ws_role s) flow w identity s) -> turn_ok id now r (update_socket i f r).
Proof. intros H. apply update_socket_ok. intros s _ _ _. destruct (H s) as (flow & w & identity & ->). by split. Qed.

Lemma webSocketMessage_ok id raw now r :
  parse "" = None -> turn_ok id now r (webSocketMessage parse sha256 throws id raw now r).1.1.
Proof.
  intros Hparse. unfold webSocketMessage. destruct (find_ws id r) as [s|] eqn:Ef; [|reflexivity].
  pose proof Ef as Hid. apply find_some in Hid as [_ Hid%Nat.eqb_eq]. destruct (_ <? _).
  { pose proof (closeRoomSocket_ok id s Oversize JUndef now r) as H. by destruct (closeRoomSocket _ _ _ _ _). }
  destruct (acceptSocketFrame _ _ _) as [accepted window]. cbv zeta. set (f1 := fun s => set_attachment _ _ window _ s).
  assert (turn_ok id now r (update_socket id f1 r)) as H1 by (apply attachment_ok; intros; by eexists _, _, _).
  set (s1 := set_attachment (ws_role s) (ws_ingress s) window (ws_identity s) s). destruct accepted; cbn [negb].
  2: { pose proof (closeRoomSocket_ok id s1 RateLimit JUndef now (update_socket id f1 r)) as H. destruct (closeRoomSocket _ _ _ _ _). by etransitivity. }
  destruct (parse raw) as [env|] eqn:Ep; [|done]. assert (raw <> "") as Hraw by (intros ->; congruence).
  destruct (if is_str _ _ then _ else _) as [flow receipt]. set (f2 := fun s => set_attachment _ flow _ _ s).
  assert (turn_ok id now r (update_socket id f2 (update_socket id f1 r))) as H2 by (etransitivity; [exact H1|apply attachment_ok; intros; by eexists _, _, _]).
  set (s2 := set_attachment (ws_role s1) flow (ws_window s1) (ws_identity s1) s1).
  assert (find_ws id (update_socket id f2 (update_socket id f1 r)) = Some s2) as Ef2.
  { apply (find_update id f2 _ s1); [done|]. apply (find_update id f1 _ s); [done|exact Ef]. }
  destruct (room_envelope _ _ _ _ _ _ _ _) as [[[r3 more] ok]|] eqn:Ee; [|exact H2]. cbn [fst].
  etransitivity; [exact H2|]. pose proof (room_envelope_ok s2 env raw now (update_socket id f2 (update_socket id f1 r)) (r3, more, ok) Hraw) as H.
  change (ws_id s2) with (ws_id s) in H. rewrite Hid in H. exact (H Ef2 Ee).
Qed.
End Steps.

(** ** The events of a room object *)

Inductive room_event :=
| EvUpgrade (request : upgrade_request) (id : nat)
| EvFrame (id : nat) (raw : jstr)
| EvClose (id : nat)
| EvAlarm (pushed : bool)
| EvHibernate.

(** One turn of the object at a time, with the sockets that fail to send in it. *)
Definition room_turn (parse : jstr -> option jsv) (sha256 : jstr -> jstr) (now : Z) (throws : nat -> bool) (ev : room_event)
    (s : push_storage * room_obj) : push_storage * room_obj :=
  match ev with
  | EvUpgrade request id => let '(_, st, r) := acceptWebSocket sha256 request id now s.1 s.2 in (st, r)
  | EvFrame id raw => (s.1, (webSocketMessage parse sha256 throws id raw now s.2).1.1)
  | EvClose id => (s.1, (webSocketClose throws id now s.2).1)
  | EvAlarm pushed => (s.1, (room_alarm_turn sha256 throws pushed now s.2).1.1)
  | EvHibernate => (s.1, hibernate s.2)
  end.

(** What happens to a room: turns at times that do not go back, each new socket with a
    handle of its own. *)
Inductive room_reach (parse : jstr -> option jsv) (sha256 : jstr -> jstr) : Z -> push_storage * room_obj -> Prop :=
| room_start now r st : room_wf now r -> room_reach parse sha256 now (st, r)
| room_step now now' throws ev s :
    room_reach parse sha256 now s -> now <= now' ->
    match ev with EvUpgrade _ id => id ∉ map ws_id (rb_sockets s.2) | _ => True end ->
    room_reach parse sha256 now' (room_turn parse sha256 now' throws ev s).

Lemma acceptWebSocket_wf sha256 request id now st r :
  id ∉ map ws_id (rb_sockets r) -> room_wf now r -> room_wf now (acceptWebSocket sha256 request id now st r).2.
Proof.
  intros Hnew Hw. unfold acceptWebSocket. destruct (negb _); [done|]. destruct (up_room request) as [room|]; [|done]. destruct (negb _); [done|].
  destruct (requireRoomAuth _ _ _) as [[[status text]|] st']; [done|]. destruct (match up_recipient request with Some _ => _ | None => _ end); [done|].
  unfold coolingUpgradeResponse. pose proof (remaining_wf (rb_coolDowns r) now (upgradeIdentity (Some room) (up_recipient request)) false (wf_coolDowns _ _ Hw)) as Hc.
  destruct (remaining _ _ _ _) as [ms c]. cbn [snd] in Hc. destruct Hw as [Hm Hp _ Hd Hs]. destruct (ms <=? 0); [|by split].
  split; try done. cbn [snd with_sockets rb_sockets with_coolDowns]. rewrite map_app. apply NoDup_app. split_and!; [done| |apply NoDup_singleton].
  intros x Hx Hx'. simpl in Hx'. apply list_elem_of_singleton in Hx' as ->. done.
Qed.

Lemma webSocketClose_wf throws id now r : room_wf now r -> room_wf now (webSocketClose throws id now r).1.
Proof.
  intros [Hm Hp Hc Hd Hs]. unfold webSocketClose, noteWorkerPresence.
  assert (NoDup (map ws_id (filter (fun s => ws_id s <> id) (rb_sockets r)))) as Hs'.
  { eapply sublist_NoDup; [exact Hs|]. apply (sublist_fmap ws_id), sublist_filter. }
  destruct (map_get _ _) as [[p|]|]; [destruct (_ =?s "")|..]; split; try done. cbn. apply (updatePresence_ok _ _ _ now now Hp). lia.
Qed.

Lemma hibernate_wf now r : room_wf now r -> room_wf now (hibernate r).
Proof.
  intros [Hm Hp Hc Hd Hs]. split; try done; [apply newRegistry_wf; unfold ROOM_COOL_DOWN_ENTRIES; lia|]. cbn. by rewrite map_map.
Qed.

Lemma room_alarm_wf sha256 throws ok now r : room_wf now r -> room_wf now (room_alarm_turn sha256 throws ok now r).1.1.
Proof.
  intros [Hm Hp Hc Hd Hs]. unfold room_alarm_turn, room_alarm. destruct (offerRoomTaskJobs _ _ _ _ _) as [[[caches tasks] offered] out].
  destruct (negb offered); [by split|]. unfold scheduleRoomTaskAlarm. cbn [rs_directory rs_tasks rs_configs rs_wake].
  pose proof (purge_wf (rs_directory (rb_store r)) now Hd) as Hpw. destruct (purgeEndpointDirectory _ _) as [d a]. cbn [fst] in Hpw.
  destruct (do_maintain _ _) as [configs configured]. destruct (maintain _ _ _ _ _) as [[tasks' t]|]; split; try done. destruct Hpw. by split.
Qed.

Lemma acceptWebSocket_store sha256 request id now st r : rb_store (acceptWebSocket sha256 request id now st r).2 = rb_store r.
Proof.
  unfold acceptWebSocket, coolingUpgradeResponse. repeat (case_match; try done); simplify_eq; done.
Qed.

Lemma acceptWebSocket_tokens sha256 request id now st r : ps_tokens (acceptWebSocket sha256 request id now st r).1.2 = ps_tokens st.
Proof.
  unfold acceptWebSocket. destruct (negb _); [done|]. destruct (up_room request) as [room|]; [|done]. destruct (negb _); [done|].
  pose proof (requireRoomAuth_tokens sha256 st (up_credential request)) as H. destruct (requireRoomAuth _ _ _) as [[[status text]|] st']; [exact H|].
  destruct (match up_recipient request with Some _ => _ | None => _ end); [exact H|]. by destruct (coolingUpgradeResponse _ _ _ _) as [r' [retry|]].
Qed.

Lemma webSocketClose_store throws id now r : rb_store (webSocketClose throws id now r).1 = rb_store r.
Proof. unfold webSocketClose. by destruct (noteWorkerPresence _ _ _ _ _). Qed.

(** One turn: the invariant holds, and the storage stays within its bounds. *)
Lemma room_turn_ok parse sha256 now throws ev s :
  parse "" = None -> match ev with EvUpgrade _ id => id ∉ map ws_id (rb_sockets s.2) | _ => True end -> room_wf now s.2 ->
  room_wf now (room_turn parse sha256 now throws ev s).2 /\ store_kept (rb_store s.2) (rb_store (room_turn parse sha256 now throws ev s).2).
Proof.
  intros Hparse Hnew Hw. destruct s as [st r], ev as [request id|id raw|id|pushed|]; cbn [room_turn fst snd] in *.
  - pose proof (acceptWebSocket_wf sha256 request id now st r Hnew Hw) as H. pose proof (acceptWebSocket_store sha256 request id now st r) as Hs.
    destruct (acceptWebSocket _ _ _ _ _ _) as [[reply st'] r']. cbn [snd] in *. by rewrite Hs.
  - apply (webSocketMessage_ok parse sha256 throws id raw now r Hparse Hw).
  - split; [by apply webSocketClose_wf|]. by rewrite webSocketClose_store.
  - split; [by apply room_alarm_wf|]. unfold room_alarm_turn.
    pose proof (room_alarm_kept sha256 (map ws_machine (rb_sockets r)) (rb_caches r) pushed throws now (rb_store r)) as Hk. by destruct (room_alarm _ _ _ _ _ _ _) as [[[store caches] finished] out].
  - split; [by apply hibernate_wf|done].
Qed.

(** A room object stays within its bounds through any life of upgrades, frames, closes,
    alarms and hibernations: both mailboxes hold at most 100 rows and 1,800,000 bytes with
    unique delivery ids, the presence list at most 32 ordered devices, the cool-downs
    stay bounded, the endpoint directory stays sorted and every socket has its own
    handle. *)
Theorem room_stays_well_formed parse sha256 now s : parse "" = None -> room_reach parse sha256 now s -> room_wf now s.2.
Proof.
  intros Hparse. induction 1 as [now r st Hw|now now' throws ev s _ IH Hle Hnew]; [done|]. apply (room_wf_later now now') in IH; [|done].
  by apply room_turn_ok.
Qed.

(** ** Where a frame goes *)

(** Neither a forwarded frame nor the receipt of a stored submission. *)
Definition quiet (e : room_effect) : bool :=
  match e with RForwarded _ _ => false | RNotice _ f => negb (is_str (get "type" f) "relay.stored") | _ => true end.
Definition all_quiet (out : list room_effect) : Prop := forall e, e ∈ out -> quiet e = true.

(** A reliable frame's identifier waits in the mailbox of its recipient; frames to "all" are
    not stored. *)
Definition mail_holds (m : mailbox) (env : jsv) (raw : jstr) : Prop :=
  forall to id, get "to" env = JStr (Delivery.role_text to) -> get "deliveryId" env = JStr id -> id <> "" ->
  exists row, row ∈ queued_rows m to /\ row_deliveryId row = Some id.

(** What a receipt of the frame promises: it is a durable submission of the phone to the
    machine, from a socket that negotiated control frames, and its identifier waits in the
    machine's mailbox, in a row that has not expired. *)
Record receipted (s : wsock) (m : mailbox) (env : jsv) (now : Z) : Prop := {
  rc_control : ws_relayControl s = true;
  rc_from : get "from" env = JStr "phone";
  rc_to : get "to" env = JStr "machine";
  rc_durable : isDurableSubmission (Some (str_of (get "deliveryId" env))) = true;
  rc_row : exists row, row ∈ queued_rows m Machine /\ row_deliveryId row = Some (str_of (get "deliveryId" env)) /\ unexpired now row = true;
}.

Lemma quiet_map {A} (f : A -> room_effect) l : (forall x, quiet (f x) = true) -> all_quiet (map f l).
Proof. intros H e (x & -> & _)%list_elem_of_fmap. apply H. Qed.

Lemma quiet_nil : all_quiet [].
Proof. by intros e ?%elem_of_nil. Qed.

Lemma quiet_singleton e : quiet e = true -> all_quiet [e].
Proof. by intros H x ->%list_elem_of_singleton. Qed.

Lemma quiet_app l1 l2 : all_quiet l1 -> all_quiet l2 -> all_quiet (l1 ++ l2).
Proof. intros H1 H2 e [?|?]%elem_of_app; auto. Qed.

Lemma and_then_quiet x f : all_quiet x.1.2 -> (forall r, all_quiet (f r).1.2) -> all_quiet (and_then x f).1.2.
Proof. intros H1 H2 e [?|[_ ?]]%and_then_out; [by apply H1|by eapply H2]. Qed.

Lemma close_quiet s token env now r : all_quiet (closeRoomSocket s token env now r).2.
Proof. unfold closeRoomSocket. destruct (applyPolicyClose _ _ _ _). by apply quiet_singleton. Qed.

Section Routing.
Context (parse : jstr -> option jsv) (sha256 : jstr -> jstr) (throws : nat -> bool).

Lemma drop_quiet s env reason : all_quiet (dropRoomMessage throws s env reason).
Proof. unfold dropRoomMessage. destruct (_ && _ && _); intros e H; repeat (apply elem_of_cons in H as [->|H]; [done|]); by apply elem_of_nil in H. Qed.

Lemma register_quiet s from env now r : all_quiet (register_socket parse sha256 throws s from env now r).1.2.
Proof.
  unfold register_socket. apply and_then_quiet.
  { unfold note_presence. destruct (noteWorkerPresence _ _ _ _ _). by apply quiet_map. }
  intros r1. apply and_then_quiet; [destruct from; [apply quiet_nil|unfold send_saved; destruct (_ && _); [apply quiet_nil|by apply quiet_map]]|].
  intros r2. apply and_then_quiet; [unfold flush_socket; destruct (flushTo _ _ _ _); by apply quiet_map|]. intros r3.
  destruct from; [|apply quiet_nil]. destruct (ws_taskDispatch s); [|apply quiet_nil]. apply and_then_quiet.
  - unfold offer_jobs. destruct (offerRoomTaskJobs _ _ _ _ _) as [[[c t] ok] out]. by apply quiet_map.
  - intros r4. unfold schedule. destruct (scheduleRoomTaskAlarm _ _ _ _). apply quiet_nil.
Qed.

(** A frame that the mailbox lets pass is in it. *)
Lemma forwarded_row m to raw d expiresAt now :
  queueOutcome (room_queue m to raw d expiresAt now).1 (Some d) = Forward ->
  exists row, row ∈ queued_rows (room_queue m to raw d expiresAt now).2 to /\ row_deliveryId row = Some d /\ unexpired now row = true.
Proof.
  pose proof (room_queue_spec m to raw d expiresAt now) as [Ho _]. cbv zeta in Ho.
  assert ((room_queue m to raw d expiresAt now).1 = STORED -> unexpired now (room_row_of raw d expiresAt now) = true) as Hlive.
  { unfold room_queue. destruct (_ <? byte_length raw); [done|]. destruct expiresAt as [t|]; [destruct (Z.leb_spec t now); [done|]|];
      intros _; apply Z.ltb_lt; cbn; unfold DEFAULT_QUEUE_TTL_MS; lia. }
  intros Hout. destruct Ho as [ | |row H1 H2| |a b _ _ _]; try (unfold queueOutcome in Hout; try destruct (isDurableSubmission _) in Hout; discriminate Hout).
  - apply list_elem_of_filter in H1 as [Hu Hin]. by exists row.
  - exists (room_row_of raw d expiresAt now). split; [|by split; [|apply Hlive]]. rewrite !elem_of_app. right; right. by apply list_elem_of_singleton.
Qed.

Lemma store_reliable_holds s env raw now r :
  (store_reliable throws s env raw now r).2 = true -> mail_holds (rb_mail (store_reliable throws s env raw now r).1.1) env raw.
Proof.
  unfold store_reliable. destruct (role_of (str_of (get "to" env))) as [to|] eqn:Eto; [|intros _ to id H; rewrite H in Eto; by destruct to].
  destruct (truthy (get "deliveryId" env)) eqn:Ed; cbn [negb].
  2: { intros _ to' id _ H Hne. rewrite H in Ed. cbn in Ed. apply negb_false_iff, bool_decide_eq_true in Ed. done. }
  pose proof (forwarded_row (rb_mail r) to raw (str_of (get "deliveryId" env)) (int_opt (get "expiresAt" env)) now) as Ho.
  destruct (room_queue _ _ _ _ _ _) as [stored m]. cbn [fst snd] in Ho.
  assert (queueOutcome stored (Some (str_of (get "deliveryId" env))) = Forward -> mail_holds m env raw) as Hm.
  { intros Hout to' id Hto Hid Hne. rewrite Hto in Eto. assert (to' = to) as -> by (destruct to', to; vm_compute in Eto; congruence).
    destruct (Ho Hout) as (row & H1 & H2 & _). rewrite Hid in H2. by exists row. }
  destruct (queueOutcome _ _) as [|token|reason]; [|by destruct (closeRoomSocket _ _ _ _ _)|done].
  destruct (_ && isDurableSubmission _); [destruct (throws _); [done|]|]; intros _; by apply Hm.
Qed.

(** The receipt is written only for what it promises, and after the frame was stored. *)
Lemma store_reliable_out s env raw now r e :
  e ∈ (store_reliable throws s env raw now r).1.2 -> quiet e = false ->
  e = RNotice (ws_id s) (storedSubmissionNotice (get "deliveryId" env)) /\ (store_reliable throws s env raw now r).2 = true /\
  receipted s (rb_mail (store_reliable throws s env raw now r).1.1) env now.
Proof.
  unfold store_reliable. destruct (role_of _) as [to|] eqn:Eto; [|by intros ?%elem_of_nil]. destruct (negb _); [by intros ?%elem_of_nil|].
  pose proof (forwarded_row (rb_mail r) to raw (str_of (get "deliveryId" env)) (int_opt (get "expiresAt" env)) now) as Hrow.
  destruct (room_queue _ _ _ _ _ _) as [stored m]. cbn [fst snd] in Hrow. destruct (queueOutcome _ _) as [|token|reason].
  - destruct (_ && isDurableSubmission _) eqn:Ec; [|by intros ?%elem_of_nil]. destruct (throws _); [by intros ?%elem_of_nil|].
    intros ->%list_elem_of_singleton _. split; [done|]. split; [done|]. apply andb_true_iff in Ec as [[[H1 H2%is_str_eq]%andb_true_iff H3%is_str_eq]%andb_true_iff H4].
    assert (to = Machine) as -> by (rewrite H3 in Eto; vm_compute in Eto; congruence). split; [done..|]. by apply Hrow.
  - pose proof (close_quiet s token env now (with_mail m r)) as H. destruct (closeRoomSocket _ _ _ _ _). intros Hin Hq. rewrite (H e Hin) in Hq. done.
  - intros Hin Hq. rewrite (drop_quiet s env reason e Hin) in Hq. done.
Qed.

Lemma store_reliable_sockets s env raw now r : rb_sockets (store_reliable throws s env raw now r).1.1 = rb_sockets r.
Proof.
  unfold store_reliable. destruct (role_of _); [|done]. destruct (negb _); [done|]. destruct (room_queue _ _ _ _ _ _) as [stored m].
  destruct (queueOutcome _ _); [destruct (_ && isDurableSubmission _); [by destruct (throws _)|done]| |done].
  unfold closeRoomSocket. by destruct (applyPolicyClose _ _ _ _).
Qed.

Lemma route_frame_out s env raw now r e :
  e ∈ (route_frame throws s env raw now r).1.2 -> quiet e = false ->
  mail_holds (rb_mail (route_frame throws s env raw now r).1.1) env raw /\
  (e = RNotice (ws_id s) (storedSubmissionNotice (get "deliveryId" env)) /\ receipted s (rb_mail (route_frame throws s env raw now r).1.1) env now \/
   exists t, t ∈ targetsFor s env r /\ e = RForwarded (ws_id t) raw).
Proof.
  unfold route_frame. assert ((retain_state env raw now r).1.2 = [] /\ rb_sockets (retain_state env raw now r).1.1 = rb_sockets r) as [Hn Hs].
  { unfold retain_state. destruct (truthy _); [|done]. by destruct (put_worker_state _ _ _ _ _). }
  destruct (retain_state env raw now r) as [[r1 out] ok]. cbn [fst snd] in Hn, Hs. subst out. cbn [and_then]. destruct ok; [|by intros ?%elem_of_nil].
  assert (targetsFor s env r1 = targetsFor s env r) as -> by (unfold targetsFor; by rewrite Hs).
  pose proof (store_reliable_holds s env raw now r1) as Hm. pose proof (store_reliable_out s env raw now r1 e) as Ho.
  destruct (store_reliable throws s env raw now r1) as [[r2 out2] ok2]. cbn [fst snd and_then] in *. destruct ok2; cbn [fst snd and_then deliver app].
  - intros [Hin|Hin]%elem_of_app Hq.
    + split; [by apply Hm|left]. by destruct (Ho Hin Hq) as (? & _ & ?).
    + split; [by apply Hm|right]. apply elem_of_app in Hin as [Hin|Hin].
      * apply list_elem_of_fmap in Hin as (t & -> & [_ Ht]%list_elem_of_filter). by exists t.
      * destruct (_ && _) in Hin; [apply list_elem_of_singleton in Hin as ->; done|by apply elem_of_nil in Hin].
  - intros Hin Hq. by destruct (Ho Hin Hq) as (_ & ? & _).
Qed.

(** The conditions under which a turn routes a frame. *)
Record routed (s : wsock) (from : role) (env : jsv) (raw : jstr) (now : Z) : Prop := {
  rt_parsed : parse raw = Some env; rt_valid : envelopeProblem env (ws_room s) now None = Ok None;
  rt_from : get "from" env = JStr (Delivery.role_text from); rt_role : ws_role s = None \/ ws_role s = Some from;
}.

Lemma room_envelope_out s env raw now r t e :
  parse raw = Some env -> raw <> "" -> find_ws (ws_id s) r = Some s -> room_envelope parse sha256 throws s env raw now r = Ok t -> e ∈ t.1.2 -> quiet e = false ->
  exists r1 from, turn_ok (ws_id s) now r r1 /\ routed s from env raw now /\ mail_holds (rb_mail t.1.1) env raw /\
    (e = RNotice (ws_id s) (storedSubmissionNotice (get "deliveryId" env)) /\ receipted s (rb_mail t.1.1) env now \/
     exists u, u ∈ targetsFor s env r1 /\ e = RForwarded (ws_id u) raw).
Proof.
  intros Hp Hraw Hf. unfold room_envelope. destruct (_ && validIdentifier _ _); [intros [= <-]; by intros ?%elem_of_nil|].
  destruct (envelopeProblem env (ws_room s) now None) as [[[]|]|] eqn:Ep; cbn [res_bind]; [intros [= <-]; by intros ?%elem_of_nil| | |done].
  { intros [= <-] Hin Hq. by rewrite (drop_quiet s env _ e Hin) in Hq. }
  destruct (role_of_from env (ws_room s) now None _ Ep eq_refl) as (from & -> & Hfrom). destruct (ws_role s) as [role|] eqn:Er.
  - case_bool_decide as Hr; [subst role|intros [= <-]; by intros ?%elem_of_nil]. intros [= <-] Hin Hq.
    destruct (route_frame_out s env raw now r e Hin Hq) as [Hm Ho]. exists r, from. split; [reflexivity|]. split; [by split; [| | |right]|done].
  - pose proof (refuseCooling_ok (ws_id s) s env now r) as Hc. assert (find_ws (ws_id s) (refuseCoolingRoomSocket s env now r).1 = Some s) as Hf1.
    { unfold refuseCoolingRoomSocket. destruct (remaining _ _ _ _) as [ms c]. by destruct (ms <=? 0). }
    assert (match (refuseCoolingRoomSocket s env now r).2 with Some o => all_quiet o | None => True end) as Hco.
    { unfold refuseCoolingRoomSocket. destruct (remaining _ _ _ _) as [ms c]. destruct (ms <=? 0); [done|]. by apply quiet_singleton. }
    destruct (refuseCoolingRoomSocket _ _ _ _) as [r1 [out|]]; cbn [fst snd] in *; intros [= <-] Hin Hq; [by rewrite (Hco e Hin) in Hq|].
    set (named := set_attachment _ _ _ _ s) in *.
    pose proof (register_socket_ok parse sha256 throws s from env now r1 Er Hf1) as Hreg. pose proof (register_quiet s from env now r1) as Hrq.
    destruct (register_socket parse sha256 throws s from env now r1) as [[r2 out2] ok2]. cbn [fst snd and_then] in *. destruct ok2; [|by rewrite (Hrq e Hin) in Hq].
    pose proof (route_frame_out named env raw now r2 e) as Hro. destruct (route_frame throws named env raw now r2) as [[r3 out3] ok3]. cbn [fst snd] in *.
    apply elem_of_app in Hin as [Hin|Hin]; [by rewrite (Hrq e Hin) in Hq|]. destruct (Hro Hin Hq) as [Hm Ho].
    exists r2, from. split; [by etransitivity|]. split; [by split; [| | |left]|]. split; [exact Hm|].
    destruct Ho as [[E Hrc]|Ho]; [left|by right]. split; [exact E|]. by destruct Hrc; split.
Qed.

Lemma webSocketMessage_out id raw now r e :
  parse "" = None -> e ∈ (webSocketMessage parse sha256 throws id raw now r).1.2 -> quiet e = false ->
  exists s r1 from env, find_ws id r = Some s /\ turn_ok id now r r1 /\ routed s from env raw now /\
    mail_holds (rb_mail (webSocketMessage parse sha256 throws id raw now r).1.1) env raw /\
    (e = RNotice id (storedSubmissionNotice (get "deliveryId" env)) /\ receipted s (rb_mail (webSocketMessage parse sha256 throws id raw now r).1.1) env now \/
     exists u, u ∈ targetsFor s env r1 /\ e = RForwarded (ws_id u) raw).
Proof.
  intros Hparse. unfold webSocketMessage. destruct (find_ws id r) as [s|] eqn:Ef; [|by intros ?%elem_of_nil].
  pose proof Ef as Hid. apply find_some in Hid as [_ Hid%Nat.eqb_eq]. destruct (_ <? _).
  { pose proof (close_quiet s Oversize JUndef now r) as H. destruct (closeRoomSocket _ _ _ _ _). intros Hin Hq. by rewrite (H e Hin) in Hq. }
  destruct (acceptSocketFrame _ _ _) as [accepted window]. cbv zeta. set (f1 := fun s => set_attachment _ _ window _ s).
  set (s1 := set_attachment (ws_role s) (ws_ingress s) window (ws_identity s) s). destruct accepted; cbn [negb].
  2: { pose proof (close_quiet s1 RateLimit JUndef now (update_socket id f1 r)) as H. destruct (closeRoomSocket _ _ _ _ _). intros Hin Hq. by rewrite (H e Hin) in Hq. }
  destruct (parse raw) as [env|] eqn:Ep; [|by intros ?%elem_of_nil]. assert (raw <> "") as Hraw by (intros ->; congruence).
  destruct (if is_str _ _ then _ else _) as [flow receipt] eqn:Er. set (f2 := fun s => set_attachment _ flow _ _ s).
  set (s2 := set_attachment (ws_role s1) flow (ws_window s1) (ws_identity s1) s1). set (rb := update_socket id f2 (update_socket id f1 r)).
  assert (turn_ok id now r rb) as Hb by (etransitivity; apply attachment_ok; intros; by eexists _, _, _).
  assert (find_ws id rb = Some s2) as Ef2 by (apply (find_update id f2 _ s1); [done|]; apply (find_update id f1 _ s); [done|exact Ef]).
  set (pre := match receipt with Some _ => _ | None => _ end). assert (all_quiet pre) as Hpre.
  { unfold pre. destruct receipt as [frame|]; [|apply quiet_nil]. destruct (throws id); [apply quiet_nil|]. apply quiet_singleton.
    destruct (is_str _ _) in Er; [done|]. unfold noteIngressFrame in Er. destruct (negb _); [done|]. destruct (negb _); [done|]. by injection Er as _ <-. }
  destruct (room_envelope parse sha256 throws s2 env raw now rb) as [[[r3 more] ok]|] eqn:Ee; cbn [fst snd]; [|intros Hin Hq; by rewrite (Hpre e Hin) in Hq].
  intros [Hin|Hin]%elem_of_app Hq; [by rewrite (Hpre e Hin) in Hq|].
  pose proof (room_envelope_out s2 env raw now rb (r3, more, ok) e Ep Hraw) as H. change (ws_id s2) with (ws_id s) in H. rewrite Hid in H.
  destruct (H Ef2 Ee Hin Hq) as (r1 & from & H1 & H2 & H3 & H4). exists s, r1, from, env. split; [done|]. split; [by etransitivity|]. split; [by destruct H2; split|]. split; [exact H3|].
  destruct H4 as [[E Hrc]|H4]; [left|by right]. split; [exact E|]. by destruct Hrc; split.
Qed.
End Routing.

Lemma kept_back id now r r1 u :
  room_wf now r -> turn_ok id now r r1 -> u ∈ rb_sockets r1 -> exists t, t ∈ rb_sockets r /\ socket_kept id t u.
Proof.
  intros Hw H Hin. destruct (H Hw) as [HF _]. clear -HF Hin. induction HF as [|x y l l' Hxy _ IH]; [by apply elem_of_nil in Hin|].
  apply elem_of_cons in Hin as [->|Hin]; [exists x; split; [by left|done]|]. destruct (IH Hin) as (t & ? & ?). exists t. split; [by right|done].
Qed.

(** C4: The room object forwards a frame only where it may go: verbatim, to another
    connected socket whose role and recipient key the envelope addresses; the envelope is
    valid and unexpired for the sender's room and comes from the sender's own role; and
    if it is reliable its identifier already waits in the recipient's mailbox. *)
Theorem room_frames_reach_their_recipients parse sha256 throws id raw now r id' raw' :
  parse "" = None -> room_wf now r -> RForwarded id' raw' ∈ (webSocketMessage parse sha256 throws id raw now r).1.2 ->
  raw' = raw /\ id' <> id /\ exists s target env from,
    find_ws id r = Some s /\ target ∈ rb_sockets r /\ ws_id target = id' /\ routed parse s from env raw now /\
    (get "to" env = JStr "all" \/ exists x, ws_role target = Some x /\ get "to" env = JStr (Delivery.role_text x)) /\
    matchesRecipient env (ws_recipientKeyId target) = true /\
    mail_holds (rb_mail (webSocketMessage parse sha256 throws id raw now r).1.1) env raw.
Proof.
  intros Hparse Hw Hin. destruct (webSocketMessage_out parse sha256 throws id raw now r _ Hparse Hin eq_refl) as (s & r1 & from & env & Hf & Ht & Hr & Hm & [[E _]|(u & Hu & [= -> ->])]); [done|].
  apply list_elem_of_filter in Hu as [Hu Hin1]. apply Is_true_true in Hu. apply andb_true_iff in Hu as [[Hne Hto]%andb_true_iff Hrec].
  apply negb_true_iff, Nat.eqb_neq in Hne. pose proof Hf as Hid. apply find_some in Hid as [_ Hid%Nat.eqb_eq].
  destruct (kept_back id now r r1 u Hw Ht Hin1) as (t & Hin0 & [K1 K2 K3 K4]). split; [done|]. split; [congruence|]. exists s, t, env, from.
  rewrite K3 in Hrec. assert (ws_role u = ws_role t) as Hrole by (apply K4; right; congruence). split_and!; try done.
  apply orb_true_iff in Hto as [Hto|Hto]; [left; by apply is_str_eq|right]. unfold ws_role_text in Hto. rewrite Hrole in Hto.
  destruct (ws_role t) as [x|]; [|done]. exists x. split; [done|]. cbn in Hto. apply bool_decide_eq_true in Hto.
  pose proof (rt_valid _ _ _ _ _ _ Hr) as Hv. apply envelopeProblem_shape in Hv as [Hs _]; [|done].
  destruct (sh_to _ _ _ _ Hs) as [E|[E|E]]; rewrite E in Hto |- *; cbn in Hto; by rewrite Hto.
Qed.

(** C25: A receipt tells the truth: when the room object tells a socket that a submission is
    stored, that socket has just sent the submission and negotiated control frames, the
    submission is a durable one of the phone to the machine (never a frame to "all"), and
    its identifier is in the machine's mailbox, in a row that has not expired. *)
Theorem stored_receipts_are_true parse sha256 throws id raw now r id' d :
  parse "" = None -> RNotice id' (storedSubmissionNotice (JStr d)) ∈ (webSocketMessage parse sha256 throws id raw now r).1.2 ->
  id' = id /\ isDurableSubmission (Some d) = true /\
  (exists s, find_ws id r = Some s /\ ws_relayControl s = true) /\
  (exists env, parse raw = Some env /\ get "deliveryId" env = JStr d /\ get "from" env = JStr "phone" /\ get "to" env = JStr "machine") /\
  exists row, row ∈ queued_rows (rb_mail (webSocketMessage parse sha256 throws id raw now r).1.1) Machine /\
    row_deliveryId row = Some d /\ unexpired now row = true.
Proof.
  intros Hparse Hin. destruct (webSocketMessage_out parse sha256 throws id raw now r _ Hparse Hin eq_refl)
    as (s & r1 & from & env & Hf & _ & Hr & _ & [[E [H1 H2 H3 H4 H5]]|(u & _ & E)]); [|done].
  injection E as -> E. rewrite <- E in H4, H5. split_and!; [done|done|by exists s|exists env|exact H5]. by split_and!; [destruct Hr|..].
Qed.

Module Examples.
Definition room : jstr := "00112233445566778899".
Definition frame : jsv :=
  JObj [("v", JNum (NInt 1)); ("room", JStr room); ("from", JStr "phone"); ("to", JStr "machine"); ("senderId", JStr "phone-1");
        ("deliveryId", JStr "user-message-1"); ("expiresAt", JNum (NInt 9000)); ("nonce", JStr (JS (repeat 65%N 32)));
        ("box", JStr (JS (repeat 65%N 24)))].
Definition text : jstr := "frame".
Definition read (raw : jstr) : option jsv := if raw =?s text then Some frame else None.
Definition sample_ws (id : nat) (role : option role) : wsock :=
  {| ws_id := id; ws_room := room; ws_role := role; ws_recipientKeyId := None; ws_relayControl := true; ws_presenceEnabled := false;
     ws_taskDispatch := false; ws_ingress := {| in_flow := false; in_received := None |}; ws_window := fresh_window; ws_identity := None |}.
Definition sample_room : room_obj :=
  {| rb_mail := {| mb_machine := None; mb_phone := None |}; rb_retained := empty_state; rb_presence := [];
     rb_store := {| rs_directory := {| di_rows := []; di_alarm := None |}; rs_tasks := {| ws_jobs := []; ws_boxes := [] |}; rs_configs := []; rs_wake := None |};
     rb_caches := []; rb_sockets := [sample_ws 1 None; sample_ws 2 (Some Machine)]; rb_coolDowns := newRegistry ROOM_COOL_DOWN_ENTRIES |}.
Definition run : turn_result := webSocketMessage read (fun s => s) (fun _ => false) 1 text 5000 sample_room.

Lemma sample_room_wf : room_wf 5000 sample_room.
Proof.
  split.
  - intros []; apply room_queue_nil.
  - split; [simpl; unfold PRESENCE_LIMIT; lia|constructor|constructor|constructor].
  - apply newRegistry_wf. unfold ROOM_COOL_DOWN_ENTRIES. lia.
  - split; constructor.
  - change (NoDup [1; 2]%nat). apply (bool_decide_unpack _). vm_compute. exact I.
Qed.

Example submission_turn : run.1.2 = [RNotice 1 (storedSubmissionNotice (JStr "user-message-1")); RForwarded 2 text].
Proof. vm_compute. reflexivity. Qed.

Lemma room_stays_well_formed_witness :
  let s := room_turn read (fun s => s) 6000 (fun _ => true) EvHibernate
             (room_turn read (fun s => s) 5000 (fun _ => false) (EvFrame 1 text) ({| ps_auth := None; ps_tokens := [] |}, sample_room)) in
  Z.of_nat (length (queued_rows (rb_mail s.2) Machine)) = 1 /\ room_wf 6000 s.2.
Proof.
  split; [vm_compute; reflexivity|]. apply (room_stays_well_formed read (fun s => s)); [reflexivity|].
  apply (room_step read (fun s => s) 5000); [|lia|exact I]. apply (room_step read (fun s => s) 5000); [|lia|exact I].
  apply room_start, sample_room_wf.
Defined.

Lemma room_frames_reach_their_recipients_witness :
  text = text /\ (2 <> 1)%nat /\ exists s target env from, find_ws 1 sample_room = Some s /\ target ∈ rb_sockets sample_room /\ ws_id target = 2%nat /\
    routed read s from env text 5000 /\ (get "to" env = JStr "all" \/ exists x, ws_role target = Some x /\ get "to" env = JStr (Delivery.role_text x)) /\
    matchesRecipient env (ws_recipientKeyId target) = true /\ mail_holds (rb_mail run.1.1) env text.
Proof.
  apply (room_frames_reach_their_recipients read (fun s => s) (fun _ => false) 1 text 5000 sample_room 2 text); [reflexivity|exact sample_room_wf|].
  apply list_elem_of_lookup. exists 1%nat. vm_compute. reflexivity.
Defined.

Lemma stored_receipts_are_true_witness :
  exists row, row ∈ queued_rows (rb_mail run.1.1) Machine /\ row_deliveryId row = Some ("user-message-1" : jstr) /\ unexpired 5000 row = true.
Proof.
  apply (stored_receipts_are_true read (fun s => s) (fun _ => false) 1 text 5000 sample_room 1 "user-message-1"); [reflexivity|].
  apply list_elem_of_lookup. exists 0%nat. vm_compute. reflexivity.
Defined.
End Examples.
