(* ===== verification/NodeUpgrade.v ===== *)
(** * Upgrades of the Node relay
    The [upgrade] and [close] events of [src/node/server.js].

    The admission of a client is asynchronous, so an upgrade has two steps:
    [upgrade_begin] up to the call of [clientAccess.admit], [upgrade_end] after its
    decision.  Between them other upgrades, frames and closes of the same relay run.
    [clientAccess] is a service outside the relay: its decision is an argument. *)

From S2P Require Import Prelude Validation CoolDown ConnectionPolicy Delivery NodeRooms RetainedState RetainedStores Presence SocketDelivery Admission NodeSocket.
#[local] Open Scope bool_scope.
#[local] Open Scope Z_scope.
#[local] Open Scope js_scope.

Definition MAX_ROOM_SOCKETS : Z := 32.

(** The request, and the handle of the socket it asks for; [nq_path] is [None] when the
    URL does not parse.  [nq_handshake]: [ws] accepts the request's WebSocket headers; if
    not, it answers on its own and the callback of [handleUpgrade] never runs. *)
Record node_request := {
  nq_id : nat; nq_path : option jstr; nq_room : option jstr; nq_credential : jstr; nq_ticketHeader : option jstr;
  nq_recipient : option jstr; nq_routing : option jstr; nq_ingress : option jstr; nq_presence : option jstr;
  nq_handshake : bool;
}.

(** What [clientAccess.admit] answered; [None] in the model is a relay without it. *)
Record access_decision := { ad_allowed : bool; ad_category : option jstr; ad_reason : jstr; ad_retryAfter : option Z; ad_lease : option jstr }.

Inductive upgrade_outcome := Refused (text : jstr) | Released (lease : jstr) | Accepted (frames : list jsv).

Definition text_or_undef (v : option jstr) : jsv := match v with Some s => JStr s | None => JUndef end.
Definition header_is_one (h : option jstr) : bool := match h with Some s => s =?s "1" | None => false end.
Definition category_of (ticket : option jsv) : jstr := ci_category (clientIdentity (fun _ => false) ticket None None None).

Section Upgrade.
Context (sha256 : jstr -> jstr).
Context (verify : option (jsv -> option jstr -> Z -> option jsv)).

Definition ticket_of (q : node_request) (now : Z) : option jsv :=
  match verify with Some v => v (text_or_undef (nq_ticketHeader q)) (nq_room q) now | None => None end.

Definition room_size (room : option jstr) (r : relay) : Z :=
  match room with Some room => Z.of_nat (length (room_socks room r)) | None => 0 end.

Definition upgrade_authorized (q : node_request) (r : relay) : bool :=
  match nq_path q, nq_room q with
  | Some path, Some room => acceptsWebSocketPath path && validRoom (JStr room) && authorizeUpgrade sha256 (rl_rooms r) room (nq_credential q)
  | _, _ => false
  end.

Definition limit_reason (reason : jstr) : option jstr :=
  if reason =?s "cool-down" then Some "relay-cooldown" else if reason =?s "room-full" then Some "relay-room-capacity" else None.

(** [None]: the upgrade goes on to the admission of the client. *)
Definition upgrade_begin (q : node_request) (now : Z) (r : relay) : relay * option jstr :=
  let ticket := ticket_of q now in
  let '(refused, coolDowns) :=
    upgradeRefusal sha256 {| up_authorized := upgrade_authorized q r; up_admissionRequired := bool_decide (is_Some verify);
      up_ticketHeader := nq_ticketHeader q; up_ticket := ticket; up_recipientKeyId := nq_recipient q; up_room := nq_room q;
      up_roomSize := room_size (nq_room q) r; up_maxRoomSockets := MAX_ROOM_SOCKETS |} (rl_coolDowns r) now in
  (NodeSocket.with_coolDowns coolDowns r,
   match refused with
   | Some refusal => Some (refuseUpgrade refusal (Some (category_of ticket)) (limit_reason (rf_reason refusal)))
   | None => None
   end).

Definition new_sock (q : node_request) (room : jstr) (ticket : option jsv) (now : Z) : sock :=
  let relayControl := header_is_one (nq_routing q) in
  let s := {| sk_id := nq_id q; sk_open := true; sk_room := room; sk_role := None; sk_identity := managedCooldownIdentity sha256 ticket;
              sk_commercial := bool_decide (is_Some verify); sk_ticket := ticket; sk_timer := None; sk_relayControl := relayControl;
              sk_ingress := {| in_flow := relayControl && header_is_one (nq_ingress q); in_received := None |};
              sk_window := {| windowStartedAt := Some now; windowMessages := 0 |}; sk_recipientKeyId := nq_recipient q;
              sk_presenceEnabled := header_is_one (nq_presence q); sk_presenceAt := None; sk_policyClose := false |} in
  match ticket with Some t => arm t s | None => s end.

Definition capabilities (ingressFlow : bool) : jsv :=
  JObj ([("type", JStr "relay.capabilities"); ("recipientRouting", JBool true); ("taskDispatch", JBool true); ("retainedState", JBool true);
         ("retainedStateGroups", JBool true)] ++ ingressCapabilities ingressFlow).

Definition add_sock (s : sock) (r : relay) : relay :=
  {| rl_rooms := rl_rooms r; rl_retained := rl_retained r; rl_presence := rl_presence r; rl_sockets := rl_sockets r ++ [s];
     rl_coolDowns := rl_coolDowns r; rl_delivery := rl_delivery r |}.

Definition release_lease (decision : option access_decision) : list upgrade_outcome :=
  match decision ≫= ad_lease with Some lease => if lease =?s "" then [] else [Released lease] | None => [] end.

(** [retryAfter || 5] *)
Definition or_five (v : option Z) : Z := match v with Some n => if n =? 0 then 5 else n | None => 5 end.

(** What runs after an admission that was granted, or that no service decides.
    [destroyed]: the peer went away meanwhile.  [ticket] is the one of the first step. *)
Definition upgrade_admitted (q : node_request) (room : jstr) (ticket : option jsv) (decision : option access_decision) (destroyed : bool) (now : Z)
    (r : relay) : relay * list upgrade_outcome :=
  if destroyed then (r, release_lease decision) else
  if MAX_ROOM_SOCKETS <=? room_size (Some room) r
  then (r, release_lease decision ++ [Refused (refuseUpgrade {| rf_status := 429; rf_reason := "room-full"; rf_retryAfter := Some 5 |}
                                                (decision ≫= ad_category) (Some "relay-room-capacity"))]) else
  let '(authorized, db) := authorize sha256 (rl_rooms r) room (nq_credential q) true now in
  let r := with_rooms db r in
  if negb authorized
  then (r, release_lease decision ++ [Refused (refuseUpgrade {| rf_status := 401; rf_reason := "unauthorized"; rf_retryAfter := None |} None None)]) else
  if negb (nq_handshake q) then (r, []) else
  let s := new_sock q room ticket now in
  (add_sock s r, [Accepted (if sk_relayControl s then [capabilities (in_flow (sk_ingress s))] else [])]).

(** The second step, with the service's decision. *)
Definition upgrade_end (q : node_request) (room : jstr) (ticket : option jsv) (decision : option access_decision) (destroyed : bool) (now : Z)
    (r : relay) : relay * list upgrade_outcome :=
  if match decision with Some d => negb (ad_allowed d) | None => false end
  then (r, match decision with
           | Some d => [Refused (refuseUpgrade {| rf_status := 429; rf_reason := ad_reason d; rf_retryAfter := Some (or_five (ad_retryAfter d)) |}
                                   (ad_category d) None)]
           | None => [] end)
  else upgrade_admitted q room ticket decision destroyed now r.

(** ** The end of a socket *)

Context (buffered : delivery -> nat -> Z) (throws : delivery -> nat -> bool).

Definition drop_sock (id : nat) (r : relay) : relay :=
  {| rl_rooms := rl_rooms r; rl_retained := rl_retained r; rl_presence := rl_presence r;
     rl_sockets := filter (fun s => sk_id s <> id) (rl_sockets r); rl_coolDowns := rl_coolDowns r; rl_delivery := rl_delivery r |}.

(** [closeNodeSocket] for a socket that is still listed. *)
Definition leave (s : sock) (now : Z) (r : relay) : relay * list effect :=
  let r := drop_sock (sk_id s) r in
  let r := with_presence (note (rl_presence r) (sk_room s) (role_name s) (sk_recipientKeyId s) now) r in
  publish buffered throws (sk_room s) now r.

(** The [error] event; the [close] event follows it. *)
Definition error_sock (id : nat) (now : Z) (r : relay) : relay * list effect :=
  match find_sock id r with Some s => leave s now r | None => (r, []) end.

(** The [close] event: the presence first, then the frames in flight, whose handler was
    installed by the first frame sent. *)
Definition close_sock (id : nat) (now : Z) (r : relay) : relay * list effect :=
  let '(r, out) := error_sock id now r in
  (with_delivery (close_flights (rl_delivery r) id) r, out).

(** The admission timer of [armManagedExpiry] fires. *)
Definition clear_timer (s : sock) : sock :=
  {| sk_id := sk_id s; sk_open := sk_open s; sk_room := sk_room s; sk_role := sk_role s; sk_identity := sk_identity s;
     sk_commercial := sk_commercial s; sk_ticket := sk_ticket s; sk_timer := None; sk_relayControl := sk_relayControl s;
     sk_ingress := sk_ingress s; sk_window := sk_window s; sk_recipientKeyId := sk_recipientKeyId s;
     sk_presenceEnabled := sk_presenceEnabled s; sk_presenceAt := sk_presenceAt s; sk_policyClose := sk_policyClose s |}.
Definition expire_sock (id : nat) (now : Z) (r : relay) : relay * list effect :=
  match find_sock id r with
  | Some s =>
      match sk_timer s with
      | Some t => if now <? t then (r, []) else closeForPolicy (clear_timer s) AdmissionExpired JUndef now (set_sock id clear_timer r)
      | None => (r, [])
      end
  | None => (r, [])
  end.

(** A callback of [socket.send] releases a frame in flight. *)
Definition sent_sock (f : nat) (r : relay) : relay := with_delivery (release (rl_delivery r) f) r.

(** The replay of a socket goes on with the rows it suspended with. *)
Definition replay_sock (id : nat) (rows : list replay_item) (now : Z) (r : relay) : relay * list effect := replay_next buffered throws id rows now r.
End Upgrade.

(** ** Runs of the relay *)

(** Any interleaving of the events of the relay's sockets, whatever the admission service
    decides and however long it takes.  An upgrade that passed its first step may end at
    any later time: the second step needs nothing of the first, and so is safe even if
    it ran without it; a replay may go on at any time with any rows.  A handle names one
    socket. *)
Inductive relay_reach (sha256 : jstr -> jstr) (parse : jstr -> option jsv) (verify : option (jsv -> option jstr -> Z -> option jsv))
    (buffered : delivery -> nat -> Z) (throws : delivery -> nat -> bool) (r0 : relay) : relay -> Prop :=
| rr_start : relay_reach sha256 parse verify buffered throws r0 r0
| rr_begin r q now : relay_reach sha256 parse verify buffered throws r0 r ->
    relay_reach sha256 parse verify buffered throws r0 (upgrade_begin sha256 verify q now r).1
| rr_end r q room ticket decision destroyed now : relay_reach sha256 parse verify buffered throws r0 r ->
    nq_id q ∉ map sk_id (rl_sockets r) ->
    relay_reach sha256 parse verify buffered throws r0 (upgrade_end sha256 verify q room ticket decision destroyed now r).1
| rr_frame r r' id raw now out : relay_reach sha256 parse verify buffered throws r0 r ->
    handleSocketMessage parse verify buffered throws id raw now r = Ok (r', out) ->
    relay_reach sha256 parse verify buffered throws r0 r'
| rr_error r id now : relay_reach sha256 parse verify buffered throws r0 r ->
    relay_reach sha256 parse verify buffered throws r0 (error_sock buffered throws id now r).1
| rr_close r id now : relay_reach sha256 parse verify buffered throws r0 r ->
    relay_reach sha256 parse verify buffered throws r0 (close_sock buffered throws id now r).1
| rr_expire r id now : relay_reach sha256 parse verify buffered throws r0 r ->
    relay_reach sha256 parse verify buffered throws r0 (expire_sock id now r).1
| rr_sent r f : relay_reach sha256 parse verify buffered throws r0 r -> relay_reach sha256 parse verify buffered throws r0 (sent_sock f r)
| rr_replay r id rows now : relay_reach sha256 parse verify buffered throws r0 r ->
    relay_reach sha256 parse verify buffered throws r0 (replay_sock buffered throws id rows now r).1.

(** ** Every event keeps the relay well formed and its rooms within their capacity *)

Definition within_capacity (r : relay) : Prop := forall room, room_size (Some room) r <= MAX_ROOM_SOCKETS.

(** The rooms of the sockets, in order: what the capacity depends on. *)
Definition seats (r : relay) : list jstr := map sk_room (rl_sockets r).

Lemma room_size_seats room r : room_size (Some room) r = Z.of_nat (length (filter (fun x => x = room) (seats r))).
Proof.
  unfold room_size, room_socks, seats. f_equal. induction (rl_sockets r) as [|s l IH]; [done|]. cbn [map]. rewrite !filter_cons.
  case_decide; simpl; by rewrite IH.
Qed.

Lemma seats_sublist room l l' : l' `sublist_of` l -> (length (filter (fun x : jstr => x = room) l') <= length (filter (fun x => x = room) l))%nat.
Proof. induction 1 as [|x l l' _ IH|x l l' _ IH]; [done|..]; rewrite !filter_cons; case_decide; simpl; lia. Qed.

Lemma capacity_sublist r r' : seats r' `sublist_of` seats r -> within_capacity r -> within_capacity r'.
Proof.
  intros Hs Hc room. specialize (Hc room). rewrite room_size_seats in *.
  pose proof (seats_sublist room _ _ Hs). lia.
Qed.

Definition event_ok (r r' : relay) : Prop := relay_wf r -> within_capacity r -> relay_wf r' /\ within_capacity r'.

Lemma keeps_seats id r r' : Forall2 (keeps id) (rl_sockets r) (rl_sockets r') -> seats r' = seats r.
Proof. unfold seats. induction 1 as [|s s' l l' K _ IH]; [done|]. cbn [map]. by rewrite IH, (ks_room _ _ _ K). Qed.

Lemma step_event id r r' : step_ok id r r' -> event_ok r r'.
Proof.
  intros H Hw Hc. destruct (H Hw) as [Hs Hw']. split; [done|]. apply (capacity_sublist r); [|done]. by rewrite (keeps_seats _ _ _ Hs).
Qed.

Lemma event_trans r1 r2 r3 : event_ok r1 r2 -> event_ok r2 r3 -> event_ok r1 r3.
Proof. intros H1 H2 Hw Hc. destruct (H1 Hw Hc). by apply H2. Qed.

Lemma authorize_wf sha256 db room credential pin now : rooms_wf db -> rooms_wf (authorize sha256 db room credential pin now).2.
Proof.
  intros H. unfold authorize. destruct (negb _); [done|]. destruct (authDigest db room); [done|]. destruct (negb pin); [done|].
  pose proof (pinAuth_wf db room (sha256 credential) now H) as Hp. by destruct (pinAuth _ _ _ _).
Qed.

Lemma upgradeRefusal_wf sha256 u c now : registry_wf c -> registry_wf (upgradeRefusal sha256 u c now).2.
Proof.
  intros H. unfold upgradeRefusal. destruct (negb (up_authorized u)); [done|]. destruct (_ && bool_decide (up_ticket u = None)); [done|].
  destruct (match up_recipientKeyId u with Some _ => _ | None => _ end); [done|]. cbv zeta.
  set (c1 := if bool_decide _ then _ else c). assert (registry_wf c1) as H1 by (unfold c1; destruct (bool_decide _); [by apply remaining_wf|done]).
  match goal with |- context [remaining c1 now ?i ?a] => pose proof (remaining_wf c1 now i a H1) as H2; destruct (remaining c1 now i a) as [ms c2] end.
  destruct (0 <? ms); [done|]. by destruct (_ <=? _).
Qed.

Lemma upgrade_begin_ok sha256 verify q now r : event_ok r (upgrade_begin sha256 verify q now r).1.
Proof.
  unfold upgrade_begin. match goal with |- context [upgradeRefusal sha256 ?u ?c now] => pose proof (upgradeRefusal_wf sha256 u c now) as H;
    destruct (upgradeRefusal sha256 u c now) as [refused c'] end.
  apply (step_event 0). by apply with_coolDowns_ok.
Qed.

Lemma add_sock_ok s r : room_size (Some (sk_room s)) r < MAX_ROOM_SOCKETS -> sk_id s ∉ map sk_id (rl_sockets r) -> event_ok r (add_sock s r).
Proof.
  intros Hsize Hfresh Hw Hc. split.
  - destruct Hw. split; try done. cbn [add_sock rl_sockets]. rewrite map_app. apply NoDup_app. split_and!; [done| |apply NoDup_singleton].
    intros x Hx Hs. simpl in Hs. apply list_elem_of_singleton in Hs as ->. done.
  - intros room. specialize (Hc room). unfold room_size, room_socks in *. cbn [add_sock rl_sockets]. rewrite filter_app, length_app, filter_cons, filter_nil.
    case_decide as E; simpl; [subst room|]; lia.
Qed.

Definition leases_released (decision : option access_decision) (out : list upgrade_outcome) : Prop :=
  forall d lease, decision = Some d -> ad_allowed d = true -> ad_lease d = Some lease -> lease <> "" -> Released lease ∈ out.

(** What the second step did: it refused and wrote nothing, or it took a seat. *)
Inductive end_result (sha256 : jstr -> jstr) (verify : option (jsv -> option jstr -> Z -> option jsv)) (q : node_request) (room : jstr) (ticket : option jsv)
    (decision : option access_decision) (now : Z) (r r' : relay) (out : list upgrade_outcome) : Prop :=
| end_refused : r' = r -> (forall frames, Accepted frames ∉ out) -> leases_released decision out -> end_result sha256 verify q room ticket decision now r r' out
| end_aborted db : r' = with_rooms db r -> authorize sha256 (rl_rooms r) room (nq_credential q) true now = (true, db) -> nq_handshake q = false -> out = [] ->
    end_result sha256 verify q room ticket decision now r r' out
| end_accepted db frames : room_size (Some room) r < MAX_ROOM_SOCKETS -> authorize sha256 (rl_rooms r) room (nq_credential q) true now = (true, db) ->
    r' = add_sock (new_sock sha256 verify q room ticket now) (with_rooms db r) -> out = [Accepted frames] ->
    match decision with Some d => ad_allowed d = true | None => True end ->
    end_result sha256 verify q room ticket decision now r r' out.

Lemma pinAuth_digest db room digest now : authDigest db room = None -> (pinAuth db room digest now).1 = Some digest /\ authDigest (pinAuth db room digest now).2 room = Some digest.
Proof.
  intros H. unfold pinAuth. cbn [fst snd]. assert (authDigest (alter (fun row => {| auth_sha256 := Some (default digest (auth_sha256 row));
    push_tokens := push_tokens row; machine_queue := machine_queue row; phone_queue := phone_queue row; updated_at := now |}) room (ensureRoom db room now)) room = Some digest) as E; [|done].
  unfold authDigest in *. rewrite lookup_alter. unfold ensureRoom. destruct (db !! room) as [row|] eqn:Er; rewrite lookup_insert, !decide_True by done; simpl in *; [|done].
  by rewrite H.
Qed.

(** A refused credential leaves the rooms as they are; an accepted one is the pinned one. *)
Lemma authorize_spec sha256 db room credential now :
  let '(ok, db') := authorize sha256 db room credential true now in
  if ok then validRoomCredential (JStr credential) = true /\ exists digest, authDigest db' room = Some digest /\ equalDigest (sha256 credential) digest = true
  else db' = db.
Proof.
  unfold authorize. destruct (validRoomCredential _) eqn:Ev; [|done]. cbn [negb]. destruct (authDigest db room) as [d|] eqn:Ea.
  - destruct (equalDigest _ d) eqn:Ed; [|done]. split; [done|]. by exists d.
  - cbn [negb]. destruct (pinAuth_digest db room (sha256 credential) now Ea) as [H1 H2]. destruct (pinAuth _ _ _ _) as [e db']. simpl in H1, H2. subst e.
    cbn [default]. unfold equalDigest at 1. rewrite bool_decide_eq_true_2 by done. split; [done|]. exists (sha256 credential). split; [done|].
    unfold equalDigest. by apply bool_decide_eq_true_2.
Qed.

Lemma release_refuses decision rest : (forall frames, Accepted frames ∉ rest) ->
  (forall frames, Accepted frames ∉ release_lease decision ++ rest) /\ leases_released decision (release_lease decision ++ rest).
Proof.
  intros Hr. unfold release_lease. split.
  - intros frames [H|H]%elem_of_app; [|by apply Hr in H]. destruct (decision ≫= ad_lease) as [l|]; [|by apply elem_of_nil in H].
    destruct (l =?s ""); [by apply elem_of_nil in H|by apply list_elem_of_singleton in H].
  - intros d lease -> _ E Hne. cbn [mbind option_bind]. rewrite E. unfold jeqb. rewrite (bool_decide_eq_false_2 _ Hne). by left.
Qed.

Lemma upgrade_end_result sha256 verify q room ticket decision destroyed now r :
  let '(r', out) := upgrade_end sha256 verify q room ticket decision destroyed now r in
  end_result sha256 verify q room ticket decision now r r' out.
Proof.
  unfold upgrade_end. destruct (match decision with Some d => negb (ad_allowed d) | None => false end) eqn:Ed.
  { destruct decision as [d|]; [|done]. apply negb_true_iff in Ed. apply end_refused; [done| |].
    - intros frames H. by apply list_elem_of_singleton in H.
    - intros d' lease [= <-] H. congruence. }
  assert (forall text frames, Accepted frames ∉ [Refused text]) as Hone by (intros text frames H; by apply list_elem_of_singleton in H).
  unfold upgrade_admitted. destruct destroyed.
  { destruct (release_refuses decision []) as [H1 H2]; [intros frames H; by apply elem_of_nil in H|]. rewrite app_nil_r in H1, H2. by apply end_refused. }
  destruct (Z.leb_spec MAX_ROOM_SOCKETS (room_size (Some room) r)) as [Hs|Hs]; [apply end_refused; [done|by apply release_refuses..]|].
  pose proof (authorize_spec sha256 (rl_rooms r) room (nq_credential q) now) as Ha.
  destruct (authorize _ _ _ _ _ _) as [ok db] eqn:Ea. destruct ok; cbn [negb].
  - destruct (nq_handshake q) eqn:Eh; cbn [negb]; [|by apply (end_aborted _ _ _ _ _ _ _ _ _ _ db)].
    eapply end_accepted; [done|exact Ea|reflexivity|reflexivity|]. destruct decision as [d|]; [|done]. by apply negb_false_iff in Ed.
  - subst db. apply end_refused; [by destruct r|by apply release_refuses..].
Qed.

Lemma upgrade_end_ok sha256 verify q room ticket decision destroyed now r :
  nq_id q ∉ map sk_id (rl_sockets r) -> event_ok r (upgrade_end sha256 verify q room ticket decision destroyed now r).1.
Proof.
  intros Hf. pose proof (upgrade_end_result sha256 verify q room ticket decision destroyed now r) as H.
  destruct (upgrade_end _ _ _ _ _ _ _ _ _) as [r' out]. cbn [fst].
  assert (forall db, authorize sha256 (rl_rooms r) room (nq_credential q) true now = (true, db) -> event_ok r (with_rooms db r)) as Hdb.
  { intros db E. apply (step_event 0), with_rooms_ok. pose proof (authorize_wf sha256 (rl_rooms r) room (nq_credential q) true now) as Hw. by rewrite E in Hw. }
  destruct H as [-> _ _|db -> E _ _|db frames Hs E -> _ _]; [by intros ??|by apply Hdb|].
  eapply event_trans; [by apply Hdb|]. apply add_sock_ok; unfold new_sock; by destruct ticket.
Qed.

Lemma drop_sock_ok id r : event_ok r (drop_sock id r).
Proof.
  intros Hw Hc. assert (rl_sockets (drop_sock id r) `sublist_of` rl_sockets r) as Hs by apply sublist_filter. split.
  - destruct Hw. split; try done. eapply sublist_NoDup; [done|]. change (@map sock nat) with (@fmap list _ sock nat). by apply sublist_fmap.
  - eapply capacity_sublist; [|exact Hc]. unfold seats. change (@map sock jstr) with (@fmap list _ sock jstr). by apply sublist_fmap.
Qed.

Lemma error_sock_ok buffered throws id now r : event_ok r (error_sock buffered throws id now r).1.
Proof.
  unfold error_sock. destruct (find_sock id r) as [s|]; [|by intros ??]. unfold leave. cbv zeta. eapply event_trans; [apply drop_sock_ok|].
  eapply event_trans; [apply (step_event 0), with_presence_ok|]. apply (step_event 0), publish_ok.
Qed.

Lemma close_flights_acks d id : dl_responses (close_flights d id) = dl_responses d.
Proof.
  unfold close_flights. generalize (map fst (filter (fun e => Nat.eqb (fl_socket e.2) id) (dl_flights d))). intros l. revert d.
  induction l as [|f l IH]; intros d; [done|]. cbn [fold_left]. rewrite IH. unfold release. by destruct (map_get _ _).
Qed.

Lemma close_sock_ok buffered throws id now r : event_ok r (close_sock buffered throws id now r).1.
Proof.
  unfold close_sock. pose proof (error_sock_ok buffered throws id now r) as H. destruct (error_sock _ _ _ _ _) as [r1 out]. cbn [fst] in *.
  eapply event_trans; [exact H|]. apply (step_event 0), with_delivery_ok; [apply release_all_inv|by rewrite close_flights_acks].
Qed.

Lemma expire_sock_ok id now r : event_ok r (expire_sock id now r).1.
Proof.
  unfold expire_sock. destruct (find_sock id r) as [s|]; [|by intros ??]. destruct (sk_timer s) as [t|]; [|by intros ??]. destruct (now <? t); [by intros ??|].
  apply (step_event 0). etransitivity; [|apply closeForPolicy_ok]. apply set_sock_ok. by intros.
Qed.

Lemma sent_sock_ok f r : event_ok r (sent_sock f r).
Proof. apply (step_event 0), with_delivery_ok; [apply release_inv|]. unfold release. by destruct (map_get _ _). Qed.

Lemma replay_sock_ok buffered throws id rows now r : event_ok r (replay_sock buffered throws id rows now r).1.
Proof. apply (step_event id), replay_next_ok. Qed.

Lemma frame_event parse verify buffered throws id raw now r r' out :
  handleSocketMessage parse verify buffered throws id raw now r = Ok (r', out) -> event_ok r r'.
Proof. intros H. apply (step_event id). by eapply frame_result_ok, handle_result. Qed.

(** ** Properties *)

(** Whatever interleaves, from a relay whose rooms are within their capacity. *)
Lemma relay_reach_ok sha256 parse verify buffered throws r0 r : relay_reach sha256 parse verify buffered throws r0 r -> event_ok r0 r.
Proof.
  intros H Hw Hc. induction H as [|r q now _ [IHw IHc]|r q room ticket decision destroyed now _ [IHw IHc] Hf
    |r r' id raw now out _ [IHw IHc] Hh|r id now _ [IHw IHc]|r id now _ [IHw IHc]|r id now _ [IHw IHc]|r f _ [IHw IHc]|r id rows now _ [IHw IHc]].
  - done.
  - by apply upgrade_begin_ok.
  - by apply upgrade_end_ok.
  - by eapply frame_event.
  - by apply error_sock_ok.
  - by apply close_sock_ok.
  - by apply expire_sock_ok.
  - by apply sent_sock_ok.
  - by apply replay_sock_ok.
Qed.

(** C3: However upgrades, their delayed admissions, frames, expiries, errors and closes
    interleave, no room ever holds more than 32 sockets and the relay stays well formed:
    the check before the admission is repeated after it, so upgrades that were admitted
    together cannot overfill the room. *)
Theorem rooms_never_overfill sha256 parse verify buffered throws r0 r :
  relay_wf r0 -> rl_sockets r0 = [] -> relay_reach sha256 parse verify buffered throws r0 r ->
  relay_wf r /\ forall room, Z.of_nat (length (room_socks room r)) <= MAX_ROOM_SOCKETS.
Proof.
  intros Hw Hs H. apply (relay_reach_ok _ _ _ _ _ _ _ H); [done|]. intros room. unfold room_size, room_socks. rewrite Hs.
  unfold MAX_ROOM_SOCKETS. simpl. lia.
Qed.

(** C34: The end of an upgrade has exactly three outcomes.  A socket is added, last of its
    room, without a role, open, with the ticket and the identity of the request, and
    then the admission was not denied and the credential is the one pinned for the room.
    Or the upgrade is refused, nothing of the relay changes, and a lease that was granted
    is released.  Or [ws] itself rejects the handshake of a client whose credential is the
    one pinned, possibly just now: then no socket is added, nothing but the table of rooms
    changes, and nothing is answered or released, so a granted lease stays. *)
Theorem upgrades_are_gated sha256 verify q room ticket decision destroyed now r :
  let '(r', out) := upgrade_end sha256 verify q room ticket decision destroyed now r in
  (exists frames s, out = [Accepted frames] /\ rl_sockets r' = rl_sockets r ++ [s] /\ sk_id s = nq_id q /\ sk_room s = room /\ sk_open s = true /\
     sk_role s = None /\ sk_ticket s = ticket /\ sk_identity s = managedCooldownIdentity sha256 ticket /\
     sk_timer s = (fun t => int_of (get "expiresAt" t)) <$> ticket /\
     match decision with Some d => ad_allowed d = true | None => True end /\
     validRoomCredential (JStr (nq_credential q)) = true /\
     exists digest, authDigest (rl_rooms r') room = Some digest /\ equalDigest (sha256 (nq_credential q)) digest = true) \/
  (r' = r /\ (forall frames, Accepted frames ∉ out) /\
     forall d lease, decision = Some d -> ad_allowed d = true -> ad_lease d = Some lease -> lease <> "" -> Released lease ∈ out) \/
  (nq_handshake q = false /\ out = [] /\ exists db, r' = with_rooms db r /\ validRoomCredential (JStr (nq_credential q)) = true /\
     exists digest, authDigest db room = Some digest /\ equalDigest (sha256 (nq_credential q)) digest = true).
Proof.
  pose proof (upgrade_end_result sha256 verify q room ticket decision destroyed now r) as H.
  destruct (upgrade_end _ _ _ _ _ _ _ _ _) as [r' out]. destruct H as [-> Ha Hl|db -> Ea Eh ->|db frames _ Ea -> -> Hd]; [by right; left| |left].
  { right; right. split_and!; [done..|]. exists db. split; [done|]. pose proof (authorize_spec sha256 (rl_rooms r) room (nq_credential q) now) as Hs. by rewrite Ea in Hs. }
  pose proof (authorize_spec sha256 (rl_rooms r) room (nq_credential q) now) as Hs. rewrite Ea in Hs. destruct Hs as [Hv Hdg].
  exists frames, (new_sock sha256 verify q room ticket now). unfold new_sock. by destruct ticket.
Qed.

(** ** Witnesses *)

Module Examples.
Definition credential : jstr := JS (repeat 97%N 64).
Definition sample_sha (s : jstr) : jstr := JS (repeat 48%N 64).
Definition request (id : nat) : node_request :=
  {| nq_id := id; nq_path := Some "/ws"; nq_room := Some NodeSocket.Examples.room; nq_credential := credential; nq_ticketHeader := None;
     nq_recipient := None; nq_routing := Some "1"; nq_ingress := Some "1"; nq_presence := Some "1"; nq_handshake := true |}.
Definition empty_relay : relay :=
  {| rl_rooms := ∅; rl_retained := []; rl_presence := []; rl_sockets := []; rl_coolDowns := newRegistry 16; rl_delivery := createSocketDelivery |}.
Definition granted : access_decision := {| ad_allowed := true; ad_category := Some "beta"; ad_reason := ""; ad_retryAfter := None; ad_lease := Some "lease-1" |}.
(** Upgrades that all passed their first step before any ended. *)
Definition crowd (n : nat) : relay :=
  fold_left (fun r id => (upgrade_end sample_sha None (request id) NodeSocket.Examples.room None None false 5 r).1) (seq 0 n) empty_relay.

Lemma empty_relay_wf : relay_wf empty_relay.
Proof.
  split; [|apply newRegistry_wf; lia|split; [done|vm_compute; discriminate|constructor|split; constructor]| | |constructor].
  - unfold empty_relay. intros ??. cbn [rl_rooms]. by rewrite lookup_empty.
  - intros s. split; [simpl; unfold MAX_OUTSTANDING; lia|constructor].
  - split; [constructor|]. intros e H. by apply elem_of_nil in H.
Qed.

(** Of forty upgrades admitted together thirty-two are seated. *)
Example crowd_is_seated : length (rl_sockets (crowd 40)) = 32%nat.
Proof. vm_compute. reflexivity. Qed.

(** The thirty-third gives its lease back. *)
Example late_lease_is_released :
  (upgrade_end sample_sha None (request 40) NodeSocket.Examples.room None (Some granted) false 5 (crowd 32)).2 =
  [Released "lease-1"; Refused (refuseUpgrade {| rf_status := 429; rf_reason := "room-full"; rf_retryAfter := Some 5 |} (Some "beta"%js) (Some "relay-room-capacity"%js))].
Proof. vm_compute. reflexivity. Qed.

Definition bad_handshake : node_request :=
  {| nq_id := 1; nq_path := Some "/ws"; nq_room := Some NodeSocket.Examples.room; nq_credential := credential; nq_ticketHeader := None;
     nq_recipient := None; nq_routing := None; nq_ingress := None; nq_presence := None; nq_handshake := false |}.

(** A client whose WebSocket headers [ws] rejects keeps its lease and pins the room. *)
Example rejected_handshake_keeps_lease :
  let '(r, out) := upgrade_end sample_sha None bad_handshake NodeSocket.Examples.room None (Some granted) false 5 empty_relay in
  out = [] /\ authDigest (rl_rooms r) NodeSocket.Examples.room = Some (sample_sha credential).
Proof. vm_compute. split; reflexivity. Qed.

Lemma rooms_never_overfill_witness :
  relay_wf (crowd 1) /\ forall room, Z.of_nat (length (room_socks room (crowd 1))) <= MAX_ROOM_SOCKETS.
Proof.
  apply (rooms_never_overfill sample_sha (fun _ => None) None (fun _ _ => 0) (fun _ _ => false) empty_relay (crowd 1) empty_relay_wf eq_refl).
  refine (rr_end _ _ _ _ _ _ empty_relay (request 0) NodeSocket.Examples.room None None false 5 (rr_start _ _ _ _ _ _) _). apply not_elem_of_nil.
Defined.
End Examples.
