(* ===== verification/Routing.v ===== *)
(** * Bodies and routes of HTTP requests
    [src/node/http-payloads.js] and [relay/relaySupport.js] (bounded JSON bodies),
    [node/server.js] ([routeHttp]), [worker.js], [relay/requestRouter.js],
    [relay/legacyProxy.js] and the dispatch of [relay/room.js] and
    [relay/pairingMailbox.js].

    URL parsing, UTF-8 decoding and [JSON.parse] are the platform's. *)

From S2P Require Import Prelude Validation.
#[local] Open Scope bool_scope.
#[local] Open Scope Z_scope.
#[local] Open Scope js_scope.

(** ** Bodies *)

Section Bodies.
(** [JSON.parse] of the decoded bytes, [Throw] on a [SyntaxError]. *)
Context (parse_json : list N -> res jsv).

(** The chunks of a stream; [st_fails] when it breaks after them. *)
Record stream := { st_chunks : list (list N); st_fails : bool }.

(** The loop of both functions: the bytes kept, [None] as soon as they exceed the bound. *)
Fixpoint collect (maxBytes : Z) (chunks : list (list N)) (kept : list (list N)) (length : Z) : option (list (list N)) :=
  match chunks with
  | [] => Some kept
  | chunk :: rest =>
      let length := length + Z.of_nat (List.length chunk) in
      if maxBytes <? length then None else collect maxBytes rest (kept ++ [chunk]) length
  end.

(** [declared]: [Number] of the [Content-Length], 0 without one; [None] when it is not finite. *)
Definition too_long (declared : option Z) (maxBytes : Z) : bool := match declared with Some n => maxBytes <? n | None => false end.

(** [readJson]: [null] for a body that is too long or no JSON; [Throw] when the stream breaks. *)
Definition readJson (declared : option Z) (body : stream) (maxBytes : Z) : res jsv :=
  if too_long declared maxBytes then Ok JNull else
  match collect maxBytes (st_chunks body) [] 0 with
  | None => Ok JNull
  | Some chunks => if st_fails body then Throw else match parse_json (concat chunks) with Ok v => Ok v | Throw => Ok JNull end
  end.

(** [merged.set(chunk, offset)] for all chunks in turn. *)
Fixpoint merge (merged : list N) (chunks : list (list N)) (offset : nat) : list N :=
  match chunks with
  | [] => merged
  | chunk :: rest => merge (take offset merged ++ chunk ++ drop (offset + length chunk) merged) rest (offset + length chunk)
  end.

(** [readJsonLimited]; [body] is [None] for a request without one. *)
Definition readJsonLimited (declared : option Z) (body : option stream) (maxBytes : Z) : res jsv :=
  if too_long declared maxBytes then Throw else
  match body with
  | None => Ok JNull
  | Some body =>
      match collect maxBytes (st_chunks body) [] 0 with
      | None => Throw
      | Some chunks =>
          if st_fails body then Throw else
          parse_json (merge (repeat 0%N (length (concat chunks))) chunks 0)
      end
  end.

(** What both promise, in terms of the whole body. *)
Definition body_value (declared : option Z) (bytes : list N) (maxBytes : Z) : res jsv :=
  if too_long declared maxBytes || (maxBytes <? Z.of_nat (length bytes)) then Throw else parse_json bytes.
End Bodies.

Lemma collect_spec maxBytes chunks kept n :
  n = Z.of_nat (length (concat kept)) ->
  collect maxBytes chunks kept n =
    if bool_decide (chunks = []) || (Z.of_nat (length (concat (kept ++ chunks))) <=? maxBytes) then Some (kept ++ chunks) else None.
Proof.
  revert kept n. induction chunks as [|c chunks IH]; intros kept n ->; cbn [collect]; [by rewrite app_nil_r|].
  rewrite bool_decide_eq_false_2 by done. cbn [orb]. rewrite concat_app. cbn [concat]. rewrite !length_app.
  destruct (Z.ltb_spec maxBytes (Z.of_nat (length (concat kept)) + Z.of_nat (length c))).
  - rewrite (proj2 (Z.leb_gt _ _)); [done|lia].
  - rewrite IH by (rewrite concat_app, length_app; cbn [concat]; rewrite app_nil_r; lia). rewrite <- app_assoc. cbn [app].
    rewrite concat_app, length_app. cbn [concat]. rewrite length_app.
    destruct (bool_decide _) eqn:E; [|done]. apply bool_decide_eq_true in E as ->. cbn [concat length orb]. by rewrite (proj2 (Z.leb_le _ _)) by lia.
Qed.

Lemma merge_spec done_ rest chunks :
  length rest = length (concat chunks) -> merge (done_ ++ rest) chunks (length done_) = done_ ++ concat chunks.
Proof.
  revert done_ rest. induction chunks as [|c chunks IH]; intros done_ rest H; cbn [merge concat] in *.
  - by destruct rest.
  - rewrite length_app in H. rewrite take_app_length, drop_app_add. rewrite <- length_app, app_assoc. rewrite IH; [by rewrite <- app_assoc|].
    rewrite length_drop. lia.
Qed.

Lemma merge_all chunks : merge (repeat 0%N (length (concat chunks))) chunks 0 = concat chunks.
Proof. apply (merge_spec [] _ chunks). by rewrite repeat_length. Qed.

(** A body is read the same however the network cuts it: both readers give the value
    of the whole body, bounded by its real length whatever length was declared; where
    the Node relay answers [null], the Worker throws.  A stream that breaks throws in
    both, unless it was too long before. *)
Theorem bodies_are_bounded (parse_json : list N -> res jsv) (declared : option Z) (body : stream) (maxBytes : Z) :
  0 <= maxBytes ->
  let value := body_value parse_json declared (concat (st_chunks body)) maxBytes in
  (st_fails body = false ->
     readJson parse_json declared body maxBytes = (match value with Ok v => Ok v | Throw => Ok JNull end) /\
     readJsonLimited parse_json declared (Some body) maxBytes = value) /\
  (st_fails body = true ->
     readJsonLimited parse_json declared (Some body) maxBytes = Throw /\
     (readJson parse_json declared body maxBytes = Throw \/
      readJson parse_json declared body maxBytes = Ok JNull /\ (too_long declared maxBytes = true \/ maxBytes < Z.of_nat (length (concat (st_chunks body)))))).
Proof.
  intros Hm value. unfold readJson, readJsonLimited, value, body_value. rewrite (collect_spec maxBytes (st_chunks body) [] 0 eq_refl). cbn [app].
  destruct (too_long declared maxBytes); cbn [orb]; [split; intros _; split; auto|].
  assert (bool_decide (st_chunks body = []) || (Z.of_nat (length (concat (st_chunks body))) <=? maxBytes) = negb (maxBytes <? Z.of_nat (length (concat (st_chunks body))))) as ->.
  { destruct (bool_decide _) eqn:E; [apply bool_decide_eq_true in E as ->; simpl; by rewrite (proj2 (Z.ltb_ge _ _)) by lia|]. simpl. lia. }
  destruct (Z.ltb_spec maxBytes (Z.of_nat (length (concat (st_chunks body))))); cbn [negb]; [split; intros _; split; auto|].
  rewrite merge_all. split; intros ->; [split|split]; auto.
Qed.

(** ** Routes *)

(** What serves a request. *)
Inductive service := Health | Pairing (mailbox : jstr) | Tasks | EndpointService | ActivityService | Push (status : bool) | Socket | NotServed.
#[export] Instance service_eq_dec : EqDecision service.
Proof. solve_decision. Defined.

Record http_request := {
  hq_method : jstr; hq_host : jstr; hq_path : jstr; hq_search : jstr; hq_room : option jstr; hq_upgrade : option jstr;
}.

(** [/^\/pair\/([a-f0-9]{32})$/.exec(pathname)?.[1]] *)
Definition pairing_mailbox (path : jstr) : option jstr :=
  if starts_with "/pair/" path && re_class cls_hex 32 32 (JS (drop 6 (units path))) then Some (JS (drop 6 (units path))) else None.

Definition task_path (path : jstr) : bool :=
  (path =?s "/task-jobs") || starts_with "/task-jobs/" path || starts_with "/task-job-writers/" path
  || starts_with "/task-resources/" path || starts_with "/task-job-configurations/" path.

(** [routeHttp]; [None] when the URL does not parse (400). *)
Definition routeHttp (method path : jstr) : service :=
  if (path =?s "/health") && (method =?s "GET") then Health else
  if task_path path then Tasks else
  match pairing_mailbox path with
  | Some mailbox => Pairing mailbox
  | None =>
      if path =?s "/endpoint" then EndpointService else
      if starts_with "/push/activity/" path then ActivityService else
      if (path =?s "/push/register") || (path =?s "/push/status") then Push (path =?s "/push/status") else NotServed
  end.

(** *** The Worker *)

(** [(request.headers.get("Upgrade") ?? "").toLowerCase() === "websocket"]; a header has only
    Latin-1 characters. *)
Definition is_websocket (q : http_request) : bool := lower (default "" (hq_upgrade q)) =?s "websocket".

(** The Durable Object a request is handed to, or the answer of the router itself. *)
Inductive routing := Answered (status : Z) (served : service) | ToCodes (name : jstr) | ToRoom (name : jstr).

(** [env?.[binding]] *)
Record bindings := { bd_codes : bool; bd_room : bool; bd_legacy : option jstr }.

Definition routeTo (bound : bool) (to : routing) : routing := if bound then to else Answered 503 NotServed.

Definition routeRoom (q : http_request) (env : bindings) : routing :=
  match hq_room q with
  | Some room => if validRoom (JStr room) then routeTo (bd_room env) (ToRoom room) else Answered 400 NotServed
  | None => Answered 400 NotServed
  end.

Definition routeRequest (q : http_request) (env : bindings) : routing :=
  let path := hq_path q in
  if path =?s "/health" then Answered 200 Health else
  match pairing_mailbox path with
  | Some _ => routeTo (bd_codes env) (ToCodes (JS (drop 6 (units path))))
  | None =>
      if bool_decide (path ∈ ["/push/register"; "/push/status"; "/endpoint"]%js) || starts_with "/push/activity/" path then routeRoom q env else
      if task_path path then routeRoom q env else
      if is_websocket q then routeRoom q env else Answered 404 NotServed
  end.

(** [GrantTapRoom.fetch] *)
Definition room_fetch (path : jstr) : service :=
  if starts_with "/push/activity/" path then ActivityService else
  if task_path path then Tasks else
  if path =?s "/push/register" then Push false else
  if path =?s "/push/status" then Push true else
  if path =?s "/endpoint" then EndpointService else Socket.

(** [GrantTapCodes.fetch] *)
Definition codes_dispatch (path : jstr) : service := match pairing_mailbox path with Some mailbox => Pairing mailbox | None => NotServed end.

(** The service that a routed request reaches, with the object's name. *)
Definition reached (q : http_request) (to : routing) : service * option jstr :=
  match to with
  | Answered _ served => (served, None)
  | ToCodes name => (codes_dispatch (hq_path q), Some name)
  | ToRoom name => (room_fetch (hq_path q), Some name)
  end.

(** *** The proxy of a legacy deployment *)

Definition allowedRequest (q : http_request) : bool :=
  let path := hq_path q in
  let room := match hq_room q with Some room => validRoom (JStr room) | None => false end in
  if path =?s "/health" then hq_method q =?s "GET" else
  match pairing_mailbox path with
  | Some _ => (hq_method q =?s "GET") || (hq_method q =?s "PUT") || (hq_method q =?s "POST")
  | None =>
      if bool_decide (path ∈ ["/push/register"; "/push/status"; "/endpoint"]%js) || starts_with "/push/activity/" path then room else
      acceptsWebSocketPath path && is_websocket q && room
  end.

Inductive proxied := Local (status : Z) | Upstream (host path search : jstr).

(** [parse_origin]: protocol and host of a URL text, [None] when it does not parse. *)
Definition proxyLegacyRequest (parse_origin : jstr -> option (jstr * jstr)) (q : http_request) (upstreamOrigin : jstr) : proxied :=
  if negb (allowedRequest q) then Local 404 else
  match parse_origin upstreamOrigin with
  | None => Local 503
  | Some (protocol, host) =>
      if negb (protocol =?s "https:") || (host =?s hq_host q) then Local 503 else Upstream host (hq_path q) (hq_search q)
  end.

(** [worker.js]: a deployment with an upstream proxies everything. *)
Definition worker_fetch (parse_origin : jstr -> option (jstr * jstr)) (q : http_request) (env : bindings) : proxied + routing :=
  match bd_legacy env with
  | Some upstream => if upstream =?s "" then inr (routeRequest q env) else inl (proxyLegacyRequest parse_origin q upstream)
  | None => inr (routeRequest q env)
  end.

(** ** The tests on paths exclude each other *)

Lemma starts_with_take p s : starts_with p s = true -> take (length (units p)) (units s) = units p.
Proof. apply bool_decide_eq_true. Qed.

(** The first six characters tell the prefixes apart. *)
Definition head6 (path : jstr) : list N := take 6 (units path).

Lemma starts_head p path : starts_with p path = true -> (6 <=? length (units p))%nat = true -> head6 path = take 6 (units p).
Proof. intros H Hl%Nat.leb_le. apply starts_with_take in H. unfold head6. rewrite <- H, take_take. by rewrite Nat.min_l. Qed.

Lemma task_head path : task_path path = true -> head6 path = units "/task-".
Proof.
  unfold task_path. intros H. repeat (apply orb_true_iff in H as [H|H]).
  - apply bool_decide_eq_true in H as ->. reflexivity.
  - by rewrite (starts_head _ _ H eq_refl).
  - by rewrite (starts_head _ _ H eq_refl).
  - by rewrite (starts_head _ _ H eq_refl).
  - by rewrite (starts_head _ _ H eq_refl).
Qed.

Lemma pairing_head path mailbox : pairing_mailbox path = Some mailbox -> head6 path = units "/pair/" /\ mailbox = JS (drop 6 (units path)).
Proof.
  unfold pairing_mailbox. destruct (starts_with _ _) eqn:E; [|done]. destruct (re_class _ _ _ _); [|done]. intros [= <-]. split; [|done].
  by rewrite (starts_head _ _ E eq_refl).
Qed.

Lemma activity_head path : starts_with "/push/activity/" path = true -> head6 path = units "/push/".
Proof. intros H. by rewrite (starts_head _ _ H eq_refl). Qed.

Ltac heads := repeat match goal with
  | H : task_path _ = true |- _ => apply task_head in H
  | H : pairing_mailbox _ = Some _ |- _ => apply pairing_head in H as [H ->]
  | H : starts_with "/push/activity/" _ = true |- _ => apply activity_head in H end;
  match goal with H : head6 ?p = _, H' : head6 ?p = _ |- _ => rewrite H in H'; vm_compute in H'; discriminate H' end.

(** Both deployments serve a plain HTTP request by the same component: for a room
    that is valid, whatever the method and path, the Durable Object that the Worker's
    router picks dispatches the request to the service of the Node relay's router, a
    pairing path to the mailbox of its own name and everything else to the object of
    its room; what one does not know the other does not either.  Only the health check
    answers other methods in the Worker. *)
Theorem routes_agree (q : http_request) (env : bindings) (room : jstr) :
  hq_room q = Some room -> validRoom (JStr room) = true -> is_websocket q = false -> bd_codes env = true -> bd_room env = true ->
  (hq_path q = "/health" -> hq_method q = "GET") ->
  let to := reached q (routeRequest q env) in
  to.1 = routeHttp (hq_method q) (hq_path q) /\
  to.2 = match routeHttp (hq_method q) (hq_path q) with Pairing mailbox => Some mailbox | Health | NotServed => None | _ => Some room end.
Proof.
  intros Hroom Hv Hw Hc Hr Hh to. unfold to, routeRequest, routeHttp. unfold routeTo, routeRoom, jeqb. rewrite Hroom, Hv, Hc, Hr, Hw. clear to Hroom Hv Hw Hc Hr.
  destruct (decide (hq_path q = "/health")) as [E|Eh]; [rewrite (Hh E), E; vm_compute; done|].
  rewrite (bool_decide_eq_false_2 _ Eh). cbn [andb]. unfold reached.
  destruct (pairing_mailbox (hq_path q)) as [m|] eqn:Ep.
  { destruct (task_path _) eqn:Et; [exfalso; heads|]. unfold codes_dispatch. rewrite Ep. pose proof (pairing_head _ _ Ep) as [_ ->]. done. }
  destruct (task_path (hq_path q)) eqn:Et.
  { assert (starts_with "/push/activity/" (hq_path q) = false) as Ha by (destruct (starts_with _ _) eqn:Ea; [exfalso; heads|done]).
    rewrite bool_decide_eq_false_2; [|intros Hin; repeat (apply elem_of_cons in Hin as [E|Hin]; [rewrite E in Et; discriminate Et|]); by apply elem_of_nil in Hin].
    unfold room_fetch. by rewrite Ha, Et. }
  destruct (decide (hq_path q = "/endpoint")) as [E|Ee]; [rewrite E; vm_compute; done|].
  destruct (decide (hq_path q = "/push/register")) as [E|Eg]; [rewrite E; vm_compute; done|].
  destruct (decide (hq_path q = "/push/status")) as [E|Es]; [rewrite E; vm_compute; done|].
  rewrite (bool_decide_eq_false_2 _ Ee), (bool_decide_eq_false_2 _ Eg), (bool_decide_eq_false_2 _ Es).
  rewrite bool_decide_eq_false_2; [|rewrite !elem_of_cons, elem_of_nil; tauto]. cbn [orb].
  destruct (starts_with "/push/activity/" (hq_path q)) eqn:Ea; [unfold room_fetch; by rewrite Ea|done].
Qed.

(** A legacy deployment hands on only what the relay behind it serves, and only over
    TLS to another host: the path and query are those of the request, and the relay's
    own router reaches a service for it. *)
Theorem proxied_requests_are_served (parse_origin : jstr -> option (jstr * jstr)) (q : http_request) (origin host path search : jstr) (env : bindings) :
  bd_codes env = true -> bd_room env = true -> bd_legacy env = None ->
  proxyLegacyRequest parse_origin q origin = Upstream host path search ->
  path = hq_path q /\ search = hq_search q /\ parse_origin origin = Some ("https:"%js, host) /\ host <> hq_host q /\
  exists to, worker_fetch parse_origin q env = inr to /\ (reached q to).1 <> NotServed.
Proof.
  intros Hc Hr Hl. unfold proxyLegacyRequest. destruct (allowedRequest q) eqn:Ea; [|done]. cbn [negb].
  destruct (parse_origin origin) as [[protocol h]|]; [|done]. destruct (_ || _) eqn:Eo; [done|]. intros [= <- <- <-].
  apply orb_false_iff in Eo as [E1 E2]. apply negb_false_iff, bool_decide_eq_true in E1 as ->. apply bool_decide_eq_false in E2.
  split_and!; try done. unfold worker_fetch. rewrite Hl. eexists. split; [reflexivity|]. revert Ea.
  unfold allowedRequest, routeRequest, routeTo, routeRoom, reached. rewrite Hc, Hr.
  destruct (hq_path q =?s "/health"); [done|]. destruct (pairing_mailbox (hq_path q)) as [m|] eqn:Ep; [unfold codes_dispatch; by rewrite Ep|].
  assert (room_fetch (hq_path q) <> NotServed) as Hs by (unfold room_fetch; by repeat case_match).
  destruct (_ || _); [destruct (hq_room q) as [room|]; [|done]; by intros ->|].
  intros Ha. apply andb_true_iff in Ha as [[_ Hw]%andb_true_iff Hroom]. destruct (hq_room q) as [room|]; [|done]. rewrite Hroom, Hw. by destruct (task_path _).
Qed.

(** ** Examples and witnesses *)

Module Examples.
Definition request (method path : jstr) : http_request :=
  {| hq_method := method; hq_host := "relay.example"; hq_path := path; hq_search := ""; hq_room := Some (JS (repeat 97%N 16)); hq_upgrade := None |}.
Definition sample_env : bindings := {| bd_codes := true; bd_room := true; bd_legacy := None |}.
Definition sample_origin (s : jstr) : option (jstr * jstr) := Some ("https:"%js, "relay.granttap.example"%js).

(** A legacy deployment does not know the task routes that the relay serves. *)
Example task_routes_are_not_proxied :
  proxyLegacyRequest sample_origin (request "GET" "/task-jobs") "origin" = Local 404 /\
  reached (request "GET" "/task-jobs") (routeRequest (request "GET" "/task-jobs") sample_env) = (Tasks, Some (JS (repeat 97%N 16))).
Proof. vm_compute. split; reflexivity. Qed.

(** Nor the [HEAD] probe of a pairing mailbox. *)
Example pairing_probe_is_not_proxied :
  proxyLegacyRequest sample_origin (request "HEAD" ("/pair/" +++ JS (repeat 97%N 32))) "origin" = Local 404.
Proof. vm_compute. reflexivity. Qed.

Lemma routes_agree_witness :
  (reached (request "PUT" "/endpoint") (routeRequest (request "PUT" "/endpoint") sample_env)).1 = EndpointService.
Proof.
  refine (proj1 (routes_agree (request "PUT" "/endpoint") sample_env (JS (repeat 97%N 16)) eq_refl _ _ eq_refl eq_refl _));
    [vm_compute; reflexivity|vm_compute; reflexivity|intros H; discriminate H].
Defined.

Lemma proxied_requests_are_served_witness :
  exists to, worker_fetch sample_origin (request "PUT" "/endpoint") sample_env = inr to /\ (reached (request "PUT" "/endpoint") to).1 <> NotServed.
Proof.
  refine (proj2 (proj2 (proj2 (proj2 (proxied_requests_are_served sample_origin (request "PUT" "/endpoint") "origin" "relay.granttap.example" "/endpoint" "" sample_env
    eq_refl eq_refl eq_refl _))))).
  vm_compute. reflexivity.
Defined.

Lemma bodies_are_bounded_witness :
  readJson (fun b => Ok (JNum (NInt (Z.of_nat (length b))))) None {| st_chunks := [[1; 2]; [3]]%N; st_fails := false |} 3 = Ok (JNum (NInt 3)).
Proof.
  exact (proj1 (proj1 (bodies_are_bounded (fun b => Ok (JNum (NInt (Z.of_nat (length b))))) None {| st_chunks := [[1; 2]; [3]]%N; st_fails := false |} 3 ltac:(lia)) eq_refl)).
Defined.
End Examples.
