(* ===== verification/Quota.v ===== *)
(** * The client of the quota service
    [src/node/hostwatch-client.mjs] ([createClientAccess]).

    A service on a local socket grants requests and connection leases.  The client asks
    it and, when it cannot be reached, falls back to ceilings of its own: a token bucket
    per account, device, network and for the whole service, and a count of the leases
    it knows.  [admit_begin] runs up to the question, [admit_finish] from its answer on;
    other admissions run in between.

    Tokens are JavaScript numbers, here the binary64 numbers of [SpecFloat].  The HTTP
    exchange, the HMAC of [tag] and the random part of a local lease are arguments; so is
    the policy, which the service sends with every answer.  The member [identityKind] is
    only passed on to the service and left out. *)

From Stdlib Require Import Floats.SpecFloat.
From S2P Require Import Prelude Validation CoolDown Admission NodeUpgrade.
#[local] Open Scope bool_scope.
#[local] Open Scope Z_scope.
#[local] Open Scope js_scope.

(** ** Numbers *)

Definition number (z : Z) : spec_float := binary_normalize 53 1024 z 0 false.
Definition nadd := SFadd 53 1024.
Definition nsub := SFsub 53 1024.
Definition nmul := SFmul 53 1024.
Definition ndiv := SFdiv 53 1024.
(** [Math.min] and [Math.max] of numbers that are not [NaN]. *)
Definition nmin (a b : spec_float) : spec_float := if SFltb b a then b else a.
Definition nmax (a b : spec_float) : spec_float := if SFltb a b then b else a.

(** ** Policy and state *)

Record tier := { accountRpm : Z; deviceRpm : Z; accountConnections : Z; deviceConnections : Z }.
Record policy := {
  serviceRpm : Z; serviceConnections : Z; anonymousRpm : Z; anonymousConnections : Z;
  registered : tier; subscriber : option tier; beta : option tier;
}.
Definition defaultPolicy : policy :=
  {| serviceRpm := 30000; serviceConnections := 1024; anonymousRpm := 1200; anonymousConnections := 32;
     registered := {| accountRpm := 600; deviceRpm := 300; accountConnections := 32; deviceConnections := 8 |};
     subscriber := Some {| accountRpm := 2400; deviceRpm := 1200; accountConnections := 128; deviceConnections := 12 |};
     beta := Some {| accountRpm := 2400; deviceRpm := 1200; accountConnections := 128; deviceConnections := 12 |} |}.

(** [policy[category] ?? policy.registered] *)
Definition tier_of (p : policy) (category : jstr) : tier :=
  if category =?s "registered" then registered p
  else if category =?s "subscriber" then default (registered p) (subscriber p)
  else if category =?s "beta" then default (registered p) (beta p) else registered p.

Record bucket := { bk_tokens : spec_float; bk_at : Z }.

(** The question [a]; a lease is remembered by it. *)
Record question := {
  qs_operation : jstr; qs_category : jstr; qs_clientIp : option jstr; qs_account : option jstr; qs_device : option jstr;
  qs_expiresAt : Z; qs_leaseId : option jstr;
}.

Record quota := { qt_fallback : list (jstr * bucket); qt_leases : list (jstr * question); qt_policy : policy }.
Definition with_fallback (m : list (jstr * bucket)) (q : quota) : quota :=
  {| qt_fallback := m; qt_leases := qt_leases q; qt_policy := qt_policy q |}.
Definition with_leases (m : list (jstr * question)) (q : quota) : quota :=
  {| qt_fallback := qt_fallback q; qt_leases := m; qt_policy := qt_policy q |}.
Definition with_policy (p : policy) (q : quota) : quota :=
  {| qt_fallback := qt_fallback q; qt_leases := qt_leases q; qt_policy := p |}.
Definition createClientAccess : quota := {| qt_fallback := []; qt_leases := []; qt_policy := defaultPolicy |}.

(** ** Token buckets *)

Definition MAX_BUCKETS : Z := 32768.

Definition sweep_buckets (m : list (jstr * bucket)) (at_ : Z) : list (jstr * bucket) :=
  if MAX_BUCKETS <=? Z.of_nat (length m) then filter (fun e => at_ - bk_at e.2 <= 120000) m else m.

Definition capacity (rpm : Z) : spec_float := nmax (number 3) (nmin (number 200) (ndiv (number rpm) (number 10))).

Definition spend (m : list (jstr * bucket)) (id : jstr) (rpm at_ : Z) : list (jstr * bucket) * bool :=
  let m := sweep_buckets m at_ in
  let cap := capacity rpm in
  let v := default {| bk_tokens := cap; bk_at := at_ |} (map_get id m) in
  if negb (bool_decide (is_Some (map_get id m))) && (MAX_BUCKETS <=? Z.of_nat (length m)) then (m, false) else
  let tokens := nmin cap (nadd (bk_tokens v) (ndiv (nmul (number (at_ - bk_at v)) (number rpm)) (number 60000))) in
  let allowed := SFleb (number 1) tokens in
  (map_set id {| bk_tokens := if allowed then nsub tokens (number 1) else tokens; bk_at := at_ |} m, allowed).

(** ** The local ceilings *)

Definition is_op (a : question) (ops : list jstr) : bool := bool_decide (qs_operation a ∈ ops).
Definition count_leases (f : question -> bool) (q : quota) : Z := Z.of_nat (length (filter (fun e => f e.2 = true) (qt_leases q))).

Definition same_account (a x : question) : bool := bool_decide (qs_account x = qs_account a).
Definition same_device (a x : question) : bool := same_account a x && bool_decide (qs_device x = qs_device a).
Definition same_network (a x : question) : bool := bool_decide (qs_account x = None) && bool_decide (qs_clientIp x = qs_clientIp a).

Definition grant (a : question) (reason : jstr) (lease : option jstr) : access_decision :=
  {| ad_allowed := true; ad_category := Some (qs_category a); ad_reason := reason; ad_retryAfter := Some 0; ad_lease := lease |}.
Definition deny (a : question) (reason : jstr) (lease : option jstr) : access_decision :=
  {| ad_allowed := false; ad_category := Some (qs_category a); ad_reason := reason; ad_retryAfter := Some 5; ad_lease := lease |}.

Definition account_key (a : question) : jstr := "a:" +++ default "undefined" (qs_account a).
Definition device_key (a : question) : jstr := "d:" +++ default "undefined" (qs_account a) +++ ":" +++ default "undefined" (qs_device a).

Section Fallback.
(** [createHmac('sha256', key).update(`${kind}:${value}`).digest('hex')] *)
Context (tag : jstr -> jstr -> jstr).

(** The rates of account, device and network; the reason of a denial. *)
Definition spend_rates (a : question) (at_ : Z) (q : quota) : quota * option jstr :=
  let t := tier_of (qt_policy q) (qs_category a) in
  let '(m, ok) := match qs_account a with Some _ => spend (qt_fallback q) (account_key a) (accountRpm t) at_ | None => (qt_fallback q, true) end in
  if negb ok then (with_fallback m q, Some "account-rate") else
  let '(m, ok) := match qs_device a with Some _ => spend m (device_key a) (deviceRpm t) at_ | None => (m, true) end in
  if negb ok then (with_fallback m q, Some "device-rate") else
  let '(m, ok) := match qs_account a with
                  | None => spend m ("n:" +++ tag "ip" (default "" (qs_clientIp a))) (anonymousRpm (qt_policy q)) at_
                  | Some _ => (m, true) end in
  (with_fallback m q, if ok then None else Some "anonymous-network-rate").

(** The ceilings of connections; the last denial names the reason. *)
Definition connection_denial (a : question) (q : quota) : option jstr :=
  let p := qt_policy q in let t := tier_of p (qs_category a) in
  let first :=
    if serviceConnections p <=? Z.of_nat (length (qt_leases q)) then Some "service-connections"
    else if bool_decide (is_Some (qs_account a)) && (accountConnections t <=? count_leases (same_account a) q) then Some "account-connections"
    else if bool_decide (is_Some (qs_device a)) && (deviceConnections t <=? count_leases (same_device a) q) then Some "device-connections"
    else None in
  if bool_decide (qs_account a = None) && (anonymousConnections p <=? count_leases (same_network a) q)
  then Some "anonymous-network-connections" else first.

(** [aPrevious] and [dPrevious] *)
Definition restore (key : jstr) (previous : option bucket) (m : list (jstr * bucket)) : list (jstr * bucket) :=
  match previous with Some b => map_set key b m | None => map_delete key m end.

Definition refund (a : question) (before : list (jstr * bucket)) (q : quota) : quota :=
  match qs_account a with
  | Some _ => with_fallback (restore (device_key a) (map_get (device_key a) before) (restore (account_key a) (map_get (account_key a) before) (qt_fallback q))) q
  | None => q
  end.

(** The service's own rate, and the answer. *)
Definition spend_service (a : question) (at_ : Z) (before : list (jstr * bucket)) (lease : option jstr) (q : quota) : access_decision * quota :=
  if is_op a ["release"; "renew"] then (grant a "local-fallback" lease, q) else
  let '(m, ok) := spend (qt_fallback q) "service" (serviceRpm (qt_policy q)) at_ in
  let q := with_fallback m q in
  if ok then (grant a "local-fallback" lease, q) else
  let q := match lease with Some l => with_leases (map_delete l (qt_leases q)) q | None => q end in
  (deny a "service-rate" lease, refund a before q).

(** Everything behind the two early returns. *)
Definition bounded (a : question) (at_ : Z) (lease : jstr) (q : quota) : access_decision * quota :=
  let before := qt_fallback q in
  let '(q, denied) := spend_rates a at_ q in
  match denied with
  | Some reason => (deny a reason None, refund a before q)
  | None =>
      if is_op a ["connect"; "renew"] then
        match connection_denial a q with
        | Some reason => (deny a reason None, refund a before q)
        | None => spend_service a at_ before (Some lease) (with_leases (map_set lease a (qt_leases q)) q)
        end
      else spend_service a at_ before None q
  end.

(** [fresh]: the lease [tag('lease', ...)] of a new connection. *)
Definition boundedFallback (a : question) (at_ : Z) (fresh : jstr) (q : quota) : access_decision * quota :=
  let q := with_leases (filter (fun e => at_ < qs_expiresAt e.2) (qt_leases q)) q in
  if is_op a ["release"]
  then (grant a "local-fallback" None, match qs_leaseId a with Some l => with_leases (map_delete l (qt_leases q)) q | None => q end) else
  match qs_leaseId a with
  | Some l =>
      if is_op a ["renew"] && bool_decide (is_Some (map_get l (qt_leases q)))
      then (grant a "local-fallback" (Some l), with_leases (map_set l a (qt_leases q)) q)
      else bounded a at_ l q
  | None => bounded a at_ fresh q
  end.

(** ** [admit] *)

(** A member of the question: [...(leaseId ? { leaseId } : {})]. *)
Definition truthy_text (v : option jstr) : option jstr := match v with Some s => if s =?s "" then None else Some s | None => None end.

(** The quota identity proves an account when it is not anonymous. *)
Definition proof_missing (i : client_identity) (operation : jstr) (now : Z) : bool :=
  negb match ci_account i with Some (JStr s) => negb (s =?s "") | _ => false end
  || negb match ci_device i with Some (Ok s) => negb (s =?s "") | _ => false end
  || match ci_expiresAt i with
     | Some v => negb (is_safe_int v) || (negb (operation =?s "release") && ((int_of v <=? now) || (now + 360000 <? int_of v)))
     | None => true
     end.

(** [inl]: the answer without a question. *)
Definition admit_begin (i : client_identity) (operation : jstr) (leaseId : option jstr) (now : Z) (q : quota) : access_decision + question :=
  let category := ci_category i in
  let identified := negb (category =?s "anonymous") in
  if negb (bool_decide (category ∈ ["anonymous"; "registered"; "subscriber"; "beta"]%js)) || (identified && proof_missing i operation now)
  then inl {| ad_allowed := false; ad_category := Some "anonymous"; ad_reason := "invalid-proof"; ad_retryAfter := Some 0; ad_lease := None |} else
  let established := match truthy_text leaseId with
                     | Some l => if bool_decide (operation ∈ ["renew"; "release"]%js) then map_get l (qt_leases q) else None
                     | None => None end in
  let clientIp := match established with Some x => match qs_clientIp x with Some ip => Some ip | None => ci_clientIp i end | None => ci_clientIp i end in
  inr {| qs_operation := operation; qs_category := category; qs_clientIp := clientIp;
         qs_account := if identified then match ci_account i with Some (JStr s) => Some (tag "account" s) | _ => None end else None;
         qs_device := if identified then match ci_device i with Some (Ok s) => Some (tag "device" s) | _ => None end else None;
         qs_expiresAt := if identified then int_of (default JUndef (ci_expiresAt i)) else now + 30000; qs_leaseId := truthy_text leaseId |}.

(** What came of an exchange: a decision, an answer that is not 200, or no answer. *)
Inductive exchange := Decided (d : access_decision) (p : policy) | Rejected (leaseMissing : bool) | Unreachable.

(** The service's decision is taken over. *)
Definition take_decision (a : question) (d : access_decision) (p : policy) (q : quota) : access_decision * quota :=
  let lease := truthy_text (ad_lease d) in
  let leases := match lease with Some l => if ad_allowed d then map_set l a (qt_leases q) else qt_leases q | None => qt_leases q end in
  let leases := match lease, qs_leaseId a with
                | Some l, Some old => if is_op a ["renew"] && ad_allowed d && negb (l =?s old) then map_delete old leases else leases
                | _, _ => leases end in
  let leases := match qs_leaseId a with Some old => if is_op a ["release"] then map_delete old leases else leases | None => leases end in
  (d, with_policy p (with_leases leases q)).

(** [second]: the exchange for a new lease after the service forgot the renewed one. *)
Definition admit_finish (a : question) (first second : exchange) (now : Z) (fresh : jstr) (q : quota) : access_decision * quota :=
  match (match first with Rejected true => if is_op a ["renew"] then second else first | _ => first end) with
  | Decided d p => take_decision a d p q
  | Rejected _ => ({| ad_allowed := false; ad_category := Some (qs_category a); ad_reason := "adapter-proof-rejected"; ad_retryAfter := Some 5; ad_lease := None |}, q)
  | Unreachable => boundedFallback a now fresh q
  end.
End Fallback.

(** ** Properties of the local ceilings *)

Lemma filter_set_length (f : question -> bool) (k : jstr) (a : question) (m : list (jstr * question)) :
  (length (filter (fun e => f e.2 = true) (map_set k a m)) <= S (length (filter (fun e => f e.2 = true) m)))%nat.
Proof.
  induction m as [|[k' v] m IH]; cbn [map_set]; [rewrite filter_cons, filter_nil; case_decide; simpl; lia|]. case_decide as E; rewrite !filter_cons; cbn [snd].
  - case_decide; case_decide; simpl; lia.
  - case_decide; simpl; lia.
Qed.

Lemma count_set f k a q : count_leases f (with_leases (map_set k a (qt_leases q)) q) <= count_leases f q + 1.
Proof. unfold count_leases. cbn [qt_leases with_leases]. pose proof (filter_set_length f k a (qt_leases q)). lia. Qed.

Section Ceilings.
Context (tag : jstr -> jstr -> jstr).

(** The live leases, and the state an admission starts from. *)
Definition live_leases (at_ : Z) (q : quota) : quota := with_leases (filter (fun e => at_ < qs_expiresAt e.2) (qt_leases q)) q.

(** Buckets are no leases. *)
Lemma spend_rates_leases a at_ q : qt_leases (spend_rates tag a at_ q).1 = qt_leases q /\ qt_policy (spend_rates tag a at_ q).1 = qt_policy q.
Proof. unfold spend_rates. repeat case_match; done. Qed.

Lemma refund_leases a before q : qt_leases (refund a before q) = qt_leases q /\ qt_policy (refund a before q) = qt_policy q.
Proof. unfold refund. by destruct (qs_account a). Qed.

Lemma spend_service_leases a at_ before lease q :
  let '(d, q') := spend_service a at_ before lease q in
  qt_policy q' = qt_policy q /\ ad_lease d = lease /\
  (ad_allowed d = true /\ qt_leases q' = qt_leases q \/
   ad_allowed d = false /\ is_op a ["release"; "renew"] = false /\ qt_leases q' = match lease with Some l => map_delete l (qt_leases q) | None => qt_leases q end).
Proof.
  unfold spend_service. destruct (is_op a _); [split_and!; try done; by left|]. destruct (spend _ _ _ _) as [m [|]]; [split_and!; try done; by left|].
  destruct (refund_leases a before (match lease with Some l => with_leases (map_delete l (qt_leases (with_fallback m q))) (with_fallback m q) | None => with_fallback m q end)) as [-> ->].
  destruct lease; split_and!; try done; by right.
Qed.

(** No ceiling is reached when none is named. *)
Lemma connection_denial_none a q :
  connection_denial a q = None ->
  let p := qt_policy q in let t := tier_of p (qs_category a) in
  Z.of_nat (length (qt_leases q)) < serviceConnections p /\
  (is_Some (qs_account a) -> count_leases (same_account a) q < accountConnections t) /\
  (is_Some (qs_device a) -> count_leases (same_device a) q < deviceConnections t) /\
  (qs_account a = None -> count_leases (same_network a) q < anonymousConnections p).
Proof.
  unfold connection_denial. cbv zeta. destruct (bool_decide (qs_account a = None) && _) eqn:En; [done|].
  destruct (_ <=? Z.of_nat _) eqn:Es; [done|]. destruct (bool_decide (is_Some (qs_account a)) && _) eqn:Ea; [done|].
  destruct (bool_decide (is_Some (qs_device a)) && _) eqn:Ed; [done|]. intros _.
  split_and!; [lia|..]; intros H; [rewrite (bool_decide_eq_true_2 _ H) in Ea|rewrite (bool_decide_eq_true_2 _ H) in Ed|rewrite (bool_decide_eq_true_2 _ H) in En]; simpl in *; lia.
Qed.

(** How an admission that is no release and renews no lease in place may end. *)
Inductive bounded_result (a : question) (lease : jstr) (q : quota) (d : access_decision) (q' : quota) : Prop :=
| br_denied : ad_allowed d = false -> qt_leases q' = qt_leases q -> bounded_result a lease q d q'
| br_unmade : ad_allowed d = false -> is_op a ["renew"] = false -> qt_leases q' = map_delete lease (map_set lease a (qt_leases q)) -> bounded_result a lease q d q'
| br_request : ad_allowed d = true -> is_op a ["connect"; "renew"] = false -> qt_leases q' = qt_leases q -> bounded_result a lease q d q'
| br_connected : ad_allowed d = true -> is_op a ["connect"; "renew"] = true -> ad_lease d = Some lease ->
    connection_denial a (with_leases (qt_leases q) q') = None ->
    qt_leases q' = map_set lease a (qt_leases q) -> bounded_result a lease q d q'.

Lemma connection_denial_ext a q q' : qt_leases q = qt_leases q' -> qt_policy q = qt_policy q' -> connection_denial a q = connection_denial a q'.
Proof. unfold connection_denial, count_leases. by intros -> ->. Qed.

Lemma bounded_spec a at_ lease q :
  let '(d, q') := bounded tag a at_ lease q in qt_policy q' = qt_policy q /\ bounded_result a lease q d q'.
Proof.
  unfold bounded. destruct (spend_rates_leases a at_ q) as [El Ep]. destruct (spend_rates tag a at_ q) as [q1 denied]. cbn [fst] in El, Ep.
  destruct denied as [reason|]; [destruct (refund_leases a (qt_fallback q) q1) as [Hl Hp]; split; [congruence|apply br_denied; [done|congruence]]|].
  destruct (is_op a ["connect"; "renew"]%js) eqn:Eo.
  - destruct (connection_denial a q1) eqn:Ec; [destruct (refund_leases a (qt_fallback q) q1) as [Hl Hp]; split; [congruence|apply br_denied; [done|congruence]]|].
    pose proof (spend_service_leases a at_ (qt_fallback q) (Some lease) (with_leases (map_set lease a (qt_leases q1)) q1)) as H.
    destruct (spend_service _ _ _ _ _) as [d q']. destruct H as (Hp & Hl & [[Ha Hq]|(Ha & Hr & Hq)]); cbn [qt_leases qt_policy with_leases] in *; rewrite El in Hq.
    + split; [congruence|]. apply br_connected; try done. rewrite <- Ec. apply connection_denial_ext; cbn [qt_leases qt_policy with_leases]; congruence.
    + split; [congruence|]. apply br_unmade; try done. unfold is_op in Hr |- *. apply bool_decide_eq_false in Hr. apply bool_decide_eq_false_2.
      intros H. apply Hr. apply list_elem_of_singleton in H as ->. by right; left.
  - pose proof (spend_service_leases a at_ (qt_fallback q) None q1) as H. destruct (spend_service _ _ _ _ _) as [d q'].
    destruct H as (Hp & Hl & [[Ha Hq]|(Ha & _ & Hq)]); (split; [congruence|]); [apply br_request|apply br_denied]; congruence.
Qed.

Lemma is_op_connect a : is_op a ["connect"] = true -> qs_operation a = "connect".
Proof. intros H. apply bool_decide_eq_true in H. by apply list_elem_of_singleton in H. Qed.

Lemma is_op_renew a : is_op a ["renew"] = true -> qs_operation a = "renew".
Proof. intros H. apply bool_decide_eq_true in H. by apply list_elem_of_singleton in H. Qed.

(** Either branch of the fallback: the lease is renewed in place, or the ceilings decide. *)
Lemma fallback_cases a at_ fresh q :
  let '(d, q') := boundedFallback tag a at_ fresh q in
  qt_policy q' = qt_policy q /\
  ((is_op a ["release"] = true /\ ad_allowed d = true /\ qt_leases q' `sublist_of` qt_leases (live_leases at_ q)) \/
   (exists l, qs_leaseId a = Some l /\ is_op a ["renew"] = true /\ is_Some (map_get l (qt_leases (live_leases at_ q))) /\
      d = grant a "local-fallback" (Some l) /\ qt_leases q' = map_set l a (qt_leases (live_leases at_ q)) /\ qt_fallback q' = qt_fallback q) \/
   bounded_result a (default fresh (qs_leaseId a)) (live_leases at_ q) d q').
Proof.
  unfold boundedFallback. fold (live_leases at_ q). destruct (is_op a ["release"]) eqn:Er.
  { destruct (qs_leaseId a); (split; [done|left]); (split; [done|split; [done|]]); [apply map_delete_sublist|done]. }
  destruct (qs_leaseId a) as [l|].
  - destruct (is_op a ["renew"] && _) eqn:E.
    + apply andb_true_iff in E as [E1 E2%bool_decide_eq_true]. split; [done|]. right; left. exists l. done.
    + pose proof (bounded_spec a at_ l (live_leases at_ q)) as H. destruct (bounded _ _ _ _ _) as [d q']. destruct H as [-> H]. split; [done|]. by right; right.
  - pose proof (bounded_spec a at_ fresh (live_leases at_ q)) as H. destruct (bounded _ _ _ _ _) as [d q']. destruct H as [-> H]. split; [done|]. by right; right.
Qed.

Lemma live_length at_ q : (length (qt_leases (live_leases at_ q)) <= length (qt_leases q))%nat.
Proof. apply sublist_length, sublist_filter. Qed.

(** Admissions while the service cannot be reached. *)
Inductive outage (q0 : quota) : quota -> Prop :=
| outage_start : outage q0 q0
| outage_step q a at_ fresh : outage q0 q -> outage q0 (boundedFallback tag a at_ fresh q).2.

(** C37: During an outage of the quota service the relay keeps ceilings of its own: however
    requests, connections, renewals and releases follow each other, it knows at most the
    policy's number of leases, and a connection is granted only with room for one more
    of its account, its device or, without an account, its network; the granted lease is
    remembered. *)
Theorem outage_keeps_ceilings (q0 q : quota) (a : question) (at_ : Z) (fresh : jstr) :
  Z.of_nat (length (qt_leases q0)) <= serviceConnections (qt_policy q0) -> outage q0 q ->
  let p := qt_policy q0 in let t := tier_of p (qs_category a) in
  Z.of_nat (length (qt_leases q)) <= serviceConnections p /\
  let '(d, q') := boundedFallback tag a at_ fresh q in
  is_op a ["connect"] = true -> ad_allowed d = true ->
  (is_Some (qs_account a) -> count_leases (same_account a) q' <= accountConnections t) /\
  (is_Some (qs_device a) -> count_leases (same_device a) q' <= deviceConnections t) /\
  (qs_account a = None -> count_leases (same_network a) q' <= anonymousConnections p) /\
  exists l, ad_lease d = Some l /\ map_get l (qt_leases q') = Some a.
Proof.
  intros H0 Hout p t. assert (qt_policy q = p /\ Z.of_nat (length (qt_leases q)) <= serviceConnections p) as [Hp Hn].
  { induction Hout as [|q b at' fresh' _ [IHp IHn]]; [done|]. pose proof (fallback_cases b at' fresh' q) as H. pose proof (live_length at' q) as Hl.
    destruct (boundedFallback _ _ _ _ _) as [d q']. cbn [snd]. destruct H as [Hpol H]. split; [congruence|].
    destruct H as [(_ & _ & Hs)|[(l & _ & _ & Hh & _ & Hs & _)|H]].
    - apply sublist_length in Hs. lia.
    - rewrite Hs, map_set_same_length by done. lia.
    - destruct H as [_ Hs|_ _ Hs|_ _ Hs|_ _ _ Hc Hs]; rewrite Hs.
      + lia.
      + rewrite map_delete_set. pose proof (sublist_length _ _ (map_delete_sublist (default fresh' (qs_leaseId b)) (qt_leases (live_leases at' q)))). lia.
      + lia.
      + apply connection_denial_none in Hc as [Hc _]. cbn [qt_leases qt_policy with_leases] in Hc. rewrite Hpol, IHp in Hc.
        pose proof (map_set_length (default fresh' (qs_leaseId b)) b (qt_leases (live_leases at' q))). lia. }
  split; [done|]. pose proof (fallback_cases a at_ fresh q) as H. destruct (boundedFallback _ _ _ _ _) as [d q']. destruct H as [Hpol H]. intros Hop%is_op_connect Hd.
  assert (forall op, qs_operation a <> op -> is_op a [op] = true -> False) as Hno by (intros op Hne Ho%bool_decide_eq_true%list_elem_of_singleton; done).
  destruct H as [(Ho & _)|[(l & _ & Ho & _)|H]]; [exfalso; apply (Hno "release"%js); [by rewrite Hop|done]|exfalso; apply (Hno "renew"%js); [by rewrite Hop|done]|].
  destruct H as [Hd' _|Hd' _ _|_ Ho _|_ _ Hl Hc Hs]; [congruence|congruence|unfold is_op in Ho; by rewrite Hop in Ho|].
  assert (forall f, count_leases f q' <= count_leases f (with_leases (qt_leases (live_leases at_ q)) q') + 1) as Hcount.
  { intros f. unfold count_leases. rewrite Hs. cbn [qt_leases with_leases]. pose proof (filter_set_length f (default fresh (qs_leaseId a)) a (qt_leases (live_leases at_ q))). lia. }
  apply connection_denial_none in Hc. cbn [qt_policy with_leases] in Hc. cbv zeta in Hc. rewrite Hpol, Hp in Hc. fold t in Hc. destruct Hc as (_ & Ha & Hv & Hw).
  split_and!; [intros X; specialize (Ha X); specialize (Hcount (same_account a)); lia|intros X; specialize (Hv X); specialize (Hcount (same_device a)); lia
    |intros X; specialize (Hw X); specialize (Hcount (same_network a)); lia|].
  eexists. split; [exact Hl|]. rewrite Hs, map_get_set. by rewrite decide_True.
Qed.

(** ** Denials and failures *)

Lemma bounded_refund a at_ lease q :
  let '(d, q') := bounded tag a at_ lease q in
  ad_allowed d = false -> exists q1, qt_fallback q' = qt_fallback (refund a (qt_fallback q) q1).
Proof.
  unfold bounded. destruct (spend_rates tag a at_ q) as [q1 denied]. destruct denied; [intros _; by exists q1|].
  assert (forall lease q2, let '(d, q') := spend_service a at_ (qt_fallback q) lease q2 in
    ad_allowed d = false -> exists q1, qt_fallback q' = qt_fallback (refund a (qt_fallback q) q1)) as H.
  { intros l q2. unfold spend_service. destruct (is_op _ _); [done|]. destruct (spend _ _ _ _) as [m [|]]; [done|]. intros _. by eexists. }
  destruct (is_op a _); [destruct (connection_denial a q1); [intros _; by exists q1|]|]; apply H.
Qed.

Lemma restore_get k k' previous (m : list (jstr * bucket)) :
  map_get k' (restore k previous m) = if decide (k' = k) then previous else map_get k' m.
Proof. unfold restore. destruct previous; [by rewrite map_get_set|by rewrite map_get_delete]. Qed.

Lemma refund_buckets a acc before q :
  qs_account a = Some acc ->
  map_get (account_key a) (qt_fallback (refund a before q)) = map_get (account_key a) before /\
  map_get (device_key a) (qt_fallback (refund a before q)) = map_get (device_key a) before.
Proof.
  intros E. unfold refund. rewrite E. cbn [qt_fallback with_fallback]. rewrite !restore_get.
  rewrite decide_False by (unfold account_key, device_key; intros [=]). by rewrite !decide_True.
Qed.

(** A denial costs an account nothing: whichever ceiling denied it, the buckets of its
    account and its device are as they were, and no lease was added. *)
Theorem denials_cost_nothing (a : question) (acc : jstr) (at_ : Z) (fresh : jstr) (q : quota) :
  qs_account a = Some acc ->
  let '(d, q') := boundedFallback tag a at_ fresh q in
  ad_allowed d = false ->
  map_get (account_key a) (qt_fallback q') = map_get (account_key a) (qt_fallback q) /\
  map_get (device_key a) (qt_fallback q') = map_get (device_key a) (qt_fallback q) /\
  qt_leases q' `sublist_of` qt_leases q.
Proof.
  intros Hacc. unfold boundedFallback. fold (live_leases at_ q).
  destruct (is_op a ["release"]); [done|].
  assert (forall l, let '(d, q') := bounded tag a at_ l (live_leases at_ q) in ad_allowed d = false ->
    map_get (account_key a) (qt_fallback q') = map_get (account_key a) (qt_fallback q) /\
    map_get (device_key a) (qt_fallback q') = map_get (device_key a) (qt_fallback q) /\ qt_leases q' `sublist_of` qt_leases q) as Hb.
  { intros l. pose proof (bounded_refund a at_ l (live_leases at_ q)) as Hr. pose proof (bounded_spec a at_ l (live_leases at_ q)) as Hs.
    destruct (bounded _ _ _ _ _) as [d q']. intros Hd. destruct (Hr Hd) as [q1 ->]. destruct (refund_buckets a acc (qt_fallback (live_leases at_ q)) q1 Hacc) as [-> ->].
    split_and!; try done. assert (qt_leases (live_leases at_ q) `sublist_of` qt_leases q) as Hl by apply sublist_filter.
    destruct Hs as [_ [_ ->|_ _ ->|Hd' _ _|Hd' _ _ _ _]]; [done| |congruence|congruence]. rewrite map_delete_set. etransitivity; [apply map_delete_sublist|done]. }
  destruct (qs_leaseId a) as [l|]; [destruct (_ && _); [done|]|]; apply Hb.
Qed.

(** What a failure of the service means: a rejected proof is never a grant and changes
    nothing; without an answer a lease that is known and has not expired is renewed as it
    is, whatever the ceilings, and nothing is spent for it; and a decision of the service
    is passed on as it is. *)
Theorem service_failures_are_contained (a : question) (first second : exchange) (now : Z) (fresh : jstr) (q : quota) :
  let '(d, q') := admit_finish tag a first second now fresh q in
  match (match first with Rejected true => if is_op a ["renew"] then second else first | _ => first end) with
  | Rejected _ => ad_allowed d = false /\ q' = q
  | Decided decision p => d = decision /\ qt_policy q' = p /\ qt_fallback q' = qt_fallback q
  | Unreachable =>
      qt_policy q' = qt_policy q /\
      (is_op a ["renew"] = true -> forall l x, qs_leaseId a = Some l -> NoDup (qt_leases q).*1 -> map_get l (qt_leases q) = Some x -> now < qs_expiresAt x ->
         ad_allowed d = true /\ ad_lease d = Some l /\ qt_fallback q' = qt_fallback q /\
         map_get l (qt_leases q') = Some a /\ (length (qt_leases q') <= length (qt_leases q))%nat)
  end.
Proof.
  unfold admit_finish. destruct (match first with Rejected true => _ | _ => first end) as [decision p|missing|]; [done|done|].
  pose proof (fallback_cases a now fresh q) as H. destruct (boundedFallback tag a now fresh q) as [d q'] eqn:E. destruct H as [Hp _]. split; [done|].
  intros Hr l x Hl Hn Hg Hlive.
  assert (is_Some (map_get l (qt_leases (live_leases now q)))) as Hh.
  { exists x. unfold live_leases. cbn [qt_leases with_leases]. apply map_get_In; [eapply sublist_NoDup; [exact Hn|apply sublist_keys, sublist_filter]|].
    apply list_elem_of_filter. split; [done|]. by apply map_get_Some. }
  revert E. unfold boundedFallback. fold (live_leases now q). rewrite Hl, Hr, (bool_decide_eq_true_2 _ Hh). cbn [andb].
  assert (is_op a ["release"] = false) as -> by (apply is_op_renew in Hr; unfold is_op; by rewrite Hr). intros [= <- <-].
  cbn [qt_leases qt_fallback with_leases grant ad_allowed ad_lease]. split_and!; try done; [rewrite map_get_set; by rewrite decide_True|].
  rewrite map_set_same_length by done. apply live_length.
Qed.
End Ceilings.

(** ** Examples and witnesses *)

Module Examples.
Definition sample_tag (kind value : jstr) : jstr := kind +++ "-" +++ value.
Definition sample_identity : client_identity :=
  {| ci_category := "registered"; ci_account := Some (JStr "account"); ci_device := Some (Ok "device"%js);
     ci_expiresAt := Some (JNum (NInt 360000)); ci_clientIp := Some "10.0.0.1"%js |}.
Definition connect (device : jstr) : question :=
  {| qs_operation := "connect"; qs_category := "registered"; qs_clientIp := None; qs_account := Some "account-a"%js; qs_device := Some device;
     qs_expiresAt := 360000; qs_leaseId := None |}.

Example question_of_identity :
  admit_begin sample_tag sample_identity "connect" None 5 createClientAccess =
  inr {| qs_operation := "connect"; qs_category := "registered"; qs_clientIp := Some "10.0.0.1"%js; qs_account := Some "account-account"%js;
         qs_device := Some "device-device"%js; qs_expiresAt := 360000; qs_leaseId := None |}.
Proof. vm_compute. reflexivity. Qed.

(** Eight connections of one device are granted, the ninth is not. *)
Fixpoint connects (n : nat) (q : quota) : quota :=
  match n with
  | O => q
  | S n => let q := connects n q in (boundedFallback sample_tag (connect "device-d") (1000 * Z.of_nat n) (Z_text (Z.of_nat n)) q).2
  end.
Example device_ceiling :
  length (qt_leases (connects 8 createClientAccess)) = 8%nat /\
  ad_reason (boundedFallback sample_tag (connect "device-d") 9000 "9" (connects 8 createClientAccess)).1 = "device-connections"%js.
Proof. vm_compute. split; reflexivity. Qed.

Lemma outage_keeps_ceilings_witness :
  (boundedFallback sample_tag (connect "device-d") 0 "0" createClientAccess).1 = grant (connect "device-d") "local-fallback" (Some "0"%js) /\
  count_leases (same_device (connect "device-d")) (boundedFallback sample_tag (connect "device-d") 0 "0" createClientAccess).2 <= 8.
Proof.
  split; [vm_compute; reflexivity|].
  pose proof (outage_keeps_ceilings sample_tag createClientAccess createClientAccess (connect "device-d") 0 "0" ltac:(vm_compute; discriminate) (outage_start _ _)) as [_ H].
  destruct (boundedFallback sample_tag (connect "device-d") 0 "0" createClientAccess) as [d q'] eqn:E.
  assert (d = grant (connect "device-d") "local-fallback" (Some "0"%js)) as -> by (vm_compute in E; injection E as <- _; reflexivity).
  exact (proj1 (proj2 (H eq_refl eq_refl)) (ex_intro _ _ eq_refl)).
Defined.

Lemma denials_cost_nothing_witness :
  let q := connects 8 createClientAccess in
  map_get (account_key (connect "device-d")) (qt_fallback (boundedFallback sample_tag (connect "device-d") 9000 "9" q).2)
  = map_get (account_key (connect "device-d")) (qt_fallback q).
Proof.
  intros q. pose proof (denials_cost_nothing sample_tag (connect "device-d") "account-a" 9000 "9" q eq_refl) as H.
  assert (ad_allowed (boundedFallback sample_tag (connect "device-d") 9000 "9" q).1 = false) as Ha by (vm_compute; reflexivity).
  destruct (boundedFallback _ _ _ _ q) as [d q'] eqn:E. exact (proj1 (H Ha)).
Defined.

Lemma service_failures_are_contained_witness :
  (admit_finish sample_tag (connect "device-d") (Rejected false) Unreachable 0 "0" createClientAccess).2 = createClientAccess.
Proof.
  pose proof (service_failures_are_contained sample_tag (connect "device-d") (Rejected false) Unreachable 0 "0" createClientAccess) as H.
  destruct (admit_finish _ _ _ _ _ _ _) as [d q']. exact (proj2 H).
Defined.
End Examples.
