(* ===== verification/Leases.v ===== *)
(** * Connection leases and the exchange with the quota service
    [remote], [close] and the creation of the client in [src/node/hostwatch-client.mjs],
    and [trackClientConnection] of [src/node/client-access.js].

    [call] is one HTTP exchange, a machine over the events of its request; [adapter] is
    the count of those under way.  [tracker] is the life of one connection's lease: the
    refresh timer asks for a renewal every 15 seconds unless one is under way, and the
    close of the socket releases the lease.  Admissions themselves are in [Quota]. *)

From S2P Require Import Prelude Validation CoolDown Admission NodeUpgrade Quota.
#[local] Open Scope bool_scope.
#[local] Open Scope Z_scope.
#[local] Open Scope js_scope.

(** ** [createClientAccess]: the guards *)

(** [key]: the bytes of the key, [siteId] and [socketPath] the options; [Ok None] is
    [null]: the relay runs without a quota service. *)
Definition client_access (siteId socketPath : option jstr) (key : option (list N)) : res (option quota) :=
  match truthy_text siteId, truthy_text socketPath, key with
  | Some _, Some _, Some bytes => if Z.of_nat (length bytes) <? 32 then Throw else Ok (Some createClientAccess)
  | _, _, _ => Ok None
  end.

(** [readFileSync] is an argument; it throws for a file it cannot read. *)
Definition clientAccessFromEnv (keyFile socket site : option jstr) (readFileSync : jstr -> res (list N)) : res (option quota) :=
  match truthy_text keyFile, truthy_text socket, truthy_text site with
  | Some file, Some _, Some _ => let* bytes := readFileSync file in client_access site socket (Some bytes)
  | _, _, _ => Ok None
  end.

(** ** [remote] *)

Definition MAX_PENDING : Z := 256.
Definition MAX_RESPONSE : Z := 16384.

(** [data.includes(needle)] *)
Fixpoint includes_units (needle hay : list N) : bool :=
  starts_with (JS needle) (JS hay) || match hay with [] => false | _ :: rest => includes_units needle rest end.
Definition includes (needle hay : jstr) : bool := includes_units (units needle) (units hay).

(** What happens to the request of a call. *)
Inductive call_event := CallData (chunk : jstr) | CallEnd (status : Z) | CallError | CallTimeout | CallClose.

(** The text received, what the promise settled to, and whether ['close'] was emitted. *)
Record call := { cl_data : jstr; cl_result : option exchange; cl_closed : bool }.
Definition new_call : call := {| cl_data := ""; cl_result := None; cl_closed := false |}.
Record adapter := { ap_pending : Z; ap_calls : list (nat * call) }.
Definition idle_adapter : adapter := {| ap_pending := 0; ap_calls := [] |}.

(** A promise settles once. *)
Definition settle (r : exchange) (c : call) : call :=
  {| cl_data := cl_data c; cl_result := Some (default r (cl_result c)); cl_closed := cl_closed c |}.

Section Remote.
(** [JSON.parse] and the members of a decision and of a policy. *)
Context (parse_json : jstr -> option jsv) (decision_of : jsv -> access_decision) (policy_of : jsv -> policy).

(** The ['end'] of the response. *)
Definition answer_of (data : jstr) (status : Z) : exchange :=
  if negb (status =? 200) then Rejected (includes "connection lease not found" data) else
  match parse_json data with
  | Some d =>
      match get "allowed" d with
      | JBool allowed => if truthy (get "policy" d) then Decided (decision_of d) (policy_of (get "policy" d)) else Unreachable
      | _ => Unreachable
      end
  | None => Unreachable
  end.

(** No data follows the end, an error or [destroy]. *)
Definition call_step (e : call_event) (c : call) : call :=
  match e with
  | CallData chunk =>
      match cl_result c with
      | Some _ => c
      | None =>
          let c := {| cl_data := cl_data c +++ chunk; cl_result := None; cl_closed := cl_closed c |} in
          if MAX_RESPONSE <? slen (cl_data c) then settle Unreachable c else c
      end
  | CallEnd status => settle (answer_of (cl_data c) status) c
  | CallError | CallTimeout => settle Unreachable c
  | CallClose => {| cl_data := cl_data c; cl_result := cl_result c; cl_closed := true |}
  end.

(** The call [id] begins, or is rejected at once. *)
Definition remote (id : nat) (x : adapter) : adapter * option exchange :=
  if MAX_PENDING <=? ap_pending x then (x, Some Unreachable)
  else ({| ap_pending := ap_pending x + 1; ap_calls := ap_calls x ++ [(id, new_call)] |}, None).

(** An event of the call [id]; [finish] runs at the first ['close']. *)
Definition adapter_step (id : nat) (e : call_event) (x : adapter) : adapter :=
  match map_get id (ap_calls x) with
  | None => x
  | Some c =>
      {| ap_pending := if match e with CallClose => negb (cl_closed c) | _ => false end then ap_pending x - 1 else ap_pending x;
         ap_calls := map_set id (call_step e c) (ap_calls x) |}
  end.
End Remote.

(** ** [close] *)

Definition release_of (e : jstr * question) : question :=
  {| qs_operation := "release"; qs_category := qs_category e.2; qs_clientIp := qs_clientIp e.2; qs_account := qs_account e.2; qs_device := qs_device e.2;
     qs_expiresAt := qs_expiresAt e.2; qs_leaseId := Some e.1 |}.

(** [[...localLeases].map(release)]: the questions that were sent; the calls are numbered from [id]. *)
Fixpoint release_all (leases : list (jstr * question)) (id : nat) (x : adapter) : adapter * list question :=
  match leases with
  | [] => (x, [])
  | e :: rest =>
      let '(x, rejected) := remote id x in
      let '(x, sent) := release_all rest (S id) x in
      (x, match rejected with Some _ => sent | None => release_of e :: sent end)
  end.
(** Once all have settled. *)
Definition close_end (q : quota) : quota := with_leases [] q.

(** ** [trackClientConnection] *)

(** The lease, the renewal under way ([running]), whether [readyState] is 1, and whether
    ['close'] has cleared the timer. *)
Record tracker := { tr_lease : jstr; tr_running : option question; tr_open : bool; tr_closed : bool }.

(** [None]: nothing to track. *)
Definition trackClientConnection (access : bool) (initial : option access_decision) : option tracker :=
  match initial ≫= (fun d => truthy_text (ad_lease d)) with
  | Some l => if access then Some {| tr_lease := l; tr_running := None; tr_open := true; tr_closed := false |} else None
  | None => None
  end.

(** From the answer [d] of a renewal on; the reason of the close it asks for. *)
Definition renewed (d : access_decision) (t : tracker) : tracker * option jstr :=
  let lease := if ad_allowed d then default (tr_lease t) (truthy_text (ad_lease d)) else tr_lease t in
  let closes := negb (ad_allowed d) && negb (ad_reason d =?s "adapter-proof-rejected") in
  ({| tr_lease := lease; tr_running := None; tr_open := tr_open t && negb closes; tr_closed := tr_closed t |},
   if closes then Some (ad_reason d) else None).

Section Track.
Context (tag : jstr -> jstr -> jstr).

(** The timer fires; [i] is [connectionIdentity()]. *)
Definition refresh (i : client_identity) (now : Z) (t : tracker) (q : quota) : tracker * option jstr :=
  if tr_closed t || bool_decide (is_Some (tr_running t)) || negb (tr_open t) then (t, None) else
  match admit_begin tag i "renew" (Some (tr_lease t)) now q with
  | inl d => renewed d t
  | inr a => ({| tr_lease := tr_lease t; tr_running := Some a; tr_open := tr_open t; tr_closed := tr_closed t |}, None)
  end.

(** The renewal's exchanges are over. *)
Definition refresh_end (first second : exchange) (now : Z) (fresh : jstr) (t : tracker) (q : quota) : tracker * quota * option jstr :=
  match tr_running t with
  | None => (t, q, None)
  | Some a => let '(d, q) := admit_finish tag a first second now fresh q in let '(t, close) := renewed d t in (t, q, close)
  end.

(** ['close']: the timer is cleared and the release is asked for. *)
Definition close_tracker (i : client_identity) (now : Z) (t : tracker) (q : quota) : tracker * (access_decision + question) :=
  ({| tr_lease := tr_lease t; tr_running := tr_running t; tr_open := false; tr_closed := true |},
   admit_begin tag i "release" (Some (tr_lease t)) now q).
End Track.

(** ** The exchanges under way *)

Section Exchanges.
Context (parse_json : jstr -> option jsv) (decision_of : jsv -> access_decision) (policy_of : jsv -> policy).

(** Whatever calls begin and whatever happens to them, each under an identifier of its own. *)
Inductive adapter_reach : adapter -> Prop :=
| reach_idle : adapter_reach idle_adapter
| reach_remote id x : adapter_reach x -> id ∉ (ap_calls x).*1 -> adapter_reach (remote id x).1
| reach_event id e x : adapter_reach x -> adapter_reach (adapter_step parse_json decision_of policy_of id e x).

Definition open_call (c : call) : bool := negb (cl_closed c).

Record call_ok (c : call) : Prop := { co_data : cl_result c = None -> slen (cl_data c) <= MAX_RESPONSE }.

Record adapter_wf (x : adapter) : Prop := {
  aw_ids : NoDup (ap_calls x).*1;
  aw_pending : ap_pending x = count_by (fun e => open_call e.2) (ap_calls x);
  aw_bound : ap_pending x <= MAX_PENDING;
  aw_calls : Forall (fun e => call_ok e.2) (ap_calls x);
}.

Lemma count_set_call id c c' (l : list (nat * call)) : NoDup l.*1 -> map_get id l = Some c ->
  count_by (fun e => open_call e.2) (map_set id c' l)
  = count_by (fun e => open_call e.2) l - (if open_call c then 1 else 0) + (if open_call c' then 1 else 0).
Proof.
  unfold count_by. induction l as [|[k v] l IH]; [done|]. rewrite fmap_cons. intros [Hn Hd]%NoDup_cons. cbn [map_get map_set].
  case_decide as E.
  - intros [= ->]. simpl. destruct (open_call c), (open_call c'); lia.
  - intros Hg. specialize (IH Hd Hg). simpl in *. lia.
Qed.

Lemma call_step_ok e c : call_ok c -> call_ok (call_step parse_json decision_of policy_of e c).
Proof.
  intros [Hd]. destruct e as [chunk|status| | |]; cbn [call_step]; try (split; cbn [settle cl_result]; done).
  - destruct (cl_result c) eqn:E; [by split; rewrite E|]. destruct (_ <? _) eqn:El; [by split|]. split. intros _. cbn [cl_data] in *. by apply Z.ltb_ge.
Qed.

Lemma call_step_open e c : open_call (call_step parse_json decision_of policy_of e c) = match e with CallClose => false | _ => open_call c end.
Proof. destruct e; cbn [call_step]; try done. destruct (cl_result c); [done|]. by destruct (_ <? _). Qed.

(** At most 256 exchanges are under way, exactly those whose request has not closed; a
    decision is read from at most 16,384 characters. *)
Theorem exchanges_are_bounded (x : adapter) : adapter_reach x -> adapter_wf x /\ 0 <= ap_pending x <= MAX_PENDING.
Proof.
  intros Hr. assert (adapter_wf x) as Hw.
  { induction Hr as [|id x _ IH Hid|id e x _ IH].
    - split; cbn; [constructor|done|unfold MAX_PENDING; lia|constructor].
    - unfold remote. destruct (Z.leb_spec MAX_PENDING (ap_pending x)) as [Hf|Hf]; [done|]. destruct IH as [Hn Hp Hb Hc]. split; cbn [fst ap_calls ap_pending].
      + rewrite fmap_app. apply NoDup_app. split_and!; [done| |apply NoDup_singleton]. intros k Hk Hk'. apply list_elem_of_singleton in Hk' as ->. done.
      + unfold count_by in *. rewrite sum_by_app. simpl. lia.
      + lia.
      + apply Forall_app. split; [done|]. constructor; [|done]. split. intros _. vm_compute. discriminate.
    - unfold adapter_step. destruct (map_get id (ap_calls x)) as [c|] eqn:E; [|done]. destruct IH as [Hn Hp Hb Hc].
      assert (call_ok c) as Hok by (rewrite Forall_forall in Hc; apply (Hc (id, c)); by apply map_get_Some).
      split; cbn [ap_calls ap_pending].
      + by apply map_set_nodup.
      + rewrite (count_set_call id c) by done. rewrite call_step_open, <- Hp. unfold open_call. destruct e; destruct (cl_closed c); simpl; lia.
      + destruct e; try destruct (negb _); lia.
      + apply Forall_forall. intros [k v] He. apply map_set_elem in He as [[-> ->]|[_ He]]; [by apply call_step_ok| |done]. rewrite Forall_forall in Hc. by apply (Hc _ He). }
  split; [done|]. split; [|apply Hw]. rewrite (aw_pending _ Hw). apply count_by_nonneg.
Qed.
End Exchanges.

(** ** The release of all leases *)

(** At the shutdown of the relay a release is sent for the first leases only, as many as
    exchanges are free (256 when none is under way); the others are rejected at once, and
    their leases stay with the quota service until they expire. *)
Theorem shutdown_releases_a_prefix (leases : list (jstr * question)) (id : nat) (x : adapter) :
  0 <= ap_pending x <= MAX_PENDING ->
  (release_all leases id x).2 = map release_of (take (Z.to_nat (MAX_PENDING - ap_pending x)) leases).
Proof.
  revert id x. induction leases as [|e leases IH]; intros id x Hx; [by rewrite take_nil|]. cbn [release_all]. unfold remote.
  destruct (Z.leb_spec MAX_PENDING (ap_pending x)) as [Hf|Hf].
  - assert (MAX_PENDING - ap_pending x = 0) as E by lia. specialize (IH (S id) x Hx). rewrite E in IH |- *.
    destruct (release_all leases (S id) x) as [x2 sent]. cbn [snd] in *. by rewrite IH.
  - set (x1 := {| ap_pending := _ |}). specialize (IH (S id) x1 ltac:(cbn; lia)). destruct (release_all leases (S id) x1) as [x2 sent]. cbn [snd] in *.
    rewrite IH. cbn [ap_pending x1]. replace (Z.to_nat (MAX_PENDING - ap_pending x)) with (S (Z.to_nat (MAX_PENDING - (ap_pending x + 1)))) by lia. done.
Qed.

(** ** The lease of a connection *)

Section Life.
Context (tag : jstr -> jstr -> jstr).

(** What other connections do: none takes up a lease that this one gave back. *)
Definition others (held : list jstr) (q q' : quota) : Prop :=
  forall l, l ∈ held -> map_get l (qt_leases q) = None -> map_get l (qt_leases q') = None.

(** The life of a connection until its close; [held] are the leases it ever had. *)
Inductive life : list jstr -> tracker -> quota -> Prop :=
| life_start initial t q : trackClientConnection true initial = Some t -> life [tr_lease t] t q
| life_refresh held t q i now : life held t q -> life (tr_lease (refresh tag i now t q).1 :: held) (refresh tag i now t q).1 q
| life_answer held t q first second now fresh : life held t q ->
    life (tr_lease (refresh_end tag first second now fresh t q).1.1 :: held) (refresh_end tag first second now fresh t q).1.1
         (refresh_end tag first second now fresh t q).1.2
| life_others held t q q' : life held t q -> others held q q' -> life held t q'.

Record life_ok (held : list jstr) (t : tracker) (q : quota) : Prop := {
  lo_old : forall l, l ∈ held -> l <> tr_lease t -> map_get l (qt_leases q) = None;
  lo_text : tr_lease t <> "";
  lo_renewal : forall a, tr_running t = Some a -> qs_operation a = "renew" /\ qs_leaseId a = Some (tr_lease t);
}.

Lemma truthy_text_some s : s <> "" -> truthy_text (Some s) = Some s.
Proof. intros H. unfold truthy_text. by rewrite (proj2 (bool_decide_eq_false _) H : s =?s "" = false). Qed.

Lemma truthy_text_is v l : truthy_text v = Some l -> v = Some l.
Proof. destruct v as [s|]; [|done]. simpl. by destruct (s =?s ""). Qed.

Lemma truthy_text_nonempty v l : truthy_text v = Some l -> l <> "".
Proof. destruct v as [s|]; [|done]. simpl. destruct (s =?s "") eqn:E; [done|]. intros [= <-]. by apply bool_decide_eq_false in E. Qed.

Lemma admit_begin_question i operation lease now q a : lease <> "" -> admit_begin tag i operation (Some lease) now q = inr a ->
  qs_operation a = operation /\ qs_leaseId a = Some lease.
Proof. intros Hl. unfold admit_begin. destruct (_ || _); [done|]. intros [= <-]. split; [done|]. by apply truthy_text_some. Qed.

Lemma renewed_lease d t : tr_lease t <> "" -> tr_lease (renewed d t).1 <> "".
Proof.
  intros Ht. cbn [renewed fst tr_lease]. destruct (ad_allowed d); [|done]. destruct (truthy_text (ad_lease d)) as [l|] eqn:E; [|done]. by eapply truthy_text_nonempty.
Qed.

(** A renewal leaves no lease behind but the one it ends with. *)
Lemma renewal_keeps_one a first second now fresh t q l :
  qs_operation a = "renew" -> qs_leaseId a = Some (tr_lease t) -> 
  let '(d, q') := admit_finish tag a first second now fresh q in
  l <> tr_lease (renewed d t).1 -> (l <> tr_lease t -> map_get l (qt_leases q) = None) -> map_get l (qt_leases q') = None.
Proof.
  intros Hop Hid. unfold admit_finish.
  assert (is_op a ["renew"] = true /\ is_op a ["release"] = false /\ is_op a ["connect"; "renew"] = true) as (R1 & R2 & R3) by (unfold is_op; rewrite Hop; by vm_compute).
  destruct (match first with Rejected true => _ | _ => _ end) as [d p|missing|].
  - unfold take_decision. rewrite Hid, R1, R2. cbn [renewed fst tr_lease]. destruct (truthy_text (ad_lease d)) as [m|]; [destruct (ad_allowed d)|]; cbn [default qt_leases with_policy with_leases andb].
    + intros Hm Hold. unfold jeqb. case_bool_decide as E; cbn [negb]; [subst m|].
      * rewrite map_get_set. by rewrite decide_False; [apply Hold|].
      * rewrite map_get_delete. case_decide as El; [done|]. rewrite map_get_set. by rewrite decide_False; [apply Hold|].
    + intros Hm Hold. by apply Hold.
    + intros Hm Hold. destruct (ad_allowed d); by apply Hold.
  - cbn [renewed fst tr_lease ad_allowed]. intros Hm Hold. by apply Hold.
  - pose proof (fallback_cases tag a now fresh q) as H. destruct (boundedFallback _ _ _ _ _) as [d q'].
    assert (forall k, map_get k (qt_leases q) = None -> map_get k (qt_leases (live_leases now q)) = None) as Hlive.
    { intros k Hk. apply map_get_None. apply map_get_None in Hk. intros Hin. apply Hk. unfold live_leases in Hin. cbn [qt_leases with_leases] in Hin.
      apply list_elem_of_fmap in Hin as (e & -> & [_ He]%list_elem_of_filter). by apply list_elem_of_fmap_2. }
    assert (tr_lease (renewed d t).1 = tr_lease t /\ (l <> tr_lease t -> map_get l (qt_leases (live_leases now q)) = None -> map_get l (qt_leases q') = None)) as [-> Hq].
    { cbn [renewed fst tr_lease]. destruct H as (_ & [(Hr & _)|[(k & Hk & _ & _ & -> & Hq & _)|H]]); [congruence| |].
      - rewrite Hid in Hk. injection Hk as <-. split; [by destruct (tr_lease t =?s "") eqn:E; simpl; rewrite E|].
        intros Hl Hn. rewrite Hq, map_get_set. by rewrite decide_False.
      - rewrite Hid in H. cbn [default] in H. destruct H as [Hd Hq|Hd Hr Hq|Hd Hr Hq|Hd Hr Hlease Hc Hq]; [|congruence|congruence|].
        + rewrite Hd. split; [done|]. by rewrite Hq.
        + rewrite Hd, Hlease. split; [by destruct (tr_lease t =?s "") eqn:E; simpl; rewrite E|]. intros Hl Hn. rewrite Hq, map_get_set. by rewrite decide_False. }
    intros Hl Hold. apply Hq; [done|]. by apply Hlive, Hold.
Qed.

Lemma life_invariant held t q : life held t q -> life_ok held t q /\ tr_lease t ∈ held.
Proof.
  induction 1 as [initial t q Ht|held t q i now _ [[Ho Hl Hr] Hin]|held t q first second now fresh _ [[Ho Hl Hr] Hin]|held t q q' _ [[Ho Hl Hr] Hin] Hq].
  - split; [|by left]. unfold trackClientConnection in Ht. destruct (initial ≫= _) as [l|] eqn:E; [|done]. injection Ht as <-. cbn.
    destruct initial as [d|]; [|done]. split; cbn; [|by eapply truthy_text_nonempty|done]. intros l' ->%list_elem_of_singleton. done.
  - assert (tr_lease (refresh tag i now t q).1 = tr_lease t) as E.
    { unfold refresh. destruct (_ || _ || _); [done|]. unfold admit_begin. destruct (_ || _); done. }
    split; [|by left]. rewrite E. split; rewrite ?E; [|done|].
    + intros l' [->|Hin']%elem_of_cons; [done|by apply Ho].
    + intros a. unfold refresh. destruct (_ || _ || _); [by apply Hr|]. destruct (admit_begin _ _ _ _ _ _) as [d|a'] eqn:Ea; [done|]. cbn. intros [= <-].
      by eapply admit_begin_question.
  - split; [|by left]. unfold refresh_end. destruct (tr_running t) as [a|] eqn:Ea.
    + destruct (Hr a eq_refl) as [Hop Hid]. pose proof (fun l => renewal_keeps_one a first second now fresh t q l Hop Hid) as Hk.
      destruct (admit_finish _ _ _ _ _ _ _) as [d q']. pose proof (renewed_lease d t Hl) as Hne. destruct (renewed d t) as [t' close] eqn:Et. cbn [fst snd] in *.
      split; [|done|].
      * intros l [->|Hin']%elem_of_cons Hne'; [done|]. apply Hk; [done|]. intros Hlt. by apply Ho.
      * intros a'. injection Et as <- _. done.
    + cbn [fst snd]. split; [|done|by rewrite Ea]. intros l [->|Hin']%elem_of_cons; [done|by apply Ho].
  - split; [|done]. split; [|done|done]. intros l Hin' Hne. apply Hq; [done|]. by apply Ho.
Qed.

(** C18: When a connection closes and its identity lets it ask for the release, then at the
    answer the relay keeps none of the leases the connection held until its close, whatever
    renewals replaced one lease by another and whatever outages of the quota service there
    were, with two exceptions: the service refuses the release, and then the leases stay
    exactly as they were, with at most the last one of this connection; or it answers the
    release by granting an earlier lease anew.  Other connections are assumed to take up
    none of the leases given back.  A renewal that is under way at the close can still bring
    a further lease afterwards ([Examples.late_renewal_keeps_lease]). *)
Theorem closing_releases_leases (held : list jstr) (t : tracker) (q q' : quota) (i : client_identity) (at_ now : Z) (a : question)
    (first second : exchange) (fresh l : jstr) :
  life held t q -> (close_tracker tag i at_ t q).2 = inr a -> others held q q' -> l ∈ held ->
  let leases := qt_leases (admit_finish tag a first second now fresh q').2 in
  map_get l leases = None \/
  (exists missing, first = Rejected missing /\ l = tr_lease t /\ leases = qt_leases q') \/
  (exists d p, first = Decided d p /\ ad_allowed d = true /\ ad_lease d = Some l /\ l <> tr_lease t).
Proof.
  intros Hlife Hclose Hoth Hin. cbv zeta. destruct (life_invariant held t q Hlife) as [[Ho Hl _] _].
  destruct (admit_begin_question i "release" (tr_lease t) at_ q a Hl Hclose) as [Hop Hid].
  assert (l <> tr_lease t -> map_get l (qt_leases q') = None) as Hold by (intros Hne; apply Hoth; [done|by apply Ho]).
  assert (is_op a ["renew"] = false /\ is_op a ["release"] = true) as [R1 R2] by (unfold is_op; rewrite Hop; by vm_compute).
  unfold admit_finish. destruct first as [d p|missing|].
  - unfold take_decision. rewrite Hid, R1, R2. cbn [snd qt_leases with_policy with_leases andb]. rewrite map_get_delete.
    case_decide as E; [by left|]. destruct (truthy_text (ad_lease d)) as [m|] eqn:Em; [|left; by apply Hold].
    destruct (ad_allowed d) eqn:Ea; [|left; by apply Hold]. cbn [qt_leases with_leases]. rewrite map_get_set.
    case_decide as Elm; [|left; by apply Hold]. right; right. exists d, p. apply truthy_text_is in Em. by split_and!; congruence.
  - rewrite R1. replace (if missing then Rejected missing else Rejected missing) with (Rejected missing) by (by destruct missing).
    destruct missing; cbn [snd]; (destruct (decide (l = tr_lease t)) as [->|Hne]; [right; left; by eexists|left; by apply Hold]).
  - left. unfold boundedFallback. rewrite R2, Hid. cbn [snd qt_leases with_leases]. rewrite map_get_delete. case_decide as E; [done|].
    specialize (Hold E). apply map_get_None. apply map_get_None in Hold. intros Hk. apply Hold.
    apply list_elem_of_fmap in Hk as (e & -> & [_ He]%list_elem_of_filter). by apply list_elem_of_fmap_2.
Qed.
End Life.

(** ** Examples *)

Module Examples.
Definition tag (kind value : jstr) : jstr := kind +++ ":" +++ value.
Definition device : client_identity := {| ci_category := "anonymous"; ci_account := None; ci_device := None; ci_expiresAt := None; ci_clientIp := Some "10.0.0.1"%js |}.
Definition granted (lease : jstr) : access_decision :=
  {| ad_allowed := true; ad_category := Some "anonymous"%js; ad_reason := ""; ad_retryAfter := Some 0; ad_lease := Some lease |}.
Definition plain : access_decision := {| ad_allowed := true; ad_category := Some "anonymous"%js; ad_reason := ""; ad_retryAfter := Some 0; ad_lease := None |}.
Definition ask (operation : jstr) (lease : option jstr) : question :=
  {| qs_operation := operation; qs_category := "anonymous"; qs_clientIp := Some "10.0.0.1"%js; qs_account := None; qs_device := None; qs_expiresAt := 31000; qs_leaseId := lease |}.
Definition with_lease (l : jstr) : quota := with_leases [(l, ask "connect" None)] createClientAccess.
Definition tracked (l : jstr) : tracker := {| tr_lease := l; tr_running := None; tr_open := true; tr_closed := false |}.

(** The service forgot the lease [one] and grants [two]; then the socket closes. *)
Definition waiting : tracker := (refresh tag device 1000 (tracked "one") (with_lease "one")).1.
Definition replaced : tracker * quota := (refresh_end tag (Rejected true) (Decided (granted "two") defaultPolicy) 1000 "x" waiting (with_lease "one")).1.

Example renewal_replaces_lease : tr_lease replaced.1 = "two" /\ map fst (qt_leases replaced.2) = ["two"%js].
Proof. vm_compute. split; reflexivity. Qed.

Lemma replaced_life : life tag ["two"; "one"; "one"]%js replaced.1 replaced.2.
Proof.
  apply (life_answer tag ["one"; "one"]%js waiting (with_lease "one") (Rejected true) (Decided (granted "two") defaultPolicy) 1000 "x").
  apply (life_refresh tag ["one"]%js (tracked "one") (with_lease "one") device 1000). exact (life_start tag (Some (granted "one")) (tracked "one") (with_lease "one") eq_refl).
Qed.

Lemma closing_releases_leases_witness :
  let q' := (admit_finish tag (ask "release" (Some "two"%js)) (Decided plain defaultPolicy) Unreachable 2000 "x" replaced.2).2 in
  map_get "one"%js (qt_leases q') = None /\ map_get "two"%js (qt_leases q') = None.
Proof.
  assert (forall l, l ∈ ["two"; "one"; "one"]%js ->
    map_get l (qt_leases (admit_finish tag (ask "release" (Some "two"%js)) (Decided plain defaultPolicy) Unreachable 2000 "x" replaced.2).2) = None) as H.
  { intros l Hl. destruct (closing_releases_leases tag ["two"; "one"; "one"]%js replaced.1 replaced.2 replaced.2 device 1000 2000
      (ask "release" (Some "two"%js)) (Decided plain defaultPolicy) Unreachable "x" l replaced_life) as [H|[(missing & H & _)|(d & p & H & _ & Hd & _)]].
    - vm_compute. reflexivity.
    - intros l' _ E. exact E.
    - exact Hl.
    - exact H.
    - discriminate H.
    - injection H as <- _. discriminate Hd. }
  split; apply H; apply list_elem_of_lookup; [exists 1%nat|exists 0%nat]; reflexivity.
Defined.

(** A socket that closes during its renewal: the lease of the late answer is never released. *)
Definition closing : tracker := (close_tracker tag device 1500 waiting (with_lease "one")).1.
Definition after_release : quota := (admit_finish tag (ask "release" (Some "one"%js)) (Decided plain defaultPolicy) Unreachable 1600 "x" (with_lease "one")).2.
Definition late : tracker * quota := (refresh_end tag (Rejected true) (Decided (granted "two") defaultPolicy) 1700 "x" closing after_release).1.

Lemma late_renewal_keeps_lease :
  map fst (qt_leases late.2) = ["two"%js] /\ tr_closed late.1 = true /\ forall i now q, refresh tag i now late.1 q = (late.1, None).
Proof. vm_compute. split_and!; reflexivity. Qed.

(** A release that the service refuses leaves the lease with the local ceilings. *)
Lemma refused_release_keeps_lease :
  map fst (qt_leases (admit_finish tag (ask "release" (Some "one"%js)) (Rejected true) Unreachable 1600 "x" (with_lease "one")).2) = ["one"%js].
Proof. vm_compute. reflexivity. Qed.

(** A relay with 300 connections releases 256 of their leases when it stops. *)
Definition many : list (jstr * question) := map (fun i => (JS [N.of_nat i], ask "connect" None)) (seq 0 300).

Lemma shutdown_releases_a_prefix_witness :
  length many = 300%nat /\ length (release_all many 0 idle_adapter).2 = 256%nat.
Proof.
  split; [vm_compute; reflexivity|].
  rewrite (shutdown_releases_a_prefix many 0 idle_adapter) by (split; [vm_compute; discriminate|vm_compute; discriminate]). vm_compute. reflexivity.
Defined.

Lemma exchanges_are_bounded_witness :
  ap_pending (remote 1 (remote 0 idle_adapter).1).1 = 2 /\
  0 <= ap_pending (remote 1 (remote 0 idle_adapter).1).1 <= MAX_PENDING.
Proof.
  split; [vm_compute; reflexivity|].
  refine (proj2 (exchanges_are_bounded (fun _ => None) (fun _ => plain) (fun _ => defaultPolicy) (remote 1 (remote 0 idle_adapter).1).1 _)).
  apply reach_remote; [apply reach_remote; [apply reach_idle|]|]; apply (bool_decide_unpack _); vm_compute; exact I.
Defined.
End Examples.
