(* ===== verification/NodeHttp.v ===== *)
(** * The HTTP service of the Node relay
    [src/node/server.js]: the entry of [createServer], [routeHttp], [handlePairing],
    [setClientDecision] of [node/client-access.js], and [purgeExpiredPairings] of
    [node/store.js].

    [node] is the whole state of the process: the relay of [NodeSocket] and the tables
    that HTTP requests use.  [serve] composes the handlers of the other files the way
    the router does.  A request's body is at hand when it is routed; the wait for the
    quota service comes before, and anything else may happen meanwhile ([node_step]). *)

From S2P Require Import TaskJobs TaskStore Writers Configurations TaskHttp.
From S2P Require Import Prelude Validation CoolDown Delivery NodeRooms RetainedState RetainedStores Presence SocketDelivery Admission NodeSocket NodeUpgrade.
From S2P Require Import Wake Pairing Endpoints Activities ActivityEndpoint Apns PushDevices Routing.
#[local] Open Scope bool_scope.
#[local] Open Scope Z_scope.
#[local] Open Scope js_scope.

Definition MAX_HTTP_BODY_BYTES : Z := 40000.
Definition MAX_PUSH_BODY_BYTES : Z := 4096.

(** ** The state of the process *)

Record node := {
  nd_relay : relay; nd_tasks : TaskHttp.node_tasks; nd_pairings : pairings; nd_endpoints : endpoints;
  nd_activities : machine (S := activity_table); nd_wakes : wake_table;
}.

(** The clock of the process. *)
Definition nd_now (n : node) : Z := mc_now (nd_activities n).
Definition nd_rooms (n : node) : rooms := rl_rooms (nd_relay n).

Definition with_relay (r : relay) (n : node) : node :=
  {| nd_relay := r; nd_tasks := nd_tasks n; nd_pairings := nd_pairings n; nd_endpoints := nd_endpoints n; nd_activities := nd_activities n; nd_wakes := nd_wakes n |}.
Definition with_tasks (t : TaskHttp.node_tasks) (n : node) : node :=
  {| nd_relay := nd_relay n; nd_tasks := t; nd_pairings := nd_pairings n; nd_endpoints := nd_endpoints n; nd_activities := nd_activities n; nd_wakes := nd_wakes n |}.
Definition with_pairings (t : pairings) (n : node) : node :=
  {| nd_relay := nd_relay n; nd_tasks := nd_tasks n; nd_pairings := t; nd_endpoints := nd_endpoints n; nd_activities := nd_activities n; nd_wakes := nd_wakes n |}.
Definition with_endpoints (t : endpoints) (n : node) : node :=
  {| nd_relay := nd_relay n; nd_tasks := nd_tasks n; nd_pairings := nd_pairings n; nd_endpoints := t; nd_activities := nd_activities n; nd_wakes := nd_wakes n |}.
Definition with_activities (m : machine) (n : node) : node :=
  {| nd_relay := nd_relay n; nd_tasks := nd_tasks n; nd_pairings := nd_pairings n; nd_endpoints := nd_endpoints n; nd_activities := m; nd_wakes := nd_wakes n |}.
Definition with_wakes (t : wake_table) (n : node) : node :=
  {| nd_relay := nd_relay n; nd_tasks := nd_tasks n; nd_pairings := nd_pairings n; nd_endpoints := nd_endpoints n; nd_activities := nd_activities n; nd_wakes := t |}.
Definition with_db (db : rooms) (n : node) : node := with_relay (with_rooms db (nd_relay n)) n.

(** ** Requests and answers *)

(** The parsed URL: path and query parameters. *)
Record node_url := { nu_path : jstr; nu_room : option jstr; nu_recipient : option jstr; nu_metadata : option jstr }.

Record http_message := {
  hm_method : jstr; hm_url : option node_url;        (** [None] when the URL does not parse *)
  hm_authorization : option jstr; hm_admission : option jstr;
  hm_remote : option jstr; hm_realIp : option jstr;  (** the peer's address and ["x-real-ip"] *)
  hm_declared : option Z; hm_body : stream;
}.

Inductive http_body :=
| HealthBody (instance : option jstr) | ErrorBody (error : jstr) | DeniedBody (error reason : jstr)
| TaskBody (body : TaskHttp.response_body) | PairBody (reply : pair_reply) | EndpointBody (reply : endpoint_reply)
| ActivityBody (reply : activity_reply) | PushBody (reply : push_reply).

(** The header [content-length], the size of the serialised text, is left out. *)
Record http_reply := { hr_status : Z; hr_headers : list (jstr * jstr); hr_body : http_body }.

(** An activity update is answered when its delivery has settled. *)
Inductive served := Sent (reply : http_reply) | Delivers.

Definition sendJson (status : Z) (body : http_body) : served :=
  Sent {| hr_status := status;
          hr_headers := [("content-type", "application/json"); ("cache-control", "no-store"); ("x-content-type-options", "nosniff")]; hr_body := body |}.
Definition failed : served := sendJson 500 (ErrorBody "internal error").

Definition pair_status (r : pair_reply) : Z := match r with Stored => 200 | Opened _ _ => 200 | Status st _ => st end.
Definition endpoint_status (r : endpoint_reply) : Z := match r with EndpointStatus st _ => st | EndpointOk => 200 | EndpointFound _ => 200 end.
Definition activity_status (r : activity_reply) : Z :=
  match r with ActivityError st _ => st | ActivityRetry _ => 202 | _ => 200 end.
Definition push_reply_status (r : push_reply) : Z := match r with PushError st _ => st | PushRegistered _ _ _ => 200 | PushStatus _ _ => 200 end.

Section Service.
Context (sha256 : jstr -> jstr) (number_of_string : jstr -> option jsnum) (parse_json : list N -> res jsv) (isIP : jstr -> bool).
(** [managedAdmission(env)], the trusted proxies, the push provider's configuration and
    the instance's name. *)
Context (verify : option (jsv -> option jstr -> Z -> option jsv)) (trusted : option jstr) (env : apns_env) (instance : option jstr).

Definition read_body (q : http_message) (limit : Z) : res jsv := readJson parse_json (hm_declared q) (hm_body q) limit.

(** [authorize(store, room, bearer(request), pin)] *)
Definition authorize_request (q : http_message) (room : option jstr) (pin : bool) (n : node) : bool * node :=
  match room with
  | Some room => let '(ok, db) := authorize sha256 (nd_rooms n) room (bearer (hm_authorization q)) pin (nd_now n) in (ok, with_db db n)
  | None => (false, n)
  end.

(** ** [purgeExpiredPairings] *)

(** The tables of all components; the jobs and configurations in one transaction. *)
Definition purge_node (n : node) : res node :=
  let now := nd_now n in
  match TaskStore.purge (TaskHttp.nt_jobs (nd_tasks n)) now with
  | (Throw, _) => Throw
  | (Ok _, jobs) =>
      let tasks := TaskHttp.with_configs (TaskHttp.with_jobs (nd_tasks n) jobs) (Configurations.sql_maintain (TaskHttp.nt_configs (nd_tasks n)) now).1 in
      Ok {| nd_relay := with_retained (purge_state (rl_retained (nd_relay n)) now) (nd_relay n); nd_tasks := tasks;
            nd_pairings := purge_pairings now (nd_pairings n); nd_endpoints := purge_endpoints now (nd_endpoints n);
            nd_activities := nd_activities n; nd_wakes := purge_wakes now (nd_wakes n) |}
  end.

(** A request in progress: whether a store call threw.  The handlers call the store at
    most once after the purge, and nothing afterwards. *)
Record attempt := { at_node : node; at_threw : bool }.

Definition purged (a : attempt) (f : node -> node * bool) : attempt * bool :=
  match purge_node (at_node a) with
  | Throw => ({| at_node := at_node a; at_threw := true |}, false)
  | Ok n => let '(n, answer) := f n in ({| at_node := n; at_threw := at_threw a |}, answer)
  end.

Definition finish (a : attempt) (answer : served) : served * node := (if at_threw a then failed else answer, at_node a).

(** ** Pairing mailboxes *)

#[local] Instance node_pairing_store : PairingStore attempt := {|
  pair_put a mailbox p now := purged a (fun n => let '(t, ok) := putPairing (nd_pairings n) mailbox p now in (with_pairings t n, ok));
  pair_peek a mailbox now := purged a (fun n => let '(t, ok) := peekPairing (nd_pairings n) mailbox now in (with_pairings t n, ok));
  pair_take a mailbox now := let '(t, item) := takePairing (nd_pairings (at_node a)) mailbox now in
    ({| at_node := with_pairings t (at_node a); at_threw := at_threw a |}, item);
|}.

Definition pairing_request (q : http_message) (mailbox : jstr) (n : node) : served * node :=
  let writes := (hm_method q =?s "PUT") || (hm_method q =?s "POST") in
  match (if writes then read_body q MAX_HTTP_BODY_BYTES else Ok JNull) with
  | Throw => (failed, n)
  | Ok body =>
      let '(a, reply) := handlePairing {| at_node := n; at_threw := false |} (hm_method q) mailbox (if is_nullish body then None else Some body) (nd_now n) in
      finish a (match reply with
                | Status st "" => Sent {| hr_status := st; hr_headers := []; hr_body := PairBody reply |}      (* HEAD *)
                | _ => sendJson (pair_status reply) (PairBody reply) end)
  end.

(** ** The endpoint directory *)

Definition endpoint_store (q : http_message) (room : option jstr) (key : jstr) (now : Z) : endpoint_ops attempt := {|
  eo_authorize pin a := let '(ok, n) := authorize_request q room pin (at_node a) in ({| at_node := n; at_threw := at_threw a |}, ok);
  eo_put record a := purged a (fun n => let '(t, ok) := putEndpoint (nd_endpoints n) key record now in (with_endpoints t n, ok));
  eo_get a := let '(t, found) := endpoint (nd_endpoints (at_node a)) key now in
    ({| at_node := with_endpoints t (at_node a); at_threw := at_threw a |}, endpoint_json <$> found);
  eo_delete a := {| at_node := with_endpoints (deleteEndpoint key (nd_endpoints (at_node a))) (at_node a); at_threw := at_threw a |};
|}.

Definition endpoint_request (q : http_message) (url : node_url) (n : node) : served * node :=
  match endpointStorageKey (nu_room url) (nu_recipient url) with
  | None => (sendJson 400 (ErrorBody "invalid endpoint recipient"), n)
  | Some key =>
      let body := match read_body q ENDPOINT_BODY_LIMIT with Ok v => Some v | Throw => None end in
      let '(a, reply) := endpointResponse (endpoint_store q (nu_room url) key (nd_now n)) (hm_method q) (nu_room url) body (nd_now n)
                           {| at_node := n; at_threw := false |} in
      finish a (sendJson (endpoint_status reply) (EndpointBody reply))
  end.

(** ** Scheduled tasks *)

Definition task_request (q : http_message) (url : node_url) (n : node) : served * node :=
  let rq := {| TaskHttp.rq_method := hm_method q; TaskHttp.rq_pathname := nu_path url; TaskHttp.rq_room := nu_room url;
               TaskHttp.rq_owner := (authorize_request q (nu_room url) false n).1; TaskHttp.rq_credential := Some (bearer (hm_authorization q));
               TaskHttp.rq_read := read_body q; TaskHttp.rq_metadataOnly := header_is_one (nu_metadata url) |} in
  let '(result, tasks) := TaskHttp.node_response sha256 number_of_string (nd_tasks n) rq (nd_now n) in
  (match result with Ok r => sendJson (TaskHttp.rs_status r) (TaskBody (TaskHttp.rs_body r)) | Throw => failed end, with_tasks tasks n).

(** ** Task activities *)

Definition activity_configured (environment : jstr) : bool := apnsConfigured env (Some environment).

Definition activities_request (q : http_message) (url : node_url) (n : node) : served * node :=
  let rq := {| ar_path := nu_path url; ar_method := hm_method q; ar_room := nu_room url;
               ar_authorized := (authorize_request q (nu_room url) false n).1;
               ar_body := match read_body q ACTIVITY_BODY_LIMIT with Ok v => Some v | Throw => None end |} in
  let '(m, out) := activity_step activity_configured (nd_activities n) (Request rq) in
  (match out with ActivityEndpoint.Answered reply :: _ => sendJson (activity_status reply) (ActivityBody reply) | _ => Delivers end, with_activities m n).

(** ** Push registrations *)

(** The registration is read from the body: the room is valid, its credential good. *)
Definition push_reads (q : http_message) (url : node_url) (n : node) : bool :=
  (nu_path url =?s "/push/register") && valid_room_param (nu_room url) && (authorize_request q (nu_room url) true n).1
  && bool_decide (hm_method q ∈ ["PUT"; "POST"; "DELETE"]%js).

Definition push_request (q : http_message) (url : node_url) (n : node) : served * node :=
  match (if push_reads q url n then read_body q MAX_PUSH_BODY_BYTES else Ok JNull) with
  | Throw => (failed, (authorize_request q (nu_room url) true n).2)
  | Ok body =>
      let '(result, db) := node_push sha256 env (nd_rooms n) (nu_path url) (hm_method q) (nu_room url) (bearer (hm_authorization q)) body (nd_now n) in
      (match result with Ok reply => sendJson (push_reply_status reply) (PushBody reply) | Throw => failed end, with_db db n)
  end.

(** ** [routeHttp] *)

Definition route_request (q : http_message) (n : node) : served * node :=
  match hm_url q with
  | None => (sendJson 400 (ErrorBody "bad request"), n)
  | Some url =>
      match routeHttp (hm_method q) (nu_path url) with
      | Health => (sendJson 200 (HealthBody (match instance with Some name => if name =?s "" then None else Some name | None => None end)), n)
      | Tasks => task_request q url n
      | Routing.Pairing mailbox => pairing_request q mailbox n
      | EndpointService => endpoint_request q url n
      | ActivityService => activities_request q url n
      | Push _ => push_request q url n
      | Socket | NotServed => (sendJson 404 (ErrorBody "not found"), n)
      end
  end.

(** ** The quota service in front *)

(** The identity whose request is admitted; [None] for the health check.  [now] is the
    time at which the request came. *)
Definition quota_identity (q : http_message) (now : Z) : option client_identity :=
  if bool_decide (nu_path <$> hm_url q = Some "/health"%js) then None
  else
    let room := hm_url q ≫= nu_room in
    let ticket := match verify with Some v => v (text_or_undef (hm_admission q)) room now | None => None end in
    Some (clientIdentity isIP ticket (hm_remote q) (hm_realIp q) trusted).

(** [setClientDecision]; a header of value [undefined] throws.  [fallback]: the decision is
    the client's own. *)
Definition setClientDecision (d : access_decision) (fallback : bool) : res (list (jstr * jstr)) :=
  match ad_category d with
  | None => Throw
  | Some category =>
      Ok ([("X-Hostwatch-Client-Category", category); ("X-Hostwatch-Client-Limit", if ad_allowed d then "none" else ad_reason d)]
          ++ (if fallback then [("X-Hostwatch-Client-Mode", "local-fallback")] else []))%js
  end.

Definition with_headers (headers : list (jstr * jstr)) (s : served) : served :=
  match s with
  | Sent r => Sent {| hr_status := hr_status r; hr_headers := headers ++ hr_headers r; hr_body := hr_body r |}
  | Delivers => Delivers
  end.

(** The request, once the quota service has decided; [None]: a relay without one, or the
    health check. *)
Definition serve (q : http_message) (decision : option (access_decision * bool)) (n : node) : served * node :=
  match decision with
  | None => route_request q n
  | Some (d, fallback) =>
      match setClientDecision d fallback with
      | Throw => (failed, n)
      | Ok headers =>
          if negb (ad_allowed d)
          then (with_headers (headers ++ [("Retry-After", Z_text (or_five (ad_retryAfter d)))])%js
                  (sendJson 429 (DeniedBody "Client allowance reached" (ad_reason d))), n)
          else let '(answer, n) := route_request q n in (with_headers headers answer, n)
      end
  end.
End Service.

(** ** The task tables: well formed, and one room at a time *)

#[local] Existing Instances Writers.node_grants Configurations.node_configs Configurations.node_config_laws.

(** Rows of other rooms are as they were. *)
Definition other_rooms {V} (room : jstr) (t t' : list ((jstr * jstr) * V)) : Prop :=
  forall k, k.1 <> room -> map_get k t' = map_get k t.

#[export] Instance other_rooms_preorder {V} room : PreOrder (other_rooms (V := V) room).
Proof. split; [done|]. intros a b c H1 H2 k Hk. by rewrite H2, H1. Qed.

Lemma other_set {V} room id (v : V) t : other_rooms room t (map_set (room, id) v t).
Proof. intros k Hk. rewrite map_get_set. destruct (decide _) as [->|_]; [done|done]. Qed.

Lemma other_delete {V} room id (t : list ((jstr * jstr) * V)) : other_rooms room t (map_delete (room, id) t).
Proof. intros k Hk. rewrite map_get_delete. destruct (decide _) as [->|_]; [done|done]. Qed.

Lemma other_set_trans {V} room id (v : V) t t' : other_rooms room t t' -> other_rooms room t (map_set (room, id) v t').
Proof. intros H. etransitivity; [exact H|apply other_set]. Qed.

Lemma other_drop (drop : Configurations.configuration -> bool) room (l : list Configurations.configuration) (t : Configurations.config_table) :
  other_rooms room t (RoomTable.drop_rows drop room l t).
Proof.
  unfold RoomTable.drop_rows. revert t. induction l as [|old l IH]; intros t; cbn [fold_left]; [done|].
  destruct (drop old); [|apply IH]. etransitivity; [|apply IH]. apply other_delete.
Qed.

Definition other_grants (room : jstr) (g g' : Writers.sql_grants) : Prop :=
  other_rooms room (Writers.gr_writers g) (Writers.gr_writers g') /\ other_rooms room (Writers.gr_reports g) (Writers.gr_reports g').

Lemma other_retired room now rows (g : Writers.sql_grants) : other_grants room g (Writers.delete_retired room now rows g).
Proof.
  unfold Writers.delete_retired. revert g. induction rows as [|old rows IH]; intros g; cbn [fold_left]; [done|].
  destruct (Writers.retired now old); [|apply IH]. match goal with |- context[fold_left _ _ ?g1] => destruct (IH g1) as [H1 H2] end.
  split; (etransitivity; [|eassumption]); apply other_delete.
Qed.

Section TaskTables.
Context (sha256 : jstr -> jstr) (number_of_string : jstr -> option jsnum).
#[local] Instance backend : TaskHttp.TaskBackend TaskHttp.node_tasks := TaskHttp.node_backend sha256.

(** The invariants of the three tables. *)
Record tasks_wf (s : TaskHttp.node_tasks) : Prop := {
  tk_jobs : TaskStore.table_wf (TaskHttp.nt_jobs s);
  tk_grants : Writers.grants_wf (TaskHttp.nt_grants s);
  tk_configs : Configurations.configs_bounded (TaskHttp.nt_configs s);
}.

Record other_tasks (room : jstr) (s s' : TaskHttp.node_tasks) : Prop := {
  ot_jobs : other_rooms room (TaskHttp.nt_jobs s) (TaskHttp.nt_jobs s');
  ot_grants : other_grants room (TaskHttp.nt_grants s) (TaskHttp.nt_grants s');
  ot_configs : other_rooms room (TaskHttp.nt_configs s) (TaskHttp.nt_configs s');
}.

Lemma other_expire room now db : other_rooms room db (map_update (TaskStore.expire_room room now) db).
Proof.
  intros k Hk. rewrite map_get_update. destruct (map_get k db) as [row|]; [|done]. simpl. f_equal. unfold TaskStore.expire_room, jeqb.
  by rewrite bool_decide_eq_false_2.
Qed.

Lemma put_other db room id body now : TaskStore.table_wf db -> other_rooms room db (TaskStore.put sha256 db room id body now).2.
Proof.
  intros Hwf. unfold TaskStore.put, TaskStore.transact, TaskStore.putInTransaction, TaskStore.get_job.
  destruct (TaskJobs.normalizeJob _ _ _ _) as [[n|]|]; simpl; [|done..]. destruct (map_get (room, id) db); [by destruct (_ =?s _)|].
  rewrite TaskStore.expireQueued_ok by done. simpl. destruct (_ || _); simpl; [apply other_expire|].
  unfold TaskStore.save. destruct (TaskStore.bindable _); simpl; [|done]. apply other_set_trans, other_expire.
Qed.

Lemma transition_other db room id action body now :
  TaskStore.table_wf db -> other_rooms room db (TaskStore.transition sha256 db room id action body now).2.
Proof.
  intros [_ Hr _ _ _]. unfold TaskStore.transition, TaskStore.transact, TaskStore.transitionInTransaction, TaskStore.get_job.
  destruct (map_get (room, id) db) as [row|] eqn:Ek; [|done].
  match goal with |- context[res_bind ?w _] => destruct w as [[status error|st row']|] end; simpl; [done| |done].
  unfold TaskStore.save. destruct (TaskStore.bindable _); simpl; [|done]. apply other_set.
Qed.

Lemma node_commit_other (g : Writers.sql_grants) room row now : other_grants room g (Writers.node_commit g room row now).2.
Proof.
  unfold Writers.node_commit. destruct (Writers.get_writer _ _ _); [done|]. pose proof (other_retired room now (RoomTable.rt_list (Writers.gr_writers g) room) g) as [H1 H2].
  destruct (_ <=? _); [done|]. split; [|done]. apply other_set_trans. exact H1.
Qed.

Lemma revoke_other (g : Writers.sql_grants) room id now : other_grants room g (Writers.revoke g room id now).2.
Proof.
  unfold Writers.revoke. cbn [snd]. split; cbn [Writers.gr_writers Writers.gr_reports].
  - destruct (Writers.get_writer _ _ _) as [row|]; [|done]. destruct (Writers.wt_revokedAt row); [done|]. apply other_set.
  - etransitivity; [|apply other_delete]. destruct (Writers.get_writer _ _ _) as [row|]; [|done]. by destruct (Writers.wt_revokedAt row).
Qed.

Lemma resources_other (g : Writers.sql_grants) room id body now r g' :
  Writers.resources g room id body now = Ok (r, g') -> other_grants room g g'.
Proof.
  unfold Writers.resources. destruct (Writers.get_writer _ _ _) as [grant|]; [|by intros [= _ <-]]. destruct (negb _); [by intros [= _ <-]|].
  destruct body as [b|].
  2: { destruct (RoomTable.rt_get _ _ _) as [rep|]; [|by intros [= _ <-]]. case_match; by intros [= _ <-]. }
  cbv zeta. match goal with |- context[if ?b then _ else _] => destruct b end; [by intros [= _ <-]|].
  destruct (validEnvelope _ _ _ _) as [valid|]; simpl; [|done]. destruct (_ || _); [by intros [= _ <-]|]. intros [= _ <-].
  split; [done|]. apply other_set.
Qed.

Lemma configuration_put_other (t : Configurations.config_table) room id body now result view t' :
  Configurations.put t room id body now = Ok (result, view, t') -> other_rooms room t t'.
Proof.
  unfold Configurations.put. destruct (Configurations.validConfiguration _ _ _ _) as [[]|]; simpl; [|by intros [= _ _ <-]|done].
  destruct (_ <? _); [by intros [= _ _ <-]|]. unfold Configurations.commit.
  set (row := Configurations.Build_configuration _ _ _ _ _ _).
  pose proof (other_drop (Configurations.expired now) room (RoomTable.rt_list t room) t) as H.
  destruct (Configurations.configurationCapacity _ _ _) as [st e|st]; intros [= _ _ <-]; [done|]. apply other_set_trans. exact H.
Qed.

Lemma configuration_get_other (t : Configurations.config_table) room id now :
  other_rooms room t (Configurations.get_configuration t room id now).2.
Proof.
  unfold Configurations.get_configuration, Configurations.current. destruct (negb _); [done|]. destruct (RoomTable.rt_get _ _ _); [|done].
  destruct (_ <=? _); [|done]. apply other_delete.
Qed.

Lemma tasks_keep s0 room : RoomTable.valid_room room -> TaskHttp.backend_keeps room (fun s => tasks_wf s /\ other_tasks room s0 s).
Proof.
  intros Hroom.
  assert (forall s jobs, tasks_wf s /\ other_tasks room s0 s -> TaskStore.table_wf jobs -> other_rooms room (TaskHttp.nt_jobs s) jobs ->
    tasks_wf (TaskHttp.with_jobs s jobs) /\ other_tasks room s0 (TaskHttp.with_jobs s jobs)) as Hjobs.
  { intros s jobs [[Hj Hg Hc] [Oj Og Oc]] Hwf Ho. split; [by split|]. split; [|done|done]. by etransitivity. }
  assert (forall s g, tasks_wf s /\ other_tasks room s0 s -> Writers.grants_wf g -> other_grants room (TaskHttp.nt_grants s) g ->
    tasks_wf (TaskHttp.with_grants s g) /\ other_tasks room s0 (TaskHttp.with_grants s g)) as Hgrants.
  { intros s g [[Hj Hg Hc] [Oj [Og Or] Oc]] Hwf [O1 O2]. split; [by split|]. split; [done| |done]. split; by etransitivity. }
  assert (forall s c, tasks_wf s /\ other_tasks room s0 s -> Configurations.configs_bounded c -> other_rooms room (TaskHttp.nt_configs s) c ->
    tasks_wf (TaskHttp.with_configs s c) /\ other_tasks room s0 (TaskHttp.with_configs s c)) as Hconfigs.
  { intros s g [[Hj Hg Hc] [Oj Og Oc]] Hwf Ho. split; [by split|]. split; [done|done|]. by etransitivity. }
  split.
  - intros s id now m Hs. pose proof (tk_jobs _ (proj1 Hs)) as Hwf. cbn [TaskHttp.tb_getPublic backend TaskHttp.node_backend].
    rewrite TaskHttp.getPublic_ok by done. apply Hjobs; [done|by apply TaskStore.expire_room_wf|apply other_expire].
  - intros s now Hs. pose proof (tk_jobs _ (proj1 Hs)) as Hwf. cbn [TaskHttp.tb_listActive backend TaskHttp.node_backend].
    unfold TaskStore.listActive, TaskStore.transact. rewrite TaskStore.expireQueued_ok by done. cbn [res_bind snd].
    apply Hjobs; [done|by apply TaskStore.expire_room_wf|apply other_expire].
  - intros s id body now Hs. pose proof (tk_jobs _ (proj1 Hs)) as Hwf. cbn [TaskHttp.tb_put backend TaskHttp.node_backend].
    pose proof (put_other (TaskHttp.nt_jobs s) room id body now Hwf) as Ho. pose proof (TaskStore.put_step sha256 (TaskHttp.nt_jobs s) room id body now Hwf) as Hst.
    destruct (TaskStore.put _ _ _ _ _ _) as [r jobs]. cbn [snd] in *. apply Hjobs; [done|by eapply TaskStore.store_step_wf|done].
  - intros s id action body now Hs. pose proof (tk_jobs _ (proj1 Hs)) as Hwf. cbn [TaskHttp.tb_transition backend TaskHttp.node_backend].
    pose proof (transition_other (TaskHttp.nt_jobs s) room id action body now Hwf) as Ho.
    pose proof (TaskStore.transition_step sha256 (TaskHttp.nt_jobs s) room id action body now Hwf) as Hst.
    destruct (TaskStore.transition _ _ _ _ _ _ _) as [r jobs]. cbn [snd] in *. apply Hjobs; [done|by eapply TaskStore.store_step_wf|done].
  - intros s id body now Hs. cbn [TaskHttp.tb_putWriter backend TaskHttp.node_backend].
    pose proof (Writers.writer_exec_wf (TaskHttp.nt_grants s) room now (Writers.WPut id body) (tk_grants _ (proj1 Hs)) Hroom) as Hw. cbn [Writers.writer_exec] in Hw.
    assert (other_grants room (TaskHttp.nt_grants s) (Writers.put Writers.node_commit (TaskHttp.nt_grants s) room id body now).2) as Ho
      by (unfold Writers.put; destruct (Writers.validGrant _ _ _); [apply node_commit_other|done]).
    destruct (Writers.put _ _ _ _ _ _) as [r g]. cbn [snd] in *. by apply Hgrants.
  - intros s id now Hs. cbn [TaskHttp.tb_revokeWriter backend TaskHttp.node_backend].
    pose proof (Writers.revoke_wf (TaskHttp.nt_grants s) room id now (tk_grants _ (proj1 Hs)) Hroom) as Hw.
    pose proof (revoke_other (TaskHttp.nt_grants s) room id now) as Ho.
    destruct (Writers.revoke _ _ _ _) as [r g]. cbn [snd] in *. by apply Hgrants.
  - intros s id body now Hs. cbn [TaskHttp.tb_resources backend TaskHttp.node_backend].
    destruct (Writers.resources _ _ _ _ _) as [[r g]|] eqn:E; [|done]. cbn [snd].
    apply Hgrants; [done| |by eapply resources_other]. exact (proj1 (Writers.resources_wf _ _ _ _ _ _ _ (tk_grants _ (proj1 Hs)) Hroom E)).
  - intros s id now Hs. cbn [TaskHttp.tb_getConfiguration backend TaskHttp.node_backend].
    pose proof (Configurations.config_run_bounded (TaskHttp.nt_configs s) [(now, Configurations.CGet room (JStr id))] (tk_configs _ (proj1 Hs)) ltac:(by constructor)) as Hb.
    cbn [Configurations.config_run Configurations.config_exec] in Hb. pose proof (configuration_get_other (TaskHttp.nt_configs s) room (JStr id) now) as Ho.
    destruct (Configurations.get_configuration _ _ _ _) as [r c]. cbn [snd] in *. by apply Hconfigs.
  - intros s id body now Hs. cbn [TaskHttp.tb_putConfiguration backend TaskHttp.node_backend].
    destruct (Configurations.put _ _ _ _ _) as [[[r v] c]|] eqn:E; [|done]. cbn [snd].
    apply Hconfigs; [done| |by eapply configuration_put_other]. exact (Configurations.put_bounded _ _ _ _ _ _ _ _ (tk_configs _ (proj1 Hs)) Hroom E).
Qed.

(** A task request keeps the tables well formed and touches the rows of its room only. *)
Lemma task_response_keeps s rq room now :
  TaskHttp.rq_room rq = Some room -> tasks_wf s ->
  tasks_wf (TaskHttp.node_response sha256 number_of_string s rq now).2 /\ other_tasks room s (TaskHttp.node_response sha256 number_of_string s rq now).2.
Proof.
  intros Hroom Hwf. assert (tasks_wf s /\ other_tasks room s s) as Hs by (split; [done|by split]).
  destruct (validRoom (JStr room)) eqn:Ev.
  - exact (TaskHttp.dispatch_keeps number_of_string room (fun s' => tasks_wf s' /\ other_tasks room s s') (tasks_keep s room Ev) s rq now Hroom Hs).
  - unfold TaskHttp.node_response, TaskHttp.taskDispatchResponse. by rewrite Hroom, Ev.
Qed.
End TaskTables.
