(* ===== verification/NodeService.v ===== *)
(** * The Node process: invariant, isolation and authorization of its HTTP service

    The theorems about [NodeHttp]: whatever interleaves, every table of the process stays
    well formed and its cleanup succeeds; a request changes nothing of a room that is not
    its own, nor any mailbox or connection; a caller without a credential changes nothing
    at all. *)

From S2P Require Import TaskJobs TaskStore Writers Configurations TaskHttp RoomTable.
From S2P Require Import Prelude Validation CoolDown Delivery NodeRooms RetainedState RetainedStores Presence SocketDelivery Admission NodeSocket NodeUpgrade.
From S2P Require Import Wake Pairing Endpoints Storage Activities ActivityEndpoint Apns PushDevices Routing NodeHttp.
#[local] Open Scope bool_scope.
#[local] Open Scope Z_scope.
#[local] Open Scope js_scope.
#[local] Existing Instances Writers.node_grants Configurations.node_configs Configurations.node_config_laws.

(** ** The endpoint table *)

(** Every key is of a valid room, which has at most 32 records. *)
Record endpoints_wf (t : endpoints) : Prop := {
  ew_keys : NoDup t.*1;
  ew_rooms : forall e, e ∈ t -> exists room recipient, endpointStorageKey (Some room) recipient = Some e.1;
  ew_bound : forall room, RoomTable.valid_room room -> Z.of_nat (length (filter (of_room room) t)) <= ENDPOINT_RECIPIENT_LIMIT;
}.

Lemma endpoints_sublist t t' : t' `sublist_of` t -> endpoints_wf t -> endpoints_wf t'.
Proof.
  intros Hs [Hk Hr Hb]. split.
  - eapply sublist_NoDup; [exact Hk|by apply sublist_keys].
  - intros e He. apply Hr. by eapply elem_of_sublist.
  - intros room Hv. specialize (Hb room Hv). pose proof (sublist_length _ _ (Configurations.filter_sublist (of_room room) _ _ Hs)). lia.
Qed.

(** A room has its own keys only. *)
Lemma of_room_key room room' recipient key v :
  endpointStorageKey (Some room) recipient = Some key -> RoomTable.valid_room room' -> of_room room' (key, v) = true -> room' = room.
Proof.
  intros Hk Hv' Ho. pose proof Hk as Hk0. unfold endpointStorageKey in Hk0. destruct (negb _ || _) eqn:E; [done|]. apply orb_false_iff in E as [E _].
  apply negb_false_iff in E. pose proof (RoomTable.room_no_colon room E) as Hn. pose proof (RoomTable.room_no_colon room' Hv') as Hn'. injection Hk0 as Hk0. clear Hk.
  unfold of_room in Ho. cbn [fst] in Ho. apply orb_true_iff in Ho as [Ho|Ho].
  - apply bool_decide_eq_true in Ho. destruct recipient as [r|]; cbn [default] in Hk0; [|congruence]. exfalso. apply Hn'. rewrite <- Ho, <- Hk0.
    simpl. apply elem_of_app. right. by left.
  - apply starts_with_iff in Ho as [rest Ho]. destruct recipient as [r|]; cbn [default] in Hk0; subst key.
    + cbn [units sapp] in Ho. rewrite <- app_assoc in Ho. apply colon_split in Ho as [Ho _]; [by symmetry; apply units_inj|done|done].
    + exfalso. apply Hn. unfold no_colon in *. rewrite Ho. simpl. rewrite <- app_assoc. apply elem_of_app. right. by left.
Qed.

Lemma of_room_filter_set room key v (t : endpoints) : is_Some (map_get key t) ->
  length (filter (of_room room) (map_set key v t)) = length (filter (of_room room) t).
Proof.
  intros [v0 Hg]. assert (forall l : endpoints, length (filter (of_room room) l) = length (filter (fun k => of_room room (k, v) = true) l.*1)) as Hl.
  { induction l as [|[k w] l IH]; [done|]. rewrite fmap_cons, !filter_cons. cbn [fst].
    assert (of_room room (k, w) = of_room room (k, v)) as -> by done. destruct (of_room room (k, v)); simpl; by rewrite IH. }
  rewrite !Hl. by rewrite (map_set_keys_old key v v0).
Qed.

Lemma put_endpoint_wf t room recipient key record now :
  endpointStorageKey (Some room) recipient = Some key -> endpoints_wf t -> endpoints_wf (putEndpoint t key record now).1.
Proof.
  intros Hk Hwf. destruct (prefix_of_key _ _ _ Hk) as [Hpre Hof]. unfold putEndpoint. rewrite Hpre. set (t1 := purge_endpoints now t).
  assert (endpoints_wf t1) as Hwf1 by (eapply endpoints_sublist; [apply sublist_filter|exact Hwf]).
  assert ((endpoint t1 key now).1 `sublist_of` t1 /\ ((endpoint t1 key now).2 = None -> map_get key (endpoint t1 key now).1 = None) /\
          ((endpoint t1 key now).2 <> None -> is_Some (map_get key (endpoint t1 key now).1))) as (Hs & Hnone & Hsome).
  { unfold endpoint. destruct (map_get key t1) as [e|] eqn:E; [destruct (_ <=? _)|]; cbn [fst snd].
    - split_and!; [apply map_delete_sublist| |done]. intros _. unfold deleteEndpoint. rewrite map_get_delete. by rewrite decide_True.
    - split_and!; [done|done|]. intros _. rewrite E. by eexists.
    - split_and!; [apply map_delete_sublist| |done]. intros _. unfold deleteEndpoint. rewrite map_get_delete. by rewrite decide_True. }
  destruct (endpoint t1 key now) as [t2 current]. cbn [fst snd] in *. pose proof (endpoints_sublist _ _ Hs Hwf1) as Hwf2.
  destruct (_ && _) eqn:E; cbn [fst]; [done|]. destruct Hwf2 as [Hn2 Hr2 Hb2]. split.
  - by apply map_set_nodup.
  - intros [k v] He. apply map_set_elem in He as [[-> _]|[_ He]]; [by exists room, recipient| |done]. exact (Hr2 _ He).
  - intros room' Hv. destruct current as [c|].
    + rewrite of_room_filter_set by (by apply Hsome). by apply Hb2.
    + rewrite map_set_new by (by apply Hnone). rewrite filter_app, filter_cons, length_app. destruct (decide _) as [Ho|Ho]; [|simpl; rewrite Nat.add_0_r; by apply Hb2].
      apply Is_true_true in Ho. pose proof (of_room_key _ _ _ _ _ Hk Hv Ho) as ->. simpl in E. apply Z.leb_gt in E.
      pose proof (sublist_length _ _ (Configurations.filter_sublist (of_room room) _ _ Hs)). unfold ENDPOINT_RECIPIENT_LIMIT. simpl. lia.
Qed.

(** ** The invariant of the process *)

Record node_wf (n : node) : Prop := {
  nw_relay : relay_wf (nd_relay n);
  nw_capacity : within_capacity (nd_relay n);
  nw_tasks : tasks_wf (nd_tasks n);
  nw_pairings : NoDup (nd_pairings n).*1;
  nw_endpoints : endpoints_wf (nd_endpoints n);
  nw_activities : machine_wf (nd_activities n);
  nw_active : forall room, Z.of_nat (length (live_rows (nd_activities n) room)) <= ACTIVITY_LIMIT;
}.

Lemma with_db_wf db n : (rooms_wf (nd_rooms n) -> rooms_wf db) -> node_wf n -> node_wf (with_db db n).
Proof.
  intros Hdb [[Hr Hc Hd Ha Hs Hk] Hcap Ht Hp He Hm Hb]. split; try done. split; try done. by apply Hdb.
Qed.

Lemma with_tasks_wf t n : tasks_wf t -> node_wf n -> node_wf (with_tasks t n).
Proof. intros Ht' [Hr Hcap Ht Hp He Hm Hb]. split; assumption. Qed.

Lemma with_pairings_wf t n : NoDup t.*1 -> node_wf n -> node_wf (with_pairings t n).
Proof. intros Ht' [Hr Hcap Ht Hp He Hm Hb]. split; assumption. Qed.

Lemma with_endpoints_wf t n : endpoints_wf t -> node_wf n -> node_wf (with_endpoints t n).
Proof. intros Ht' [Hr Hcap Ht Hp He Hm Hb]. split; assumption. Qed.

Lemma with_activities_wf configured e n : node_wf n -> node_wf (with_activities (activity_step configured (nd_activities n) e).1 n).
Proof.
  intros [Hr Hcap Ht Hp He Hm Hb]. pose proof (run_bounded configured [e] (nd_activities n) Hm Hb) as H. simpl in H.
  destruct (activity_step configured (nd_activities n) e) as [m out]. destruct H. split; assumption.
Qed.

(** The cleanup succeeds on a well-formed process and keeps it so. *)
Lemma purge_node_ok n : node_wf n -> exists n', purge_node n = Ok n' /\ node_wf n'.
Proof.
  intros [[Hr Hc Hd Ha Hs Hk] Hcap [Hj Hg Hf] Hp He Hm Hb]. unfold purge_node.
  destruct (TaskStore.purge_ok (TaskHttp.nt_jobs (nd_tasks n)) (nd_now n) Hj) as (jobs & -> & Hwf & _). eexists. split; [done|].
  split; cbn [nd_relay nd_tasks nd_pairings nd_endpoints nd_activities].
  - split; try done. cbn [rl_retained with_retained]. by apply wf_filter.
  - exact Hcap.
  - split; [exact Hwf|exact Hg|]. cbn [TaskHttp.nt_configs TaskHttp.with_configs].
    exact (Configurations.config_run_bounded (TaskHttp.nt_configs (nd_tasks n)) [(nd_now n, Configurations.CMaintain)] Hf ltac:(by constructor)).
  - eapply sublist_NoDup; [exact Hp|apply sublist_keys, sublist_filter].
  - eapply endpoints_sublist; [apply sublist_filter|exact He].
  - exact Hm.
  - exact Hb.
Qed.

(** ** What one request may touch *)

(** The table of rooms: one room's row, but neither its queues nor a pinned credential. *)
Record db_in (room : option jstr) (db db' : rooms) : Prop := {
  di_other : forall r, Some r <> room -> db' !! r = db !! r;
  di_queues : forall r q, NodeRooms.rows_of r db' q = NodeRooms.rows_of r db q;
  di_pins : forall r digest, authDigest db r = Some digest -> authDigest db' r = Some digest;
}.

#[export] Instance db_in_preorder room : PreOrder (db_in room).
Proof.
  split; [done|]. intros a b c [O1 Q1 P1] [O2 Q2 P2]. split.
  - intros r Hr. by rewrite O2, O1.
  - intros r q. by rewrite Q2, Q1.
  - intros r d Hd. by apply P2, P1.
Qed.

Lemma alter_in (f : room_row -> room_row) db room :
  (forall row r, column r (f row) = column r row) -> (forall row d, auth_sha256 row = Some d -> auth_sha256 (f row) = Some d) ->
  db_in (Some room) db (alter f room db).
Proof.
  intros Hc Ha. split.
  - intros r Hr. rewrite lookup_alter_ne; [done|congruence].
  - intros r q. unfold NodeRooms.rows_of. rewrite lookup_alter. case_decide as E; [subst r|done]. destruct (db !! room); simpl; [apply Hc|done].
  - intros r d. unfold authDigest. rewrite lookup_alter. case_decide as E; [subst r|done]. destruct (db !! room); simpl; [apply Ha|done].
Qed.

Lemma ensureRoom_in db room now : db_in (Some room) db (ensureRoom db room now).
Proof.
  unfold ensureRoom. destruct (db !! room) as [row|] eqn:E; split.
  all: try (intros r Hr; rewrite lookup_insert_ne; [done|congruence]).
  - intros r q. unfold NodeRooms.rows_of. rewrite lookup_insert. case_decide as Er; [subst r; rewrite E; by destruct q|done].
  - intros r d. unfold authDigest. rewrite lookup_insert. case_decide as Er; [subst r; by rewrite E|done].
  - intros r q. unfold NodeRooms.rows_of. rewrite lookup_insert. case_decide as Er; [subst r; rewrite E; by destruct q|done].
  - intros r d. unfold authDigest. rewrite lookup_insert. case_decide as Er; [subst r; by rewrite E|done].
Qed.

Lemma authorize_in sha256 db room credential pin now : db_in (Some room) db (authorize sha256 db room credential pin now).2.
Proof.
  unfold authorize. destruct (negb _); [done|]. destruct (authDigest db room); [done|]. destruct (negb pin); [done|].
  assert (db_in (Some room) db (pinAuth db room (sha256 credential) now).2) as H; [|by destruct (pinAuth _ _ _ _)].
  unfold pinAuth. cbn [snd]. etransitivity; [apply ensureRoom_in|]. apply alter_in; [by intros ? []|]. intros row d E. simpl. by rewrite E.
Qed.

Lemma updatePushToken_in db room d remove now : db_in (Some room) db (updatePushToken db room d remove now).2.
Proof. unfold updatePushToken. cbn [snd]. apply alter_in; [by intros ? []|by intros]. Qed.

Lemma node_push_in sha256 env db path method room credential body now :
  db_in room db (node_push sha256 env db path method room credential body now).2 /\
  (rooms_wf db -> rooms_wf (node_push sha256 env db path method room credential body now).2).
Proof.
  unfold node_push. destruct room as [room|]; [|done]. destruct (negb _); [done|].
  pose proof (authorize_in sha256 db room credential (path =?s "/push/register") now) as Hi.
  pose proof (authorize_wf sha256 db room credential (path =?s "/push/register") now) as Hw.
  destruct (authorize _ _ _ _ _ _) as [ok db1]. cbn [snd] in Hi, Hw. destruct (negb ok); [done|]. destruct (_ =?s "/push/status"); [by destruct (negb _)|].
  destruct (negb _); [done|]. destruct (token_text _) as [token|]; [|done]. repeat (destruct (negb _); [done|]).
  pose proof (updatePushToken_in db1 room (node_device token body) (method =?s "DELETE") now) as Hi2.
  pose proof (updatePushToken_wf db1 room (node_device token body) (method =?s "DELETE") now) as Hw2.
  destruct (updatePushToken _ _ _ _ _) as [tokens db2]. cbn [snd] in *. split; [by etransitivity|auto].
Qed.

(** A request of one room, or of one pairing mailbox. *)
Record footprint (room mailbox : option jstr) (n n' : node) : Prop := {
  ft_rooms : db_in room (nd_rooms n) (nd_rooms n');
  ft_relay : nd_relay n' = with_rooms (nd_rooms n') (nd_relay n);
  ft_tasks : match room with Some room => other_tasks room (nd_tasks n) (nd_tasks n') | None => nd_tasks n' = nd_tasks n end;
  ft_pairings : forall m, Some m <> mailbox -> map_get m (nd_pairings n') = map_get m (nd_pairings n);
  ft_endpoints : forall key, Some (prefix_of key) <> room -> map_get key (nd_endpoints n') = map_get key (nd_endpoints n);
  ft_activities : forall r, Some r <> room -> live_rows (nd_activities n') r = live_rows (nd_activities n) r;
  ft_wakes : nd_wakes n' = nd_wakes n;
  ft_now : nd_now n' = nd_now n;
}.

Lemma with_same_rooms r : with_rooms (rl_rooms r) r = r.
Proof. by destruct r. Qed.

Lemma other_tasks_refl room s : match room with Some room => other_tasks room s s | None => s = s end.
Proof. destruct room; [by split|done]. Qed.

Lemma footprint_refl room mailbox n : footprint room mailbox n n.
Proof. split; try done; [symmetry; apply with_same_rooms|apply other_tasks_refl]. Qed.

Lemma footprint_db room mailbox db n : db_in room (nd_rooms n) db -> footprint room mailbox n (with_db db n).
Proof. intros H. split; try done. apply other_tasks_refl. Qed.

(** What a request did to the process: after a cleanup or not, only its own footprint,
    and the process stays well formed. *)
Definition confined (room mailbox : option jstr) (n n' : node) : Prop :=
  (exists n1, (n1 = n \/ purge_node n = Ok n1) /\ footprint room mailbox n1 n') /\ node_wf n'.

Lemma footprint_confined room mailbox n n' : footprint room mailbox n n' -> node_wf n' -> confined room mailbox n n'.
Proof. intros Hf Hw. split; [|done]. exists n. by split; [left|]. Qed.

Lemma confined_purged room mailbox n n1 n' : purge_node n = Ok n1 -> footprint room mailbox n1 n' -> node_wf n' -> confined room mailbox n n'.
Proof. intros Hp Hf Hw. split; [|done]. exists n1. by split; [right|]. Qed.

Lemma footprint_kept room mailbox n : node_wf n -> confined room mailbox n n.
Proof. apply footprint_confined, footprint_refl. Qed.

Lemma purged_pairings now t : purge_pairings now (purge_pairings now t) = purge_pairings now t.
Proof. unfold purge_pairings. rewrite list_filter_filter. apply list_filter_iff. tauto. Qed.

Lemma purged_endpoints now t : purge_endpoints now (purge_endpoints now t) = purge_endpoints now t.
Proof. unfold purge_endpoints. rewrite list_filter_filter. apply list_filter_iff. tauto. Qed.

(** The parts of the process after a cleanup, which commutes with changes to the rooms. *)
Lemma purge_node_parts n n1 : purge_node n = Ok n1 ->
  nd_pairings n1 = purge_pairings (nd_now n) (nd_pairings n) /\ nd_endpoints n1 = purge_endpoints (nd_now n) (nd_endpoints n) /\
  nd_now n1 = nd_now n /\ forall db, purge_node (with_db db n) = Ok (with_db db n1).
Proof.
  unfold purge_node. cbn [nd_tasks with_db with_relay]. destruct (TaskStore.purge _ _) as [[u|] jobs] eqn:E; [|done]. intros [= <-].
  split_and!; [done|done|done|]. intros db. unfold nd_now in *. cbn [nd_activities with_db with_relay]. by rewrite E.
Qed.

Lemma put_pairing_other t mailbox p now m :
  m <> mailbox -> NoDup t.*1 -> map_get m (putPairing t mailbox p now).1 = map_get m (purge_pairings now t).
Proof.
  intros Hm Hn. unfold putPairing. destruct (map_get mailbox _); [done|]. cbn [fst]. rewrite map_get_app. destruct (map_get m _); [done|]. simpl.
  by rewrite decide_False.
Qed.

Lemma put_pairing_nodup t mailbox p now : NoDup t.*1 -> NoDup (putPairing t mailbox p now).1.*1.
Proof.
  intros Hn. assert (NoDup (purge_pairings now t).*1) as Hn1 by (eapply sublist_NoDup; [exact Hn|apply sublist_keys, sublist_filter]).
  unfold putPairing. destruct (map_get mailbox _) eqn:E; [done|]. cbn [fst]. rewrite fmap_app. apply NoDup_app. split_and!; [done| |apply NoDup_singleton].
  intros x Hx Hm. simpl in Hm. apply list_elem_of_singleton in Hm as ->. revert Hx. by apply map_get_None.
Qed.

Lemma put_endpoint_other t key record now k : k <> key -> NoDup t.*1 ->
  map_get k (putEndpoint t key record now).1 = map_get k (purge_endpoints now t).
Proof.
  intros Hk Hn. unfold putEndpoint. set (t1 := purge_endpoints now t).
  assert (map_get k (endpoint t1 key now).1 = map_get k t1) as He.
  { unfold endpoint, deleteEndpoint. destruct (map_get key t1); [destruct (_ <=? _)|]; cbn [fst]; rewrite ?map_get_delete; by rewrite ?decide_False. }
  destruct (endpoint t1 key now) as [t2 current]. cbn [fst] in He. destruct (_ && _); cbn [fst]; [done|]. rewrite map_get_set. by rewrite decide_False.
Qed.

Section Service.
Context (sha256 : jstr -> jstr) (number_of_string : jstr -> option jsnum) (parse_json : list N -> res jsv).
Context (verify : option (jsv -> option jstr -> Z -> option jsv)) (env : apns_env) (instance : option jstr).

#[local] Existing Instance node_pairing_store.

Lemma authorize_request_ok q room pin n : node_wf n ->
  exists db, (authorize_request sha256 q room pin n).2 = with_db db n /\ db_in room (nd_rooms n) db /\ node_wf (with_db db n).
Proof.
  intros Hwf. unfold authorize_request. destruct room as [room|].
  - pose proof (authorize_in sha256 (nd_rooms n) room (bearer (hm_authorization q)) pin (nd_now n)) as Hi.
    pose proof (authorize_wf sha256 (nd_rooms n) room (bearer (hm_authorization q)) pin (nd_now n)) as Hw.
    destruct (authorize _ _ _ _ _ _) as [ok db]. exists db. split_and!; [done|exact Hi|]. by apply with_db_wf.
  - exists (nd_rooms n). assert (with_db (nd_rooms n) n = n) as -> by (by destruct n as [[] ? ? ? ? ?]). done.
Qed.

(** A change of the pairings after a cleanup. *)
Lemma purged_pairing_confined (n : node) (mailbox : jstr) (f : pairings -> pairings * bool) :
  node_wf n -> (forall t, NoDup t.*1 -> NoDup (f t).1.*1) ->
  (forall t m, NoDup t.*1 -> m <> mailbox -> map_get m (f t).1 = map_get m (purge_pairings (nd_now n) t)) ->
  forall threw, confined None (Some mailbox) n
    (at_node (purged {| at_node := n; at_threw := threw |} (fun n => let '(t, ok) := f (nd_pairings n) in (with_pairings t n, ok))).1).
Proof.
  intros Hwf Hnd Hf threw. unfold purged. cbn [at_node]. destruct (purge_node_ok n Hwf) as (n1 & E & Hwf1). rewrite E.
  destruct (purge_node_parts n n1 E) as (Hp & _ & Hnow & _). specialize (Hnd (nd_pairings n1) (nw_pairings _ Hwf1)). specialize (Hf (nd_pairings n1)).
  destruct (f (nd_pairings n1)) as [t ok]. cbn [fst at_node]. apply (confined_purged _ _ n n1); [done| |by apply with_pairings_wf].
  split; try done; [symmetry; apply with_same_rooms|]. intros m Hm. cbn [nd_pairings with_pairings]. cbn [fst] in Hf.
  rewrite Hf by (done || apply Hwf1 || congruence). by rewrite Hp, purged_pairings.
Qed.

Lemma pairing_request_confined q mailbox n : node_wf n -> confined None (Some mailbox) n (pairing_request parse_json q mailbox n).2.
Proof.
  intros Hwf. unfold pairing_request. destruct (if _ || _ then _ else _) as [body|]; [|by apply footprint_kept].
  match goal with |- context[handlePairing ?a ?m ?mb ?b ?t] =>
    assert (confined None (Some mailbox) n (at_node (handlePairing a m mb b t).1)) as H; [|by destruct (handlePairing a m mb b t)] end.
  unfold handlePairing. destruct (_ =?s "HEAD").
  { pose proof (purged_pairing_confined n mailbox (fun t => peekPairing t mailbox (nd_now n)) Hwf) as H. cbn [pair_peek node_pairing_store].
    destruct (purged _ _) as [a ok] eqn:E. cbn [fst]. specialize (H ltac:(intros t Hn; eapply sublist_NoDup; [exact Hn|apply sublist_keys, sublist_filter]) ltac:(done) false).
    cbv beta in H. by rewrite E in H. }
  destruct (_ =?s "GET").
  { cbn. apply footprint_confined.
    - split; try done; [symmetry; apply with_same_rooms|]. intros m Hm. cbn. rewrite map_get_delete. rewrite decide_False by congruence. done.
    - apply with_pairings_wf; [apply map_delete_nodup, Hwf|done]. }
  destruct (_ && _); [by apply footprint_kept|]. destruct (if is_nullish body then None else Some body) as [b|]; [|by apply footprint_kept].
  destruct (_ || _); [by apply footprint_kept|]. cbn [pair_put node_pairing_store].
  match goal with |- context[putPairing _ _ ?p _] =>
    pose proof (purged_pairing_confined n mailbox (fun t => putPairing t mailbox p (nd_now n)) Hwf
                  (fun t => put_pairing_nodup t mailbox p (nd_now n)) (fun t m Hn Hm => put_pairing_other t mailbox p (nd_now n) m Hm Hn) false) as H end.
  cbv beta in H. destruct (purged _ _) as [a ok]. exact H.
Qed.

Lemma endpoint_key_room room recipient key : endpointStorageKey room recipient = Some key -> exists r, room = Some r /\ RoomTable.valid_room r /\ prefix_of key = r.
Proof.
  intros H. destruct room as [r|]; [|done]. exists r. split; [done|]. pose proof (prefix_of_key _ _ _ H) as [Hp _]. split; [|done].
  unfold endpointStorageKey in H. destruct (negb _ || _) eqn:E; [done|]. apply orb_false_iff in E as [E _]. by apply negb_false_iff in E.
Qed.

(** Deleting or replacing a record of the room. *)
Lemma endpoints_footprint room mailbox db t n1 :
  db_in (Some room) (nd_rooms n1) db -> (forall key, prefix_of key <> room -> map_get key t = map_get key (nd_endpoints n1)) ->
  footprint (Some room) mailbox n1 (with_endpoints t (with_db db n1)).
Proof.
  intros Hdb Ht. split; try done. intros key Hk. apply Ht. congruence.
Qed.

Lemma endpoint_read_wf t key now : endpoints_wf t -> endpoints_wf (endpoint t key now).1.
Proof.
  intros H. assert (endpoints_wf (deleteEndpoint key t)) by (eapply endpoints_sublist; [apply map_delete_sublist|exact H]).
  unfold endpoint. destruct (map_get key t) as [e|]; [destruct (_ <=? _)|]; done.
Qed.

Lemma endpoint_other t key now k : k <> key -> map_get k (endpoint t key now).1 = map_get k t.
Proof.
  intros Hk. unfold endpoint, deleteEndpoint. destruct (map_get key t) as [e|]; [destruct (_ <=? _)|]; cbn [fst]; rewrite ?map_get_delete; by rewrite ?decide_False.
Qed.

Lemma endpoint_request_confined q url n : node_wf n -> confined (nu_room url) None n (endpoint_request sha256 parse_json q url n).2.
Proof.
  intros Hwf. unfold endpoint_request. destruct (endpointStorageKey (nu_room url) (nu_recipient url)) as [key|] eqn:Ek; [|by apply footprint_kept].
  destruct (endpoint_key_room _ _ _ Ek) as (room & Hr & Hv & Hpre). rewrite Hr in Ek |- *.
  match goal with |- context[endpointResponse ?o ?m ?r ?b ?t ?a] =>
    assert (confined (Some room) None n (at_node (endpointResponse o m r b t a).1)) as H; [|by destruct (endpointResponse o m r b t a)] end.
  unfold endpointResponse. destruct (negb _); [by apply footprint_kept|]. destruct (negb _); [by apply footprint_kept|]. cbv zeta. destruct (_ && _); [by apply footprint_kept|].
  cbn [eo_authorize endpoint_store at_node at_threw].
  destruct (authorize_request_ok q (Some room) (hm_method q =?s "PUT") n Hwf) as (db & Ea & Hin & Hwf1).
  destruct (authorize_request _ _ _ _ _) as [ok n1]. cbn [snd] in Ea. subst n1.
  assert (forall t, (forall k, prefix_of k <> room -> map_get k t = map_get k (nd_endpoints n)) -> endpoints_wf t ->
            confined (Some room) None n (with_endpoints t (with_db db n))) as Hsame.
  { intros t Ht Hwt. apply footprint_confined; [by eapply endpoints_footprint|]. by apply with_endpoints_wf. }
  assert (confined (Some room) None n (with_db db n)) as Hdb by (apply footprint_confined; [by apply footprint_db|done]).
  destruct (negb ok); [exact Hdb|]. destruct (_ =?s "PUT").
  - cbn [eo_put endpoint_store]. unfold purged. cbn [at_node at_threw].
    destruct (purge_node_ok n Hwf) as (n1 & E & Hwfp). destruct (purge_node_parts n n1 E) as (_ & He & Hnow & Hcomm). rewrite (Hcomm db).
    cbn [nd_endpoints with_db with_relay].
    match goal with |- context[putEndpoint _ _ ?r _] => pose proof (fun k Hk => put_endpoint_other (nd_endpoints n1) key r (nd_now n) k Hk (ew_keys _ (nw_endpoints _ Hwfp))) as Ho;
      pose proof (put_endpoint_wf (nd_endpoints n1) room (nu_recipient url) key r (nd_now n) Ek (nw_endpoints _ Hwfp)) as Hw end.
    destruct (putEndpoint _ _ _ _) as [t stored]. cbn [fst at_node] in *. apply (confined_purged _ _ n n1); [done| |].
    + assert (nd_rooms n1 = nd_rooms n) as Hrooms by (revert E; unfold purge_node; destruct (TaskStore.purge _ _) as [[]]; [by intros [= <-]|done]).
      apply (endpoints_footprint room None db t n1); [by rewrite Hrooms|]. intros k Hk. rewrite Ho by congruence. by rewrite He, purged_endpoints.
    + apply with_endpoints_wf; [done|]. apply with_db_wf; [|done]. intros _. apply Hwf1.
  - destruct (_ =?s "DELETE").
    + cbn [fst at_node eo_delete endpoint_store]. apply Hsame.
      * intros k Hk. unfold deleteEndpoint. cbn [nd_endpoints with_db with_relay]. rewrite map_get_delete. rewrite decide_False by congruence. done.
      * eapply endpoints_sublist; [apply map_delete_sublist|]. apply Hwf.
    + cbn [eo_get endpoint_store at_node at_threw]. cbn [nd_endpoints with_db with_relay].
      pose proof (endpoint_read_wf (nd_endpoints n) key (nd_now n) (nw_endpoints _ Hwf)) as Hw. pose proof (endpoint_other (nd_endpoints n) key (nd_now n)) as Ho.
      destruct (endpoint _ _ _) as [t found]. cbn [fst] in *.
      assert (confined (Some room) None n (with_endpoints t (with_db db n))) as Ht by (apply Hsame; [intros k Hk; apply Ho; congruence|done]).
      destruct found as [c|]; [|exact Ht]. cbn [fmap option_fmap option_map]. destruct (validEndpointRecord _ _); [exact Ht|].
      cbn [fst at_node eo_delete endpoint_store nd_endpoints with_endpoints]. apply (Hsame (deleteEndpoint key t)).
      * intros k Hk. unfold deleteEndpoint. rewrite map_get_delete. rewrite decide_False by congruence. apply Ho. congruence.
      * eapply endpoints_sublist; [apply map_delete_sublist|done].
Qed.

Lemma task_request_confined q url n : node_wf n -> confined (nu_room url) None n (task_request sha256 number_of_string parse_json q url n).2.
Proof.
  intros Hwf. unfold task_request. set (rq := TaskHttp.Build_request _ _ _ _ _ _ _).
  assert (tasks_wf (TaskHttp.node_response sha256 number_of_string (nd_tasks n) rq (nd_now n)).2 /\
    match nu_room url with Some room => other_tasks room (nd_tasks n) (TaskHttp.node_response sha256 number_of_string (nd_tasks n) rq (nd_now n)).2
    | None => (TaskHttp.node_response sha256 number_of_string (nd_tasks n) rq (nd_now n)).2 = nd_tasks n end) as [Hw Ho].
  { assert (TaskHttp.rq_room rq = nu_room url) as Hr by done. destruct (nu_room url) as [room|]; [apply task_response_keeps; [done|apply Hwf]|].
    unfold TaskHttp.node_response, TaskHttp.taskDispatchResponse. rewrite Hr. split; [apply Hwf|done]. }
  destruct (TaskHttp.node_response _ _ _ _ _) as [result tasks]. cbn [snd] in *. apply footprint_confined; [|by apply with_tasks_wf].
  split; try done. symmetry. apply with_same_rooms.
Qed.

Lemma handle_other configured (m : machine (S := activity_table)) rq r : al_wf (mc_registry m) -> Some r <> ar_room rq ->
  al_rows (handle configured (mc_registry m) rq (mc_now m)).1 r (mc_now m) = al_rows (mc_registry m) r (mc_now m).
Proof.
  intros Hwf Hne. unfold handle. destruct (ar_room rq) as [room|]; [|done]. repeat (destruct (negb _); [done|]). destruct (ar_path rq =?s _).
  - destruct (negb _); [done|]. pose proof (al_list (mc_registry m) room (mc_now m) Hwf) as Hl. destruct (act_list _ _ _) as [s1 l]. by apply Hl.
  - destruct (negb _); [done|]. destruct (ar_body rq) as [body|]; [|done]. destruct (_ =?s _); [|by destruct (negb _)].
    unfold registration. destruct (ar_method rq =?s "DELETE").
    + destruct (_ || _); [done|]. apply (al_remove (mc_registry m) room _ (mc_now m) Hwf). congruence.
    + destruct (validActivityRegistration body (mc_now m)) eqn:Ev; [|done]. cbn [negb].
      pose proof (al_register (mc_registry m) room body (mc_now m) Hwf Ev) as Hr. destruct (act_register _ _ _ _) as [s1 ok].
      destruct Hr as (_ & _ & _ & H3). by destruct (negb ok); cbn [fst]; apply H3; congruence.
Qed.

Lemma activities_request_confined q url n : node_wf n -> confined (nu_room url) None n (activities_request sha256 parse_json env q url n).2.
Proof.
  intros Hwf. unfold activities_request. set (rq := Build_activity_request _ _ _ _ _).
  pose proof (with_activities_wf (activity_configured env) (Request rq) n Hwf) as Hw.
  assert (mc_now (activity_step (activity_configured env) (nd_activities n) (Request rq)).1 = nd_now n /\
    forall r, Some r <> nu_room url -> live_rows (activity_step (activity_configured env) (nd_activities n) (Request rq)).1 r = live_rows (nd_activities n) r) as [Hnow Hr].
  { pose proof (handle_other (activity_configured env) (nd_activities n) rq) as Ho. cbn [activity_step].
    destruct (handle _ _ _ _) as [s [reply|update]]; cbn [fst mc_now] in *; (split; [done|]); intros r Hne; exact (Ho r (mw_registry _ (nw_activities _ Hwf)) Hne). }
  destruct (activity_step _ _ _) as [m out]. cbn [fst snd] in *. apply footprint_confined; [|exact Hw]. split; try done; [symmetry; apply with_same_rooms|apply other_tasks_refl].
Qed.

Lemma push_request_confined q url n : node_wf n -> confined (nu_room url) None n (push_request sha256 parse_json env q url n).2.
Proof.
  intros Hwf. unfold push_request. destruct (if push_reads sha256 q url n then _ else _) as [body|].
  - pose proof (node_push_in sha256 env (nd_rooms n) (nu_path url) (hm_method q) (nu_room url) (bearer (hm_authorization q)) body (nd_now n)) as [Hi Hw].
    destruct (node_push _ _ _ _ _ _ _ _ _) as [result db]. cbn [snd] in *. apply footprint_confined; [by apply footprint_db|by apply with_db_wf].
  - destruct (authorize_request_ok q (nu_room url) true n Hwf) as (db & -> & Hi & Hw).
    apply footprint_confined; [|done]. by apply footprint_db.
Qed.

(** The room and the mailbox that a request is about. *)
Definition request_room (q : http_message) : option jstr :=
  match hm_url q with
  | Some url => match routeHttp (hm_method q) (nu_path url) with Tasks | EndpointService | ActivityService | Push _ => nu_room url | _ => None end
  | None => None
  end.
Definition request_mailbox (q : http_message) : option jstr :=
  match hm_url q with
  | Some url => match routeHttp (hm_method q) (nu_path url) with Routing.Pairing mailbox => Some mailbox | _ => None end
  | None => None
  end.

Lemma serve_confined q decision n : node_wf n ->
  confined (request_room q) (request_mailbox q) n (serve sha256 number_of_string parse_json env instance q decision n).2.
Proof.
  intros Hwf. assert (confined (request_room q) (request_mailbox q) n (route_request sha256 number_of_string parse_json env instance q n).2) as Hr.
  { unfold route_request, request_room, request_mailbox. destruct (hm_url q) as [url|]; [|by apply footprint_kept].
    destruct (routeHttp _ _); [by apply footprint_kept|by apply pairing_request_confined|by apply task_request_confined|by apply endpoint_request_confined
      |by apply activities_request_confined|by apply push_request_confined|by apply footprint_kept..]. }
  unfold serve. destruct decision as [[d fallback]|]; [|exact Hr]. destruct (setClientDecision d fallback) as [headers|]; [|by apply footprint_kept].
  destruct (negb _); [by apply footprint_kept|]. by destruct (route_request _ _ _ _ _ _ _).
Qed.
End Service.

(** ** Runs of the process *)

Section Runs.
Context (sha256 : jstr -> jstr) (number_of_string : jstr -> option jsnum) (parse_json : list N -> res jsv).
Context (verify : option (jsv -> option jstr -> Z -> option jsv)) (env : apns_env) (instance : option jstr).
Context (parse : jstr -> option jsv) (buffered : delivery -> nat -> Z) (throws : delivery -> nat -> bool).

(** Everything that happens in the process: events of its sockets, HTTP requests whenever
    their admission was decided, the cleanup timer, the steps of deliveries, offers of
    jobs, whatever the wake delivery saves, and the end of a wake. *)
Inductive node_step (n : node) : node -> Prop :=
| ns_relay r : relay_reach sha256 parse verify buffered throws (nd_relay n) r -> node_step n (with_relay r n)
| ns_http q decision : node_step n (serve sha256 number_of_string parse_json env instance q decision n).2
| ns_cleanup n' : purge_node n = Ok n' -> node_step n n'
| ns_activity e : node_step n (with_activities (activity_step (activity_configured env) (nd_activities n) e).1 n)
| ns_offer room recipient excluded :
    node_step n (with_tasks (TaskHttp.with_jobs (nd_tasks n) (TaskStore.due (TaskHttp.nt_jobs (nd_tasks n)) room recipient (nd_now n) excluded).2) n)
| ns_wake room st : node_step n (with_wakes (saveWakeState room st (nd_wakes n)) n)
| ns_notified room sent : node_step n (with_db (node_wake_end (nd_rooms n) room sent (nd_now n)).2 n).

Inductive node_reach (n0 : node) : node -> Prop :=
| nr_start : node_reach n0 n0
| nr_step n n' : node_reach n0 n -> node_step n n' -> node_reach n0 n'.

Lemma node_step_wf n n' : node_step n n' -> node_wf n -> node_wf n'.
Proof.
  intros Hs Hwf. destruct Hs as [r Hr|q d|n' E|e|room recipient excluded|room st|room sent].
  - destruct (relay_reach_ok _ _ _ _ _ _ _ Hr (nw_relay _ Hwf) (nw_capacity _ Hwf)). destruct Hwf. split; assumption.
  - by apply serve_confined.
  - destruct (purge_node_ok n Hwf) as (n1 & E1 & Hw). congruence.
  - by apply with_activities_wf.
  - apply with_tasks_wf; [|done]. destruct (nw_tasks _ Hwf) as [Hj Hg Hc]. split; [|done|done].
    exact (TaskStore.store_exec_wf sha256 _ (nd_now n) (TaskStore.SDue room recipient excluded) Hj).
  - destruct Hwf. split; assumption.
  - apply with_db_wf; [|done]. unfold node_wake_end. cbn [snd]. destruct (stale_tokens sent); [done|apply removePushTokens_wf].
Qed.

Lemma node_reach_wf n0 n : node_reach n0 n -> node_wf n0 -> node_wf n.
Proof. induction 1 as [|n n' _ IH Hs]; [done|]. intros Hw. by eapply node_step_wf; [|apply IH]. Qed.

(** C1: The process as a whole stays well formed: from a well-formed state (an empty one, for
    one), however socket events, HTTP requests with any method, path, body and credential,
    cleanups, deliveries, offers and wakes interleave, every component keeps its own
    invariant - rooms, retained state, cool-downs, buffered frames, sockets and their
    number per room, scheduled jobs, writer grants, configurations, pairing mailboxes,
    endpoint records and activities - and the cleanup that runs on a timer and before
    some requests never fails. *)
Theorem service_stays_well_formed (n0 n : node) : node_wf n0 -> node_reach n0 n -> node_wf n /\ exists n', purge_node n = Ok n'.
Proof.
  intros H0 Hr. pose proof (node_reach_wf n0 n Hr H0) as Hw. split; [done|]. destruct (purge_node_ok n Hw) as (n' & E & _). by exists n'.
Qed.

(** C7: Rooms are isolated over HTTP: whatever a request asks, and however the quota
    service decides, apart from a cleanup of what has expired the process is as before
    except for the tables of the request's own room, or its pairing mailbox.  Rows, jobs,
    grants, configurations, endpoint records and activities of other rooms, other
    mailboxes, every connection and buffered frame, retained state, wakes, every queued
    submission of every room and every pinned credential stay as they are. *)
Theorem requests_stay_in_their_room (n0 n : node) (q : http_message) (decision : option (access_decision * bool)) :
  node_wf n0 -> node_reach n0 n ->
  let n' := (serve sha256 number_of_string parse_json env instance q decision n).2 in
  (exists n1, (n1 = n \/ purge_node n = Ok n1) /\ footprint (request_room q) (request_mailbox q) n1 n') /\
  (forall room r, NodeRooms.rows_of room (nd_rooms n') r = NodeRooms.rows_of room (nd_rooms n) r) /\
  (forall room digest, authDigest (nd_rooms n) room = Some digest -> authDigest (nd_rooms n') room = Some digest) /\
  rl_sockets (nd_relay n') = rl_sockets (nd_relay n) /\ rl_delivery (nd_relay n') = rl_delivery (nd_relay n).
Proof.
  intros H0 Hr n'. destruct (serve_confined sha256 number_of_string parse_json env instance q decision n (node_reach_wf n0 n Hr H0)) as [(n1 & Hn1 & Hf) _].
  fold n' in Hf. assert (nd_rooms n1 = nd_rooms n /\ rl_sockets (nd_relay n1) = rl_sockets (nd_relay n) /\ rl_delivery (nd_relay n1) = rl_delivery (nd_relay n)) as (E1 & E2 & E3).
  { destruct Hn1 as [->|E]; [done|]. revert E. unfold purge_node. destruct (TaskStore.purge _ _) as [[]]; [by intros [= <-]|done]. }
  split; [by exists n1|]. destruct Hf as [[_ Hq Hp] Hrel _ _ _ _ _ _]. rewrite E1 in Hq, Hp. split_and!; [done|done|by rewrite Hrel|by rewrite Hrel].
Qed.

(** ** Callers without a credential *)

Lemma refused_pin db room credential now :
  (authorize sha256 db room credential true now).1 = false -> forall pin, authorize sha256 db room credential pin now = (false, db).
Proof.
  intros H. pose proof (authorize_spec sha256 db room credential now) as Hs. unfold authorize in *. destruct (negb _); [done|].
  destruct (authDigest db room) as [current|] eqn:E; [intros pin; cbn [fst] in H; by rewrite H|]. intros [|]; [|done]. cbn [negb] in *.
  destruct (pinAuth _ _ _ _) as [e db']. cbn [fst] in H. rewrite H in Hs |- *. by subst.
Qed.

(** The request's credential is neither its room's, nor could it claim the room, nor
    does it name a writer grant. *)
Definition stranger (n : node) (q : http_message) : Prop :=
  forall room, request_room q = Some room ->
    (authorize sha256 (nd_rooms n) room (bearer (hm_authorization q)) true (nd_now n)).1 = false /\
    forall retained, Writers.authorize sha256 (TaskHttp.nt_grants (nd_tasks n)) room (Some (bearer (hm_authorization q))) (nd_now n) retained = None.

Lemma with_db_same n : with_db (nd_rooms n) n = n.
Proof. by destruct n as [[] ? ? ? ? ?]. Qed.

(** An answer that refuses. *)
Definition refuses (x : served * node) (n : node) : Prop := x.2 = n /\ exists r, x.1 = Sent r /\ 400 <= hr_status r.

Lemma refuses_json status body n : 400 <= status -> refuses (sendJson status body, n) n.
Proof. intros H. split; [done|]. by eexists. Qed.

Lemma stranger_authorizes q url n pin : hm_url q = Some url -> request_room q = nu_room url -> stranger n q ->
  authorize_request sha256 q (nu_room url) pin n = (false, n).
Proof.
  intros Hu Hr Hs. unfold authorize_request. rewrite <- Hr. destruct (request_room q) as [room|] eqn:E; [|done].
  destruct (Hs room E) as [Ha _]. rewrite (refused_pin _ _ _ _ Ha). by rewrite with_db_same.
Qed.

Lemma stranger_task q url n : hm_url q = Some url -> request_room q = nu_room url -> stranger n q ->
  refuses (task_request sha256 number_of_string parse_json q url n) n.
Proof.
  intros Hu Hr Hs. unfold task_request. rewrite (stranger_authorizes q url n false Hu Hr Hs). cbn [fst].
  unfold TaskHttp.node_response, TaskHttp.taskDispatchResponse. cbn [TaskHttp.rq_room TaskHttp.rq_owner TaskHttp.rq_method TaskHttp.rq_pathname TaskHttp.rq_credential TaskHttp.rq_metadataOnly].
  assert (forall status error, refuses (sendJson status (TaskBody (TaskHttp.BError error)), with_tasks (nd_tasks n) n) n <-> 400 <= status) as Hw.
  { intros st e. assert (with_tasks (nd_tasks n) n = n) as -> by (by destruct n). split; [|apply refuses_json]. intros (_ & r & [= <-] & H). exact H. }
  destruct (nu_room url) as [room|] eqn:E; [|by apply Hw]. destruct (negb (validRoom (JStr room))); [by apply Hw|].
  cbn [TaskHttp.tb_authorize TaskHttp.node_backend negb andb]. destruct (Hs room ltac:(by rewrite Hr)) as [_ Hg]. rewrite Hg.
  rewrite bool_decide_eq_true_2 by done. by apply Hw.
Qed.

Lemma stranger_endpoint q url n : hm_url q = Some url -> request_room q = nu_room url -> stranger n q ->
  refuses (endpoint_request sha256 parse_json q url n) n.
Proof.
  intros Hu Hr Hs. unfold endpoint_request. destruct (endpointStorageKey _ _) as [key|]; [|by apply refuses_json].
  unfold endpointResponse. destruct (negb _); [by apply refuses_json|]. destruct (negb _); [by apply refuses_json|]. cbv zeta. destruct (_ && _); [by apply refuses_json|].
  cbn [eo_authorize endpoint_store at_node at_threw]. rewrite (stranger_authorizes q url n _ Hu Hr Hs). cbn [negb]. by apply refuses_json.
Qed.

Lemma stranger_activity q url n : hm_url q = Some url -> request_room q = nu_room url -> stranger n q ->
  refuses (activities_request sha256 parse_json env q url n) n.
Proof.
  intros Hu Hr Hs. unfold activities_request. rewrite (stranger_authorizes q url n false Hu Hr Hs). cbn [fst].
  assert (forall m : machine (S := activity_table), {| mc_registry := mc_registry m; mc_now := mc_now m; mc_inFlight := mc_inFlight m |} = m) as Hm by (by intros []).
  assert (with_activities (nd_activities n) n = n) as Hn by (by destruct n).
  cbn [activity_step]. unfold handle. cbn [ar_room ar_path ar_authorized].
  destruct (nu_room url) as [room|]; [|rewrite Hm, Hn; by apply refuses_json].
  destruct (negb _); [rewrite Hm, Hn; by apply refuses_json|]. destruct (negb _); [rewrite Hm, Hn; by apply refuses_json|]. cbn [negb]. rewrite Hm, Hn. by apply refuses_json.
Qed.

Lemma stranger_push q url n : hm_url q = Some url -> request_room q = nu_room url -> stranger n q ->
  refuses (push_request sha256 parse_json env q url n) n.
Proof.
  intros Hu Hr Hs. unfold push_request, push_reads. rewrite (stranger_authorizes q url n true Hu Hr Hs). cbn [fst]. rewrite andb_false_r. cbn [andb].
  unfold node_push. destruct (nu_room url) as [room|] eqn:E; [|rewrite with_db_same; by apply refuses_json].
  destruct (negb _); [rewrite with_db_same; by apply refuses_json|]. destruct (Hs room ltac:(by rewrite Hr)) as [Ha _].
  rewrite (refused_pin _ _ _ _ Ha). cbn [negb]. rewrite with_db_same. by apply refuses_json.
Qed.

(** C6: A caller without a credential changes nothing: a request to the task, endpoint,
    activity or push services whose credential is not the one pinned for the room, could
    not claim it, and names no writer grant is refused with an error status whatever its
    method, path, parameters and body, however the quota service decides, and the state
    of the process is exactly the one before. *)
Theorem strangers_change_nothing (n : node) (q : http_message) (url : node_url) (decision : option (access_decision * bool)) :
  hm_url q = Some url -> match routeHttp (hm_method q) (nu_path url) with Tasks | EndpointService | ActivityService | Push _ => True | _ => False end ->
  stranger n q ->
  let '(answer, n') := serve sha256 number_of_string parse_json env instance q decision n in
  n' = n /\ exists r, answer = Sent r /\ 400 <= hr_status r.
Proof.
  intros Hu Hserv Hs. assert (request_room q = nu_room url) as Hr by (unfold request_room; rewrite Hu; by destruct (routeHttp _ _)).
  assert (refuses (route_request sha256 number_of_string parse_json env instance q n) n) as Hroute.
  { unfold route_request. rewrite Hu. destruct (routeHttp _ _); try done;
      [by apply stranger_task|by apply stranger_endpoint|by apply stranger_activity|by apply stranger_push]. }
  assert (refuses (serve sha256 number_of_string parse_json env instance q decision n) n) as H; [|by destruct (serve _ _ _ _ _ _ _ _)].
  unfold serve. destruct decision as [[d fallback]|]; [|done]. destruct (setClientDecision d fallback) as [headers|]; [|by apply refuses_json].
  destruct (negb _); [split; [done|]; eexists; split; [reflexivity|]; simpl; lia|].
  destruct Hroute as (Hn & r & Er & Hst). destruct (route_request _ _ _ _ _ _ _) as [answer n']. cbn [fst snd] in *. subst.
  split; [done|]. eexists. split; [reflexivity|]. exact Hst.
Qed.
End Runs.

(** ** Examples and witnesses *)

Module Examples.
Definition room : jstr := "00112233445566778899".
Definition other_room : jstr := "99887766554433221100".
Definition owner : jstr := NodeUpgrade.Examples.credential.
Definition intruder : jstr := JS (repeat 98%N 64).
(** A digest that tells the two credentials apart. *)
Definition sample_sha (s : jstr) : jstr := JS (repeat (if s =?s owner then 48%N else 49%N) 64).
Definition no_number (s : jstr) : option jsnum := None.
(** Every body parses to a sealed endpoint record. *)
Definition record : jsv := JObj [("nonce", JStr "AAAAAAAAAAAAAAAAAAAAAAAAAAAAAAAA"); ("box", JStr "AAAAAAAAAAAAAAAAAAAAAAAA"); ("expiresAt", JNum (NInt 100))]%js.
Definition sample_parse (bytes : list N) : res jsv := Ok record.
Definition env : apns_env := PushDevices.Examples.sample_env.
Definition empty_node (now : Z) : node :=
  {| nd_relay := NodeUpgrade.Examples.empty_relay;
     nd_tasks := {| TaskHttp.nt_jobs := []; TaskHttp.nt_grants := Writers.Grants [] []; TaskHttp.nt_configs := [] |};
     nd_pairings := []; nd_endpoints := []; nd_activities := {| mc_registry := []; mc_now := now; mc_inFlight := [] |}; nd_wakes := [] |}.

Lemma empty_node_wf now : node_wf (empty_node now).
Proof.
  split.
  - apply NodeUpgrade.Examples.empty_relay_wf.
  - intros r. vm_compute. discriminate.
  - split; [apply TaskStore.empty_wf|apply Writers.empty_grants_wf|apply Configurations.empty_table_bounded].
  - constructor.
  - split; [constructor|intros e He; by apply elem_of_nil in He|]. intros r _. vm_compute. discriminate.
  - split; [split; [constructor|intros e He; by apply elem_of_nil in He]|]. intros key. split; [done|]. intros ? ? He. by apply elem_of_nil in He.
  - intros r. vm_compute. discriminate.
Qed.

Definition message (method path : jstr) (room : jstr) (credential : jstr) : http_message :=
  {| hm_method := method; hm_url := Some {| nu_path := path; nu_room := Some room; nu_recipient := None; nu_metadata := None |};
     hm_authorization := Some ("Bearer " +++ credential); hm_admission := None; hm_remote := None; hm_realIp := None;
     hm_declared := None; hm_body := {| st_chunks := [[123; 125]]%N; st_fails := false |} |}.

Definition served (q : http_message) (n : node) : NodeHttp.served * node := serve sample_sha no_number sample_parse env None q None n.

(** The owner's endpoint claims the room. *)
Definition claimed : node := (served (message "PUT" "/endpoint" room owner) (empty_node 10)).2.

Example endpoint_is_stored :
  fst (served (message "PUT" "/endpoint" room owner) (empty_node 10)) = sendJson 200 (EndpointBody EndpointOk) /\
  length (nd_endpoints claimed) = 1%nat /\ authDigest (nd_rooms claimed) room = Some (sample_sha owner) /\
  fst (served (message "GET" "/endpoint" room owner) claimed) = sendJson 200 (EndpointBody (EndpointFound record)) /\
  fst (served (message "GET" "/endpoint" room intruder) claimed) = sendJson 401 (EndpointBody (EndpointStatus 401 "invalid room credential")).
Proof. vm_compute. repeat split; reflexivity. Qed.

Lemma claimed_reached : node_reach sample_sha no_number sample_parse None env None (fun _ => None) (fun _ _ => 0) (fun _ _ => false) (empty_node 10) claimed.
Proof. eapply nr_step; [apply nr_start|]. apply ns_http. Qed.

Lemma service_stays_well_formed_witness :
  length (nd_endpoints claimed) = 1%nat /\ node_wf claimed /\ exists n', purge_node claimed = Ok n'.
Proof.
  split; [vm_compute; reflexivity|].
  exact (service_stays_well_formed sample_sha no_number sample_parse None env None (fun _ => None) (fun _ _ => 0) (fun _ _ => false)
           (empty_node 10) claimed (empty_node_wf 10) claimed_reached).
Defined.

Lemma requests_stay_in_their_room_witness :
  let n' := (served (message "PUT" "/endpoint" other_room intruder) claimed).2 in
  authDigest (nd_rooms n') other_room = Some (sample_sha intruder) /\ authDigest (nd_rooms n') room = Some (sample_sha owner).
Proof.
  split; [vm_compute; reflexivity|].
  refine (proj1 (proj2 (proj2 (requests_stay_in_their_room sample_sha no_number sample_parse None env None (fun _ => None) (fun _ _ => 0) (fun _ _ => false)
    (empty_node 10) claimed (message "PUT" "/endpoint" other_room intruder) None (empty_node_wf 10) claimed_reached))) room (sample_sha owner) _).
  vm_compute. reflexivity.
Defined.

Lemma strangers_change_nothing_witness :
  let q := message "PUT" "/endpoint" room intruder in stranger sample_sha claimed q /\ (served q claimed).2 = claimed.
Proof.
  intros q. assert (stranger sample_sha claimed q) as Hs.
  { intros r Hr. assert (r = room) as -> by (vm_compute in Hr; injection Hr as <-; reflexivity). split; [vm_compute; reflexivity|].
    intros retained. vm_compute. reflexivity. }
  split; [exact Hs|].
  pose proof (strangers_change_nothing sample_sha no_number sample_parse env None claimed q
    {| nu_path := "/endpoint"; nu_room := Some room; nu_recipient := None; nu_metadata := None |} None eq_refl ltac:(vm_compute; exact I) Hs) as H.
  unfold served. destruct (serve _ _ _ _ _ _ _ _) as [answer n']. exact (proj1 H).
Defined.
End Examples.
