(* ===== verification/RoomHttp.v ===== *)
(** * The HTTP service of a Durable Object room
    [fetch], [handleEndpoint], [handlePushRegistration] and [handlePushStatus] of
    [src/relay/room.js], [handleRoomTaskDispatch] of [src/taskDispatch/worker-room.js] and
    [handleRoomTaskActivities] of [src/taskActivities/delivery/worker-room.js].

    [room_service] is everything one object keeps: its sockets and storage
    ([RoomSocket.room_obj]), its credential and devices, the writer grants and the
    activities.  [fetch] composes the handlers of the other files; a request is one turn,
    its body at hand.  The theorems: no turn leaves the bounds of the storage, a caller
    without the credential changes nothing, and after a request that changed something
    the alarm covers all the room waits for. *)

From S2P Require Import TaskJobs Writers Configurations TaskHttp RoomTable NodeService.
From S2P Require Import Prelude Validation CoolDown ConnectionPolicy Delivery NodeRooms Storage RetainedState RetainedStores Presence SocketDelivery Endpoints TaskWorker TaskOffers.
From S2P Require Import WorkerJobs RoomAlarm WorkerMailbox PushDevices Wake RoomSocket Activities ActivityEndpoint Apns Routing NodeHttp Admission.
#[local] Existing Instances Writers.worker_grants Configurations.worker_configs Configurations.worker_config_laws.
#[local] Open Scope bool_scope.
#[local] Open Scope Z_scope.
#[local] Open Scope js_scope.

(** ** The state of an object *)

Record room_service := {
  sv_push : push_storage; sv_object : room_obj; sv_grants : Writers.do_grants; sv_activities : machine (S := activity_storage);
  sv_sends : list (list NodeRooms.device);   (** the devices read by the wakes whose pushes are under way *)
}.

Definition sv_now (s : room_service) : Z := mc_now (sv_activities s).
Definition sv_store (s : room_service) : room_store := rb_store (sv_object s).

Definition with_push (st : push_storage) (s : room_service) : room_service :=
  {| sv_push := st; sv_object := sv_object s; sv_grants := sv_grants s; sv_activities := sv_activities s; sv_sends := sv_sends s |}.
Definition with_object (r : room_obj) (s : room_service) : room_service :=
  {| sv_push := sv_push s; sv_object := r; sv_grants := sv_grants s; sv_activities := sv_activities s; sv_sends := sv_sends s |}.
Definition with_grants (g : Writers.do_grants) (s : room_service) : room_service :=
  {| sv_push := sv_push s; sv_object := sv_object s; sv_grants := g; sv_activities := sv_activities s; sv_sends := sv_sends s |}.
Definition with_machine (m : machine) (s : room_service) : room_service :=
  {| sv_push := sv_push s; sv_object := sv_object s; sv_grants := sv_grants s; sv_activities := m; sv_sends := sv_sends s |}.
Definition with_sends (l : list (list NodeRooms.device)) (s : room_service) : room_service :=
  {| sv_push := sv_push s; sv_object := sv_object s; sv_grants := sv_grants s; sv_activities := sv_activities s; sv_sends := l |}.
Definition with_storage (rs : room_store) (s : room_service) : room_service :=
  with_object (with_store rs (rb_caches (sv_object s)) (sv_object s)) s.
Definition with_directory (d : directory) (rs : room_store) : room_store :=
  {| rs_directory := d; rs_tasks := rs_tasks rs; rs_configs := rs_configs rs; rs_wake := rs_wake rs |}.

(** A request: its URL's path and parameters, its headers and its body. *)
Record room_message := {
  rm_method : jstr; rm_url : node_url; rm_authorization : option jstr; rm_declared : option Z; rm_body : option stream;
  rm_upgrade : option jstr; rm_recipient : option jstr; rm_routing : option jstr; rm_ingress : option jstr;
  rm_presence : option jstr; rm_dispatch : option jstr;
}.

(** [RoomThrew]: the handler threw, and the platform answers. *)
Inductive room_reply := RoomAnswer (reply : http_reply) | RoomUpgrade (frames : list jsv) | RoomCooling (retryAfter : Z) | RoomDelivers | RoomThrew.

(** [json] *)
Definition json (body : http_body) (status : Z) : room_reply :=
  RoomAnswer {| hr_status := status;
                hr_headers := [("content-type", "application/json"); ("cache-control", "no-store"); ("x-content-type-options", "nosniff")]; hr_body := body |}.

(** ** Scheduled tasks over the object's storage *)

Record worker_tasks := { wt_jobs : wstorage; wt_grants : Writers.do_grants; wt_configs : Configurations.config_storage }.
Definition wt_with_jobs (s : worker_tasks) (jobs : wstorage) : worker_tasks := {| wt_jobs := jobs; wt_grants := wt_grants s; wt_configs := wt_configs s |}.
Definition wt_with_grants (s : worker_tasks) (g : Writers.do_grants) : worker_tasks := {| wt_jobs := wt_jobs s; wt_grants := g; wt_configs := wt_configs s |}.
Definition wt_with_configs (s : worker_tasks) (c : Configurations.config_storage) : worker_tasks := {| wt_jobs := wt_jobs s; wt_grants := wt_grants s; wt_configs := c |}.

(** [header?.replace(/^Bearer /, '')] *)
Definition strip_bearer (header : jstr) : jstr := if starts_with "Bearer " header then JS (drop 7 (units header)) else header.

Section Service.
Context (sha256 : jstr -> jstr) (number_of_string : jstr -> option jsnum) (parse_json : list N -> res jsv) (env : apns_env).
Context (locale_le : jstr -> jstr -> bool).

#[local] Instance worker_backend : TaskHttp.TaskBackend worker_tasks := {|
  TaskHttp.tb_authorize s := Writers.authorize sha256 (wt_grants s);
  TaskHttp.tb_getPublic s room id now m :=
    let '(r, jobs) := worker_getPublic sha256 (wt_jobs s) room id now m in (r, wt_with_jobs s jobs);
  TaskHttp.tb_listActive s room now :=
    match worker_listActive sha256 (wt_jobs s) room now with Ok (r, jobs) => (Ok r, wt_with_jobs s jobs) | Throw => (Throw, s) end;
  TaskHttp.tb_put s room id body now :=
    let '(r, jobs) := worker_put sha256 (wt_jobs s) room id body now in (r, wt_with_jobs s jobs);
  TaskHttp.tb_transition s room id action body now :=
    let '(r, jobs) := worker_transition sha256 (wt_jobs s) room id action body now in (r, wt_with_jobs s jobs);
  TaskHttp.tb_putWriter s room id body now :=
    let '(r, g) := Writers.put Writers.commitWriterGrant (wt_grants s) room id body now in (r, wt_with_grants s g);
  TaskHttp.tb_revokeWriter s room id now :=
    let '(r, g) := Writers.revoke (wt_grants s) room id now in (r, wt_with_grants s g);
  TaskHttp.tb_resources s room id body now :=
    match Writers.resources (wt_grants s) room id body now with Ok (r, g) => (Ok r, wt_with_grants s g) | Throw => (Throw, s) end;
  TaskHttp.tb_getConfiguration s room id now :=
    let '(r, c) := Configurations.get_configuration (wt_configs s) room (JStr id) now in (r, wt_with_configs s c);
  TaskHttp.tb_putConfiguration s room id body now :=
    match Configurations.put (wt_configs s) room (JStr id) body now with
    | Ok (r, v, c) => (Ok (r, v), wt_with_configs s c) | Throw => (Throw, s) end;
|}.

Definition tasks_of (s : room_service) : worker_tasks :=
  {| wt_jobs := rs_tasks (sv_store s); wt_grants := sv_grants s; wt_configs := rs_configs (sv_store s) |}.
Definition put_tasks (t : worker_tasks) (s : room_service) : room_service :=
  with_grants (wt_grants t)
    (with_storage {| rs_directory := rs_directory (sv_store s); rs_tasks := wt_jobs t; rs_configs := wt_configs t; rs_wake := rs_wake (sv_store s) |} s).

Definition read_limited (q : room_message) (limit : Z) : res jsv := readJsonLimited parse_json (rm_declared q) (rm_body q) limit.
Definition credential_of (q : room_message) : jstr := bearer (rm_authorization q).

(** [offerRoomTaskJobs(room)] and [scheduleRoomTaskAlarm(room)] after a handler; an exception
    of either is the handler's. *)
Definition offer_room (throws : nat -> bool) (s : room_service) : room_service * list room_effect * bool :=
  let '(r, out, ok) := offer_jobs sha256 throws (sv_now s) (sv_object s) in (with_object r s, out, ok).
Definition schedule_room (s : room_service) : room_service * bool :=
  let '(r, _, ok) := schedule sha256 (sv_now s) (sv_object s) in (with_object r s, ok).

(** What follows a wake request of a frame, once the wake delivery is done with it:
    [if (await this.wakes.nextAt('room') !== null) await scheduleRoomTaskAlarm(this)]. *)
Definition after_wake (s : room_service) : room_service * bool :=
  match nextAt (rs_wake (sv_store s)) with Some _ => schedule_room s | None => (s, true) end.

Definition handleRoomTaskDispatch (throws : nat -> bool) (q : room_message) (s : room_service) : room_reply * room_service * list room_effect :=
  let '(owner, st) := room_authorize sha256 (sv_push s) (credential_of q) false in
  let rq := {| TaskHttp.rq_method := rm_method q; TaskHttp.rq_pathname := nu_path (rm_url q); TaskHttp.rq_room := nu_room (rm_url q);
               TaskHttp.rq_owner := owner; TaskHttp.rq_credential := strip_bearer <$> rm_authorization q;
               TaskHttp.rq_read := read_limited q; TaskHttp.rq_metadataOnly := header_on (nu_metadata (rm_url q)) |} in
  let '(result, tasks) := TaskHttp.taskDispatchResponse number_of_string (tasks_of s) rq (sv_now s) in
  let s := put_tasks tasks (with_push st s) in
  match result with
  | Throw => (RoomThrew, s, [])
  | Ok r =>
      let answer := json (TaskBody (TaskHttp.rs_body r)) (TaskHttp.rs_status r) in
      if (TaskHttp.rs_status r <? 300) && negb (rm_method q =?s "GET") then
        let '(s, out, offered) := if rm_method q =?s "PUT" then offer_room throws s else (s, [], true) in
        if negb offered then (RoomThrew, s, out) else
        let '(s, scheduled) := schedule_room s in (if scheduled then answer else RoomThrew, s, out)
      else (answer, s, [])
  end.

(** ** The endpoint directory *)

Definition room_endpoints (credential key : jstr) (now : Z) : endpoint_ops (push_storage * directory) := {|
  eo_authorize pin t := let '(ok, st) := room_authorize sha256 t.1 credential pin in ((st, t.2), ok);
  eo_put record t := let '(d, ok) := putDirectoryEndpoint t.2 key record now in ((t.1, d), ok);
  eo_get t := (t, directory_get t.2 key);
  eo_delete t := (t.1, directory_delete t.2 key);
|}.

Definition handleEndpoint (q : room_message) (s : room_service) : room_reply * room_service :=
  match endpointStorageKey (nu_room (rm_url q)) (nu_recipient (rm_url q)) with
  | None => (json (ErrorBody "invalid endpoint recipient") 400, s)
  | Some key =>
      let body := match read_limited q ENDPOINT_BODY_LIMIT with Ok v => Some v | Throw => None end in
      let '(t, reply) := endpointResponse (room_endpoints (credential_of q) key (sv_now s)) (rm_method q) (nu_room (rm_url q)) body (sv_now s)
                           (sv_push s, rs_directory (sv_store s)) in
      let s := with_push t.1 (with_storage (with_directory t.2 (sv_store s)) s) in
      let answer := json (EndpointBody reply) (endpoint_status reply) in
      if endpoint_status reply <? 300 then let '(s, scheduled) := schedule_room s in (if scheduled then answer else RoomThrew, s) else (answer, s)
  end.

(** ** Activities, push registrations, upgrades *)

#[local] Instance activity_registry : ActivityRegistry activity_storage := worker_activities locale_le.

Definition handleRoomTaskActivities (q : room_message) (s : room_service) : room_reply * room_service :=
  let '(owner, st) := room_authorize sha256 (sv_push s) (credential_of q) false in
  let rq := {| ar_path := nu_path (rm_url q); ar_method := rm_method q; ar_room := nu_room (rm_url q); ar_authorized := owner;
               ar_body := match read_limited q ACTIVITY_BODY_LIMIT with Ok v => Some v | Throw => None end |} in
  let '(m, out) := activity_step (activity_configured env) (sv_activities s) (Request rq) in
  (match out with ActivityEndpoint.Answered reply :: _ => json (ActivityBody reply) (activity_status reply) | _ => RoomDelivers end,
   with_machine m (with_push st s)).

Definition handlePushRegistration (q : room_message) (s : room_service) : room_reply * room_service :=
  let body := match read_limited q MAX_PUSH_BODY_BYTES with Ok v => Some v | Throw => None end in
  let '(result, st) := room_push_registration sha256 env (sv_push s) (rm_method q) (credential_of q) body (sv_now s) in
  (match result with Ok reply => json (PushBody reply) (push_reply_status reply) | Throw => RoomThrew end, with_push st s).

Definition handlePushStatus (q : room_message) (s : room_service) : room_reply :=
  let reply := room_push_status sha256 env (sv_push s) (credential_of q) in json (PushBody reply) (push_reply_status reply).

(** The upgrade that the request asks for. *)
Definition upgrade_of (q : room_message) : upgrade_request :=
  {| RoomSocket.up_upgrade := rm_upgrade q; RoomSocket.up_room := nu_room (rm_url q); RoomSocket.up_credential := credential_of q; RoomSocket.up_recipient := rm_recipient q;
     RoomSocket.up_routing := rm_routing q; RoomSocket.up_ingress := rm_ingress q; RoomSocket.up_presence := rm_presence q; RoomSocket.up_dispatch := rm_dispatch q |}.

(** [id] is the handle of the socket that an upgrade makes. *)
Definition accept_socket (q : room_message) (id : nat) (s : room_service) : room_reply * room_service :=
  let '(reply, st, r) := acceptWebSocket sha256 (upgrade_of q) id (sv_now s) (sv_push s) (sv_object s) in
  (match reply with
   | UpgradeError status error => json (ErrorBody error) status
   | UpgradeCooling retryAfter => RoomCooling retryAfter
   | UpgradeAccepted frames => RoomUpgrade frames
   end, with_object r (with_push st s)).

(** ** [fetch] *)

Definition fetch (throws : nat -> bool) (q : room_message) (id : nat) (s : room_service) : room_reply * room_service * list room_effect :=
  match room_fetch (nu_path (rm_url q)) with
  | ActivityService => (handleRoomTaskActivities q s, [])
  | Tasks => handleRoomTaskDispatch throws q s
  | Push false => (handlePushRegistration q s, [])
  | Push true => (handlePushStatus q s, s, [])
  | EndpointService => (handleEndpoint q s, [])
  | _ => (accept_socket q id s, [])
  end.

(** ** The turns of an object *)

(** Besides requests: the events of its sockets, the deliveries of activity updates, and
    the parts of a wake, whose state [Wake] describes ([SvWake] writes it, [SvWoken] is
    what the frame handler does afterwards, [SvPushBegin] and [SvPushEnd] notify the
    devices). *)
Inductive service_event :=
| SvRequest (q : room_message) (id : nat)
| SvSocket (ev : room_event)
| SvActivity (e : activity_event)
| SvWake (w : option wake)
| SvWoken
| SvPushBegin
| SvPushEnd (i : nat) (sent : list (NodeRooms.device * push_outcome)).

(** Hibernation also forgets the deliveries; an object hibernates when none is under way. *)
Definition service_turn (parse : jstr -> option jsv) (throws : nat -> bool) (ev : service_event) (s : room_service) : room_service :=
  match ev with
  | SvRequest q id => (fetch throws q id s).1.2
  | SvSocket ev =>
      let '(st, r) := room_turn parse sha256 (sv_now s) throws ev (sv_push s, sv_object s) in
      let s := with_object r (with_push st s) in
      match ev with
      | EvHibernate => with_sends [] (with_machine {| mc_registry := mc_registry (sv_activities s); mc_now := sv_now s; mc_inFlight := [] |} s)
      | _ => s
      end
  | SvActivity e => with_machine (activity_step (activity_configured env) (sv_activities s) e).1 s
  | SvWake w => with_storage {| rs_directory := rs_directory (sv_store s); rs_tasks := rs_tasks (sv_store s); rs_configs := rs_configs (sv_store s); rs_wake := w |} s
  | SvWoken => (after_wake s).1
  | SvPushBegin => match room_wake_begin env (sv_push s) with Some tokens => with_sends (sv_sends s ++ [tokens]) s | None => s end
  | SvPushEnd i sent =>
      match sv_sends s !! i with
      | Some tokens => with_sends (delete i (sv_sends s)) (with_push (room_wake_end (sv_push s) tokens sent).2 s)
      | None => s
      end
  end.
End Service.

(** ** The bounds of the storage *)

Record worker_tasks_wf (room : jstr) (t : worker_tasks) : Prop := {
  wk_jobs : jobs_wf room (wt_jobs t);
  wk_grants : Writers.grants_wf (wt_grants t);
  wk_configs : Configurations.configs_bounded (wt_configs t);
  wk_own : Forall (fun e => starts_with (RoomTable.do_prefix Configurations.config_space room) e.1 = true) (wt_configs t);
}.

Definition own_configs (room : jstr) (c : Configurations.config_storage) : Prop :=
  Forall (fun e => starts_with (RoomTable.do_prefix Configurations.config_space room) e.1 = true) c.

Lemma own_drop drop room room' (l : list Configurations.configuration) c :
  own_configs room c -> own_configs room (RoomTable.drop_rows (S := Configurations.config_storage) drop room' l c).
Proof.
  unfold RoomTable.drop_rows. revert c. induction l as [|row l IH]; intros c Hc; [done|]. cbn [fold_left]. apply IH. destruct (drop row); [|done].
  eapply sublist_Forall; [apply map_delete_sublist|exact Hc].
Qed.

Lemma own_put room (c : Configurations.config_storage) id body now result view c' :
  own_configs room c -> Configurations.put c room id body now = Ok (result, view, c') -> own_configs room c'.
Proof.
  intros Hc. unfold Configurations.put. destruct (Configurations.validConfiguration _ _ _ _) as [[]|]; simpl; [|by intros [= _ _ <-]|done].
  destruct (_ <? _); [by intros [= _ _ <-]|]. unfold Configurations.commit. set (row := Configurations.Build_configuration _ _ _ _ _ _).
  pose proof (own_drop (Configurations.expired now) room room (RoomTable.rt_list c room) c Hc) as H.
  destruct (Configurations.configurationCapacity _ _ _) as [st e|st]; intros [= _ _ <-]; [exact H|]. apply storage_put_Forall; [|exact H].
  apply starts_with_iff. exists (units (Configurations.cf_id row)). unfold RoomTable.do_prefix. cbn [fst RoomTable.rt_id RoomTable.do_table Configurations.config_rows]. unfold RoomTable.do_key. cbn [units sapp]. rewrite <- !app_assoc. reflexivity.
Qed.

Lemma own_get room (c : Configurations.config_storage) id now : own_configs room c -> own_configs room (Configurations.get_configuration c room id now).2.
Proof.
  intros Hc. unfold Configurations.get_configuration, Configurations.current. destruct (negb _); [done|]. destruct (RoomTable.rt_get _ _ _) as [row|]; [|done].
  destruct (_ <=? _); [|done]. cbn [snd]. eapply sublist_Forall; [apply map_delete_sublist|exact Hc].
Qed.

Section Bounds.
Context (sha256 : jstr -> jstr) (number_of_string : jstr -> option jsnum) (parse_json : list N -> res jsv) (env : apns_env).
Context (locale_le : jstr -> jstr -> bool).
#[local] Existing Instances worker_backend.

Lemma worker_tasks_keep room : RoomTable.valid_room room -> TaskHttp.backend_keeps (H := worker_backend sha256) room (worker_tasks_wf room).
Proof.
  intros Hroom. pose proof (RoomTable.room_no_colon room Hroom) as Hn.
  assert (forall t jobs, worker_tasks_wf room t -> jobs_wf room jobs -> worker_tasks_wf room (wt_with_jobs t jobs)) as Hjobs by (intros t jobs [] Hj; by split).
  assert (forall t g, worker_tasks_wf room t -> Writers.grants_wf g -> worker_tasks_wf room (wt_with_grants t g)) as Hgrants by (intros t g [] Hg; by split).
  assert (forall t c, worker_tasks_wf room t -> Configurations.configs_bounded c -> own_configs room c -> worker_tasks_wf room (wt_with_configs t c)) as Hconfigs
    by (intros t c [] Hb Ho; by split).
  split; intros t; cbn [TaskHttp.tb_getPublic TaskHttp.tb_listActive TaskHttp.tb_put TaskHttp.tb_transition TaskHttp.tb_putWriter TaskHttp.tb_revokeWriter
    TaskHttp.tb_resources TaskHttp.tb_getConfiguration TaskHttp.tb_putConfiguration worker_backend].
  - intros id now m Ht. pose proof (worker_getPublic_wf sha256 room (wt_jobs t) room id now m (wk_jobs _ _ Ht)) as H. destruct (worker_getPublic _ _ _ _ _ _). by apply Hjobs.
  - intros now Ht. destruct (worker_listActive _ _ _ _) as [[r jobs]|] eqn:E; [|done]. apply Hjobs; [done|]. by eapply worker_listActive_wf; [|apply Ht|].
  - intros id body now Ht. pose proof (worker_put_wf sha256 room (wt_jobs t) id body now Hroom (wk_jobs _ _ Ht)) as H. destruct (worker_put _ _ _ _ _ _). by apply Hjobs.
  - intros id action body now Ht. pose proof (worker_transition_wf sha256 room (wt_jobs t) room id action body now (wk_jobs _ _ Ht)) as H.
    destruct (worker_transition _ _ _ _ _ _ _). by apply Hjobs.
  - intros id body now Ht. pose proof (Writers.writer_exec_wf (wt_grants t) room now (Writers.WPut id body) (wk_grants _ _ Ht) Hroom) as H. cbn [Writers.writer_exec] in H.
    assert (Writers.put Writers.commitWriterGrant (wt_grants t) room id body now = Writers.put Writers.node_commit (wt_grants t) room id body now) as ->
      by (unfold Writers.put; destruct (Writers.validGrant _ _ _); [|done]; symmetry; apply Writers.commits_agree; [apply Ht|done]).
    destruct (Writers.put _ _ _ _ _ _). by apply Hgrants.
  - intros id now Ht. pose proof (Writers.revoke_wf (wt_grants t) room id now (wk_grants _ _ Ht) Hroom) as H. destruct (Writers.revoke _ _ _ _). by apply Hgrants.
  - intros id body now Ht. destruct (Writers.resources _ _ _ _ _) as [[r g]|] eqn:E; [|done]. apply Hgrants; [done|]. by eapply Writers.resources_wf; [apply Ht|done|].
  - intros id now Ht. pose proof (Configurations.config_run_bounded (wt_configs t) [(now, Configurations.CGet room (JStr id))] (wk_configs _ _ Ht) ltac:(by repeat constructor)) as H.
    pose proof (own_get room (wt_configs t) (JStr id) now (wk_own _ _ Ht)) as Ho. cbn [Configurations.config_run Configurations.config_exec] in H.
    destruct (Configurations.get_configuration _ _ _ _). by apply Hconfigs.
  - intros id body now Ht. destruct (Configurations.put _ _ _ _ _) as [[[r v] c]|] eqn:E; [|done].
    apply Hconfigs; [done|by eapply Configurations.put_bounded; [apply Ht|done|]|by eapply own_put; [apply Ht|]].
Qed.

(** *** The invariant of an object *)

#[local] Instance registry : ActivityRegistry activity_storage := activity_registry locale_le.
#[local] Instance registry_laws : ActivityLaws activity_storage := worker_activity_laws locale_le.

Record service_wf (room : jstr) (s : room_service) : Prop := {
  vw_object : room_wf (sv_now s) (sv_object s);
  vw_store : store_wf room (sv_store s);
  vw_grants : Writers.grants_wf (sv_grants s);
  vw_devices : devices_wf (ps_tokens (sv_push s));
  vw_activities : machine_wf (sv_activities s);
  vw_active : forall r, Z.of_nat (length (live_rows (sv_activities s) r)) <= ACTIVITY_LIMIT;
  vw_sends : Forall devices_wf (sv_sends s);
}.

Lemma with_object_wf room r s : room_wf (sv_now s) r -> store_wf room (rb_store r) -> service_wf room s -> service_wf room (with_object r s).
Proof. intros Hr Hs []. split; assumption. Qed.
Lemma with_push_wf room st s : devices_wf (ps_tokens st) -> service_wf room s -> service_wf room (with_push st s).
Proof. intros Hd []. split; assumption. Qed.
Lemma with_grants_wf room g s : Writers.grants_wf g -> service_wf room s -> service_wf room (with_grants g s).
Proof. intros Hg []. split; assumption. Qed.
Lemma with_sends_wf room l s : Forall devices_wf l -> service_wf room s -> service_wf room (with_sends l s).
Proof. intros Hl []. split; assumption. Qed.
Lemma with_storage_wf room rs s : store_wf room rs -> service_wf room s -> service_wf room (with_storage rs s).
Proof. intros Hs Hw. apply with_object_wf; [|exact Hs|done]. destruct Hw as [[Hm Hp Hc Hd Hk] _ _ _ _ _ _]. split; try done. apply Hs. Qed.

Lemma with_activity_wf room e s : service_wf room s -> service_wf room (with_machine (activity_step (activity_configured env) (sv_activities s) e).1 s).
Proof.
  intros [Ho Hs Hg Hd Ha Hb Hl]. pose proof (run_bounded (activity_configured env) [e] (sv_activities s) Ha Hb) as H.
  pose proof (activity_step_spec (activity_configured env) (sv_activities s) e Ha) as Hc. simpl in H.
  destruct (activity_step (activity_configured env) (sv_activities s) e) as [m out]. destruct H, Hc as (_ & Hle & _). split; try assumption.
  by apply (room_wf_later (sv_now s)).
Qed.

(** *** Every turn *)

Section Turns.
Context (room : jstr) (Hroom : RoomTable.valid_room room).

Lemma schedule_room_ok s : service_wf room s ->
  let '(s', ok) := schedule_room sha256 s in
  ok = true /\ service_wf room s' /\ sv_now s' = sv_now s /\ rb_sockets (sv_object s') = rb_sockets (sv_object s) /\
  alarm_current (map ws_machine (rb_sockets (sv_object s))) (sv_now s) (sv_store s').
Proof.
  intros Hw. unfold schedule_room, schedule. pose proof (vw_store _ _ Hw) as Hs. fold (sv_store s).
  pose proof (schedule_wf sha256 room (sv_store s) (map ws_machine (rb_sockets (sv_object s))) (sv_now s) Hroom Hs) as H.
  pose proof (schedule_current sha256 (sv_store s) (map ws_machine (rb_sockets (sv_object s))) (sv_now s) (store_wf_ok sha256 room _ Hroom Hs)) as Hc.
  destruct (scheduleRoomTaskAlarm _ _ _ _) as [rs ok]. destruct H as [-> Hrs]. split_and!; [done| |done|done|exact Hc]. by apply (with_storage_wf room rs s).
Qed.

Lemma offer_room_ok throws s : service_wf room s ->
  let '(s', out, ok) := offer_room sha256 throws s in service_wf room s' /\ sv_now s' = sv_now s.
Proof.
  intros Hw. unfold offer_room. destruct (offer_jobs_ok sha256 throws 0 (sv_now s) (sv_object s) (vw_object _ _ Hw)) as (_ & Hr & Hk).
  destruct (offer_jobs _ _ _ _) as [[r out] ok]. cbn [fst] in *. split; [|done]. apply with_object_wf; [done| |done]. apply (Hk room Hroom), Hw.
Qed.

Lemma room_authorize_tokens st credential pin : ps_tokens (room_authorize sha256 st credential pin).2 = ps_tokens st.
Proof.
  unfold room_authorize. destruct (_ && _); [done|]. pose proof (requireRoomAuth_tokens sha256 st credential) as H. by destruct (requireRoomAuth _ _ _).
Qed.

Lemma put_tasks_wf t s : worker_tasks_wf room t -> service_wf room s -> service_wf room (put_tasks t s).
Proof.
  intros [Hj Hg Hc Ho] Hw. apply with_grants_wf; [done|]. apply with_storage_wf; [|done]. destruct (vw_store _ _ Hw). by split.
Qed.

Lemma tasks_of_wf s : service_wf room s -> worker_tasks_wf room (tasks_of s).
Proof. intros [_ [] Hg _ _ _ _]. by split. Qed.

Lemma task_dispatch_wf throws q s :
  nu_room (rm_url q) = Some room -> service_wf room s -> service_wf room (handleRoomTaskDispatch sha256 number_of_string parse_json throws q s).1.2.
Proof.
  intros Hq Hw. unfold handleRoomTaskDispatch. pose proof (room_authorize_tokens (sv_push s) (credential_of q) false) as Ht.
  destruct (room_authorize _ _ _ _) as [owner st]. cbn [snd] in Ht. set (rq := TaskHttp.Build_request _ _ _ _ _ _ _).
  pose proof (TaskHttp.dispatch_keeps (H := worker_backend sha256) number_of_string room (worker_tasks_wf room) (worker_tasks_keep room Hroom)
    (tasks_of s) rq (sv_now s) Hq (tasks_of_wf s Hw)) as Hk.
  destruct (TaskHttp.taskDispatchResponse _ _ _ _) as [result tasks]. cbn [snd] in Hk.
  assert (service_wf room (put_tasks tasks (with_push st s))) as H1 by (apply put_tasks_wf; [done|]; apply with_push_wf; [rewrite Ht; apply Hw|done]).
  destruct result as [r|]; [|exact H1]. destruct (_ && _); [|exact H1].
  assert (let '(s', out, ok) := if rm_method q =?s "PUT" then offer_room sha256 throws (put_tasks tasks (with_push st s)) else (put_tasks tasks (with_push st s), [], true) in
    service_wf room s') as H2.
  { destruct (_ =?s "PUT"); [|exact H1]. pose proof (offer_room_ok throws _ H1) as H. destruct (offer_room _ _ _) as [[s' out] ok]. apply H. }
  destruct (if rm_method q =?s "PUT" then _ else _) as [[s2 out] offered]. destruct (negb offered); [exact H2|].
  pose proof (schedule_room_ok s2 H2) as H3. destruct (schedule_room _ _) as [s3 ok]. by destruct H3 as (_ & ? & _).
Qed.

(** The directory after a request of the room. *)
Definition directory_ok (d : directory) : Prop := directory_wf d /\ Z.of_nat (length (di_rows d)) <= ENDPOINT_RECIPIENT_LIMIT.

Lemma delete_directory_ok d key : directory_ok d -> directory_ok (directory_delete d key).
Proof.
  intros [[Hs Hk] Hl]. pose proof (map_delete_sublist ("endpoint:" +++ key) (di_rows d)) as Hsub. split.
  - split; cbn [di_rows directory_delete]; [by apply storage_delete_sorted|by eapply sublist_Forall].
  - cbn [di_rows directory_delete]. apply sublist_length in Hsub. unfold storage_delete. clear -Hl Hsub. lia.
Qed.

Lemma endpoint_request_ok credential key now method r body t :
  devices_wf (ps_tokens t.1) -> directory_ok t.2 ->
  devices_wf (ps_tokens (endpointResponse (room_endpoints sha256 credential key now) method r body now t).1.1) /\
  directory_ok (endpointResponse (room_endpoints sha256 credential key now) method r body now t).1.2.
Proof.
  intros Hd Hk. unfold endpointResponse. destruct (negb _); [done|]. destruct (negb _); [done|]. cbv zeta. destruct (_ && _) eqn:Ev; [done|].
  cbn [eo_authorize room_endpoints]. pose proof (room_authorize_tokens t.1 credential (method =?s "PUT")) as Ht.
  destruct (room_authorize _ _ _ _) as [ok st]. cbn [snd] in Ht. assert (devices_wf (ps_tokens st)) as Hd1 by by rewrite Ht.
  destruct (negb ok); [done|]. destruct (_ =?s "PUT").
  - simpl in Ev. apply negb_false_iff in Ev. cbn [eo_put room_endpoints fst snd]. destruct Hk as [Hk Hl].
    assert (Z.of_nat (length (filter (fun e => now < row_expiry e.2) (di_rows t.2))) <= ENDPOINT_RECIPIENT_LIMIT) as Hlive
      by (clear -Hl; pose proof (sublist_length _ _ (sublist_filter (fun e => now < row_expiry e.2) (di_rows t.2))); lia).
    pose proof (directory_bounded t.2 key _ now Hk Ev Hlive) as H. destruct (putDirectoryEndpoint _ _ _ _) as [d stored]. cbn [fst snd].
    destruct H as (H1 & H2 & _). by split.
  - destruct (_ =?s "DELETE"); [split; [done|by apply delete_directory_ok]|]. cbn [eo_get room_endpoints fst snd].
    destruct (directory_get _ _) as [c|]; [|done]. destruct (validEndpointRecord c now); [by split|]. split; [done|by apply delete_directory_ok].
Qed.

Lemma endpoint_wf q s : service_wf room s -> service_wf room (handleEndpoint sha256 parse_json q s).2.
Proof.
  intros Hw. unfold handleEndpoint. destruct (endpointStorageKey _ _) as [key|]; [|done].
  match goal with |- context[endpointResponse (room_endpoints sha256 ?c key ?n) ?m ?r ?b ?n ?t] =>
    pose proof (endpoint_request_ok c key n m r b t (vw_devices _ _ Hw) (conj (so_directory _ _ (vw_store _ _ Hw)) (so_few _ _ (vw_store _ _ Hw)))) as [H1 H2];
    destruct (endpointResponse (room_endpoints sha256 c key n) m r b n t) as [t' reply] end.
  cbn [fst snd] in H1, H2. set (s1 := with_push _ _). assert (service_wf room s1) as Hw1.
  { apply with_push_wf; [done|]. apply with_storage_wf; [|done]. destruct (vw_store _ _ Hw) as [_ _ Hj Hc Ho], H2 as [Hd Hl]. split; assumption. }
  destruct (_ <? 300); [|done]. pose proof (schedule_room_ok s1 Hw1) as H. destruct (schedule_room _ _) as [s2 ok]. by destruct H as (_ & ? & _).
Qed.

Lemma activities_wf q s : service_wf room s -> service_wf room (handleRoomTaskActivities sha256 parse_json env locale_le q s).2.
Proof.
  intros Hw. unfold handleRoomTaskActivities. pose proof (room_authorize_tokens (sv_push s) (credential_of q) false) as Ht.
  destruct (room_authorize _ _ _ _) as [owner st]. cbn [snd] in Ht. set (rq := Build_activity_request _ _ _ _ _).
  pose proof (with_activity_wf room (Request rq) (with_push st s)) as H. change (sv_activities (with_push st s)) with (sv_activities s) in H.
  change (activity_registry locale_le) with registry. destruct (activity_step _ (sv_activities s) (Request rq)) as [m out]. cbn [fst snd] in *. apply H.
  apply with_push_wf; [rewrite Ht; apply Hw|done].
Qed.

Lemma accept_wf q id s : id ∉ map ws_id (rb_sockets (sv_object s)) -> service_wf room s -> service_wf room (accept_socket sha256 q id s).2.
Proof.
  intros Hid Hw. unfold accept_socket. pose proof (acceptWebSocket_wf sha256 (upgrade_of q) id (sv_now s) (sv_push s) (sv_object s) Hid (vw_object _ _ Hw)) as Hr.
  pose proof (acceptWebSocket_store sha256 (upgrade_of q) id (sv_now s) (sv_push s) (sv_object s)) as Hs.
  pose proof (acceptWebSocket_tokens sha256 (upgrade_of q) id (sv_now s) (sv_push s) (sv_object s)) as Ht.
  destruct (acceptWebSocket _ _ _ _ _ _) as [[reply st] r]. cbn [fst snd] in *.
  apply with_object_wf; [exact Hr|rewrite Hs; apply Hw|]. apply with_push_wf; [rewrite Ht; apply Hw|done].
Qed.

Lemma fetch_wf throws q id s :
  nu_room (rm_url q) = Some room -> id ∉ map ws_id (rb_sockets (sv_object s)) -> service_wf room s ->
  service_wf room (fetch sha256 number_of_string parse_json env locale_le throws q id s).1.2.
Proof.
  intros Hq Hid Hw. unfold fetch. destruct (room_fetch _) as [| | | | |[]| |]; cbn [fst snd]; try by apply accept_wf.
  - by apply task_dispatch_wf.
  - by apply endpoint_wf.
  - by apply activities_wf.
  - done.
  - unfold handlePushRegistration. match goal with |- context[room_push_registration sha256 env ?st ?m ?c ?b ?n] =>
      pose proof (registration_wf sha256 env st m c b n (vw_devices _ _ Hw)) as H; destruct (room_push_registration sha256 env st m c b n) as [result st'] end.
    by apply with_push_wf.
Qed.

(** The turns that the platform makes: a request names the room it was routed by, a new
    socket has a handle of its own, upgrades come as requests. *)
Definition event_ok (ev : service_event) (s : room_service) : Prop :=
  match ev with
  | SvRequest q id => nu_room (rm_url q) = Some room /\ id ∉ map ws_id (rb_sockets (sv_object s))
  | SvSocket (EvUpgrade _ _) => False
  | SvActivity (Request _) => False
  | _ => True
  end.

Lemma service_turn_wf parse throws ev s :
  parse "" = None -> event_ok ev s -> service_wf room s ->
  service_wf room (service_turn sha256 number_of_string parse_json env locale_le parse throws ev s).
Proof.
  intros Hparse Hev Hw. destruct ev as [q id|ev|e|w| | |i sent]; cbn [service_turn event_ok] in *.
  - destruct Hev. by apply fetch_wf.
  - destruct (room_turn_ok parse sha256 (sv_now s) throws ev (sv_push s, sv_object s) Hparse ltac:(by destruct ev) (vw_object _ _ Hw)) as [Hr Hk].
    assert ((room_turn parse sha256 (sv_now s) throws ev (sv_push s, sv_object s)).1 = sv_push s) as Hp by (by destruct ev).
    destruct (room_turn _ _ _ _ _ _) as [st r]. cbn [fst snd] in *. subst st.
    assert (service_wf room (with_object r (with_push (sv_push s) s))) as H1.
    { apply with_object_wf; [done|apply Hk; [done|apply Hw]|]. apply with_push_wf; [apply Hw|done]. }
    destruct ev; try exact H1. apply with_sends_wf; [done|]. destruct H1 as [Ho Hs Hg Hd [Ha Hf] Hb Hl]. split; try assumption. split; [done|]. intros key. split; [done|]. by intros ? ? ?%elem_of_nil.
  - by apply with_activity_wf.
  - apply with_storage_wf; [|done]. destruct (vw_store _ _ Hw). split; assumption.
  - unfold after_wake. destruct (nextAt _); [|done]. pose proof (schedule_room_ok s Hw) as H. destruct (schedule_room _ _) as [s' ok]. by destruct H as (_ & ? & _).
  - unfold room_wake_begin. destruct (negb _); [done|]. apply with_sends_wf; [|done]. apply Forall_app. split; [apply Hw|]. constructor; [apply Hw|done].
  - destruct (sv_sends s !! i) as [tokens|] eqn:E; [|done]. pose proof (vw_sends _ _ Hw) as Hl.
    apply with_sends_wf; [by apply Forall_delete|]. apply with_push_wf; [|done]. unfold room_wake_end. cbn [snd].
    destruct (stale_tokens sent); [apply Hw|]. simpl. eapply devices_sublist; [apply sublist_filter|]. by eapply Forall_lookup_1 in Hl.
Qed.

(** What may happen to the object of a room from a well-formed state on. *)
Inductive service_reach (parse : jstr -> option jsv) (s0 : room_service) : room_service -> Prop :=
| service_start : service_reach parse s0 s0
| service_next s ev throws : service_reach parse s0 s -> event_ok ev s ->
    service_reach parse s0 (service_turn sha256 number_of_string parse_json env locale_le parse throws ev s).

Lemma service_reach_wf parse s0 s : parse "" = None -> service_wf room s0 -> service_reach parse s0 s -> service_wf room s.
Proof. intros Hparse Hw. induction 1; [done|]. by apply service_turn_wf. Qed.
End Turns.

(** C8: A room object stays within its bounds through any life of requests, frames, alarms,
    deliveries, wakes and hibernations: the mailboxes, presence list and sockets are as
    in the socket theorem; the endpoint directory has at most 32 records; the jobs at most
    10,000 records of which at most 100 active with 48,000,000 bytes; configurations,
    writer grants, devices and activities stay within their limits.  So the listings
    that every request and alarm begins with never throw, and scheduling the alarm
    always succeeds and covers all the room waits for. *)
Theorem room_object_stays_well_formed (room : jstr) (parse : jstr -> option jsv) (s0 s : room_service) :
  RoomTable.valid_room room -> parse "" = None -> service_wf room s0 -> service_reach room parse s0 s ->
  service_wf room s /\
  let '(s', ok) := schedule_room sha256 s in
  ok = true /\ alarm_current (map ws_machine (rb_sockets (sv_object s))) (sv_now s) (sv_store s').
Proof.
  intros Hroom Hparse Hw Hr. pose proof (service_reach_wf room Hroom parse s0 s Hparse Hw Hr) as Hs. split; [done|].
  pose proof (schedule_room_ok room Hroom s Hs) as H. destruct (schedule_room _ _) as [s' ok]. destruct H as (? & _ & _ & _ & ?). by split.
Qed.
End Bounds.

(** ** Who may do what *)

Section Access.
Context (sha256 : jstr -> jstr) (number_of_string : jstr -> option jsnum) (parse_json : list N -> res jsv) (env : apns_env).
Context (locale_le : jstr -> jstr -> bool).
#[local] Existing Instances worker_backend.

(** The caller holds neither the credential that claimed the room nor a writer's token. *)
Record stranger (q : room_message) (s : room_service) : Prop := {
  st_room : exists digest, ps_auth (sv_push s) = Some digest /\ sha256 (credential_of q) <> digest;
  st_writer : forall room read, nu_room (rm_url q) = Some room ->
    Writers.authorize sha256 (sv_grants s) room (strip_bearer <$> rm_authorization q) (sv_now s) read = None;
}.

Lemma stranger_unauthorized q s : stranger q s ->
  (exists e, requireRoomAuth sha256 (sv_push s) (credential_of q) = (Some (401, e), sv_push s)) /\
  forall pin, room_authorize sha256 (sv_push s) (credential_of q) pin = (false, sv_push s).
Proof.
  intros [(digest & Hd & Hne) _].
  assert (exists e, requireRoomAuth sha256 (sv_push s) (credential_of q) = (Some (401, e), sv_push s)) as [e He].
  { unfold requireRoomAuth. destruct (negb _); [by eexists|]. rewrite Hd. destruct (constantTimeEqual _ _) eqn:E; [|by eexists].
    by apply constantTimeEqual_iff in E. }
  split; [by exists e|]. intros pin. unfold room_authorize. rewrite He, Hd. by destruct pin.
Qed.

Lemma put_same_tasks s : put_tasks (tasks_of s) s = s.
Proof. by destruct s as [st [? ? ? [] ? ? ?] g m l]. Qed.
Lemma with_same_push s : with_push (sv_push s) s = s.
Proof. by destruct s. Qed.
Lemma with_same_directory s : with_storage (with_directory (rs_directory (sv_store s)) (sv_store s)) s = s.
Proof. by destruct s as [st [? ? ? [] ? ? ?] g m l]. Qed.

(** The answer is an error of the client's. *)
Definition refused (answer : room_reply) : Prop := exists r, answer = RoomAnswer r /\ 400 <= hr_status r < 500.

Lemma refused_json body status : 400 <= status < 500 -> refused (json body status).
Proof. intros H. by eexists. Qed.

(** C9: A caller without the room's credential, nor a writer's token, changes nothing in
    the object of a claimed room, whatever it asks for: every request is answered with a
    4xx error, no socket is accepted, nothing is sent, and the state is as before. *)
Theorem strangers_leave_the_object (throws : nat -> bool) (q : room_message) (id : nat) (s : room_service) :
  stranger q s ->
  refused (fetch sha256 number_of_string parse_json env locale_le throws q id s).1.1 /\
  (fetch sha256 number_of_string parse_json env locale_le throws q id s).1.2 = s /\
  (fetch sha256 number_of_string parse_json env locale_le throws q id s).2 = [].
Proof.
  intros Hst. destruct (stranger_unauthorized q s Hst) as [[e He] Ha]. unfold fetch.
  assert (refused (accept_socket sha256 q id s).1 /\ (accept_socket sha256 q id s).2 = s) as [Hs1 Hs2].
  { unfold accept_socket, acceptWebSocket. cbn [upgrade_of RoomSocket.up_upgrade RoomSocket.up_room RoomSocket.up_credential RoomSocket.up_recipient].
    assert (with_object (sv_object s) (with_push (sv_push s) s) = s) as Hsame by (by destruct s).
    destruct (negb _); [split; [by apply refused_json|exact Hsame]|]. destruct (nu_room (rm_url q)) as [room|]; [|split; [by apply refused_json|exact Hsame]].
    destruct (negb _); [split; [by apply refused_json|exact Hsame]|]. rewrite He. split; [by apply refused_json|exact Hsame]. }
  destruct (room_fetch _) as [| | | | |[]| |]; cbn [fst snd]; try (split_and!; assumption || done).
  - unfold handleRoomTaskDispatch. rewrite Ha, with_same_push. set (rq := TaskHttp.Build_request _ _ _ _ _ _ _).
    assert (exists r, TaskHttp.taskDispatchResponse number_of_string (tasks_of s) rq (sv_now s) = (Ok r, tasks_of s) /\ 400 <= TaskHttp.rs_status r < 500) as (r & -> & Hr).
    { unfold TaskHttp.taskDispatchResponse. cbn [TaskHttp.rq_room rq]. destruct (nu_room (rm_url q)) as [room|] eqn:Eq; [|by eexists].
      destruct (negb (validRoom _)); [by eexists|]. cbv zeta. cbn [TaskHttp.rq_owner rq negb andb TaskHttp.tb_authorize worker_backend].
      rewrite (st_writer _ _ Hst room _ Eq). rewrite bool_decide_eq_true_2 by done. by eexists. }
    rewrite put_same_tasks. rewrite (proj2 (Z.ltb_ge _ _)) by lia. cbn [andb fst snd]. split_and!; [by apply refused_json|done|done].
  - unfold handleEndpoint. destruct (endpointStorageKey _ _) as [key|]; [|split_and!; [by apply refused_json|done|done]].
    set (body := match read_limited _ _ _ with Ok _ => _ | Throw => _ end).
    assert (exists status error, endpointResponse (room_endpoints sha256 (credential_of q) key (sv_now s)) (rm_method q) (nu_room (rm_url q)) body (sv_now s)
        (sv_push s, rs_directory (sv_store s)) = (sv_push s, rs_directory (sv_store s), EndpointStatus status error) /\ 400 <= status < 500) as (status & error & -> & Hr).
    { unfold endpointResponse. destruct (negb _); [by eexists _, _|]. destruct (negb _); [by eexists _, _|]. cbv zeta. destruct (_ && _); [by eexists _, _|].
      cbn [eo_authorize room_endpoints fst snd]. rewrite Ha. cbn [negb]. by eexists _, _. }
    cbn [fst snd]. rewrite with_same_directory, with_same_push. cbn [endpoint_status]. rewrite (proj2 (Z.ltb_ge _ _)) by lia.
    split_and!; [by apply refused_json|done|done].
  - unfold handleRoomTaskActivities. rewrite Ha, with_same_push. set (rq := Build_activity_request _ _ _ _ _).
    assert (exists status error, activity_step (H := activity_registry locale_le) (activity_configured env) (sv_activities s) (Request rq)
        = (sv_activities s, [ActivityEndpoint.Answered (ActivityError status error)]) /\ 400 <= status < 500) as (status & error & -> & Hr).
    { cbn [activity_step]. assert (exists status error, handle (H := activity_registry locale_le) (activity_configured env) (mc_registry (sv_activities s)) rq (mc_now (sv_activities s))
        = (mc_registry (sv_activities s), inl (ActivityError status error)) /\ 400 <= status < 500) as (status & error & -> & Hr).
      - unfold handle. cbn [ar_room ar_path ar_authorized rq negb]. destruct (nu_room (rm_url q)); [|by eexists _, _]. destruct (negb (validRoom _)); [by eexists _, _|].
        destruct (negb _); by eexists _, _.
      - exists status, error. by destruct (sv_activities s). }
    cbn [fst snd]. split_and!; [by apply refused_json|by destruct s|done].
  - unfold handlePushStatus, room_push_status. destruct Hst as [(digest & Hd & Hne) _]. rewrite Hd.
    assert (constantTimeEqual (JStr (sha256 (credential_of q))) (JStr digest) = false) as ->
      by (destruct (constantTimeEqual _ _) eqn:E; [by apply constantTimeEqual_iff in E|done]).
    rewrite orb_true_r. split_and!; [by apply refused_json|done|done].
  - unfold handlePushRegistration, room_push_registration. rewrite He. cbn [fst snd]. split_and!; [by apply refused_json|apply with_same_push|done].
Qed.
End Access.

(** ** The alarm *)

Section Alarm.
Context (sha256 : jstr -> jstr) (number_of_string : jstr -> option jsnum) (parse_json : list N -> res jsv) (env : apns_env).
Context (locale_le : jstr -> jstr -> bool).
#[local] Existing Instances worker_backend.

(** The requests after which the handlers schedule the alarm. *)
Definition changes (q : room_message) : Prop :=
  room_fetch (nu_path (rm_url q)) = Tasks /\ rm_method q <> "GET" \/ room_fetch (nu_path (rm_url q)) = EndpointService.

(** C10: After every successful request that may change the endpoint directory, the jobs,
    their configurations or writers, the alarm of the object is no later than any moment
    at which something of the room has to happen: the start, retry, expiry or retention
    end of a job, the expiry of an endpoint record or configuration, and the next push of
    a pending wake.  (A refused request may change the directory and move the alarm:
    [Endpoints.refused_endpoint_moves_alarm].) *)
Theorem changes_set_the_alarm (room : jstr) (throws : nat -> bool) (q : room_message) (id : nat) (s s' : room_service)
    (r : http_reply) (out : list room_effect) :
  RoomTable.valid_room room -> service_wf locale_le room s -> nu_room (rm_url q) = Some room -> changes q ->
  fetch sha256 number_of_string parse_json env locale_le throws q id s = (RoomAnswer r, s', out) -> hr_status r < 300 ->
  alarm_current (map ws_machine (rb_sockets (sv_object s'))) (sv_now s) (sv_store s').
Proof.
  intros Hroom Hw Hq Hch. unfold fetch. destruct Hch as [[-> Hm]| ->].
  - unfold handleRoomTaskDispatch. pose proof (room_authorize_tokens sha256 (sv_push s) (credential_of q) false) as Ht.
    destruct (room_authorize _ _ _ _) as [owner st]. cbn [snd] in Ht. set (rq := TaskHttp.Build_request _ _ _ _ _ _ _).
    pose proof (TaskHttp.dispatch_keeps (H := worker_backend sha256) number_of_string room (worker_tasks_wf room) (worker_tasks_keep sha256 room Hroom)
      (tasks_of s) rq (sv_now s) Hq (tasks_of_wf locale_le room s Hw)) as Hk.
    destruct (TaskHttp.taskDispatchResponse _ _ _ _) as [result tasks]. cbn [snd] in Hk.
    assert (service_wf locale_le room (put_tasks tasks (with_push st s))) as H1 by (apply put_tasks_wf; [done|]; apply with_push_wf; [rewrite Ht; apply Hw|done]).
    destruct result as [answer|]; [|done]. assert (rm_method q =?s "GET" = false) as -> by by apply bool_decide_eq_false. rewrite andb_true_r.
    destruct (TaskHttp.rs_status answer <? 300) eqn:Est.
    2: { intros [= <- <- <-] Hr. cbn [hr_status] in Hr. apply Z.ltb_ge in Est. lia. }
    assert (let '(s', out, ok) := if rm_method q =?s "PUT" then offer_room sha256 throws (put_tasks tasks (with_push st s)) else (put_tasks tasks (with_push st s), [], true) in
      service_wf locale_le room s' /\ sv_now s' = sv_now s) as H2.
    { destruct (_ =?s "PUT"); [|done]. pose proof (offer_room_ok sha256 locale_le room Hroom throws _ H1) as H. by destruct (offer_room _ _ _) as [[? ?] ?]. }
    destruct (if rm_method q =?s "PUT" then _ else _) as [[s2 out2] offered]. destruct H2 as [H2 Hnow]. destruct (negb offered); [done|].
    pose proof (schedule_room_ok sha256 locale_le room Hroom s2 H2) as H3. destruct (schedule_room _ _) as [s3 ok]. destruct H3 as (-> & _ & _ & Hs & Hc).
    intros [= <- <- <-] _. by rewrite Hs, <- Hnow.
  - unfold handleEndpoint. destruct (endpointStorageKey _ _) as [key|]; [|intros [= <- <- <-] Hr; cbn [hr_status] in Hr; lia].
    match goal with |- context[endpointResponse (room_endpoints sha256 ?c key ?n) ?m ?r ?b ?n ?t] =>
      pose proof (endpoint_request_ok sha256 c key n m r b t (vw_devices _ _ _ Hw) (conj (so_directory _ _ (vw_store _ _ _ Hw)) (so_few _ _ (vw_store _ _ _ Hw)))) as [H1 H2];
      destruct (endpointResponse (room_endpoints sha256 c key n) m r b n t) as [t' reply] end.
    cbn [fst snd] in H1, H2. set (s1 := with_push _ _). assert (service_wf locale_le room s1) as Hw1.
    { apply with_push_wf; [done|]. apply with_storage_wf; [|done]. destruct (vw_store _ _ _ Hw) as [_ _ Hj Hc Ho], H2 as [Hd Hl]. split; assumption. }
    destruct (endpoint_status reply <? 300) eqn:Est; [|intros [= <- <- <-] Hr; cbn [hr_status] in Hr; apply Z.ltb_ge in Est; lia].
    pose proof (schedule_room_ok sha256 locale_le room Hroom s1 Hw1) as H3. destruct (schedule_room _ _) as [s3 ok]. destruct H3 as (-> & _ & _ & Hs & Hc).
    intros [= <- <- <-] _. by rewrite Hs.
Qed.
End Alarm.

(** ** Examples *)

Module Examples.
Definition room : jstr := RoomSocket.Examples.room.
Definition owner : jstr := NodeService.Examples.owner.
Definition sample_sha : jstr -> jstr := NodeService.Examples.sample_sha.
Definition env : apns_env := PushDevices.Examples.sample_env.
Definition no_number (s : jstr) : option jsnum := None.
(** Every body parses to a sealed endpoint record that expires at 100. *)
Definition sample_parse (bytes : list N) : res jsv := Ok Endpoints.Examples.record.
Definition locale_le (a b : jstr) : bool := true.

Definition claimed (now : Z) : room_service :=
  {| sv_push := {| ps_auth := Some (sample_sha owner); ps_tokens := [] |}; sv_object := RoomSocket.Examples.sample_room; sv_grants := Writers.Grants [] [];
     sv_activities := {| mc_registry := []; mc_now := now; mc_inFlight := [] |}; sv_sends := [] |}.

Lemma claimed_wf now : service_wf locale_le room (claimed now).
Proof.
  split.
  - destruct RoomSocket.Examples.sample_room_wf as [Hm Hp Hc Hd Hs]. split; try assumption. split; [simpl; unfold PRESENCE_LIMIT; lia|constructor..].
  - split; [split; constructor|vm_compute; discriminate|apply empty_jobs_wf| |constructor].
    split; [split; constructor|]. intros r _. split_and!; [vm_compute; discriminate|constructor|vm_compute; discriminate].
  - apply Writers.empty_do_grants_wf.
  - split; [simpl; lia|constructor].
  - split; [intros r; constructor|]. intros key. split; [done|]. by intros ? ? ?%elem_of_nil.
  - intros r. vm_compute. discriminate.
  - constructor.
Qed.

Definition message (method path : jstr) (credential : jstr) : room_message :=
  {| rm_method := method; rm_url := {| nu_path := path; nu_room := Some room; nu_recipient := None; nu_metadata := None |};
     rm_authorization := Some ("Bearer " +++ credential); rm_declared := None; rm_body := Some {| st_chunks := [[123; 125]]%N; st_fails := false |};
     rm_upgrade := None; rm_recipient := None; rm_routing := None; rm_ingress := None; rm_presence := None; rm_dispatch := None |}.

Definition served (q : room_message) (s : room_service) : room_reply * room_service * list room_effect :=
  fetch sample_sha no_number sample_parse env locale_le (fun _ => false) q 7 s.
Definition published : room_service := (served (message "PUT" "/endpoint" owner) (claimed 10)).1.2.

Lemma room_object_stays_well_formed_witness :
  length (di_rows (rs_directory (sv_store published))) = 1%nat /\ alarm_of (sv_store published) = Some 100 /\ service_wf locale_le room published.
Proof.
  split; [vm_compute; reflexivity|]. split; [vm_compute; reflexivity|].
  refine (proj1 (room_object_stays_well_formed sample_sha no_number sample_parse env locale_le room (fun _ => None) (claimed 10) published
    ltac:(reflexivity) eq_refl (claimed_wf 10) _)).
  apply (service_next sample_sha no_number sample_parse env locale_le room (fun _ => None) (claimed 10) (claimed 10) (SvRequest (message "PUT" "/endpoint" owner) 7) (fun _ => false)).
  - apply service_start.
  - split; [reflexivity|]. apply (bool_decide_unpack _). vm_compute. exact I.
Defined.

Lemma strangers_leave_the_object_witness :
  (served (message "DELETE" "/endpoint" NodeService.Examples.intruder) published).1.2 = published.
Proof.
  refine (proj1 (proj2 (strangers_leave_the_object sample_sha no_number sample_parse env locale_le (fun _ => false)
    (message "DELETE" "/endpoint" NodeService.Examples.intruder) 7 published _))).
  split.
  - exists (sample_sha owner). split; [vm_compute; reflexivity|]. apply (bool_decide_unpack _). vm_compute. exact I.
  - intros r read Hr. vm_compute in Hr. injection Hr as <-. destruct read; vm_compute; reflexivity.
Defined.

Lemma changes_set_the_alarm_witness :
  alarm_current (map ws_machine (rb_sockets (sv_object published))) 10 (sv_store published) /\ alarm_of (sv_store published) = Some 100.
Proof.
  split; [|vm_compute; reflexivity].
  destruct (served (message "PUT" "/endpoint" owner) (claimed 10)) as [[answer s'] out] eqn:E.
  assert (exists r, answer = RoomAnswer r /\ hr_status r < 300) as (r & -> & Hr).
  { change answer with (answer, s', out).1.1. rewrite <- E. vm_compute. eexists. split; reflexivity. }
  pose proof (changes_set_the_alarm sample_sha no_number sample_parse env locale_le room (fun _ => false) (message "PUT" "/endpoint" owner) 7 (claimed 10) s' r out
    ltac:(reflexivity) (claimed_wf 10) eq_refl ltac:(right; vm_compute; reflexivity) E Hr) as H.
  assert (s' = published) as -> by (unfold published; by rewrite E). exact H.
Defined.
End Examples.
