(* ===== verification/Capacity.v ===== *)
(** * Capacity measurements of the Node relay
    [src/node/capacity/client.mjs] (counters, latency histograms, the reporter) and
    [src/node/capacity/index.js] (queue gauges, the people online, reconnects).

    Latencies are doubles: [SpecFloat] of the Standard Library is the arithmetic of
    binary64.  HMAC tags, the JSON functions of SQLite on rows that are bare strings,
    file sizes and the HTTP exchange with the collector are arguments.  One [now] stands
    for the calls of the clock within a snapshot; counters are far below 2^53. *)

From S2P Require Import Prelude ConnectionPolicy Delivery NodeRooms TaskJobs TaskStore SocketDelivery NodeSocket.
From Stdlib Require Import SpecFloat.
#[local] Open Scope bool_scope.
#[local] Open Scope Z_scope.
#[local] Open Scope js_scope.

(** ** [createMeasurements] *)

Abbreviation float := spec_float.
Definition float_of (z : Z) : float := binary_normalize 53 1024 z 0 false.
Definition float_add (x y : float) : float := SFadd 53 1024 x y.
(** [Number.isFinite] *)
Definition finite (x : float) : bool := match x with S754_zero _ | S754_finite _ _ _ => true | _ => false end.

Definition latencyBounds : list Z := [10; 50; 100; 250; 1000; 5000; 30000].

Record histogram := { h_count : Z; h_sumMs : float; h_bins : list Z }.
Definition empty_histogram : histogram := {| h_count := 0; h_sumMs := float_of 0; h_bins := repeat 0 8 |}.
Record measurements := { ms_counters : list (jstr * Z); ms_latencies : list (jstr * histogram) }.
Definition createMeasurements : measurements := {| ms_counters := []; ms_latencies := [] |}.

Definition record (name : jstr) (count : jsnum) (m : measurements) : measurements :=
  match count with
  | NInt n =>
      if num_is_safe count && (0 <=? n)
      then {| ms_counters := map_set name (default 0 (map_get name (ms_counters m)) + n) (ms_counters m); ms_latencies := ms_latencies m |}
      else m
  | _ => m
  end.
Definition record1 (name : jstr) (m : measurements) : measurements := record name (NInt 1) m.

(** [latencyBounds.findIndex(bound => ms <= bound)], 7 beyond the last bound. *)
Fixpoint first_bound (bounds : list Z) (ms : float) : nat :=
  match bounds with [] => 0%nat | b :: rest => if SFleb ms (float_of b) then 0%nat else S (first_bound rest ms) end.
Definition bin_of (ms : float) : nat := first_bound latencyBounds ms.

Definition timed (ms : float) : bool := finite ms && negb (SFltb ms (float_of 0)) && negb (SFltb (float_of 86400000) ms).
Definition add_latency (ms : float) (h : histogram) : histogram :=
  {| h_count := h_count h + 1; h_sumMs := float_add (h_sumMs h) ms; h_bins := alter Z.succ (bin_of ms) (h_bins h) |}.
Definition timing (name : jstr) (ms : float) (m : measurements) : measurements :=
  if negb (timed ms) then m else
  {| ms_counters := ms_counters m;
     ms_latencies := map_set name (add_latency ms (default empty_histogram (map_get name (ms_latencies m)))) (ms_latencies m) |}.

(** ** [queueGauges] *)

(** The members of a queued row that the query reads. *)
Record queue_item := { qi_bytes : option Z; qi_queuedAt : option Z; qi_expiresAt : option Z }.
Record gauges := {
  g_queueCount : Z; g_queueBytes : Z; g_queueOldestAgeMs : option Z; g_queueUnknownAgeCount : Z;
  g_taskQueueCount : Z; g_taskQueueBytes : Z; g_taskQueueOldestAgeMs : option Z;
  g_databaseBytes : option Z; g_walBytes : option Z;
}.

(** [min(...)] of SQL: [NULL] is skipped. *)
Definition sql_min (l : list (option Z)) : option Z :=
  foldr (fun v acc => match v, acc with Some x, Some y => Some (Z.min x y) | Some x, None => Some x | None, _ => acc end) None l.
Definition sql_sum (l : list (option Z)) : Z := sum_by (default 0) l.
Definition expires_after (now : Z) (expiresAt : option Z) : bool := match expiresAt with Some t => now <? t | None => false end.

Definition age (now count : Z) (oldest : option Z) : option Z :=
  if count =? 0 then Some 0 else match oldest with Some t => Some (Z.max 0 (now - t)) | None => None end.

Section Gauges.
(** What [json_extract] reads from a row that is a bare string; it throws unless that is JSON text. *)
Context (legacy : jstr -> res queue_item) (statSync : jstr -> res Z).

Definition item_of (row : queue_row) : res queue_item :=
  match row with
  | Row q => Ok {| qi_bytes := Some (default (byte_length (q_raw q)) (q_rawBytes q)); qi_queuedAt := q_queuedAt q; qi_expiresAt := q_expiresAt q |}
  | LegacyRow s => legacy s
  end.
Fixpoint items_of (rows : list queue_row) : res (list queue_item) :=
  match rows with
  | [] => Ok []
  | row :: rest => let* i := item_of row in let* l := items_of rest in Ok (i :: l)
  end.

(** [machine_queue UNION ALL phone_queue] over all rooms. *)
Definition waiting_rows (db : rooms) : list queue_row :=
  concat (map (fun e => machine_queue e.2) (map_to_list db)) ++ concat (map (fun e => phone_queue e.2) (map_to_list db)).

Definition queued_jobs (now : Z) (jobs : task_table) : list job :=
  filter (fun row => bool_decide (j_state row = Queued) && (now <? j_expiresAt row) = true) jobs.*2.

Definition fileBytes (path : jstr) : option Z := match statSync path with Ok n => Some n | Throw => None end.

Definition queueGauges (path : jstr) (db : rooms) (jobs : task_table) (now : Z) : res gauges :=
  let* items := items_of (waiting_rows db) in
  let live := filter (fun i => expires_after now (qi_expiresAt i) = true) items in
  let count := Z.of_nat (length live) in
  let unknownAge := count_by (fun i => match qi_queuedAt i with None => true | _ => false end) live in
  let due := queued_jobs now jobs in
  Ok {| g_queueCount := count; g_queueBytes := sql_sum (map qi_bytes live);
        g_queueOldestAgeMs := if negb (unknownAge =? 0) then None else age now count (sql_min (map qi_queuedAt live));
        g_queueUnknownAgeCount := unknownAge;
        g_taskQueueCount := Z.of_nat (length due); g_taskQueueBytes := sum_by j_bytes due;
        g_taskQueueOldestAgeMs := age now (Z.of_nat (length due)) (sql_min (map (fun row => Some (j_createdAt row)) due));
        g_databaseBytes := fileBytes path; g_walBytes := fileBytes (path +++ "-wal") |}.
End Gauges.

(** ** [entities]: who is online *)

(** A person or computer by its tag; [lastSeen] is the time of its ISO text. *)
Record entity := { en_tag : jstr; en_account : jstr; en_kind : jstr; en_lastSeen : Z }.
Record census := { cs_people : list (jstr * entity); cs_machine : Z; cs_controller : Z; cs_unknown : Z }.
Definition empty_census : census := {| cs_people := []; cs_machine := 0; cs_controller := 0; cs_unknown := 0 |}.

Section Entities.
(** [tag(kind, value)] *)
Context (tag : jstr -> jstr -> jstr).

Definition count_sock (now : Z) (c : res census) (s : sock) : res census :=
  let* c := c in
  if negb (sk_open s) then Ok c else
  let unknown := {| cs_people := cs_people c; cs_machine := cs_machine c; cs_controller := cs_controller c; cs_unknown := cs_unknown c + 1 |} in
  match sk_ticket s with
  | None => Ok unknown
  | Some t =>
      if int_of (get "expiresAt" t) <=? now then Ok unknown else
      let phone := is_str (get "role" t) "phone" in
      let kind : jstr := if phone then "controller" else "computer" in
      let* account := to_string (get "accountId" t) in
      let* who := to_string (if phone then get "publicKey" t else get "computerId" t) in
      let subject := tag kind (account +++ ":" +++ who) in
      Ok {| cs_people := map_set subject {| en_tag := subject; en_account := tag "account" account; en_kind := kind; en_lastSeen := now |} (cs_people c);
            cs_machine := cs_machine c + (if phone then 0 else 1); cs_controller := cs_controller c + (if phone then 1 else 0);
            cs_unknown := cs_unknown c |}
  end.

(** The sockets by their rooms, [sockets.values()]. *)
Definition entities (now : Z) (sockets : list (jstr * list sock)) : res census :=
  fold_left (count_sock now) (concat sockets.*2) (Ok empty_census).
End Entities.

(** ** [connected]: reconnects *)

Record recent_row := { rc_active : Z; rc_closedAt : Z }.
Record capacity_state := { cp_measurements : measurements; cp_recent : list (jstr * recent_row) }.
Definition RECONNECT_MS : Z := 600000.
Definition MAX_RECENT : nat := 4096.
Definition counter_names : list jstr :=
  ["connectionAttempts"; "connectionsAccepted"; "connectionsRefused"; "connectionsClosed"; "reconnects"; "policyCloses"; "backpressure";
   "limited429"; "dropped"; "received"; "receipts"; "forwarded"; "acknowledgements"]%js.
Definition createRelayCapacity : capacity_state :=
  {| cp_measurements := fold_left (fun m name => record name (NInt 0) m) counter_names createMeasurements; cp_recent := [] |}.

Definition with_measure (f : measurements -> measurements) (c : capacity_state) : capacity_state :=
  {| cp_measurements := f (cp_measurements c); cp_recent := cp_recent c |}.

(** [recent.size > 4096]: the oldest entry goes. *)
Definition bounded_recent (recent : list (jstr * recent_row)) : list (jstr * recent_row) :=
  if (MAX_RECENT <? length recent)%nat then tail recent else recent.

(** The rest of [connected] once its subject is known. *)
Definition note_connected (subject : jstr) (now : Z) (c : capacity_state) : capacity_state :=
  let previous := map_get subject (cp_recent c) in
  let again := match previous with Some row => (rc_active row =? 0) && (now - rc_closedAt row <? RECONNECT_MS) | None => false end in
  {| cp_measurements := (if again then record1 "reconnects" else fun m => m) (cp_measurements c);
     cp_recent := bounded_recent (map_push subject
       {| rc_active := match previous with Some row => rc_active row | None => 0 end + 1;
          rc_closedAt := match previous with Some row => rc_closedAt row | None => 0 end |} (cp_recent c)) |}.

(** The function that [connected] returns. *)
Definition note_closed (subject : jstr) (now : Z) (c : capacity_state) : capacity_state :=
  match map_get subject (cp_recent c) with
  | Some row =>
      let active := Z.max 0 (rc_active row - 1) in
      {| cp_measurements := cp_measurements c;
         cp_recent := map_set subject {| rc_active := active; rc_closedAt := if active =? 0 then now else rc_closedAt row |} (cp_recent c) |}
  | None => c
  end.

Definition log (event : jstr) (c : capacity_state) : capacity_state :=
  let c := if event =?s "relay.slow_receiver" then with_measure (record1 "backpressure") c else c in
  if event =?s "relay.message_dropped" then with_measure (record1 "dropped") c else c.

Section Connected.
(** [reporter.identity]; [None] without a reporter. *)
Context (identity : option (jstr -> jstr -> jstr)).

Definition subject_of (tag : jstr -> jstr -> jstr) (ticket : jsv) : res jstr :=
  let* a := to_string (get "accountId" ticket) in
  let* c := to_string (get "computerId" ticket) in
  let* r := to_string (if is_nullish (get "role" ticket) then JStr "machine" else get "role" ticket) in
  let* k := to_string (get "publicKey" ticket) in
  Ok (tag "connection" (a +++ ":" +++ c +++ ":" +++ r +++ ":" +++ k)).

(** The subject whose closing is to be noted, if any. *)
Definition connected (ticket : option jsv) (now : Z) (c : capacity_state) : res (option jstr) * capacity_state :=
  let c := with_measure (record1 "connectionsAccepted") c in
  match ticket, identity with
  | Some t, Some tag =>
      match subject_of tag t with
      | Ok subject => (Ok (Some subject), note_connected subject now c)
      | Throw => (Throw, c)
      end
  | _, _ => (Ok None, c)
  end.
End Connected.

(** ** [capacityReporter] *)

Definition MAX_SNAPSHOT_BYTES : Z := 1024 * 1024.

(** What the environment configures: the site and the keys of the collector and of the tags. *)
Definition capacityReporter (siteId socketPath keyFile identityFile : option jstr) (readFile : jstr -> res (list N)) : option (list N * list N) :=
  let given v := match v with Some s => if s =?s "" then None else Some s | None => None end in
  match given siteId, given socketPath, given keyFile with
  | Some _, Some _, Some path =>
      match readFile path with
      | Ok key =>
          match readFile (default path identityFile) with
          | Ok identityKey =>
              if (Z.of_nat (length key) <? 32) || (Z.of_nat (length identityKey) <? 32) then None else Some (key, identityKey)
          | Throw => None
          end
      | Throw => None
      end
  | _, _, _ => None
  end.

(** Where a publication is: waiting for its snapshot, or for the collector. *)
Inductive publication := Idle | Collecting | Posting.
Record reporter := { rp_sequence : Z; rp_phase : publication; rp_closed : bool }.
Definition new_reporter : reporter := {| rp_sequence := 0; rp_phase := Idle; rp_closed := false |}.
Definition phase_to (p : publication) (r : reporter) : reporter :=
  {| rp_sequence := rp_sequence r; rp_phase := p; rp_closed := rp_closed r |}.

(** [pending] *)
Definition rp_pending (r : reporter) : bool := match rp_phase r with Idle => false | _ => true end.

Inductive report_event :=
| ReTick                                                  (* a timer calls [publish] *)
| ReSnapshot (value : res (list (jstr * jsv))) (observedAt : jstr)   (* [await snapshot(identity)] *)
| ReEnd                                                   (* the exchange ended, failed or timed out *)
| ReClose.

Section Reporter.
Context (siteId source bootId bootAt : jstr) (synthetic : bool).

Definition report_fields (sequence : Z) (observedAt : jstr) : list (jstr * jsv) :=
  [("version", JNum (NInt 1)); ("siteId", JStr siteId); ("source", JStr source); ("bootId", JStr bootId); ("bootAt", JStr bootAt);
   ("sequence", JNum (NInt sequence)); ("observedAt", JStr observedAt);
   ("environment", JStr (if synthetic then "synthetic" else "production"))]%js.
(** [{...value, version: 1, ...}] *)
Definition report_body (value : list (jstr * jsv)) (sequence : Z) (observedAt : jstr) : jstr :=
  json_text (JObj (fold_left (fun fs e => map_set e.1 e.2 fs) (report_fields sequence observedAt) value)).

(** The state after the event and the body posted. *)
Definition report_step (r : reporter) (e : report_event) : reporter * option jstr :=
  match e with
  | ReTick => (if rp_pending r || rp_closed r then r else phase_to Collecting r, None)
  | ReSnapshot value observedAt =>
      match rp_phase r, value with
      | Collecting, Ok value =>
          let sequence := rp_sequence r + 1 in
          let body := report_body value sequence observedAt in
          if MAX_SNAPSHOT_BYTES <? byte_length body
          then ({| rp_sequence := sequence; rp_phase := Idle; rp_closed := rp_closed r |}, None)
          else ({| rp_sequence := sequence; rp_phase := Posting; rp_closed := rp_closed r |}, Some body)
      | Collecting, Throw => (phase_to Idle r, None)
      | _, _ => (r, None)
      end
  | ReEnd => (match rp_phase r with Posting => phase_to Idle r | _ => r end, None)
  | ReClose => ({| rp_sequence := rp_sequence r; rp_phase := rp_phase r; rp_closed := true |}, None)
  end.

Fixpoint report_run (r : reporter) (events : list report_event) : reporter * list jstr :=
  match events with
  | [] => (r, [])
  | e :: rest => let '(r1, out) := report_step r e in let '(r2, bodies) := report_run r1 rest in (r2, option_list out ++ bodies)
  end.
End Reporter.

(** ** Histograms *)

Definition run_timings (trace : list (jstr * float)) : measurements := fold_left (fun m e => timing e.1 e.2 m) trace createMeasurements.
(** The latencies of a name that count. *)
Definition latencies_of (name : jstr) (trace : list (jstr * float)) : list float :=
  map snd (filter (fun e => e.1 = name /\ timed e.2 = true) trace).
Definition histogram_of (l : list float) : histogram :=
  {| h_count := Z.of_nat (length l); h_sumMs := fold_left float_add l (float_of 0);
     h_bins := map (fun i => count_by (fun ms => Nat.eqb (bin_of ms) i) l) (seq 0 8) |}.

Lemma first_bound_le bounds ms : (first_bound bounds ms <= length bounds)%nat.
Proof. induction bounds; simpl; [done|]. case_match; lia. Qed.

Lemma bin_of_lt ms : (bin_of ms < 8)%nat.
Proof. pose proof (first_bound_le latencyBounds ms). unfold bin_of. simpl in *. lia. Qed.

Lemma first_bound_spec bounds ms i b :
  bounds !! i = Some b -> (i < first_bound bounds ms -> SFleb ms (float_of b) = false)%nat /\ (i = first_bound bounds ms -> SFleb ms (float_of b) = true).
Proof.
  revert i. induction bounds as [|b0 bounds IH]; intros i H; [done|]. cbn [first_bound].
  destruct i as [|i]; cbn in H.
  - injection H as ->. destruct (SFleb ms (float_of b)); split; intros; [lia|done|done|lia].
  - destruct (SFleb ms (float_of b0)); [split; intros; lia|]. destruct (IH _ H) as [H1 H2]. split; intros; [apply H1|apply H2]; lia.
Qed.

Lemma add_latency_of l ms : add_latency ms (histogram_of l) = histogram_of (l ++ [ms]).
Proof.
  unfold add_latency, histogram_of. cbn [h_count h_sumMs h_bins]. rewrite length_app, fold_left_app. f_equal; [cbn; lia|].
  apply list_eq. intros i. destruct (decide (i = bin_of ms)) as [->|Hi].
  - rewrite list_lookup_alter_eq, !list_lookup_fmap, lookup_seq_lt by apply bin_of_lt. cbn [fmap option_fmap option_map plus].
    unfold count_by. rewrite sum_by_app. cbn [sum_by foldr]. rewrite Nat.eqb_refl. f_equal; lia.
  - rewrite list_lookup_alter_ne, !list_lookup_fmap by congruence. destruct (seq 0 8 !! i) as [j|] eqn:Ej; [|done]. apply lookup_seq in Ej as [Ej _]. cbn in Ej. subst j.
    cbn [fmap option_fmap option_map plus]. unfold count_by. rewrite sum_by_app. cbn [sum_by foldr]. destruct (Nat.eqb_spec (bin_of ms) i); [congruence|]. f_equal. lia.
Qed.

Lemma empty_histogram_of : empty_histogram = histogram_of [].
Proof. reflexivity. Qed.

Lemma sum_alter (l : list Z) i : (i < length l)%nat -> sum_by (fun n => n) (alter Z.succ i l) = sum_by (fun n => n) l + 1.
Proof.
  revert i. induction l as [|x l IH]; intros i Hi; cbn in Hi; [lia|]. destruct i as [|i]; cbn [sum_by foldr]; [cbn; lia|].
  specialize (IH i). change (alter Z.succ (S i) (x :: l)) with (x :: alter Z.succ i l). cbn [sum_by foldr] in *. unfold sum_by in IH. rewrite IH by lia. lia.
Qed.

(** The bins share out the latencies: their sum is the count. *)
Lemma histogram_total l : sum_by (fun n => n) (h_bins (histogram_of l)) = Z.of_nat (length l).
Proof.
  induction l as [|ms l IH] using rev_ind; [done|]. rewrite <- add_latency_of, length_app. cbn [add_latency h_bins length].
  rewrite sum_alter, IH by apply (bin_of_lt ms). lia.
Qed.

(** C1: Latency histograms are exact: after any sequence of calls of [timing], the entry of a
    name holds exactly the latencies that are finite, not negative and at most a day: their
    number, their floating-point sum in order, and for each of the eight bins the number of
    those whose first bound is that bin's; the bins add up to the count, and a name
    without such a latency has no entry. *)
Theorem histograms_are_exact (trace : list (jstr * float)) (name : jstr) :
  map_get name (ms_latencies (run_timings trace)) =
    match latencies_of name trace with [] => None | l => Some (histogram_of l) end /\
  sum_by (fun n => n) (h_bins (histogram_of (latencies_of name trace))) = Z.of_nat (length (latencies_of name trace)).
Proof.
  split; [|apply histogram_total].
  induction trace as [|[n ms] trace IH] using rev_ind; [done|].
  unfold run_timings, latencies_of in *. rewrite fold_left_app, filter_app, map_app. cbn [fold_left fst snd]. rewrite filter_cons. cbn [fst snd].
  set (m := fold_left _ trace createMeasurements) in *. set (l := map snd (filter _ trace)) in *. unfold timing.
  destruct (timed ms) eqn:Et; cbn [negb].
  2:{ rewrite decide_False by (intros []; congruence). cbn. by rewrite app_nil_r. }
  cbn [ms_latencies]. rewrite map_get_set. destruct (decide (n = name)) as [->|Hn].
  - rewrite !decide_True by done. rewrite IH. clearbody l. destruct l as [|x l].
    + cbn [default from_option]. by rewrite empty_histogram_of, add_latency_of.
    + cbn [default from_option]. change (id (histogram_of (x :: l))) with (histogram_of (x :: l)). by rewrite add_latency_of.
  - rewrite !decide_False by (congruence || by intros []). cbn. by rewrite app_nil_r.
Qed.

(** ** Gauges *)

Definition row_queuedAt (row : queue_row) : option Z := match row with Row q => q_queuedAt q | LegacyRow _ => None end.
Definition row_unexpired (now : Z) (row : queue_row) : bool := match row with Row q => expires_after now (q_expiresAt q) | LegacyRow _ => false end.

(** The age that is reported for a list of times: of the oldest, 0 for none, none when one is unknown. *)
Definition oldest_age (now : Z) (times : list (option Z)) (reported : option Z) : Prop :=
  match reported with
  | None => None ∈ times
  | Some ms => None ∉ times /\ (forall t, Some t ∈ times -> now - t <= ms) /\
               (times = [] /\ ms = 0 \/ exists t, Some t ∈ times /\ ms = Z.max 0 (now - t))
  end.

Lemma sql_min_spec times :
  None ∉ times -> match sql_min times with
                  | None => times = []
                  | Some m => Some m ∈ times /\ forall t, Some t ∈ times -> m <= t
                  end.
Proof.
  induction times as [|v times IH]; intros Hn; [done|]. apply not_elem_of_cons in Hn as [Hv Hn]. specialize (IH Hn).
  destruct v as [x|]; [|done]. cbn [sql_min foldr]. fold (sql_min times). destruct (sql_min times) as [y|].
  - destruct IH as [Hy Hle]. split; [|intros t [[= ->]|Ht]%elem_of_cons; [lia|specialize (Hle _ Ht); lia]].
    destruct (Z.min_spec x y) as [[_ ->]|[_ ->]]; [by left|by right].
  - subst times. split; [by left|]. intros t [[= ->]|Ht]%elem_of_cons; [done|]. by apply not_elem_of_nil in Ht.
Qed.

Lemma age_spec now times : None ∉ times -> oldest_age now times (age now (Z.of_nat (length times)) (sql_min times)).
Proof.
  intros Hn. pose proof (sql_min_spec times Hn) as Hm. unfold age. destruct times as [|v times].
  { cbn. split; [done|]. split; [|by left]. intros t Ht. by apply not_elem_of_nil in Ht. }
  destruct (Z.eqb_spec (Z.of_nat (length (v :: times))) 0) as [E|_]; [cbn in E; lia|].
  destruct (sql_min (v :: times)) as [m|]; [|done]. destruct Hm as [Hin Hle]. split; [done|]. split.
  - intros t Ht. specialize (Hle _ Ht). lia.
  - right. by exists m.
Qed.

Lemma count_unknown times : count_by (fun v : option Z => match v with None => true | _ => false end) times = 0 <-> None ∉ times.
Proof.
  unfold count_by. induction times as [|[t|] times IH]; cbn [sum_by foldr].
  - split; [by intros _ ?%elem_of_nil|done].
  - rewrite not_elem_of_cons. fold (sum_by (fun v : option Z => if match v with None => true | _ => false end then 1 else 0) times). rewrite Z.add_0_l, IH. by split; [|intros []].
  - pose proof (count_by_nonneg (fun v : option Z => match v with None => true | _ => false end) times) as H. unfold count_by, sum_by in H. split; [lia|].
    intros []. by left.
Qed.

Section GaugesExact.
Context (legacy : jstr -> res queue_item) (statSync : jstr -> res Z).

Definition row_item (row : queue_row) : queue_item :=
  {| qi_bytes := Some (byte_length (row_raw row)); qi_queuedAt := row_queuedAt row;
     qi_expiresAt := match row with Row q => q_expiresAt q | LegacyRow _ => None end |}.

Lemma items_of_proper rows : Forall proper_row rows -> items_of legacy rows = Ok (map row_item rows).
Proof.
  induction 1 as [|row rows (q & -> & Hb & _) _ IH]; [done|]. cbn [items_of item_of map]. rewrite IH. cbn. by rewrite Hb.
Qed.

Lemma waiting_rows_proper db : rooms_wf db -> Forall proper_row (waiting_rows db).
Proof.
  intros Hwf. assert (forall r : role, Forall proper_row (concat (map (fun e => column r e.2) (map_to_list db)))) as H.
  { intros r. apply Forall_concat, Forall_map, Forall_forall. intros [room row] Hin. apply elem_of_map_to_list in Hin.
    by destruct (Hwf _ _ Hin) as [Hq _]; destruct (Hq r). }
  apply Forall_app. split; [apply (H Machine)|apply (H Phone)].
Qed.

Lemma filter_items now rows :
  Forall proper_row rows ->
  filter (fun i => expires_after now (qi_expiresAt i) = true) (map row_item rows) = map row_item (filter (fun r => row_unexpired now r = true) rows).
Proof.
  induction 1 as [|row rows (q & -> & _) _ IH]; [done|]. cbn [map]. rewrite !filter_cons. cbn [row_item qi_expiresAt row_unexpired].
  case_decide; [cbn [map]; by rewrite IH|done].
Qed.

(** C1: The gauges describe the queues: on the well-formed stores of the relay the snapshot
    never throws; it counts exactly the unexpired rows of both queues of every room and
    the bytes of their texts, and the unexpired queued jobs and the bytes of their
    payloads; the age it reports is that of the oldest of them, 0 when there is none, and
    none as soon as one row's time is unknown. *)
Theorem gauges_describe_the_queues (path : jstr) (db : rooms) (jobs : task_table) (now : Z) :
  rooms_wf db -> table_wf jobs ->
  let live := filter (fun r => row_unexpired now r = true) (waiting_rows db) in
  exists g, queueGauges legacy statSync path db jobs now = Ok g /\
    g_queueCount g = Z.of_nat (length live) /\ g_queueBytes g = sum_by (fun r => byte_length (row_raw r)) live /\
    oldest_age now (map row_queuedAt live) (g_queueOldestAgeMs g) /\
    g_queueUnknownAgeCount g = count_by (fun r => match row_queuedAt r with None => true | _ => false end) live /\
    g_taskQueueCount g = Z.of_nat (length (queued_jobs now jobs)) /\ 0 <= g_taskQueueBytes g <= sum_by (fun e => j_bytes e.2) jobs /\
    oldest_age now (map (fun row => Some (j_createdAt row)) (queued_jobs now jobs)) (g_taskQueueOldestAgeMs g).
Proof.
  intros Hdb Hjobs live. unfold queueGauges. rewrite items_of_proper by by apply waiting_rows_proper. cbn [res_bind mbind].
  rewrite filter_items by by apply waiting_rows_proper. fold live. eexists. split; [reflexivity|]. cbn.
  rewrite length_map. split; [done|]. split; [unfold sql_sum; by rewrite map_map, sum_by_map|]. split; [|split; [|split; [done|split]]].
  - replace (map qi_queuedAt (map row_item live)) with (map row_queuedAt live) by by rewrite map_map.
    assert (count_by (fun i => match qi_queuedAt i with None => true | _ => false end) (map row_item live) =
            count_by (fun v : option Z => match v with None => true | _ => false end) (map row_queuedAt live)) as ->
      by (unfold count_by; by rewrite !sum_by_map).
    destruct (Z.eqb_spec (count_by (fun v : option Z => match v with None => true | _ => false end) (map row_queuedAt live)) 0) as [E|E]; cbn [negb].
    + apply count_unknown in E. rewrite <- (length_map row_queuedAt live). by apply age_spec.
    + destruct (decide (None ∈ map row_queuedAt live)) as [H|H]; [done|]. by apply count_unknown in H.
  - unfold count_by. by rewrite sum_by_map.
  - assert (Forall (fun e => 0 <= j_bytes e) jobs.*2) as Hb.
    { apply Forall_fmap. eapply Forall_impl; [exact (tw_rows _ Hjobs)|]. by intros e (_ & _ & ?). }
    unfold queued_jobs. split.
    + apply sum_by_nonneg, Forall_forall. intros row [_ Hin]%list_elem_of_filter. rewrite Forall_forall in Hb. by apply Hb.
    + etrans; [apply sum_by_sublist; [exact Hb|apply sublist_filter]|]. by rewrite <- (sum_by_map snd j_bytes).
  - rewrite <- (length_map (fun row => Some (j_createdAt row)) (queued_jobs now jobs)). apply age_spec.
    intros Hin. by apply list_elem_of_In, in_map_iff in Hin as (? & ? & _).
Qed.
End GaugesExact.

(** ** Reconnects *)

Inductive conn_event := COpen (subject : jstr) (at_ : Z) | CClose (subject : jstr) (at_ : Z).
Definition conn_step (c : capacity_state) (e : conn_event) : capacity_state :=
  match e with COpen s t => note_connected s t c | CClose s t => note_closed s t c end.
Definition conn_run (trace : list conn_event) : capacity_state := fold_left conn_step trace createRelayCapacity.

Definition opens_of (s : jstr) (trace : list conn_event) : Z := count_by (fun e => match e with COpen s' _ => s' =?s s | _ => false end) trace.
Definition closes_of (s : jstr) (trace : list conn_event) : Z := count_by (fun e => match e with CClose s' _ => s' =?s s | _ => false end) trace.
(** The time of the last closing of a connection of [s]. *)
Definition last_close (s : jstr) (trace : list conn_event) : option Z :=
  fold_left (fun acc e => match e with CClose s' t => if s' =?s s then Some t else acc | _ => acc end) trace None.
Definition subjects_of (trace : list conn_event) : list jstr := omap (fun e => match e with COpen s _ => Some s | _ => None end) trace.

(** A connection that opens after all earlier ones of its subject closed, the last less than ten minutes ago. *)
Definition is_reconnect (before : list conn_event) (s : jstr) (t : Z) : bool :=
  (opens_of s before =? closes_of s before) && match last_close s before with Some t0 => t - t0 <? RECONNECT_MS | None => false end.

(** The closers run once each, after their connection; [n] is the number of reconnects. *)
Inductive connections : list conn_event -> Z -> Prop :=
| conn_none : connections [] 0
| conn_open trace n s t : connections trace n -> connections (trace ++ [COpen s t]) (n + if is_reconnect trace s t then 1 else 0)
| conn_close trace n s t : connections trace n -> closes_of s trace < opens_of s trace -> connections (trace ++ [CClose s t]) n.

Definition reconnects (c : capacity_state) : Z := default 0 (map_get "reconnects"%js (ms_counters (cp_measurements c))).

Lemma bounded_recent_length recent : (length recent <= S MAX_RECENT)%nat -> (length (bounded_recent recent) <= MAX_RECENT)%nat.
Proof. intros H. unfold bounded_recent. destruct (Nat.ltb_spec MAX_RECENT (length recent)); [|done]. destruct recent; cbn [tail length] in *; lia. Qed.

Lemma conn_run_bounded trace : (length (cp_recent (conn_run trace)) <= MAX_RECENT)%nat.
Proof.
  induction trace as [|e trace IH] using rev_ind; [cbn; unfold MAX_RECENT; lia|]. unfold conn_run in *. rewrite fold_left_app. cbn [fold_left].
  set (c := fold_left conn_step trace createRelayCapacity) in *. clearbody c. destruct e as [s t|s t]; cbn [conn_step].
  - apply bounded_recent_length. etrans; [apply map_push_length|]. lia.
  - unfold note_closed. destruct (map_get s (cp_recent c)) as [row|] eqn:E; [|done]. cbn [cp_recent]. by rewrite map_set_same_length by by rewrite E.
Qed.

(** What the trace says of the row of a subject. *)
Definition row_says (trace : list conn_event) (s : jstr) (row : option recent_row) : Prop :=
  match row with
  | None => opens_of s trace = 0
  | Some r => 0 < opens_of s trace /\ rc_active r = opens_of s trace - closes_of s trace /\
              (rc_active r = 0 -> last_close s trace = Some (rc_closedAt r))
  end.

Record follows (trace : list conn_event) (n : Z) (c : capacity_state) : Prop := {
  fo_count : reconnects c = n;
  fo_keys : NoDup (cp_recent c).*1 /\ (cp_recent c).*1 ⊆ subjects_of trace;
  fo_rows : forall s, row_says trace s (map_get s (cp_recent c));
}.

Lemma trace_counts s trace e :
  opens_of s (trace ++ [e]) = opens_of s trace + (match e with COpen s' _ => if s' =?s s then 1 else 0 | _ => 0 end) /\
  closes_of s (trace ++ [e]) = closes_of s trace + (match e with CClose s' _ => if s' =?s s then 1 else 0 | _ => 0 end) /\
  last_close s (trace ++ [e]) = match e with CClose s' t => if s' =?s s then Some t else last_close s trace | _ => last_close s trace end.
Proof.
  unfold opens_of, closes_of, last_close, count_by. rewrite !sum_by_app, fold_left_app. destruct e; cbn; split_and!; repeat case_match; try done; lia.
Qed.

Lemma subjects_app trace e : subjects_of (trace ++ [e]) = subjects_of trace ++ match e with COpen s _ => [s] | _ => [] end.
Proof. unfold subjects_of. rewrite omap_app. by destruct e. Qed.

Lemma record_other name name' count m : name <> name' -> map_get name (ms_counters (record name' count m)) = map_get name (ms_counters m).
Proof. intros H. unfold record. repeat case_match; cbn; try done. by rewrite map_get_set, decide_False by congruence. Qed.

Lemma record1_same name m : map_get name (ms_counters (record1 name m)) = Some (default 0 (map_get name (ms_counters m)) + 1).
Proof.
  unfold record1, record. change (num_is_safe (NInt 1) && (0 <=? 1)) with true. cbn [ms_counters]. by rewrite map_get_set, decide_True by done.
Qed.

Lemma keys_fit (keys subjects : list jstr) : NoDup keys -> keys ⊆ subjects -> (length keys <= length (remove_dups subjects))%nat.
Proof. intros Hn Hs. apply submseteq_length, NoDup_submseteq; [done|]. intros x Hx. apply elem_of_remove_dups. by apply Hs. Qed.

Lemma closes_nonneg s trace : 0 <= closes_of s trace.
Proof. apply count_by_nonneg. Qed.

Lemma last_close_none s trace : closes_of s trace = 0 -> last_close s trace = None.
Proof.
  induction trace as [|e trace IH] using rev_ind; [done|]. destruct (trace_counts s trace e) as (_ & -> & ->). intros E.
  pose proof (closes_nonneg s trace). destruct e as [s' t|s' t]; [apply IH; lia|]. destruct (s' =?s s); [lia|apply IH; lia].
Qed.

Lemma open_follows trace n c s t :
  (length (remove_dups (subjects_of (trace ++ [COpen s t]))) <= MAX_RECENT)%nat ->
  follows trace n c -> closes_of s trace <= opens_of s trace ->
  follows (trace ++ [COpen s t]) (n + if is_reconnect trace s t then 1 else 0) (note_connected s t c).
Proof.
  intros Hfit [Hc [Hn Hs] Hr] Hle. pose proof (Hr s) as Hrow. pose proof (closes_nonneg s trace).
  assert (forall v, NoDup (map_push s v (cp_recent c)).*1 /\ (map_push s v (cp_recent c)).*1 ⊆ subjects_of (trace ++ [COpen s t])) as Hkeys.
  { intros v. split; [by apply map_push_nodup|]. rewrite subjects_app. unfold map_push. rewrite fmap_app. intros x [Hx|Hx]%elem_of_app.
    - apply elem_of_app. left. apply Hs. apply list_elem_of_fmap in Hx as (e & -> & He). apply list_elem_of_fmap. exists e. split; [done|].
      eapply elem_of_sublist; [exact He|]. apply map_delete_sublist.
    - apply elem_of_app. by right. }
  assert (forall v, bounded_recent (map_push s v (cp_recent c)) = map_push s v (cp_recent c)) as Hb.
  { intros v. unfold bounded_recent. destruct (Hkeys v) as [K1 K2]. pose proof (keys_fit _ _ K1 K2) as K. rewrite length_fmap in K.
    destruct (Nat.ltb_spec MAX_RECENT (length (map_push s v (cp_recent c)))); [lia|done]. }
  split.
  - unfold reconnects, note_connected. cbn [cp_measurements]. unfold is_reconnect.
    replace (match map_get s (cp_recent c) with Some row => (rc_active row =? 0) && (t - rc_closedAt row <? RECONNECT_MS) | None => false end)
      with ((opens_of s trace =? closes_of s trace) && match last_close s trace with Some t0 => t - t0 <? RECONNECT_MS | None => false end).
    + unfold reconnects in Hc. destruct (_ && _); [rewrite record1_same, Hc; done|rewrite Hc; lia].
    + unfold row_says in Hrow. destruct (map_get s (cp_recent c)) as [row|].
      * destruct Hrow as (Hp & Ha & Hl). destruct (Z.eqb_spec (rc_active row) 0) as [E|E].
        -- rewrite (Hl E). by rewrite (proj2 (Z.eqb_eq (opens_of s trace) (closes_of s trace))) by lia.
        -- by rewrite (proj2 (Z.eqb_neq (opens_of s trace) (closes_of s trace))) by lia.
      * assert (closes_of s trace = 0) as H0 by (pose proof (closes_nonneg s trace); lia).
        by rewrite last_close_none, andb_false_r by done.
  - unfold note_connected. cbn [cp_recent]. rewrite Hb. apply Hkeys.
  - intros s'. unfold note_connected. cbn [cp_recent]. rewrite Hb, map_get_push.
    destruct (trace_counts s' trace (COpen s t)) as (E1 & E2 & E3). unfold jeqb in *. destruct (decide (s' = s)) as [->|Hne].
    + unfold row_says. rewrite E1, E2, E3. cbn [rc_active rc_closedAt]. rewrite (bool_decide_eq_true_2 (s = s)) by done.
      unfold row_says in Hrow. destruct (map_get s (cp_recent c)) as [row|]; [destruct Hrow as (Hp & Ha & Hl)|].
      * split; [lia|]. split; [lia|]. intros E. lia.
      * split; [lia|]. split; [lia|]. intros E. lia.
    + specialize (Hr s'). unfold row_says in *. rewrite E1, E2, E3. rewrite (bool_decide_eq_false_2 (s = s')) by congruence. rewrite !Z.add_0_r. done.
Qed.

Lemma close_follows trace n c s t :
  closes_of s trace < opens_of s trace -> follows trace n c -> follows (trace ++ [CClose s t]) n (note_closed s t c).
Proof.
  intros Hlt [Hc [Hn Hs] Hr]. pose proof (Hr s) as Hrow. pose proof (closes_nonneg s trace). unfold row_says in Hrow.
  destruct (map_get s (cp_recent c)) as [row|] eqn:E; [destruct Hrow as (Hp & Ha & Hl)|lia].
  unfold note_closed. rewrite E. split; cbn [cp_recent cp_measurements].
  - exact Hc.
  - rewrite (map_set_keys_old _ _ row), subjects_app, app_nil_r by done. done.
  - intros s'. rewrite map_get_set. destruct (trace_counts s' trace (CClose s t)) as (E1 & E2 & E3). unfold jeqb in *. destruct (decide (s' = s)) as [->|Hne].
    + unfold row_says. rewrite E1, E2, E3, (bool_decide_eq_true_2 (s = s)) by done. cbn [rc_active rc_closedAt].
      split; [lia|]. split; [lia|]. intros E0. by rewrite E0.
    + specialize (Hr s'). unfold row_says in *. rewrite E1, E2, E3, (bool_decide_eq_false_2 (s = s')), !Z.add_0_r by congruence. done.
Qed.

Lemma connections_balanced trace n : connections trace n -> forall s, closes_of s trace <= opens_of s trace.
Proof.
  induction 1 as [|trace n s t _ IH|trace n s t _ IH Hlt]; intros s'; [done|..];
    edestruct (trace_counts s' trace) as (E1 & E2 & _); rewrite E1, E2; specialize (IH s'); unfold jeqb; case_bool_decide; subst; lia.
Qed.

Lemma fit_prefix trace e : (length (remove_dups (subjects_of trace)) <= length (remove_dups (subjects_of (trace ++ [e]))))%nat.
Proof.
  apply keys_fit; [apply NoDup_remove_dups|]. intros x Hx. rewrite elem_of_remove_dups in Hx. rewrite subjects_app. apply elem_of_app. by left.
Qed.

(** C21: Reconnects are counted exactly: for any interleaving of connections opening and closing,
    the table of recent subjects never exceeds 4,096 entries; and while no more than that
    many subjects have appeared, the counter is exactly the number of connections that
    opened when all earlier ones of their subject had closed, the last less than ten
    minutes before; parallel connections are never counted. *)
Theorem reconnects_are_exact (trace : list conn_event) (n : Z) :
  connections trace n ->
  (length (cp_recent (conn_run trace)) <= MAX_RECENT)%nat /\
  ((length (remove_dups (subjects_of trace)) <= MAX_RECENT)%nat -> reconnects (conn_run trace) = n).
Proof.
  intros H. split; [apply conn_run_bounded|]. intros Hfit. assert (follows trace n (conn_run trace)) as Hf; [|by destruct Hf].
  induction H as [|trace n s t H IH|trace n s t H IH Hlt].
  - split; [done|by split; [constructor|]|done].
  - pose proof (fit_prefix trace (COpen s t)). unfold conn_run. rewrite fold_left_app. apply open_follows; [done|apply IH; lia|]. by eapply connections_balanced.
  - pose proof (fit_prefix trace (CClose s t)). unfold conn_run. rewrite fold_left_app. apply close_follows; [done|apply IH; lia].
Qed.

(** ** The census *)

Definition open_count (l : list sock) : Z := count_by sk_open l.

Record census_ok (l : list sock) (c : census) : Prop := {
  co_total : cs_machine c + cs_controller c + cs_unknown c = open_count l;
  co_signs : 0 <= cs_machine c /\ 0 <= cs_controller c /\ 0 <= cs_unknown c;
  co_people : NoDup (cs_people c).*1 /\ Z.of_nat (length (cs_people c)) <= cs_machine c + cs_controller c;
  co_tags : Forall (fun e => en_tag e.2 = e.1 /\ en_kind e.2 ∈ ["controller"; "computer"]%js) (cs_people c);
}.

Section Census.
Context (tag : jstr -> jstr -> jstr).

Lemma count_sock_ok now l s c c' :
  census_ok l c -> count_sock tag now (Ok c) s = Ok c' -> census_ok (l ++ [s]) c'.
Proof.
  intros [Ht Hs Hp Hg] H. unfold count_sock in H. cbn [res_bind mbind] in H.
  assert (open_count (l ++ [s]) = open_count l + (if sk_open s then 1 else 0)) as Hopen
    by (unfold open_count, count_by; rewrite sum_by_app; cbn; by rewrite Z.add_0_r).
  destruct (sk_open s); cbn [negb] in H.
  2:{ injection H as <-. split; [lia|done..]. }
  assert (census_ok (l ++ [s]) {| cs_people := cs_people c; cs_machine := cs_machine c; cs_controller := cs_controller c; cs_unknown := cs_unknown c + 1 |}) as Hu
    by (split; cbn; [lia..|done|done]).
  destruct (sk_ticket s) as [t|]; [|by injection H as <-]. destruct (_ <=? now); [by injection H as <-|].
  destruct (to_string (get "accountId" t)) as [account|]; [|done]. cbn in H.
  set (phone := is_str (get "role" t) "phone") in *.
  destruct (to_string _) as [who|]; [|done]. cbn in H. injection H as <-. split; cbn [cs_people cs_machine cs_controller cs_unknown].
  - destruct phone; lia.
  - destruct phone; lia.
  - split; [apply map_set_nodup, Hp|]. pose proof (map_set_length (tag (if phone then "controller" else "computer")%js (account +++ ":" +++ who))
      {| en_tag := tag (if phone then "controller" else "computer")%js (account +++ ":" +++ who); en_account := tag "account" account;
         en_kind := if phone then "controller" else "computer"; en_lastSeen := now |} (cs_people c)). destruct phone; lia.
  - apply Forall_forall. intros [k e] Hin. apply map_set_elem in Hin as [[-> ->]|[_ Hin]]; [| |apply Hp].
    + cbn. split; [done|]. destruct phone; set_solver.
    + rewrite Forall_forall in Hg. by apply Hg.
Qed.

(** C1: The census counts every open socket once: as a computer's, as a phone's, or as unknown
    (no ticket, or an expired one); the people listed have distinct tags, are never more
    than the sockets with a ticket, and each is of the kind its tag was made for. *)
Theorem census_is_exact (now : Z) (sockets : list (jstr * list sock)) (c : census) :
  entities tag now sockets = Ok c -> census_ok (concat sockets.*2) c.
Proof.
  unfold entities. generalize (concat sockets.*2). intros l. revert c.
  induction l as [|s l IH] using rev_ind; intros c; cbn [fold_left].
  - intros [= <-]. split; cbn; try done; [split; [constructor|lia]].
  - rewrite fold_left_app. cbn [fold_left]. destruct (fold_left (count_sock tag now) l (Ok empty_census)) as [c0|] eqn:E; [|done].
    intros H. eapply count_sock_ok; [by apply IH|exact H].
Qed.
End Census.

(** ** The reporter *)

Section ReporterLaws.
Context (siteId source bootId bootAt : jstr) (synthetic : bool).
Abbreviation run := (report_run siteId source bootId bootAt synthetic).
Abbreviation body_of := (report_body siteId source bootId bootAt synthetic).

Definition is_end (e : report_event) : bool := match e with ReEnd => true | _ => false end.
Definition posting (r : reporter) : Z := match rp_phase r with Posting => 1 | _ => 0 end.

(** Each body has the number of its publication, greater than those before it. *)
Inductive numbered : Z -> list jstr -> Z -> Prop :=
| num_done lo hi : lo <= hi -> numbered lo [] hi
| num_next lo n hi value observedAt bodies :
    lo < n -> byte_length (body_of value n observedAt) <= MAX_SNAPSHOT_BYTES -> numbered n bodies hi ->
    numbered lo (body_of value n observedAt :: bodies) hi.

Lemma numbered_below lo lo' bodies hi : lo <= lo' -> numbered lo' bodies hi -> numbered lo bodies hi.
Proof. intros H Hn. destruct Hn; [constructor; lia|]. constructor; [lia|done..]. Qed.

Lemma step_numbered r e : numbered (rp_sequence r) (option_list (report_step siteId source bootId bootAt synthetic r e).2)
  (rp_sequence (report_step siteId source bootId bootAt synthetic r e).1) /\
  rp_sequence r <= rp_sequence (report_step siteId source bootId bootAt synthetic r e).1.
Proof.
  destruct e as [|value observedAt| |]; cbn [report_step].
  - destruct (_ || _); cbn; (split; [constructor|]); lia.
  - destruct (rp_phase r); try (cbn; split; [constructor|]; lia). destruct value as [value|]; [|cbn; split; [constructor|]; lia].
    destruct (Z.ltb_spec MAX_SNAPSHOT_BYTES (byte_length (body_of value (rp_sequence r + 1) observedAt))) as [Hl|Hl]; cbn [fst snd rp_sequence option_list].
    + split; [constructor|]; lia.
    + split; [|lia]. constructor; [lia|exact Hl|constructor; lia].
  - destruct (rp_phase r); cbn; (split; [constructor|]); lia.
  - cbn. split; [constructor|]; lia.
Qed.

Lemma numbered_app lo l1 mid l2 hi : numbered lo l1 mid -> numbered mid l2 hi -> numbered lo (l1 ++ l2) hi.
Proof. induction 1; intros H2; cbn; [by eapply numbered_below|constructor; auto]. Qed.

Lemma run_numbered events r : numbered (rp_sequence r) (run r events).2 (rp_sequence (run r events).1).
Proof.
  revert r. induction events as [|e events IH]; intros r; cbn [report_run]; [apply num_done; cbn; lia|].
  destruct (step_numbered r e) as [H1 _]. destruct (report_step siteId source bootId bootAt synthetic r e) as [r1 out].
  specialize (IH r1). destruct (run r1 events) as [r2 bodies]. cbn [fst snd] in *. by eapply numbered_app.
Qed.

Lemma run_posts events r :
  posting r + Z.of_nat (length (run r events).2) <= count_by is_end events + posting (run r events).1.
Proof.
  revert r. induction events as [|e events IH]; intros r; cbn [report_run]; [cbn; lia|].
  assert (posting r + Z.of_nat (length (option_list (report_step siteId source bootId bootAt synthetic r e).2)) <=
          (if is_end e then 1 else 0) + posting (report_step siteId source bootId bootAt synthetic r e).1) as Hs.
  { unfold posting. destruct e as [|value observedAt| |]; cbn [report_step is_end].
    - unfold rp_pending. destruct (rp_phase r) eqn:E, (rp_closed r); cbn; rewrite ?E; lia.
    - destruct (rp_phase r) eqn:E; cbn; rewrite ?E; try lia. destruct value as [value|]; [destruct (_ <? _)|]; cbn; lia.
    - destruct (rp_phase r) eqn:E; cbn; rewrite ?E; lia.
    - cbn. destruct (rp_phase r); lia. }
  destruct (report_step siteId source bootId bootAt synthetic r e) as [r1 out]. specialize (IH r1). destruct (run r1 events) as [r2 bodies].
  cbn [fst snd] in *. rewrite length_app. unfold count_by in *. cbn [sum_by foldr]. unfold sum_by in IH. lia.
Qed.

Definition collecting (r : reporter) : Z := match rp_phase r with Collecting => 1 | _ => 0 end.

Lemma run_closed events r : rp_closed r = true -> Z.of_nat (length (run r events).2) <= collecting r.
Proof.
  revert r. induction events as [|e events IH]; intros r Hc; cbn [report_run]; [unfold collecting; cbn; case_match; lia|].
  assert (rp_closed (report_step siteId source bootId bootAt synthetic r e).1 = true /\
          Z.of_nat (length (option_list (report_step siteId source bootId bootAt synthetic r e).2)) + collecting (report_step siteId source bootId bootAt synthetic r e).1
            <= collecting r) as [Hc1 Hs].
  { unfold collecting. destruct e as [|value observedAt| |]; cbn [report_step].
    - rewrite Hc, orb_true_r. cbn. split; [done|]. case_match; lia.
    - destruct (rp_phase r) eqn:E; cbn; rewrite ?E; try (split; [done|lia]). destruct value as [value|]; [destruct (_ <? _)|]; cbn; (split; [done|lia]).
    - destruct (rp_phase r) eqn:E; cbn; rewrite ?E; (split; [done|lia]).
    - cbn. split; [done|]. case_match; lia. }
  destruct (report_step siteId source bootId bootAt synthetic r e) as [r1 out]. specialize (IH r1 Hc1). destruct (run r1 events) as [r2 bodies].
  cbn [fst snd] in *. rewrite length_app. lia.
Qed.

(** C1: Publications never overlap: however timers, snapshots and answers interleave, the
    bodies posted carry strictly increasing sequence numbers and are at most 1 MiB each;
    every body but the last was answered, failed or timed out before the next was posted;
    and after the reporter was closed at most one more body is posted, the one whose
    snapshot was being taken. *)
Theorem publications_never_overlap (events later : list report_event) :
  let r := (run new_reporter events).1 in
  numbered 0 (run new_reporter events).2 (rp_sequence r) /\
  Z.of_nat (length (run new_reporter events).2) <= count_by is_end events + 1 /\
  (rp_closed r = true -> Z.of_nat (length (run r later).2) <= collecting r <= 1).
Proof.
  cbv zeta. split_and!.
  - apply (run_numbered events new_reporter).
  - pose proof (run_posts events new_reporter) as H. unfold posting in H. cbn [new_reporter rp_phase] in H. case_match; lia.
  - intros H. split; [by apply run_closed|]. unfold collecting. case_match; lia.
Qed.
End ReporterLaws.

(** ** Examples *)

Module Examples.
Definition plain_tag (kind value : jstr) : jstr := kind +++ ":" +++ value.
Definition no_legacy (s : jstr) : res queue_item := Throw.
Definition sizes (path : jstr) : res Z := if path =?s "relay.sqlite3" then Ok 8192 else Throw.
Definition queued_at (t : option Z) : queue_row :=
  Row {| q_raw := "abc"; q_rawBytes := Some 3; q_deliveryId := Some "d"; q_queuedAt := t; q_expiresAt := Some 5000 |}.
Definition store_of (q : list queue_row) : rooms :=
  {[ ("room"%js : jstr) := {| auth_sha256 := None; push_tokens := []; machine_queue := q; phone_queue := []; updated_at := 0 |} ]}.

Lemma store_of_wf t : rooms_wf (store_of [queued_at t]).
Proof.
  unfold store_of. intros room row H. apply lookup_singleton_Some in H as [_ <-]. split; [|by split; [cbn; lia|constructor]].
  intros [|]; [|apply queue_wf_nil]. split_and!.
  - repeat constructor. eexists. split; [done|]. split; [done|by eexists].
  - apply (bool_decide_unpack _). vm_compute. exact I.
  - vm_compute. discriminate.
  - vm_compute. discriminate.
Qed.

Example gauges_known : queueGauges no_legacy sizes "relay.sqlite3" (store_of [queued_at (Some 1000)]) [] 4000 =
  Ok {| g_queueCount := 1; g_queueBytes := 3; g_queueOldestAgeMs := Some 3000; g_queueUnknownAgeCount := 0; g_taskQueueCount := 0;
        g_taskQueueBytes := 0; g_taskQueueOldestAgeMs := Some 0; g_databaseBytes := Some 8192; g_walBytes := None |}.
Proof. vm_compute. reflexivity. Qed.

(** A row of unknown age hides the age of the others. *)
Example gauges_unknown : match queueGauges no_legacy sizes "relay.sqlite3" (store_of [queued_at None]) [] 4000 with
                         | Ok g => (g_queueOldestAgeMs g, g_queueUnknownAgeCount g) = (None, 1) | Throw => False end.
Proof. vm_compute. reflexivity. Qed.

Lemma gauges_describe_the_queues_witness :
  exists g, queueGauges no_legacy sizes "relay.sqlite3" (store_of [queued_at (Some 1000)]) [] 4000 = Ok g /\ g_queueCount g = 1.
Proof.
  destruct (gauges_describe_the_queues no_legacy sizes "relay.sqlite3" (store_of [queued_at (Some 1000)]) [] 4000) as (g & H & Hc & _);
    [apply store_of_wf|apply empty_wf|]. exists g. split; [exact H|]. rewrite Hc. vm_compute. reflexivity.
Defined.

(** Two parallel connections, both closed, and a third within ten minutes. *)
Definition visits : list conn_event := [COpen "s" 1000000; COpen "s" 1000001; CClose "s" 1000500; CClose "s" 1000600; COpen "s" 1001000]%js.
Lemma opens trace n m s t : connections trace n -> m = n + (if is_reconnect trace s t then 1 else 0) -> connections (trace ++ [COpen s t]) m.
Proof. intros H ->. by constructor. Qed.

Lemma visits_counted : connections visits 1.
Proof.
  change visits with ((((([] ++ [COpen "s" 1000000]) ++ [COpen "s" 1000001]) ++ [CClose "s" 1000500]) ++ [CClose "s" 1000600]) ++ [COpen "s" 1001000])%js.
  apply (opens _ 0); [|vm_compute; reflexivity]. do 2 (apply conn_close; [|vm_compute; reflexivity]).
  do 2 (apply (opens _ 0); [|vm_compute; reflexivity]). constructor.
Qed.

Lemma reconnects_are_exact_witness : reconnects (conn_run visits) = 1.
Proof. apply (reconnects_are_exact visits 1); [apply visits_counted|]. vm_compute. lia. Defined.

Definition online (id : nat) (ticket : option jsv) : sock :=
  {| sk_id := id; sk_open := true; sk_room := "room"; sk_role := None; sk_identity := None; sk_commercial := true; sk_ticket := ticket;
     sk_timer := None; sk_relayControl := false; sk_ingress := {| in_flow := false; in_received := None |};
     sk_window := {| windowStartedAt := None; windowMessages := 0 |}; sk_recipientKeyId := None; sk_presenceEnabled := false; sk_presenceAt := None; sk_policyClose := false |}.
Definition phone_ticket : jsv :=
  JObj [("accountId", JStr "a"); ("computerId", JStr "c"); ("publicKey", JStr "k"); ("role", JStr "phone"); ("expiresAt", JNum (NInt 9000))]%js.
Definition sockets : list (jstr * list sock) := [("room", [online 1 (Some phone_ticket); online 2 (Some phone_ticket); online 3 None])]%js.

Example two_sockets_of_one_phone :
  entities plain_tag 1000 sockets =
    Ok {| cs_people := [("controller:a:k", {| en_tag := "controller:a:k"; en_account := "account:a"; en_kind := "controller"; en_lastSeen := 1000 |})]%js;
          cs_machine := 0; cs_controller := 2; cs_unknown := 1 |}.
Proof. vm_compute. reflexivity. Qed.

Lemma census_is_exact_witness : exists c, entities plain_tag 1000 sockets = Ok c /\ census_ok (concat sockets.*2) c.
Proof. eexists. split; [apply two_sockets_of_one_phone|]. apply (census_is_exact plain_tag 1000 sockets). apply two_sockets_of_one_phone. Defined.

(** A snapshot is taken while the reporter closes: it is still posted, and nothing after it. *)
Definition shutting : list report_event := [ReTick; ReTick; ReSnapshot (Ok []) "t"; ReTick; ReEnd; ReTick; ReClose]%js.
Example one_last_post :
  let r := (report_run "site" "relay" "boot" "at" false new_reporter shutting).1 in
  length (report_run "site" "relay" "boot" "at" false new_reporter shutting).2 = 1%nat /\ rp_closed r = true /\ collecting r = 1 /\
  length (report_run "site" "relay" "boot" "at" false r [ReSnapshot (Ok []) "t"; ReEnd; ReTick; ReSnapshot (Ok []) "t"])%js.2 = 1%nat.
Proof. vm_compute. auto. Qed.

Example histogram_bins :
  map_get "receipt"%js (ms_latencies (run_timings [("receipt", float_of 7); ("receipt", float_of 50); ("receipt", float_of 90000000); ("receipt", float_of 51)]%js)) =
  Some {| h_count := 3; h_sumMs := float_of 108; h_bins := [1; 1; 1; 0; 0; 0; 0; 0] |}.
Proof. vm_compute. reflexivity. Qed.
End Examples.
