(* ===== verification/Server.v ===== *)
(** * The life of the Node process
    [src/node/server.js]: the wiring of [createRelayServer] (sockets, heartbeat, wake
    pump, cleanup and dispatch timers), [server.shutdown], the [close] event of the server
    and the entry point; with [markAlive] and [heartbeatSweep] on the real sockets.

    [process_step] runs one event of the event loop.  The loops over the map of sockets go
    in the order of the upgrades (the code goes room by room).  When a timer fires, when
    Node closes its server and how a push ends are the environment's choice. *)

From S2P Require Import TaskHttp.
From S2P Require Import Prelude Validation CoolDown Delivery NodeRooms Presence SocketDelivery Admission NodeSocket NodeUpgrade.
From S2P Require Import Wake Activities ActivityEndpoint Apns PushDevices Routing TaskJobs TaskStore TaskOffers NodeHttp NodeService.
#[local] Open Scope bool_scope.
#[local] Open Scope Z_scope.
#[local] Open Scope js_scope.

(** ** State *)

(** [Stopping t]: [shutdown] was called and terminates what is left at [t]. *)
Inductive phase := Running | Stopping (force : Z) | Stopped.
#[export] Instance phase_eq_dec : EqDecision phase.
Proof. solve_decision. Defined.

Record process := {
  sv_node : node;
  sv_awaiting : list nat;         (** the sockets whose [awaitingPong] is set *)
  sv_dispatch : list nat;         (** those whose upgrade asked for task dispatch *)
  sv_offers : list (nat * offers);   (** the [WeakMap] of the dispatch pump *)
  sv_pump : option (list jstr);   (** [wakePump]: the rooms left, the first being drained *)
  sv_phase : phase;
}.

Definition sv_relay (p : process) : relay := nd_relay (sv_node p).
Definition with_node (n : node) (p : process) : process :=
  {| sv_node := n; sv_awaiting := sv_awaiting p; sv_dispatch := sv_dispatch p; sv_offers := sv_offers p; sv_pump := sv_pump p; sv_phase := sv_phase p |}.
Definition on_relay (r : relay) (p : process) : process := with_node (with_relay r (sv_node p)) p.
Definition with_awaiting (l : list nat) (p : process) : process :=
  {| sv_node := sv_node p; sv_awaiting := l; sv_dispatch := sv_dispatch p; sv_offers := sv_offers p; sv_pump := sv_pump p; sv_phase := sv_phase p |}.
Definition with_dispatch (l : list nat) (p : process) : process :=
  {| sv_node := sv_node p; sv_awaiting := sv_awaiting p; sv_dispatch := l; sv_offers := sv_offers p; sv_pump := sv_pump p; sv_phase := sv_phase p |}.
Definition with_offers (c : list (nat * offers)) (p : process) : process :=
  {| sv_node := sv_node p; sv_awaiting := sv_awaiting p; sv_dispatch := sv_dispatch p; sv_offers := c; sv_pump := sv_pump p; sv_phase := sv_phase p |}.
Definition with_pump (pump : option (list jstr)) (p : process) : process :=
  {| sv_node := sv_node p; sv_awaiting := sv_awaiting p; sv_dispatch := sv_dispatch p; sv_offers := sv_offers p; sv_pump := pump; sv_phase := sv_phase p |}.
Definition with_phase (f : phase) (p : process) : process :=
  {| sv_node := sv_node p; sv_awaiting := sv_awaiting p; sv_dispatch := sv_dispatch p; sv_offers := sv_offers p; sv_pump := sv_pump p; sv_phase := f |}.

Definition socket_ids (p : process) : list nat := map sk_id (rl_sockets (sv_relay p)).

(** ** Liveness of the sockets *)

Definition hear (id : nat) (p : process) : process := with_awaiting (filter (fun k => k <> id) (sv_awaiting p)) p.
(** The flags of the sockets listed. *)
Definition pongs_of (p : process) : pongs := map (fun id => (id, bool_decide (id ∈ sv_awaiting p))) (socket_ids p).

(** [ws.terminate()] and [ws.close(...)] leave the socket listed until its [close] event. *)
Definition shut_all (ids : list nat) (r : relay) : relay := fold_left (fun r id => set_sock id shut r) ids r.

Definition sweep_sockets (ping_throws : nat -> bool) (p : process) : process * list nat :=
  let '(flags, dead) := heartbeatSweep ping_throws (pongs_of p) in
  (with_awaiting (map fst (filter (fun e => e.2 = true) flags)) (on_relay (shut_all dead (sv_relay p)) p), dead).

(** ** The wake pump and the dispatch pump *)

(** [pumpWakes]: [wakePump ??= ...]; a run over no room ends at once. *)
Definition start_pump (p : process) : process :=
  match sv_pump p with
  | Some _ => p
  | None => with_pump (match dueWakeRooms (nd_now (sv_node p)) (nd_wakes (sv_node p)) with [] => None | rooms => Some rooms end) p
  end.
(** The drain of the first room ended; an exception ends the pump. *)
Definition pump_step (ok : bool) (p : process) : process :=
  match sv_pump p with
  | Some (_ :: room :: rest) => with_pump (if ok then Some (room :: rest) else None) p
  | _ => with_pump None p
  end.

Definition peers_of (p : process) : list machine_peer :=
  map (fun s => {| mp_id := sk_id s; mp_room := sk_room s; mp_open := sk_open s; mp_role := sk_role s;
                   mp_taskDispatch := bool_decide (sk_id s ∈ sv_dispatch p); mp_recipient := sk_recipientKeyId s |}) (rl_sockets (sv_relay p)).

Definition offerJobs (p : process) : process * list (nat * public_job) :=
  let n := sv_node p in
  let '(caches, jobs, _, out) := nodeTaskDispatchPump (nd_now n) (peers_of p) (sv_offers p) (TaskHttp.nt_jobs (nd_tasks n)) in
  (with_offers caches (with_node (with_tasks (TaskHttp.with_jobs (nd_tasks n) jobs) n) p), out).

(** ** Events *)

Inductive server_event :=
| SvBegin (q : node_request) | SvEnd (q : node_request) (room : jstr) (ticket : option jsv) (decision : option access_decision) (destroyed dispatch : bool)
| SvMessage (id : nat) (binary : bool) (raw : jstr) | SvPong (id : nat)      (* [pong] and [ping] *)
| SvClose (id : nat) | SvError (id : nat) | SvExpire (id : nat) | SvSent (f : nat) | SvReplay (id : nat) (rows : list replay_item)
| SvHttp (q : http_message) (decision : option (access_decision * bool)) | SvActivity (e : activity_event)
| SvWake (room : jstr) (st : wake) | SvNotified (room : jstr) (sent : list (NodeRooms.device * push_outcome))
| SvHeartbeat (ping_throws : nat -> bool) | SvDispatch | SvCleanup | SvListening | SvDrained (ok : bool)
| SvShutdown | SvForce | SvStopped.

Inductive server_effect :=
| OfFrame (e : effect) | OfUpgrade (o : upgrade_outcome) | OfHttp (answer : served) | OfActivity (o : activity_output)
| Terminated (id : nat) | GoingAway (id : nat) | Offered (id : nat) (j : public_job).

Section Server.
Context (sha256 : jstr -> jstr) (number_of_string : jstr -> option jsnum) (parse_json : list N -> res jsv).
Context (verify : option (jsv -> option jstr -> Z -> option jsv)) (env : apns_env) (instance : option jstr).
Context (parse : jstr -> option jsv) (buffered : delivery -> nat -> Z) (throws : delivery -> nat -> bool).

Definition accepted (out : list upgrade_outcome) : bool := existsb (fun o => match o with NodeUpgrade.Accepted _ => true | _ => false end) out.

Definition upgraded (q : node_request) (dispatch : bool) (out : list upgrade_outcome) (p : process) : process :=
  if accepted out then hear (nq_id q) (if dispatch then with_dispatch (nq_id q :: sv_dispatch p) p else p) else p.

(** What an event does before the server closed. *)
Definition live_step (e : server_event) (p : process) : res (process * list server_effect) :=
  let n := sv_node p in
  let r := sv_relay p in
  let now := nd_now n in
  match e with
  | SvBegin q => Ok (on_relay (upgrade_begin sha256 verify q now r).1 p, [])
  | SvEnd q room ticket decision destroyed dispatch =>
      let '(r, out) := upgrade_end sha256 verify q room ticket decision destroyed now r in
      Ok (upgraded q dispatch out (on_relay r p), map OfUpgrade out)
  | SvMessage id binary raw =>
      let p := hear id p in
      if binary then Ok (p, []) else
      let* result := handleSocketMessage parse verify buffered throws id raw now r in
      Ok (on_relay result.1 p, map OfFrame result.2)
  | SvPong id => Ok (hear id p, [])
  | SvClose id => let '(r, out) := close_sock buffered throws id now r in Ok (on_relay r p, map OfFrame out)
  | SvError id => let '(r, out) := error_sock buffered throws id now r in Ok (on_relay r p, map OfFrame out)
  | SvExpire id => let '(r, out) := expire_sock id now r in Ok (on_relay r p, map OfFrame out)
  | SvSent f => Ok (on_relay (sent_sock f r) p, [])
  | SvReplay id rows => let '(r, out) := replay_sock buffered throws id rows now r in Ok (on_relay r p, map OfFrame out)
  | SvHttp q decision => let '(answer, n) := serve sha256 number_of_string parse_json env instance q decision n in Ok (with_node n p, [OfHttp answer])
  | SvActivity e => let '(m, out) := activity_step (activity_configured env) (nd_activities n) e in Ok (with_node (with_activities m n) p, map OfActivity out)
  | SvWake room st => Ok (with_node (with_wakes (saveWakeState room st (nd_wakes n)) n) p, [])
  | SvNotified room sent => Ok (with_node (with_db (node_wake_end (nd_rooms n) room sent now).2 n) p, [])
  | SvHeartbeat ping_throws => let '(p, dead) := sweep_sockets ping_throws p in Ok (p, map Terminated dead)
  | SvDispatch => let '(p, out) := offerJobs p in Ok (p, map (fun e => Offered e.1 e.2) out)
  | SvCleanup => let* n := purge_node n in Ok (start_pump (with_node n p), [])
  | SvListening => Ok (start_pump p, [])
  | SvDrained ok => Ok (pump_step ok p, [])
  | SvShutdown =>
      let told := map GoingAway (map sk_id (filter (fun s => sk_open s = true) (rl_sockets r))) in
      let p := on_relay (shut_all (socket_ids p) r) p in
      Ok (match sv_phase p with Running => with_phase (Stopping (now + 1000)) p | _ => p end, told)
  | SvForce =>
      match sv_phase p with
      | Stopping t => if t <=? now then Ok (on_relay (shut_all (socket_ids p) r) p, map Terminated (socket_ids p)) else Ok (p, [])
      | _ => Ok (p, [])
      end
  | SvStopped => match sv_phase p with Stopping _ => Ok (with_phase Stopped p, []) | _ => Ok (p, []) end
  end.

(** Once the server has closed, by event: Node closes a server only when its connections have
    ended, so no upgrade, frame or request comes any more and no push or offer is answered;
    the [close] handler cleared the heartbeat, the cleanup and the dispatch timer, and
    [shutdown] its deadline; the expiry timer of a socket was cleared by its [close]; the
    store is closed, so a drain under way throws at its next read and its pump ends.  A late
    [close] or [error] of a socket finds [db.isOpen] false and only leaves the map of sockets;
    callbacks of [send] and pongs change memory only, and a replay finds its socket closed. *)
Definition process_step (e : server_event) (p : process) : res (process * list server_effect) :=
  match sv_phase p with
  | Stopped =>
      match e with
      | SvClose id => let r := drop_sock id (sv_relay p) in Ok (on_relay (with_delivery (close_flights (rl_delivery r) id) r) p, [])
      | SvError id => Ok (on_relay (drop_sock id (sv_relay p)) p, [])
      | SvSent f => Ok (on_relay (sent_sock f (sv_relay p)) p, [])
      | SvPong id => Ok (hear id p, [])
      | SvDrained _ => Ok (with_pump None p, [])
      | _ => Ok (p, [])
      end
  | _ => live_step e p
  end.

Fixpoint process_run (events : list server_event) (p : process) : res (process * list server_effect) :=
  match events with
  | [] => Ok (p, [])
  | e :: rest => let* a := process_step e p in let* b := process_run rest a.1 in Ok (b.1, a.2 ++ b.2)
  end.
End Server.

(** ** What an event may do to the sockets *)

(** No socket is new, and none that was closed is open again. *)
Definition no_new (r r' : relay) : Prop :=
  forall s', s' ∈ rl_sockets r' -> exists s, s ∈ rl_sockets r /\ sk_id s = sk_id s' /\ (sk_open s' = true -> sk_open s = true).
Definition quiet (r r' : relay) : Prop := relay_wf r -> within_capacity r -> relay_wf r' /\ within_capacity r' /\ no_new r r'.

Lemma no_new_refl r : no_new r r.
Proof. intros s H. by exists s. Qed.

Lemma no_new_trans r1 r2 r3 : no_new r1 r2 -> no_new r2 r3 -> no_new r1 r3.
Proof. intros H1 H2 s H. destruct (H2 s H) as (s2 & H3 & E2 & O2). destruct (H1 s2 H3) as (s1 & H4 & E1 & O1). exists s1. split; [done|]. split; [congruence|auto]. Qed.

Lemma quiet_refl r : quiet r r.
Proof. intros Hw Hc. split_and!; [done..|apply no_new_refl]. Qed.

Lemma quiet_trans r1 r2 r3 : quiet r1 r2 -> quiet r2 r3 -> quiet r1 r3.
Proof.
  intros H1 H2 Hw Hc. destruct (H1 Hw Hc) as (W & C & N1). destruct (H2 W C) as (W2 & C2 & N2). split_and!; [done..|by eapply no_new_trans].
Qed.

Lemma keeps_no_new id r r' : Forall2 (keeps id) (rl_sockets r) (rl_sockets r') -> no_new r r'.
Proof.
  intros H s' Hin. apply list_elem_of_lookup in Hin as [i Hi]. destruct (Forall2_lookup_r _ _ _ _ _ H Hi) as (s & Hs & K).
  exists s. split; [by eapply list_elem_of_lookup_2|]. split; [symmetry; apply K|apply K].
Qed.

Lemma step_quiet id r r' : step_ok id r r' -> quiet r r'.
Proof. intros H Hw Hc. destruct (step_event _ _ _ H Hw Hc). destruct (H Hw) as [Hs _]. split_and!; [done..|by eapply keeps_no_new]. Qed.

Lemma drop_sock_quiet id r : quiet r (drop_sock id r).
Proof.
  intros Hw Hc. destruct (drop_sock_ok id r Hw Hc). split_and!; [done..|]. intros s [_ Hin]%list_elem_of_filter. by exists s.
Qed.

Lemma begin_quiet sha256 verify q now r : quiet r (upgrade_begin sha256 verify q now r).1.
Proof.
  intros Hw Hc. destruct (upgrade_begin_ok sha256 verify q now r Hw Hc). split_and!; [done..|].
  assert (rl_sockets (upgrade_begin sha256 verify q now r).1 = rl_sockets r) as E by (unfold upgrade_begin; by destruct (upgradeRefusal _ _ _ _)).
  intros s Hs. rewrite E in Hs. by exists s.
Qed.

Lemma error_quiet buffered throws id now r : quiet r (error_sock buffered throws id now r).1.
Proof.
  unfold error_sock. destruct (find_sock id r) as [s|]; [|apply quiet_refl]. unfold leave. cbv zeta. eapply quiet_trans; [apply drop_sock_quiet|].
  eapply quiet_trans; [apply (step_quiet 0), with_presence_ok|]. apply (step_quiet 0), publish_ok.
Qed.

Lemma close_sock_quiet buffered throws id now r : quiet r (close_sock buffered throws id now r).1.
Proof.
  unfold close_sock. pose proof (error_quiet buffered throws id now r) as H. destruct (error_sock _ _ _ _ _) as [r1 out]. cbn [fst] in *.
  eapply quiet_trans; [exact H|]. apply (step_quiet 0), with_delivery_ok; [apply release_all_inv|by rewrite close_flights_acks].
Qed.

Lemma expire_quiet id now r : quiet r (expire_sock id now r).1.
Proof.
  unfold expire_sock. destruct (find_sock id r) as [s|]; [|apply quiet_refl]. destruct (sk_timer s) as [t|]; [|apply quiet_refl].
  destruct (now <? t); [apply quiet_refl|]. apply (step_quiet 0). etransitivity; [|apply closeForPolicy_ok]. apply set_sock_ok. by intros.
Qed.

Lemma sent_quiet f r : quiet r (sent_sock f r).
Proof. apply (step_quiet 0), with_delivery_ok; [apply release_inv|]. unfold release. by destruct (map_get _ _). Qed.

Lemma replay_quiet buffered throws id rows now r : quiet r (replay_sock buffered throws id rows now r).1.
Proof. apply (step_quiet id), replay_next_ok. Qed.

Lemma closed_sock_quiet id r : quiet r (with_delivery (close_flights (rl_delivery (drop_sock id r)) id) (drop_sock id r)).
Proof.
  eapply quiet_trans; [apply drop_sock_quiet|]. apply (step_quiet 0), with_delivery_ok; [apply release_all_inv|by rewrite close_flights_acks].
Qed.

Lemma frame_quiet parse verify buffered throws id raw now r r' out :
  handleSocketMessage parse verify buffered throws id raw now r = Ok (r', out) -> quiet r r'.
Proof. intros H. apply (step_quiet id). by eapply frame_result_ok, handle_result. Qed.

Lemma shut_quiet ids r : quiet r (shut_all ids r).
Proof.
  revert r. unfold shut_all. induction ids as [|id ids IH]; intros r; [apply quiet_refl|]. cbn [fold_left]. eapply quiet_trans; [|apply IH].
  apply (step_quiet 0), set_sock_ok. by intros.
Qed.

(** The sockets named are no longer open, the others as before. *)
Lemma shut_all_sockets ids r : rl_sockets (shut_all ids r) = map (fun s => if bool_decide (sk_id s ∈ ids) then shut s else s) (rl_sockets r).
Proof.
  revert r. unfold shut_all. induction ids as [|id ids IH]; intros r; cbn [fold_left].
  - symmetry. apply map_id.
  - rewrite IH. cbn [set_sock rl_sockets]. rewrite map_map. apply map_ext. intros s. destruct (Nat.eqb_spec (sk_id s) id) as [E|E].
    + rewrite (bool_decide_eq_true_2 (sk_id s ∈ id :: ids)) by (rewrite E; by left). change (sk_id (shut s)) with (sk_id s).
      destruct (bool_decide (sk_id s ∈ ids)); by destruct s.
    + destruct (decide (sk_id s ∈ ids)); [rewrite !bool_decide_eq_true_2 by set_solver|rewrite !bool_decide_eq_false_2 by set_solver]; done.
Qed.

Lemma shut_all_ids ids r : map sk_id (rl_sockets (shut_all ids r)) = map sk_id (rl_sockets r).
Proof. rewrite shut_all_sockets, map_map. apply map_ext. intros s. by destruct (bool_decide _). Qed.

Lemma shut_all_open ids r s : s ∈ rl_sockets (shut_all ids r) -> sk_id s ∈ ids -> sk_open s = false.
Proof.
  rewrite shut_all_sockets. intros (s0 & -> & _)%list_elem_of_fmap. destruct (bool_decide (sk_id s0 ∈ ids)) eqn:E; [done|].
  apply bool_decide_eq_false in E. done.
Qed.

(** ** Every event keeps the process well formed *)

Definition newcomers (e : server_event) : list nat := match e with SvEnd q _ _ _ _ _ => [nq_id q] | _ => [] end.
(** The handle of an upgrade names no other socket. *)
Definition fresh (e : server_event) (p : process) : Prop := forall id, id ∈ newcomers e -> id ∉ socket_ids p.
(** The state after an event: well formed; its sockets were there, and no less open, or are of this upgrade. *)
Definition after_event (e : server_event) (p p' : process) : Prop :=
  node_wf (sv_node p') /\
  forall s', s' ∈ rl_sockets (sv_relay p') ->
    sk_id s' ∈ newcomers e \/ exists s, s ∈ rl_sockets (sv_relay p) /\ sk_id s = sk_id s' /\ (sk_open s' = true -> sk_open s = true).

Lemma after_relay e p p' r : node_wf (sv_node p) -> quiet (sv_relay p) r -> sv_node p' = with_relay r (sv_node p) -> after_event e p p'.
Proof.
  intros Hw Hq E. destruct (Hq (nw_relay _ Hw) (nw_capacity _ Hw)) as (W & C & N). split.
  - rewrite E. destruct Hw. split; assumption.
  - intros s' Hs. right. apply N. unfold sv_relay in Hs. by rewrite E in Hs.
Qed.

Lemma after_node e p p' : node_wf (sv_node p') -> rl_sockets (sv_relay p') = rl_sockets (sv_relay p) -> after_event e p p'.
Proof. intros Hw E. split; [done|]. intros s' Hs. rewrite E in Hs. right. by exists s'. Qed.

Lemma with_same_relay n : with_relay (nd_relay n) n = n.
Proof. by destruct n. Qed.

Lemma offers_keep_table wants sends now peers caches (st : task_table) :
  TaskStore.table_wf st -> TaskStore.table_wf (offer_peers wants sends now peers caches st).1.1.2.
Proof.
  revert caches st. induction peers as [|peer peers IH]; intros caches st Hst; cbn [offer_peers]; [done|]. destruct (negb (wants peer)); [by apply IH|].
  pose proof (offerTaskJobs_ok st (mp_room peer) (mp_recipient peer) (sends peer) (cached caches (mp_id peer)) now Hst) as Ho.
  destruct (offerTaskJobs _ _ _ _ _ _) as [[offered result] st']. destruct Ho as [Hst' _]. destruct result as [jobs|]; [|exact Hst'].
  specialize (IH (map_set (mp_id peer) offered caches) st' Hst'). by destruct (offer_peers _ _ _ _ _ _) as [[[c' s'] ok] out].
Qed.

Lemma purge_sockets n n' : purge_node n = Ok n' -> rl_sockets (nd_relay n') = rl_sockets (nd_relay n).
Proof. unfold purge_node. destruct (TaskStore.purge _ _) as [[?|] jobs]; [|done]. by intros [= <-]. Qed.

Section Laws.
Context (sha256 : jstr -> jstr) (number_of_string : jstr -> option jsnum) (parse_json : list N -> res jsv).
Context (verify : option (jsv -> option jstr -> Z -> option jsv)) (env : apns_env) (instance : option jstr).
Context (parse : jstr -> option jsv) (buffered : delivery -> nat -> Z) (throws : delivery -> nat -> bool).
Abbreviation step := (process_step sha256 number_of_string parse_json verify env instance parse buffered throws).
Abbreviation live := (live_step sha256 number_of_string parse_json verify env instance parse buffered throws).

Lemma http_sockets q decision n : node_wf n ->
  let n' := (serve sha256 number_of_string parse_json env instance q decision n).2 in
  node_wf n' /\ rl_sockets (nd_relay n') = rl_sockets (nd_relay n).
Proof.
  intros Hw. destruct (serve_confined sha256 number_of_string parse_json env instance q decision n Hw) as [(n1 & Hn1 & Hf) Hw']. split; [exact Hw'|].
  rewrite (ft_relay _ _ _ _ Hf). cbn [with_rooms rl_sockets]. destruct Hn1 as [->|Hp]; [done|by apply purge_sockets].
Qed.

Lemma end_after q room ticket decision destroyed dispatch p : node_wf (sv_node p) -> nq_id q ∉ socket_ids p ->
  let result := upgrade_end sha256 verify q room ticket decision destroyed (nd_now (sv_node p)) (sv_relay p) in
  after_event (SvEnd q room ticket decision destroyed dispatch) p (upgraded q dispatch result.2 (on_relay result.1 p)).
Proof.
  intros Hw Hid. cbv zeta. pose proof (upgrade_end_ok sha256 verify q room ticket decision destroyed (nd_now (sv_node p)) (sv_relay p) Hid (nw_relay _ Hw) (nw_capacity _ Hw)) as [W C].
  pose proof (upgrade_end_result sha256 verify q room ticket decision destroyed (nd_now (sv_node p)) (sv_relay p)) as H.
  destruct (upgrade_end _ _ _ _ _ _ _ _ _) as [r' out]. cbn [fst snd] in *.
  assert (sv_node (upgraded q dispatch out (on_relay r' p)) = with_relay r' (sv_node p)) as E by (unfold upgraded; destruct (accepted out), dispatch; done).
  split; [rewrite E; destruct Hw; split; assumption|]. intros s' Hs. unfold sv_relay in Hs. rewrite E in Hs. cbn [with_relay nd_relay] in Hs.
  destruct H as [-> _ _|db -> _ _ _|db frames _ _ -> _ _]; [right; by exists s'..|].
  cbn [add_sock rl_sockets with_rooms] in Hs. apply elem_of_app in Hs as [Hs| ->%list_elem_of_singleton]; [right; by exists s'|left].
  cbn [newcomers]. apply list_elem_of_singleton. unfold new_sock. by destruct ticket.
Qed.

Lemma offer_after e p : node_wf (sv_node p) -> after_event e p (offerJobs p).1.
Proof.
  intros Hw. unfold offerJobs. destruct (nw_tasks _ Hw) as [Hj Hg Hc].
  pose proof (offers_keep_table node_wants (fun _ _ => true) (nd_now (sv_node p)) (peers_of p) (sv_offers p) _ Hj) as Ho. unfold nodeTaskDispatchPump.
  destruct (offer_peers _ _ _ _ _ _) as [[[caches jobs] ok] out]. cbn [fst snd] in *. apply after_node; [|done].
  cbn [sv_node with_offers with_node]. apply with_tasks_wf; [|done]. by split.
Qed.

Lemma start_pump_node p : sv_node (start_pump p) = sv_node p.
Proof. unfold start_pump. destruct (sv_pump p); [done|]. by destruct (dueWakeRooms (nd_now (sv_node p)) (nd_wakes (sv_node p))). Qed.

Lemma pump_step_node ok p : sv_node (pump_step ok p) = sv_node p.
Proof. unfold pump_step. by destruct (sv_pump p) as [[|? []]|]. Qed.

Lemma live_after e p p' out : node_wf (sv_node p) -> fresh e p -> live e p = Ok (p', out) -> after_event e p p'.
Proof.
  intros Hw Hf H. assert (forall e q r, quiet (sv_relay p) r -> sv_node q = with_relay r (sv_node p) -> after_event e p q) as Hr
    by (intros; by eapply after_relay).
  assert (forall e q, sv_node q = sv_node p -> after_event e p q) as Hn.
  { intros e0 q E. apply after_node; unfold sv_relay; by rewrite E. }
  destruct e as [q|q room ticket decision destroyed dispatch|id binary raw|id|id|id|id|f|id rows|q decision|e|room st|room sent|pt| | | |ok| | |]; cbn [live_step] in H.
  - injection H as <- _. by eapply Hr; [apply begin_quiet|].
  - pose proof (end_after q room ticket decision destroyed dispatch p Hw) as He. destruct (upgrade_end _ _ _ _ _ _ _ _ _) as [r' o]. injection H as <- _.
    apply He. apply Hf. by left.
  - destruct binary; [injection H as <- _; by apply Hn|]. cbv zeta in H. destruct (handleSocketMessage _ _ _ _ _ _ _ _) as [[r' o]|] eqn:E; [|done].
    injection H as <- _. by eapply Hr; [eapply frame_quiet; exact E|].
  - injection H as <- _. by apply Hn.
  - pose proof (close_sock_quiet buffered throws id (nd_now (sv_node p)) (sv_relay p)) as Hq. destruct (close_sock _ _ _ _ _) as [r' o]. injection H as <- _. by eapply Hr; [exact Hq|].
  - pose proof (error_quiet buffered throws id (nd_now (sv_node p)) (sv_relay p)) as Hq. destruct (error_sock _ _ _ _ _) as [r' o]. injection H as <- _. by eapply Hr; [exact Hq|].
  - pose proof (expire_quiet id (nd_now (sv_node p)) (sv_relay p)) as Hq. destruct (expire_sock _ _ _) as [r' o]. injection H as <- _. by eapply Hr; [exact Hq|].
  - injection H as <- _. by eapply Hr; [apply sent_quiet|].
  - pose proof (replay_quiet buffered throws id rows (nd_now (sv_node p)) (sv_relay p)) as Hq. destruct (replay_sock _ _ _ _ _ _) as [r' o]. injection H as <- _. by eapply Hr; [exact Hq|].
  - destruct (http_sockets q decision (sv_node p) Hw) as [W S]. destruct (serve _ _ _ _ _ _ _ _) as [answer n]. injection H as <- _. by apply after_node.
  - pose proof (with_activities_wf (activity_configured env) e (sv_node p) Hw) as W. destruct (activity_step _ _ e) as [m o]. injection H as <- _. by apply after_node.
  - injection H as <- _. apply after_node; [|done]. destruct Hw. split; assumption.
  - injection H as <- _. apply after_node; [|done]. apply with_db_wf; [|done]. unfold node_wake_end. cbn [snd]. destruct (stale_tokens sent); [done|apply removePushTokens_wf].
  - unfold sweep_sockets in H. destruct (heartbeatSweep pt (pongs_of p)) as [flags dead]. injection H as <- _. eapply Hr; [apply (shut_quiet dead)|done].
  - pose proof (offer_after SvDispatch p Hw) as Ho. destruct (offerJobs p) as [p1 o]. by injection H as <- _.
  - destruct (purge_node (sv_node p)) as [n|] eqn:E; [|done]. injection H as <- _. destruct (purge_node_ok _ Hw) as (n' & E' & W).
    apply after_node; unfold sv_relay; rewrite start_pump_node; cbn [sv_node with_node]; [congruence|by apply purge_sockets].
  - injection H as <- _. apply Hn, start_pump_node.
  - injection H as <- _. apply Hn, pump_step_node.
  - injection H as <- _. eapply Hr; [apply (shut_quiet (socket_ids p))|by destruct (sv_phase _)].
  - destruct (sv_phase p); [by injection H as <- _; apply Hn| |by injection H as <- _; apply Hn]. destruct (force <=? _); injection H as <- _; [|by apply Hn].
    by eapply Hr; [apply (shut_quiet (socket_ids p))|].
  - destruct (sv_phase p); injection H as <- _; by apply Hn.
Qed.

Lemma step_after e p p' out : node_wf (sv_node p) -> fresh e p -> step e p = Ok (p', out) -> after_event e p p'.
Proof.
  intros Hw Hf H. unfold process_step in H. destruct (sv_phase p) eqn:Ep; [by eapply live_after..|].
  assert (after_event e p p) as Hp by by apply after_node. assert (forall id, after_event e p (on_relay (drop_sock id (sv_relay p)) p)) as Hd
    by (intros id; by eapply after_relay; [|apply (drop_sock_quiet id)|]).
  destruct e; injection H as <- _; first [exact Hp|apply Hd|by eapply after_relay; [|apply closed_sock_quiet|]|by eapply after_relay; [|apply sent_quiet|]|by apply after_node].
Qed.

(** Any sequence of events, from [p0]. *)
Inductive runs (p0 : process) : list server_event -> process -> Prop :=
| runs_start : runs p0 [] p0
| runs_step events p e p' out : runs p0 events p -> fresh e p -> step e p = Ok (p', out) -> runs p0 (events ++ [e]) p'.

Lemma runs_wf p0 events p : runs p0 events p -> node_wf (sv_node p0) -> node_wf (sv_node p).
Proof. induction 1 as [|events p e p' out _ IH Hf H]; [done|]. intros Hw. by destruct (step_after _ _ _ _ (IH Hw) Hf H). Qed.

(** C5: The process stays well formed and keeps running: whatever its sockets, requests,
    timers and pushes do, in any order, before, during and after a shutdown, every
    component keeps its invariant and no room has more than 32 sockets; and the only
    event that can raise an exception is a text frame: the cleanup, the heartbeat, the
    pumps, the requests and the shutdown never do. *)
Theorem process_keeps_running (p0 p : process) (events : list server_event) (e : server_event) :
  node_wf (sv_node p0) -> runs p0 events p ->
  node_wf (sv_node p) /\ (step e p = Throw -> exists id raw, e = SvMessage id false raw).
Proof.
  intros Hw Hr. pose proof (runs_wf _ _ _ Hr Hw) as Hp. split; [done|]. unfold process_step. destruct (sv_phase p) eqn:Ep; [| |by destruct e].
  1, 2: destruct e as [q|q room ticket decision destroyed dispatch|id binary raw|id|id|id|id|f|id rows|q decision|e|room st|room sent|pt| | | |ok| | |]; cbn [live_step]; rewrite ?Ep; try done;
    try (by destruct binary; [|eauto]); try (by repeat case_match);
    destruct (purge_node_ok _ Hp) as (n' & -> & _); done.
Qed.

(** ** Shutdown *)

Definition upgraded_in (events : list server_event) (id : nat) : Prop := exists e, e ∈ events /\ id ∈ newcomers e.

Lemma runs_open p0 events p : node_wf (sv_node p0) -> runs p0 events p -> (forall s, s ∈ rl_sockets (sv_relay p0) -> sk_open s = false) ->
  forall s, s ∈ rl_sockets (sv_relay p) -> sk_open s = true -> upgraded_in events (sk_id s).
Proof.
  intros Hw Hr Hs. induction Hr as [|events p e p' out Hr IH Hf H]; intros s Hin Ho; [by rewrite Hs in Ho|].
  destruct (step_after _ _ _ _ (runs_wf _ _ _ Hr Hw) Hf H) as [_ Ha]. destruct (Ha s Hin) as [Hn|(s0 & Hin0 & E & O)].
  - exists e. split; [apply elem_of_app; right; by apply list_elem_of_singleton|done].
  - destruct (IH s0 Hin0 (O Ho)) as (e0 & He & Hn). exists e0. split; [apply elem_of_app; by left|by rewrite <- E].
Qed.

Lemma shut_every r s : s ∈ rl_sockets (shut_all (map sk_id (rl_sockets r)) r) -> sk_open s = false.
Proof.
  intros H. eapply shut_all_open; [exact H|]. rewrite <- (shut_all_ids (map sk_id (rl_sockets r)) r). apply (list_elem_of_fmap_2 sk_id). exact H.
Qed.

(** C16: Shutdown closes every connection: it tells each open socket that it is going away and
    leaves none open; a socket that is open later belongs to an upgrade that was under
    way; the deadline a second later leaves none open; and once the server has closed
    nothing touches its stores any more. *)
Theorem shutdown_closes_every_connection (p0 p1 p2 p3 : process) (events : list server_event) (out out3 : list server_effect) (t : Z) :
  node_wf (sv_node p0) -> sv_phase p0 = Running -> step SvShutdown p0 = Ok (p1, out) -> runs p1 events p2 -> step SvForce p2 = Ok (p3, out3) ->
  out = map GoingAway (map sk_id (filter (fun s => sk_open s = true) (rl_sockets (sv_relay p0)))) /\
  sv_phase p1 = Stopping (nd_now (sv_node p0) + 1000) /\ (forall s, s ∈ rl_sockets (sv_relay p1) -> sk_open s = false) /\
  (forall s, s ∈ rl_sockets (sv_relay p2) -> sk_open s = true -> upgraded_in events (sk_id s)) /\
  (sv_phase p2 = Stopping t -> t <= nd_now (sv_node p2) -> forall s, s ∈ rl_sockets (sv_relay p3) -> sk_open s = false) /\
  forall e p4 p5 out5, sv_phase p4 = Stopped -> step e p4 = Ok (p5, out5) ->
    out5 = [] /\ exists r, sv_node p5 = with_relay r (sv_node p4) /\ rl_rooms r = rl_rooms (sv_relay p4) /\ rl_retained r = rl_retained (sv_relay p4) /\
    rl_presence r = rl_presence (sv_relay p4).
Proof.
  intros Hw Hp H1 Hr H3. unfold process_step in H1. rewrite Hp in H1. cbn [live_step] in H1. cbv zeta in H1. change (sv_phase (on_relay _ p0)) with (sv_phase p0) in H1.
  rewrite Hp in H1. injection H1 as <- <-.
  set (p1 := with_phase _ _) in *. assert (forall s, s ∈ rl_sockets (sv_relay p1) -> sk_open s = false) as Hs1 by apply shut_every.
  assert (node_wf (sv_node p1)) as Hw1.
  { assert (fresh SvShutdown p0) as Hf by (intros id Hid; by apply elem_of_nil in Hid).
    eapply (step_after SvShutdown p0 p1 _ Hw Hf). unfold process_step. rewrite Hp. cbn [live_step]. cbv zeta.
    change (sv_phase (on_relay _ p0)) with (sv_phase p0). rewrite Hp. reflexivity. }
  split_and!; [done..|by apply (runs_open p1)| |].
  - intros Hp2 Ht s Hin. unfold process_step in H3. rewrite Hp2 in H3. cbn [live_step] in H3. rewrite Hp2, (proj2 (Z.leb_le t _)) in H3 by done.
    injection H3 as <- _. by apply shut_every in Hin.
  - intros e p4 p5 out5 Hp4 H5. unfold process_step in H5. rewrite Hp4 in H5.
    destruct e; injection H5 as <- <-; (split; [done|]); first [by eexists; split; [symmetry; apply with_same_relay|]|by eexists; split; [reflexivity|]].
Qed.

(** ** Silence *)

Definition hears (id : nat) (e : server_event) : bool := match e with SvMessage k _ _ | SvPong k => Nat.eqb k id | _ => false end.
Definition is_sweep (e : server_event) : bool := match e with SvHeartbeat _ => true | _ => false end.

Lemma hear_awaiting k id p : id ∈ sv_awaiting (hear k p) <-> id ∈ sv_awaiting p /\ Nat.eqb k id = false.
Proof.
  unfold hear. cbn [sv_awaiting with_awaiting]. rewrite list_elem_of_filter. rewrite Nat.eqb_neq. split; intros []; split; congruence || done.
Qed.

Lemma start_pump_awaiting p : sv_awaiting (start_pump p) = sv_awaiting p.
Proof. unfold start_pump. destruct (sv_pump p); [done|]. by destruct (dueWakeRooms (nd_now (sv_node p)) (nd_wakes (sv_node p))). Qed.

Lemma live_awaiting id e p p' out :
  is_sweep e = false -> id ∉ newcomers e -> live e p = Ok (p', out) -> (id ∈ sv_awaiting p' <-> id ∈ sv_awaiting p /\ hears id e = false).
Proof.
  intros Hs Hn H. assert (sv_awaiting p' = sv_awaiting p -> hears id e = false -> (id ∈ sv_awaiting p' <-> id ∈ sv_awaiting p /\ hears id e = false)) as Hk
    by (intros -> ->; tauto).
  destruct e as [q|q room ticket decision destroyed dispatch|k binary raw|k|k|k|k|f|k rows|q decision|e|room st|room sent|pt| | | |ok| | |]; cbn [live_step is_sweep newcomers] in *; try done.
  - injection H as <- _. by apply Hk.
  - destruct (upgrade_end _ _ _ _ _ _ _ _ _) as [r' o]. injection H as <- _. unfold upgraded in *. destruct (accepted o); [clear Hk|by apply Hk].
    rewrite hear_awaiting. cbn [hears]. assert ((nq_id q =? id)%nat = false) as -> by (apply Nat.eqb_neq; set_solver). by destruct dispatch.
  - destruct binary; [injection H as <- _; apply hear_awaiting|]. cbv zeta in H. destruct (handleSocketMessage _ _ _ _ _ _ _ _) as [[r' o]|]; [|done].
    injection H as <- _. apply (hear_awaiting k id p).
  - injection H as <- _. apply hear_awaiting.
  - destruct (close_sock _ _ _ _ _) as [r' o]. injection H as <- _. by apply Hk.
  - destruct (error_sock _ _ _ _ _) as [r' o]. injection H as <- _. by apply Hk.
  - destruct (expire_sock _ _ _) as [r' o]. injection H as <- _. by apply Hk.
  - injection H as <- _. by apply Hk.
  - destruct (replay_sock _ _ _ _ _ _) as [r' o]. injection H as <- _. by apply Hk.
  - destruct (serve _ _ _ _ _ _ _ _) as [answer n]. injection H as <- _. by apply Hk.
  - destruct (activity_step _ _ e) as [m o]. injection H as <- _. by apply Hk.
  - injection H as <- _. by apply Hk.
  - injection H as <- _. by apply Hk.
  - unfold offerJobs in H. destruct (nodeTaskDispatchPump _ _ _ _) as [[[caches jobs] ok] o]. injection H as <- _. by apply Hk.
  - destruct (purge_node _) as [n|]; [|done]. injection H as <- _. apply Hk; [apply (start_pump_awaiting (with_node n p))|done].
  - injection H as <- _. apply Hk; [apply start_pump_awaiting|done].
  - injection H as <- _. apply Hk; [unfold pump_step; by destruct (sv_pump p) as [[|? []]|]|done].
  - injection H as <- _. apply Hk; [by destruct (sv_phase _)|done].
  - destruct (sv_phase p); [|destruct (force <=? _)|]; injection H as <- _; by apply Hk.
  - destruct (sv_phase p); injection H as <- _; by apply Hk.
Qed.

Lemma step_awaiting id e p p' out :
  is_sweep e = false -> id ∉ newcomers e -> sv_phase p' <> Stopped -> step e p = Ok (p', out) ->
  sv_phase p <> Stopped /\ (id ∈ sv_awaiting p' <-> id ∈ sv_awaiting p /\ hears id e = false).
Proof.
  intros Hs Hn Hp H. unfold process_step in H. destruct (sv_phase p) eqn:Ep; [split; [done|by eapply live_awaiting]..|].
  destruct e; injection H as <- _; cbn [sv_phase on_relay with_node with_pump hear with_awaiting] in Hp; congruence.
Qed.

Lemma runs_awaiting id p0 events p :
  runs p0 events p -> Forall (fun e => is_sweep e = false /\ id ∉ newcomers e) events -> sv_phase p <> Stopped ->
  sv_phase p0 <> Stopped /\ (id ∈ sv_awaiting p <-> id ∈ sv_awaiting p0 /\ Forall (fun e => hears id e = false) events).
Proof.
  induction 1 as [|events p e p' out _ IH _ H]; intros HF Hp; [split; [done|]; split; [done|tauto]|].
  apply Forall_app in HF as [HF [[Hs Hn] _]%Forall_cons]. destruct (step_awaiting id e p p' out Hs Hn Hp H) as [Hp1 Ha].
  destruct (IH HF Hp1) as [Hp0 Hi]. split; [done|]. rewrite Ha, Hi, Forall_app, Forall_singleton. tauto.
Qed.

Lemma sweep_flags pt p : sv_awaiting (sweep_sockets pt p).1 = socket_ids p.
Proof.
  unfold sweep_sockets, heartbeatSweep, pongs_of. rewrite map_map. cbn [fst snd sv_awaiting with_awaiting].
  induction (socket_ids p) as [|id l IH]; [done|]. cbn [map]. rewrite filter_cons, decide_True by done. cbn [map fst]. by rewrite IH.
Qed.

Lemma sweep_dead pt p id : id ∈ (sweep_sockets pt p).2 <-> id ∈ socket_ids p /\ (id ∈ sv_awaiting p \/ pt id = true).
Proof.
  unfold sweep_sockets, heartbeatSweep, pongs_of. cbn [snd]. rewrite list_elem_of_fmap. setoid_rewrite list_elem_of_filter. split.
  - intros ([k b] & -> & Hb & Hin). apply list_elem_of_fmap in Hin as (k' & [= -> ->] & Hin). cbn [fst snd] in *. split; [done|].
    apply Is_true_true, orb_true_iff in Hb as [Hb|Hb]; [left; by apply bool_decide_eq_true in Hb|by right].
  - intros [Hin Hor]. exists (id, bool_decide (id ∈ sv_awaiting p)). split; [done|]. split; [|apply list_elem_of_fmap; by exists id].
    apply Is_true_true, orb_true_iff. cbn [fst snd]. rewrite bool_decide_eq_true. done.
Qed.

(** C15: Silence ends a connection, and only silence: between two successive heartbeats of the
    process, with whatever other events in between, the second terminates exactly the
    sockets still listed from which nothing was heard since the first (no frame, no pong,
    no ping), and those that cannot be pinged; and a terminated socket is open no more. *)
Theorem silence_ends_a_connection (p0 p1 p2 p3 : process) (events : list server_event) (pt1 pt2 : nat -> bool) (out1 out2 : list server_effect) (id : nat) :
  step (SvHeartbeat pt1) p0 = Ok (p1, out1) -> runs p1 events p2 -> step (SvHeartbeat pt2) p2 = Ok (p3, out2) -> sv_phase p2 <> Stopped ->
  Forall (fun e => is_sweep e = false /\ id ∉ newcomers e) events -> id ∈ socket_ids p0 -> id ∈ socket_ids p2 ->
  (Terminated id ∈ out2 <-> Forall (fun e => hears id e = false) events \/ pt2 id = true) /\
  (Terminated id ∈ out2 -> forall s, s ∈ rl_sockets (sv_relay p3) -> sk_id s = id -> sk_open s = false).
Proof.
  intros H1 Hr H2 Hp2 HF Hin0 Hin2. destruct (runs_awaiting id p1 events p2 Hr HF Hp2) as [Hp1 Ha].
  assert (id ∈ sv_awaiting p1) as Hw.
  { unfold process_step in H1. destruct (sv_phase p0) eqn:Ep; cbn [live_step] in H1; [| |injection H1 as <- _; congruence];
      pose proof (sweep_flags pt1 p0) as Hf; destruct (sweep_sockets pt1 p0) as [q dead]; injection H1 as <- _; cbn [fst] in Hf; by rewrite Hf. }
  assert (out2 = map Terminated (sweep_sockets pt2 p2).2 /\ p3 = (sweep_sockets pt2 p2).1) as [-> ->].
  { unfold process_step in H2. destruct (sv_phase p2); cbn [live_step] in H2; [| |done]; destruct (sweep_sockets pt2 p2) as [q dead]; injection H2 as <- <-; done. }
  assert (Terminated id ∈ map Terminated (sweep_sockets pt2 p2).2 <-> id ∈ (sweep_sockets pt2 p2).2) as HT.
  { split; [intros (k & [= ->] & Hk)%list_elem_of_fmap; done|]. intros Hk. apply list_elem_of_fmap. by exists id. }
  split; [rewrite HT, sweep_dead, Ha; tauto|]. rewrite HT. intros Hd s Hs Hid. subst id. unfold sweep_sockets in Hs, Hd.
  destruct (heartbeatSweep pt2 (pongs_of p2)) as [flags dead]. cbn [fst snd] in *. by eapply (shut_all_open dead (sv_relay p2)).
Qed.

(** ** One wake pump at a time *)

Definition drains (e : server_event) : nat := match e with SvDrained true => 1%nat | _ => 0%nat end.
Definition drain_fails (e : server_event) : bool := match e with SvDrained false => true | _ => false end.

Lemma live_pump e p p' out room rooms :
  sv_pump p = Some (room :: rooms) -> drain_fails e = false -> live e p = Ok (p', out) ->
  sv_pump p' = match drains e with O => Some (room :: rooms) | _ => match rooms with [] => None | _ => Some rooms end end.
Proof.
  intros Hp Hd H. assert (forall q, start_pump (with_node q p) = with_node q p) as Hs by (intros q; unfold start_pump; cbn [sv_pump with_node]; by rewrite Hp).
  assert (start_pump p = p) as Hs0 by (unfold start_pump; by rewrite Hp).
  destruct e as [q|q rm ticket decision destroyed dispatch|k binary raw|k|k|k|k|f|k rows|q decision|e|rm st|rm sent|pt| | | |ok| | |]; cbn [live_step drains drain_fails] in *.
  - by injection H as <- _.
  - destruct (upgrade_end _ _ _ _ _ _ _ _ _) as [r' o]. injection H as <- _. unfold upgraded. by destruct (accepted o), dispatch.
  - destruct binary; [by injection H as <- _|]. cbv zeta in H. destruct (handleSocketMessage _ _ _ _ _ _ _ _) as [[r' o]|]; [|done]. by injection H as <- _.
  - by injection H as <- _.
  - destruct (close_sock _ _ _ _ _) as [r' o]. by injection H as <- _.
  - destruct (error_sock _ _ _ _ _) as [r' o]. by injection H as <- _.
  - destruct (expire_sock _ _ _) as [r' o]. by injection H as <- _.
  - by injection H as <- _.
  - destruct (replay_sock _ _ _ _ _ _) as [r' o]. by injection H as <- _.
  - destruct (serve _ _ _ _ _ _ _ _) as [answer n]. by injection H as <- _.
  - destruct (activity_step _ _ e) as [m o]. by injection H as <- _.
  - by injection H as <- _.
  - by injection H as <- _.
  - unfold sweep_sockets in H. destruct (heartbeatSweep pt (pongs_of p)) as [flags dead]. by injection H as <- _.
  - unfold offerJobs in H. destruct (nodeTaskDispatchPump _ _ _ _) as [[[caches jobs] ok] o]. by injection H as <- _.
  - destruct (purge_node _) as [n|]; [|done]. cbn [res_bind mbind] in H. rewrite Hs in H. by injection H as <- _.
  - rewrite Hs0 in H. by injection H as <- _.
  - injection H as <- _. destruct ok; [|done]. unfold pump_step. rewrite Hp. by destruct rooms.
  - injection H as <- _. by destruct (sv_phase _).
  - destruct (sv_phase p); [|destruct (force <=? _)|]; by injection H as <- _.
  - destruct (sv_phase p); by injection H as <- _.
Qed.

(** While a pump runs no other one starts, and it drains the rooms that were due when it
    started, one by one, whatever else happens. *)
Lemma pump_serves_due_rooms p0 p events rooms :
  sv_pump p0 = Some rooms -> runs p0 events p -> sv_phase p <> Stopped -> Forall (fun e => drain_fails e = false) events ->
  (sum_list_with drains events < length rooms)%nat -> sv_pump p = Some (drop (sum_list_with drains events) rooms).
Proof.
  intros Hp0 Hr. induction Hr as [|events p e p' out Hr IH _ H]; intros Hp HF Hlt; [done|].
  apply Forall_app in HF as [HF [He _]%Forall_cons]. rewrite sum_list_with_app in *. cbn [sum_list_with] in *.
  set (d := sum_list_with drains events) in *. assert (sv_phase p <> Stopped /\ live e p = Ok (p', out)) as [Hp1 Hl].
  { unfold process_step in H. destruct (sv_phase p) eqn:Ep; [done..|]. destruct e; injection H as <- _; cbn [sv_phase on_relay with_node with_pump hear with_awaiting] in Hp; congruence. }
  specialize (IH Hp1 HF ltac:(lia)). destruct (drop d rooms) as [|room rest] eqn:Ed; [apply (f_equal length) in Ed; rewrite length_drop in Ed; cbn in Ed; lia|].
  rewrite (live_pump e p p' out room rest IH He Hl). rewrite Nat.add_0_r in *.
  assert (drains e = 0 \/ drains e = 1)%nat as [->| E1] by (destruct e as [| | | | | | | | | | | | | | | | |[]| | |]; cbn; auto); [by rewrite Nat.add_0_r, Ed|].
  rewrite E1 in *. rewrite <- drop_drop, Ed. cbn [drop]. destruct rest; [|done]. apply (f_equal length) in Ed. rewrite length_drop in Ed. cbn in Ed. lia.
Qed.
End Laws.

(** ** The entry point *)

(** The port and host that [listen] gets. *)
Definition listen_address (number_of_string : jstr -> option jsnum) (port host : option jstr) : option jsnum * jstr :=
  (match port with Some s => number_of_string s | None => Some (NInt 3201) end, default "0.0.0.0"%js host).

(** ** Examples *)

Module Examples.
Import NodeService.Examples.

Definition sock_of (id : nat) : sock := new_sock sample_sha None (NodeUpgrade.Examples.request id) room None 10.
(** A process with two open sockets. *)
Definition pair : process :=
  {| sv_node := with_relay (add_sock (sock_of 2) (add_sock (sock_of 1) NodeUpgrade.Examples.empty_relay)) (empty_node 10);
     sv_awaiting := []; sv_dispatch := []; sv_offers := []; sv_pump := None; sv_phase := Running |}.

Lemma pair_wf : node_wf (sv_node pair).
Proof.
  destruct (empty_node_wf 10) as [Hr Hc Ht Hp He Hm Ha]. destruct Hr as [H1 H2 H3 H4 H5 _]. split; try assumption.
  - split; try assumption. apply (bool_decide_unpack _). vm_compute. exact I.
  - intros r. unfold room_size, room_socks. cbn [rl_sockets sv_node pair with_relay nd_relay add_sock]. etrans; [apply inj_le, (length_filter _ _)|]. vm_compute. discriminate.
Qed.

Abbreviation step := (process_step sample_sha no_number sample_parse None env None (fun _ => None) (fun _ _ => 0) (fun _ _ => false)).
Abbreviation run := (process_run sample_sha no_number sample_parse None env None (fun _ => None) (fun _ _ => 0) (fun _ _ => false)).
Definition after (events : list server_event) : process := match run events pair with Ok (p, _) => p | Throw => pair end.
Definition never (id : nat) : bool := false.

(** Only socket 2 answers between two heartbeats. *)
Example silent_socket_is_terminated :
  match run [SvHeartbeat never; SvPong 2; SvHeartbeat never] pair with Ok (_, out) => out = [Terminated 1] | Throw => False end.
Proof. vm_compute. reflexivity. Qed.

(** Both are told that the service restarts; what is left after a second is terminated. *)
Example shutdown_ends :
  match run [SvShutdown; SvClose 1; SvActivity (Elapse 1000); SvForce; SvClose 2; SvStopped; SvHeartbeat never] pair with
  | Ok (p, out) => out = [GoingAway 1; GoingAway 2; Terminated 2] /\ sv_phase p = Stopped /\ socket_ids p = []
  | Throw => False end.
Proof. vm_compute. repeat split. Qed.

Lemma one_run events p e : runs sample_sha no_number sample_parse None env None (fun _ => None) (fun _ _ => 0) (fun _ _ => false) pair events p ->
  newcomers e = [] -> forall p' out, step e p = Ok (p', out) ->
  runs sample_sha no_number sample_parse None env None (fun _ => None) (fun _ _ => 0) (fun _ _ => false) pair (events ++ [e]) p'.
Proof. intros H Hn p' out Hs. eapply runs_step; [exact H| |exact Hs]. intros id Hid. rewrite Hn in Hid. by apply elem_of_nil in Hid. Qed.

Lemma process_keeps_running_witness : node_wf (sv_node (after [SvHeartbeat never])) /\ step SvCleanup (after [SvHeartbeat never]) <> Throw.
Proof.
  assert (runs sample_sha no_number sample_parse None env None (fun _ => None) (fun _ _ => 0) (fun _ _ => false) pair [SvHeartbeat never] (after [SvHeartbeat never])) as Hr.
  { apply (one_run [] pair (SvHeartbeat never) (runs_start _ _ _ _ _ _ _ _ _ _) eq_refl _ [] ). vm_compute. reflexivity. }
  destruct (process_keeps_running sample_sha no_number sample_parse None env None (fun _ => None) (fun _ _ => 0) (fun _ _ => false)
    pair (after [SvHeartbeat never]) [SvHeartbeat never] SvCleanup pair_wf Hr) as [Hw Ht].
  split; [exact Hw|]. intros E. destruct (Ht E) as (id & raw & E'). discriminate E'.
Defined.

Lemma shutdown_closes_every_connection_witness :
  node_wf (sv_node pair) /\ forall s, s ∈ rl_sockets (sv_relay (after [SvShutdown])) -> sk_open s = false.
Proof.
  split; [apply pair_wf|].
  pose proof (shutdown_closes_every_connection sample_sha no_number sample_parse None env None (fun _ => None) (fun _ _ => 0) (fun _ _ => false)
    pair (after [SvShutdown]) (after [SvShutdown]) (after [SvShutdown]) [] [GoingAway 1; GoingAway 2] [] 1010 pair_wf eq_refl) as H.
  destruct H as (_ & _ & H & _); [vm_compute; reflexivity|apply runs_start|vm_compute; reflexivity|exact H].
Defined.

Lemma silence_ends_a_connection_witness : Terminated 1 ∈ [Terminated 1] /\ forall s, s ∈ rl_sockets (sv_relay (after [SvHeartbeat never; SvPong 2; SvHeartbeat never])) -> sk_id s = 1%nat -> sk_open s = false.
Proof.
  split; [by left|].
  pose proof (silence_ends_a_connection sample_sha no_number sample_parse None env None (fun _ => None) (fun _ _ => 0) (fun _ _ => false)
    pair (after [SvHeartbeat never]) (after [SvHeartbeat never; SvPong 2]) (after [SvHeartbeat never; SvPong 2; SvHeartbeat never]) [SvPong 2] never never [] [Terminated 1] 1) as H.
  apply H; [vm_compute; reflexivity| |vm_compute; reflexivity|vm_compute; discriminate|constructor; [split; [reflexivity|apply not_elem_of_nil]|constructor]|vm_compute; by left|vm_compute; by left|by left].
  apply (runs_step _ _ _ _ _ _ _ _ _ _ [] (after [SvHeartbeat never]) (SvPong 2) _ []); [apply runs_start|intros id Hid; by apply elem_of_nil in Hid|vm_compute; reflexivity].
Defined.
End Examples.
